(* ===== verification/_CoqProject ===== *)
-Q . S2P
Prelude.v
PyNum.v
FactCatalog.v
Models.v
PyStr.v
PyFloat.v
PyTime.v
Json.v
JsonText.v
Settings.v
Renderer.v
Threshold.v
Assignments.v
Cache.v
Repository.v
Content.v
Scheduler.v
Cadence.v
Lock.v
Analyses.v
LeaderElection.v
Cooldown.v
AlertBuilder.v
EmailClient.v
EsQuery.v
EsClient.v
Engine.v
Bucketing.v
Ticks.v
System.v
Complete.v
ProfileApi.v
Clients.v
Startup.v
Health.v
Metrics.v
Admin.v
Seed.v
PartitionManager.v
Cluster.v
Fleet.v
Session.v
Url.v
Tools.v
MockServer.v
Middleware.v
Logging.v
Config.v
