(* ===== verification/Prelude.v ===== *)
(** * A verification of ResourceMonitorServer

    ResourceMonitorServer watches the computers of a plant.  A cluster of pods shares
    the work: a leader, elected through ZooKeeper, deals the processes of the plant to
    the pods; each pod schedules one job per process and interval; a job ("tick")
    resolves the monitoring profile of every active equipment from overlays stored in
    MongoDB, asks Elasticsearch for the facts its rules need, evaluates the rules, and
    mails the breaches, grouped and held back by cooldowns kept in Redis.  An HTTP API
    edits the overlays, operators have status endpoints, and probes tell Kubernetes
    whether a pod is fit.

    ** How to read it

    The code is Python 3 under [src/src/].  A class is a record of its attributes, a
    function that may raise returns [res E A], and a method that changes state is a
    function on the pair of the outside world and the object, [SE S E A] below, which
    keeps what was assigned before an exception.  What is not Python or its standard
    library (motor, redis-py, kazoo, httpx, elasticsearch-py, APScheduler, cachetools,
    FastAPI, pydantic) is a type class of its operations; the laws a theorem needs of
    it, the documented behaviour, are a second class, and every such class has an
    instance in memory on which the witnesses run.  What other tasks and other pods do
    while a call is awaited is an argument ([others], [meanwhile]).  Concurrency that
    matters (the lock, the election, the analyses) is a step relation.

    ** The files, in dependency order

    - [Prelude]: results, the state and error monad, Python's insertion-ordered dict
      ([ODict]), [sorted], the iteration order of a set ([SetIter]), the tactics.
    - [PyNum], [PyFloat], [PyStr], [PyTime], [Json], [JsonText]: numbers under comparison,
      floats with their decimal text, strings, UTC instants, JSON values, [json.dumps] and
      [json.loads].
    - [Settings], [Config] ([config/settings.py]: the list validator; all settings with
      their defaults and what the components read of them).
    - [FactCatalog] ([analyzer/fact_catalog.py]); [Models] ([db/models.py]: the documents,
      their validators, the Mongo form, the cascade fold, the reference checks).
    - [Threshold] ([analyzer/threshold.py]), [Renderer] ([alert/body_renderer.py],
      [alert/tokens.py]), [AlertBuilder] ([analyzer/alert_builder.py], [alert/models.py]).
    - [Assignments] and [PartitionManager] ([distributed/partition_manager.py], down to
      the bytes of the nodes), [LeaderElection], [Lock] ([distributed/leader_election.py],
      [lock.py]).
    - [Cache] (the TTL caches and colon-joined keys), [Repository] ([db/repository.py]),
      [Content] (the content of stored profiles), [Seed] ([db/seed.py]).
    - [Scheduler] ([scheduler/jobs.py]), [Cooldown] ([cache/cooldown.py]).
    - [EsQuery] ([es/queries.py], [analyzer/es_parser.py], [analyzer/metric_resolver.py]),
      [EsClient] ([es/client.py]), [EmailClient] ([alert/email_client.py]).
    - [Engine] ([analyzer/engine.py]): a tick over the interface [Deps]; [Bucketing]: the
      reference without buckets that it is equivalent to.
    - [ProfileApi] ([api/profiles.py]), [Health] ([api/health.py], [api/deps.py]), [Admin]
      ([api/admin.py]).
    - [Clients] ([db/client.py], [cache/redis_client.py], [distributed/zk_client.py]),
      [Startup] ([startup/*.py] and the lifespan of [main.py]), [Logging]
      ([logging_config.py]), [Middleware] ([middleware.py], the error handler of [main.py]).
    - [Metrics] ([api/metrics.py]): the metrics, and what the events of a tick move.
    - [Url], [Tools], [MockServer] ([src/tools/]: the tools that write to MongoDB, the test
      mails, and the mock mail server with the mail client run against it).
    - The compositions.  [Analyses]: the lock and the semaphore around a tick.  [Cadence]:
      the scheduler over the stored profiles.  [Ticks]: what spaces the mails of
      successive ticks, against the interface [CooldownService].  [System]: the wiring of
      [main.py] and [startup/scheduler_init.py], that is the engine over the real
      repository, Elasticsearch client, cooldown manager and mail client of a pod.
      [Complete]: the laws of [Bucketing] for that wiring, its caches included.
      [Cluster]: the partition managers of all pods over one ZooKeeper, with arbitrary
      interleaving of sessions, watches and redistributions.  [Fleet]: the same pods with
      the real scheduler and repository behind them; [Session]: a pod of the fleet without
      its ZooKeeper session.

    ** What the theorems show

    - Of the whole: an alert comes from an enabled rule of an enabled stored document whose
      scope covers the equipment, whatever the caches and the bucketing do
      ([System.alerts_come_from_stored_rules]); two ticks of any pods that mail the same
      key are the cooldown apart ([System.mails_spaced_by_cooldown]); a reconcile leaves
      exactly the jobs the stored rules ask for ([Cadence.owned_rules_scheduled]); a
      process is analysed by one task up to session loss, three at a time in a pod
      ([Analyses.analyses_exclusive]); in every reachable cluster no process is owned twice
      with one stamp, once the newest redistribution is delivered every process has one
      owner ([Cluster]), and then every active rule of every equipment has its job on
      exactly one pod ([Fleet.every_rule_on_one_pod]); the breaches of a pod's tick are
      exactly those that each active equipment alone shows, with the profile folded from
      its stored documents at most the [ttl] of the cache ago ([Complete.tick_finds_exactly],
      which discharges the general [Bucketing.tick_matches_alone]); and a pod that has lost
      its session starts no analysis ([Session.lost_pod_is_idle]).
    - Of the documents: the fold implements "most specific wins", validation is referential
      integrity, the Mongo form round-trips, equal signatures mean equal behaviour.
    - Of the evaluation: when a rule fires and which value it reports, as a float.
    - Of the distribution: fair dealing, monotone stamps, no silent stall of a failed
      redistribution, at most one pending task of a kind, stale watches are inert, epochs
      strictly increase as long as the writes find the epoch node as they read it.
    - Of the storage: the optimistic-locked replace on every branch and no lost update,
      both with other writers at work, the collected cascade, the resolve cache, idempotent seeding; the text of an assignment
      decodes to what was encoded.
    - Of a tick: at most one mail per key, and counters that account for every breach and
      every mail ([Metrics.tick_accounts_breaches]); of the mails: values do
      not change the markup, the Grafana link apart ([AlertBuilder.values_keep_markup]), the
      size limits, what a send answers and records.  Of Elasticsearch: which indices a
      window names, and what the cached metric list answers and raises.
    - Of the API, one request at a time: a write that answers refines the edit it asks for
      and keeps the scope intact, a refused write changes nothing, the provenance is true;
      readiness.
    - Of startup: retries end with the documented waits, and a lifespan releases everything
      in reverse order whichever phase fails; after the logging set-up every event is
      written once; a request's id lives as long as the request.
    - Of the tools: what is printed of a URI, a prepared collection as a start prepares it,
      a template for every mail once the catch-all row is there, a mock server that gets
      every mail of the client and prints it.

    Theorems about defects say what the code does: an index range of more than two days
    has gaps, a cooldown of zero minutes raises, a negative interval has an ambiguous
    job id, a retry that succeeds cancels its own cleanup, a deleted base leaves broken
    overlays, a cancelled startup leaks its clients, a value of 1e27 stops the mails of its
    tick, a pod that lost its session resumes jobs it no longer owns, a loss handled during
    a reconnect is forgotten, a cache entry that expires between two readings of the timer
    raises, and so does a window that reaches before the year 1, a link can bring a quote
    into the markup, an epoch written over another one is a duplicate, the URI of a replica set is printed with its password.

    ** Fuel, bounds, conventions

    Recursion that is not structural has fuel from the length of its input, which one step
    consumes: the lexer and the block expansion of [Renderer] ([byte_len]), the glob
    matcher of [EsQuery], the decimal printers.  Loops of the code with a bound
    ([max_attempts], the five redistribution attempts) recurse on the list of the attempts.
    Python integers are unbounded and so is [Z]; a float is an exact dyadic number, minus
    zero included, and its text is the shortest one that reads back ([PyFloat]).  Strings
    are UTF-8 bytes.  Instants are microseconds; cache timers and Redis are seconds.

    ** Not modelled, and why

    The values of the histograms (wall-clock durations) and the text of [/metrics], which is
    the Prometheus client's.  The environment is read by pydantic-settings, command lines by
    argparse.  The decoding of HTTP requests is FastAPI's, that of Mongo documents into the
    field types pydantic's; executor futures and their time limits in the election are
    abstracted into its steps.  [json.loads] has no limit on digits or nesting here, and a
    process name is a string.  The layout of what the Mongo tools print is left out.  The
    tables of Unicode normalisation and of IP addresses that [urllib.parse] consults, and
    the text of a JSON value that is no string in a mail or on the console, are arguments.
    [Complete] takes Elasticsearch as it is at one moment: documents that arrive during the
    window of a tick, and searches that fail, are [Bucketing]'s interface and [EsClient]'s
    theorems only.

    ** Plan

    What is left is composition: the probes and the admin endpoints over the composed
    system, [Cluster] with the sessions of ZooKeeper as state (so that the end of a session
    removes the member it had created), and the cooldowns of a fleet while Redis fails over
    to the local cache. *)
From stdpp Require Import base gmap strings list fin_maps sorting.
From Stdlib Require String OrderedTypeEx.

#[export] Set Warnings "-clear-no-such-hyp".
Import OrderedTypeEx.

(** ** Results: a Python call returns a value or raises *)

Inductive res (E A : Type) : Type :=
| Ok (a : A)
| Err (e : E).
Arguments Ok {E A} a.
Arguments Err {E A} e.

#[export] Instance res_ret E : MRet (res E) := λ A a, Ok a.
#[export] Instance res_bind E : MBind (res E) := λ A B f m,
  match m with Ok a => f a | Err e => Err e end.
#[export] Instance res_fmap E : FMap (res E) := λ A B f m,
  match m with Ok a => Ok (f a) | Err e => Err e end.

Definition isOk {E A} (r : res E A) : bool :=
  match r with Ok _ => true | Err _ => false end.

(** [if b then raise e] as a statement. *)
Definition raise_if {E} (b : bool) (e : E) : res E unit :=
  if b then Err e else Ok tt.

(** A statement sequence over a state in which a call may raise: what was
    assigned before the exception stays assigned. *)
Definition SE (S E A : Type) : Type := S → S * res E A.

Section SE.
  Context {S E : Type}.
Definition se_ret {A} (a : A) : SE S E A := λ s, (s, Ok a).
Definition se_bind {A B} (m : SE S E A) (f : A → SE S E B) : SE S E B :=
    λ s, match m s with (s', Ok a) => f a s' | (s', Err e) => (s', Err e) end.
Definition se_raise {A} (e : E) : SE S E A := λ s, (s, Err e).
Definition se_modify (f : S → S) : SE S E unit := λ s, (f s, Ok tt).
Definition se_gets {A} (f : S → A) : SE S E A := λ s, (s, Ok (f s)).
  (** [try m except e: h e] *)
Definition se_catch {A} (m : SE S E A) (h : E → SE S E A) : SE S E A :=
    λ s, match m s with (s', Ok a) => (s', Ok a) | (s', Err e) => h e s' end.
End SE.

(** Python's string concatenation. *)
Lemma str_app_cons c (a b : string) : String c a +:+ b = String c (a +:+ b).
Proof. done. Qed.

Lemma str_app_nil (a : string) : "" +:+ a = a.
Proof. done. Qed.

Lemma str_app_assoc (a b c : string) : (a +:+ b) +:+ c = a +:+ (b +:+ c).
Proof. induction a as [|x a IH]; [done|]. by rewrite !str_app_cons, IH. Qed.

Lemma fmap_values_keys {K V V'} (f : K * V → V') (l : list (K * V)) :
  ((λ kv, (kv.1, f kv)) <$> l).*1 = l.*1.
Proof. induction l as [|x l IH]; [done|]. csimpl. by rewrite IH. Qed.

Lemma se_bind_Ok {S E A B} (m : SE S E A) (f : A → SE S E B) s s' b :
  se_bind m f s = (s', Ok b) ↔ ∃ s1 a, m s = (s1, Ok a) ∧ f a s1 = (s', Ok b).
Proof.
  unfold se_bind. destruct (m s) as [s1 [a|e]]; naive_solver.
Qed.

Lemma se_bind_inv {S E A B} (m : SE S E A) (f : A → SE S E B) s s' r :
  se_bind m f s = (s', r) →
  (∃ e, m s = (s', Err e) ∧ r = Err e) ∨ (∃ s1 a, m s = (s1, Ok a) ∧ f a s1 = (s', r)).
Proof. unfold se_bind. destruct (m s) as [s1 [a|e]]; naive_solver. Qed.

Declare Scope se_scope.
Delimit Scope se_scope with se.
Notation "x <- m ;; k" := (se_bind m (λ x, k))
  (at level 20, m at level 99, k at level 200, only parsing) : se_scope.
Notation "m ;;; k" := (se_bind m (λ _, k))
  (at level 100, k at level 200, right associativity, only parsing) : se_scope.

(** Case analysis on every [match] and [if] of the goal, with the equations. *)
Ltac case_all :=
  repeat (case_match; simplify_eq/=; try done).

(** ** Python dicts: insertion-ordered association lists *)
Module ODict.
  Section ODict.
    Context {K V : Type} `{!EqDecision K}.
    Implicit Types (d : list (K * V)) (k : K) (v : V).

    (** [d.get(k)] *)
Fixpoint get k d : option V :=
      match d with
      | [] => None
      | (k', v) :: d' => if decide (k = k') then Some v else get k d'
      end.

    (** [d[k] = v]: an existing key keeps its position. *)
Fixpoint set k v d : list (K * V) :=
      match d with
      | [] => [(k, v)]
      | (k', v') :: d' =>
          if decide (k = k') then (k, v) :: d' else (k', v') :: set k v d'
      end.

    (** [d[k] = v] for every pair of a list, in order. *)
Definition set_all (l : list (K * V)) d : list (K * V) :=
      foldl (λ d kv, set kv.1 kv.2 d) d l.

Definition of_list (l : list (K * V)) : list (K * V) := set_all l [].

Lemma get_set_eq k v d : get k (set k v d) = Some v.
    Proof. induction d as [|[k' v'] d IH]; simpl; repeat case_decide; simplify_eq/=;
      repeat case_decide; try done. Qed.

Lemma get_set_ne k k' v d : k ≠ k' → get k (set k' v d) = get k d.
    Proof.
      intros Hne. induction d as [|[k0 v0] d IH]; simpl;
        repeat case_decide; simplify_eq/=; repeat case_decide; simplify_eq; done.
    Qed.

Lemma get_set k k' v d :
      get k (set k' v d) = if decide (k = k') then Some v else get k d.
    Proof. case_decide; subst; auto using get_set_eq, get_set_ne. Qed.

Lemma set_keys k v d :
      (set k v d).*1 = if decide (k ∈ d.*1) then d.*1 else d.*1 ++ [k].
    Proof.
      induction d as [|[k' v'] d IH]; [done|].
      rewrite fmap_cons. cbn [set fst]. destruct (decide (k = k')) as [->|Hk].
      - rewrite decide_True; [done|left].
      - rewrite fmap_cons, IH. cbn [fst].
        repeat case_decide; try done; set_solver.
    Qed.

Lemma elem_of_set_keys k k' v d : k ∈ (set k' v d).*1 ↔ k = k' ∨ k ∈ d.*1.
    Proof. rewrite set_keys. case_decide; set_solver. Qed.

Lemma set_NoDup k v d : NoDup d.*1 → NoDup (set k v d).*1.
    Proof.
      rewrite set_keys. case_decide; [done|]. intros Hnd. apply NoDup_app.
      repeat split; [done|set_solver|apply NoDup_singleton].
    Qed.

Lemma set_all_NoDup l d : NoDup d.*1 → NoDup (set_all l d).*1.
    Proof.
      revert d; induction l as [|[k v] l IH]; intros d Hd; [done|].
      apply IH, set_NoDup, Hd.
    Qed.

Lemma of_list_NoDup l : NoDup (of_list l).*1.
    Proof. apply set_all_NoDup, NoDup_nil_2. Qed.

Lemma get_None k d : get k d = None ↔ k ∉ d.*1.
    Proof.
      induction d as [|[k' v'] d IH]; simpl; [set_solver|].
      case_decide; subst; [set_solver|]. rewrite IH. set_solver.
    Qed.

Lemma get_Some_elem_of k v d : get k d = Some v → (k, v) ∈ d.
    Proof.
      induction d as [|[k' v'] d IH]; simpl; [done|].
      case_decide; intros; simplify_eq; [left|right; auto].
    Qed.

Lemma elem_of_get k v d : NoDup d.*1 → (k, v) ∈ d → get k d = Some v.
    Proof.
      induction d as [|[k' v'] d IH]; intros Hnd Hin; simpl in *; [set_solver|].
      apply NoDup_cons in Hnd as [Hk Hnd].
      apply elem_of_cons in Hin as [[= -> ->]|Hin]; [by rewrite decide_True|].
      rewrite decide_False; [by apply IH|].
      intros ->. apply Hk, (list_elem_of_fmap_2 fst _ _ Hin).
    Qed.

Lemma elem_of_iff_get k v d : NoDup d.*1 → (k, v) ∈ d ↔ get k d = Some v.
    Proof. intros; split; [by apply elem_of_get|apply get_Some_elem_of]. Qed.

    (** The binding of a key after [set_all] is its last one in the list. *)
Lemma get_set_all k l d :
      get k (set_all l d) =
      match last (filter (λ kv, kv.1 = k) l) with
      | Some kv => Some kv.2
      | None => get k d
      end.
    Proof.
      revert d; induction l as [|[k' v'] l IH]; intros d; [done|].
      simpl. rewrite filter_cons, IH. simpl.
      case_decide as Hk; subst.
      - rewrite last_cons. destruct (last _); [done|]. apply get_set_eq.
      - destruct (last _); [done|]. by apply get_set_ne.
    Qed.

    (** [{x: f(x) for x in l}] *)
Lemma get_of_fun (f : K → V) (l : list K) k :
      k ∈ l → get k (of_list ((λ x, (x, f x)) <$> l)) = Some (f k).
    Proof.
      intros Hk. unfold of_list. rewrite get_set_all.
      destruct (last _) as [kv|] eqn:E.
      - apply last_Some_elem_of, list_elem_of_filter in E as [<- Hin].
        apply list_elem_of_fmap in Hin as (x & -> & _). done.
      - apply last_None in E. exfalso.
        assert ((k, f k) ∈ filter (λ kv, kv.1 = k) ((λ x, (x, f x)) <$> l)) as Hin.
        { apply list_elem_of_filter. split; [done|]. by apply (list_elem_of_fmap_2 (λ x, (x, f x))). }
        rewrite E in Hin. by apply not_elem_of_nil in Hin.
    Qed.

Lemma get_app k d d' :
      get k (d ++ d') = match get k d with Some v => Some v | None => get k d' end.
    Proof. induction d as [|[k' v'] d IH]; simpl; [done|]. by case_decide. Qed.

Lemma set_all_app l l' d : set_all (l ++ l') d = set_all l' (set_all l d).
    Proof. apply foldl_app. Qed.

Lemma elem_of_set_all_keys k l d :
      k ∈ (set_all l d).*1 ↔ k ∈ l.*1 ∨ k ∈ d.*1.
    Proof.
      revert d; induction l as [|[k' v'] l IH]; intros d; simpl; [set_solver|].
      rewrite IH, elem_of_set_keys. set_solver.
    Qed.

    (** A list without duplicate keys is its own dict. *)
Lemma set_fresh k v d : k ∉ d.*1 → set k v d = d ++ [(k, v)].
    Proof.
      induction d as [|[k' v'] d IH]; simpl; intros Hk; [done|].
      rewrite decide_False by set_solver. by rewrite IH by set_solver.
    Qed.

Lemma set_all_fresh l d : NoDup (d ++ l).*1 → set_all l d = d ++ l.
    Proof.
      revert d; induction l as [|[k v] l IH]; intros d Hnd; [by rewrite app_nil_r|].
      unfold set_all; simpl. fold (set_all l (set k v d)).
      rewrite fmap_app in Hnd. apply NoDup_app in Hnd as (Hd & Hdis & Hl).
      rewrite set_fresh; [|intros H; apply (Hdis k H); left].
      rewrite IH.
      - by rewrite <-app_assoc.
      - rewrite <-app_assoc, fmap_app. apply NoDup_app. auto.
    Qed.

Lemma of_list_id l : NoDup l.*1 → of_list l = l.
    Proof. intros. by apply (set_all_fresh l []). Qed.

    (** The loop [for x in xs: for (k, v) in f(x): d[k] = v]. *)
Lemma foldl_set_all {X} (f : X → list (K * V)) xs d :
      foldl (λ d x, set_all (f x) d) d xs = set_all (mjoin (f <$> xs)) d.
    Proof.
      revert d; induction xs as [|x xs IH]; intros d; simpl; [done|].
      by rewrite IH, set_all_app.
    Qed.

    (** Dicts whose keys are computed from the values, [{x.id: x ...}]. *)
    Section Keyed.
      Context (key : V → K).

Definition keyed d : Prop := Forall (λ kv, key kv.2 = kv.1) d.

Lemma set_keyed k v d : key v = k → keyed d → keyed (set k v d).
      Proof.
        intros Hv Hd. induction Hd as [|[k' v'] d Hk Hd IH]; simpl.
        - by repeat constructor.
        - case_decide; by constructor.
      Qed.

Lemma set_all_keyed l d : keyed l → keyed d → keyed (set_all l d).
      Proof.
        intros Hl; revert d; induction Hl as [|[k v] l Hk Hl IH]; intros d Hd; [done|].
        apply IH, set_keyed; done.
      Qed.

Lemma keyed_values d : keyed d → key <$> d.*2 = d.*1.
      Proof. induction 1 as [|[k v] d Hk Hd IH]; [done|]. rewrite !fmap_cons, IH. by f_equal. Qed.

Lemma keyed_get k d :
        NoDup d.*1 → keyed d → last (filter (λ v, key v = k) d.*2) = get k d.
      Proof.
        intros Hnd. induction 1 as [|[k' v'] d Hk Hd IH]; [done|].
        apply NoDup_cons in Hnd as [Hk' Hnd]. specialize (IH Hnd).
        rewrite fmap_cons, filter_cons. simpl in *. subst k'. fold (get k d).
        destruct (decide (k = key v')) as [->|Hne]; [|by rewrite decide_False].
        rewrite decide_True, last_cons, IH by done.
        by rewrite (proj2 (get_None _ _) Hk').
      Qed.

Lemma keyed_map (l : list V) : keyed ((λ v, (key v, v)) <$> l).
      Proof. unfold keyed. by apply Forall_fmap, Forall_true. Qed.

Lemma filter_keyed_map (l : list V) k :
        last (filter (λ kv, kv.1 = k) ((λ v, (key v, v)) <$> l))
        = (λ v, (key v, v)) <$> last (filter (λ v, key v = k) l).
      Proof.
        induction l as [|v l IH] using rev_ind; [done|].
        rewrite fmap_app, !filter_app, !last_app, IH. simpl.
        rewrite !filter_cons. simpl. repeat case_decide; done.
      Qed.
    End Keyed.
  End ODict.

  (** [for x in l: d.setdefault(f(x), []).append(x)] *)
  Section Group.
    Context {K A : Type} `{!EqDecision K} (f : A → K).

Definition group_add (d : list (K * list A)) (x : A) : list (K * list A) :=
      set (f x) (default [] (get (f x) d) ++ [x]) d.

Definition group (l : list A) : list (K * list A) := foldl group_add [] l.

Lemma group_snoc l x : group (l ++ [x]) = group_add (group l) x.
    Proof. unfold group. by rewrite foldl_app. Qed.

Lemma group_NoDup l : NoDup (group l).*1.
    Proof.
      induction l as [|x l IH] using rev_ind; [apply NoDup_nil_2|].
      rewrite group_snoc. by apply set_NoDup.
    Qed.

Lemma values_set k x (d : list (K * list A)) :
      mjoin (set k (default [] (get k d) ++ [x]) d).*2 ≡ₚ mjoin d.*2 ++ [x].
    Proof.
      induction d as [|[k' v'] d IH]; [done|]. simpl. case_decide as Hk; simpl.
      - rewrite <-!app_assoc. by rewrite (Permutation_app_comm [x]).
      - by rewrite IH, app_assoc.
    Qed.

    (** The groups share out the list. *)
Lemma group_values_perm l : mjoin (group l).*2 ≡ₚ l.
    Proof.
      induction l as [|x l IH] using rev_ind; [done|].
      rewrite group_snoc. unfold group_add. by rewrite values_set, IH.
    Qed.

    (** A group is the elements with its key, in order. *)
Lemma get_group k l :
      get k (group l) =
      match filter (λ x, f x = k) l with [] => None | xs => Some xs end.
    Proof.
      induction l as [|x l IH] using rev_ind; [done|].
      rewrite group_snoc, filter_app, filter_cons, filter_nil.
      unfold group_add. rewrite get_set. destruct (decide (f x = k)) as [E|E].
      - rewrite decide_True by done. rewrite E, IH. by destruct (filter _ l).
      - rewrite decide_False by (by intros ->). by rewrite app_nil_r.
    Qed.

Lemma elem_of_group k xs l :
      (k, xs) ∈ group l ↔ xs = filter (λ x, f x = k) l ∧ xs ≠ [].
    Proof.
      rewrite elem_of_iff_get by apply group_NoDup. rewrite get_group.
      destruct (filter _ l); naive_solver.
    Qed.

Lemma elem_of_group_keys k l : k ∈ (group l).*1 ↔ ∃ x, x ∈ l ∧ f x = k.
    Proof.
      destruct (decide (k ∈ (group l).*1)) as [H|H].
      - split; [intros _|done]. apply list_elem_of_fmap in H as ([k' xs] & -> & H).
        apply elem_of_group in H as [-> Hne]. simpl.
        destruct (filter _ l) as [|x ?] eqn:E; [done|]. exists x.
        assert (x ∈ filter (λ x, f x = k') l) as Hx by (rewrite E; left).
        by apply list_elem_of_filter in Hx as [? ?].
      - split; [done|]. intros (x & Hx & Hk). exfalso. apply get_None in H.
        rewrite get_group in H. destruct (filter _ l) eqn:E; [|done].
        apply (elem_of_nil x). rewrite <-E. by apply list_elem_of_filter.
    Qed.
  End Group.
End ODict.

(** ** [sorted] / [list.sort]: stable insertion sort for a boolean order *)
Section Sort.
  Context {A : Type} (leb : A → A → bool).

Fixpoint insert_by (x : A) (l : list A) : list A :=
    match l with
    | [] => [x]
    | y :: l' => if leb x y then x :: y :: l' else y :: insert_by x l'
    end.

Definition sort_by (l : list A) : list A := foldr insert_by [] l.

Lemma insert_by_perm x l : insert_by x l ≡ₚ x :: l.
  Proof.
    induction l as [|y l IH]; simpl; [done|].
    case_match; [done|]. rewrite IH. apply Permutation_swap.
  Qed.

Lemma sort_by_perm l : sort_by l ≡ₚ l.
  Proof. induction l; simpl; [done|]. rewrite insert_by_perm. by f_equiv. Qed.

Lemma elem_of_sort_by x l : x ∈ sort_by l ↔ x ∈ l.
  Proof. by rewrite sort_by_perm. Qed.

Lemma length_sort_by l : length (sort_by l) = length l.
  Proof. apply Permutation_length, sort_by_perm. Qed.

Let R x y := leb x y = true.

Lemma insert_by_HdRel x y l :
    R y x → HdRel R y l → HdRel R y (insert_by x l).
  Proof. intros ? []; simpl; repeat constructor; auto. case_match; by constructor. Qed.

  Context (total : ∀ x y, leb x y = true ∨ leb y x = true).

Lemma insert_by_Sorted x l : Sorted R l → Sorted R (insert_by x l).
  Proof.
    induction 1 as [|y l Hs IH Hhd]; simpl; [repeat constructor|].
    destruct (leb x y) eqn:E; [repeat constructor; auto|].
    constructor; [done|]. apply insert_by_HdRel; [|done].
    destruct (total x y); [congruence|done].
  Qed.

Lemma sort_by_Sorted l : Sorted R (sort_by l).
  Proof. induction l; simpl; [constructor|]. by apply insert_by_Sorted. Qed.

  Context (trans : ∀ x y z, leb x y = true → leb y z = true → leb x z = true).

Lemma sort_by_StronglySorted l : StronglySorted R (sort_by l).
  Proof. apply Sorted_StronglySorted; [exact trans|apply sort_by_Sorted]. Qed.

Lemma insert_by_head x l : Forall (R x) l → insert_by x l = x :: l.
  Proof. destruct 1 as [|y l Hy]; simpl; [done|]. unfold R in Hy. by rewrite Hy. Qed.

Lemma sort_by_sorted_id l : StronglySorted R l → sort_by l = l.
  Proof. induction 1; simpl; [done|]. rewrite IHStronglySorted. by apply insert_by_head. Qed.

  Context (antisym : ∀ x y, leb x y = true → leb y x = true → x = y).

Lemma sort_by_unique l l' : l ≡ₚ l' → sort_by l = sort_by l'.
  Proof.
    intros Hp. assert (AntiSymm eq R) as Has by exact antisym.
    apply (StronglySorted_unique R).
    - apply sort_by_StronglySorted.
    - apply sort_by_StronglySorted.
    - by rewrite !sort_by_perm.
  Qed.
End Sort.

(** [sorted(l, key=...)] with distinct keys does not depend on the order of [l]. *)
Lemma StronglySorted_impl {A} (R R' : A → A → Prop) l :
  (∀ x y, R x y → R' x y) → StronglySorted R l → StronglySorted R' l.
Proof.
  intros HR. induction 1 as [|x l _ IH Hx]; constructor; [done|].
  eapply Forall_impl; [exact Hx|eauto].
Qed.

(** A list sorted by a natural key without repetition is strictly sorted by it. *)
Lemma StronglySorted_strict {A} (f : A → nat) l :
  StronglySorted (λ x y, f x ≤ f y) l → NoDup (f <$> l) →
  StronglySorted (λ x y, f x < f y) l.
Proof.
  induction 1 as [|x l Hl IH Hx]; [constructor|]. rewrite fmap_cons, NoDup_cons.
  intros [Hn Hnd]. constructor; [by apply IH|]. rewrite Forall_forall in *. intros y Hy.
  specialize (Hx y Hy). assert (f x ≠ f y); [|lia].
  intros E. apply Hn. rewrite E. by apply list_elem_of_fmap_2.
Qed.

Lemma sort_by_key_unique_gen {A} (leb : A → A → bool) l l' :
  (∀ x y, leb x y = true ∨ leb y x = true) →
  (∀ x y z, leb x y = true → leb y z = true → leb x z = true) →
  (∀ x y, x ∈ l → y ∈ l → leb x y = true → leb y x = true → x = y) →
  l ≡ₚ l' → sort_by leb l = sort_by leb l'.
Proof.
  intros Htot Htr Has Hp. eapply StronglySorted_unique_strong.
  - intros x y Hx Hy. apply Has.
    + by apply elem_of_sort_by in Hx.
    + rewrite Hp. by apply elem_of_sort_by in Hy.
  - by apply sort_by_StronglySorted.
  - by apply sort_by_StronglySorted.
  - by rewrite !sort_by_perm.
Qed.

(** ** The order of strings (code-point order of Python's [str]) *)
Definition str_leb (a b : string) : bool := String.leb a b.

Lemma str_leb_total a b : str_leb a b = true ∨ str_leb b a = true.
Proof. apply String.leb_total. Qed.

Lemma str_leb_antisym a b : str_leb a b = true → str_leb b a = true → a = b.
Proof. apply String.leb_antisym. Qed.

Lemma str_compare_cmp a b : String.compare a b = String_as_OT.cmp a b.
Proof. done. Qed.

Lemma str_leb_trans a b c :
  str_leb a b = true → str_leb b c = true → str_leb a c = true.
Proof.
  unfold str_leb, String.leb.
  rewrite (str_compare_cmp a b), (str_compare_cmp b c), (str_compare_cmp a c).
  destruct (String_as_OT.cmp a b) eqn:E1; [| |discriminate]; intros _.
  - by apply String_as_OT.cmp_eq in E1 as ->.
  - destruct (String_as_OT.cmp b c) eqn:E2; [| |discriminate]; intros _.
    + apply String_as_OT.cmp_eq in E2 as <-. by rewrite E1.
    + apply String_as_OT.cmp_lt in E1, E2.
      pose proof (String_as_OT.lt_trans _ _ _ E1 E2) as E3.
      apply String_as_OT.cmp_lt in E3. by rewrite E3.
Qed.

Definition sort_str : list string → list string := sort_by str_leb.

Lemma sort_str_unique l l' : l ≡ₚ l' → sort_str l = sort_str l'.
Proof. apply sort_by_unique; eauto using str_leb_total, str_leb_trans, str_leb_antisym. Qed.

Definition str_key_leb {A} (key : A → string) (a b : A) : bool := str_leb (key a) (key b).

Lemma sort_by_key_unique {A} (key : A → string) l l' :
  NoDup (key <$> l) → l ≡ₚ l' →
  sort_by (str_key_leb key) l = sort_by (str_key_leb key) l'.
Proof.
  intros Hnd. apply sort_by_key_unique_gen; unfold str_key_leb;
    eauto using str_leb_total, str_leb_trans.
  intros x y Hx Hy H1 H2. pose proof (str_leb_antisym _ _ H1 H2) as Hk.
  apply list_elem_of_lookup in Hx as [i Hi]. apply list_elem_of_lookup in Hy as [j Hj].
  assert (i = j) as ->; [|congruence].
  eapply NoDup_lookup; [done| |]; rewrite list_lookup_fmap.
  - by rewrite Hi.
  - by rewrite Hj, Hk.
Qed.

(** The items of a dict in the order of its sorted keys,
    [{k: d[k] for k in sorted(d)}]. *)
Definition sorted_items {V} (d : list (string * V)) : list (string * V) :=
  omap (λ k, pair k <$> ODict.get k d) (sort_str d.*1).

Lemma omap_get_keys {V} (d : list (string * V)) :
  NoDup d.*1 → omap (λ k, pair k <$> ODict.get k d) d.*1 = d.
Proof.
  intros Hnd. assert (∀ l, l ⊆ d → omap (λ k, pair k <$> ODict.get k d) l.*1 = l) as Hl;
    [|by apply Hl].
  induction l as [|[k v] l IH]; intros Hsub; csimpl; [done|].
  rewrite (ODict.elem_of_get k v) by (done || apply Hsub; left). simpl.
  f_equal. apply IH. set_solver.
Qed.

Lemma sorted_items_perm {V} (d : list (string * V)) : NoDup d.*1 → sorted_items d ≡ₚ d.
Proof.
  intros Hnd. unfold sorted_items, sort_str.
  rewrite (omap_Permutation _ _ _ (sort_by_perm str_leb d.*1)). by rewrite omap_get_keys.
Qed.

Lemma sorted_items_unique {V} (d d' : list (string * V)) :
  NoDup d.*1 → d ≡ₚ d' → sorted_items d = sorted_items d'.
Proof.
  intros Hnd Hp. assert (NoDup d'.*1) by (by rewrite <-Hp).
  unfold sorted_items. rewrite (sort_str_unique d.*1 d'.*1) by (by rewrite Hp).
  apply list_omap_ext, Forall_Forall2_diag, Forall_true. intros k. f_equal.
  apply option_eq. intros v. rewrite <-!ODict.elem_of_iff_get by done. by rewrite Hp.
Qed.

(** ** Iterating a Python [set]: some order of its elements *)
Class SetIter := {
  iter_set : ∀ {A : Type}, list A → list A;
  iter_set_perm : ∀ (A : Type) (l : list A), iter_set l ≡ₚ l;
}.

Lemma elem_of_iter_set `{!SetIter} {A} (x : A) l : x ∈ iter_set l ↔ x ∈ l.
Proof. by rewrite iter_set_perm. Qed.

(** Two orders, to evaluate examples with. *)
Definition set_iter_id : SetIter.
Proof. refine {| iter_set A l := l |}. done. Defined.
Definition set_iter_rev : SetIter.
Proof. refine {| iter_set A l := reverse l |}. intros. apply reverse_Permutation. Defined.

(** ** Monadic traversal in [res] *)
Lemma mapM_Ok_id {E A} (f : A → res E A) l :
  Forall (λ x, f x = Ok x) l → mapM f l = Ok l.
Proof. induction 1 as [|x l Hx _ IH]; simpl; [done|]. rewrite Hx. simpl. by rewrite IH. Qed.

Lemma mapM_Ok_Forall2 {E A B} (f : A → res E B) l k :
  mapM f l = Ok k ↔ Forall2 (λ x y, f x = Ok y) l k.
Proof.
  split.
  - revert k; induction l as [|x l IH]; intros k; simpl.
    + intros [= <-]. constructor.
    + destruct (f x) eqn:E1; simpl; [|done].
      destruct (mapM f l) eqn:E2; simpl; [|done].
      intros [= <-]. constructor; auto.
  - induction 1 as [|x y l k Hx _ IH]; simpl; [done|]. rewrite Hx; simpl. by rewrite IH.
Qed.

Lemma raise_if_Ok {E} b (e : E) u : raise_if b e = Ok u ↔ b = false.
Proof. destruct b, u; simpl; split; congruence. Qed.

(** Invert a sequence of [raise_if]s and binds that returned a value. *)
Ltac res_inv H :=
  repeat match type of H with
  | mbind _ ?m = Ok _ =>
      let E := fresh "E" in destruct m as [?u|] eqn:E; simpl in H; [|discriminate H];
      try (apply raise_if_Ok in E)
  | (_ ← ?m; _) = Ok _ => destruct m eqn:?; simpl in H; [|discriminate H]
  end.

(** ** Lists of error lists *)
Lemma mjoin_nil_iff {A} (ls : list (list A)) : mjoin ls = [] ↔ ∀ l, l ∈ ls → l = [].
Proof.
  induction ls as [|l ls IH]; csimpl; [set_solver|].
  rewrite app_nil, IH. set_solver.
Qed.

Lemma mjoin_imap_nil {A B} (f : nat → A → list B) l :
  mjoin (imap f l) = [] ↔ ∀ i x, l !! i = Some x → f i x = [].
Proof.
  rewrite mjoin_nil_iff. split.
  - intros H i x Hi. apply H, elem_of_lookup_imap. eauto.
  - intros H k (i & x & -> & Hi)%elem_of_lookup_imap. eauto.
Qed.

Lemma if_nil_iff {A} (b : bool) (x : A) : (if b then [] else [x]) = [] ↔ b = true.
Proof. by destruct b. Qed.

Lemma if_nil_iff_neg {A} (b : bool) (x : A) : (if b then [x] else []) = [] ↔ b = false.
Proof. by destruct b. Qed.

Lemma NoDup_length_le_1 {A} (l : list A) :
  NoDup l → (¬ 1 < length l ↔ ∀ x y, x ∈ l → y ∈ l → x = y).
Proof.
  intros Hnd. destruct l as [|a [|b l]]; simpl.
  - split; [set_solver|lia].
  - split; [set_solver|lia].
  - split; [lia|]. intros H. exfalso. apply NoDup_cons in Hnd as [Ha _].
    apply Ha. rewrite (H a b); set_solver.
Qed.

Lemma length_filter_all {A} (P : A → Prop) `{!∀ x, Decision (P x)} (l : list A) :
  length (filter P l) = length l ↔ Forall P l.
Proof.
  split.
  - intros Hlen. apply Forall_forall. intros x Hx. destruct (decide (P x)) as [|Hn]; [done|].
    pose proof (length_filter_lt P l x Hx Hn). lia.
  - induction 1 as [|x l Hx _ IH]; [done|]. rewrite filter_cons, decide_True by done.
    simpl. by rewrite IH.
Qed.

Create HintDb rms.
#[export] Hint Resolve ODict.set_NoDup ODict.of_list_NoDup ODict.set_all_NoDup : rms.
#[export] Hint Resolve str_leb_total str_leb_trans str_leb_antisym : rms.
#[export] Hint Rewrite @ODict.get_set_eq @ODict.get_set : rms.
