(* ===== verification/PyNum.v ===== *)
(** * PyNum: Python's numbers under comparison

    A metric value is a Python [int] or [float] and a threshold is a [float];
    Python compares the two kinds by exact value.  Every [int] and every finite
    [float] is a dyadic rational, so a number is [Fin m e] (the value [m * 2^e]),
    an infinity, or a NaN.  The file defines the six comparison operators, the
    [max]/[min] builtins in the order Python evaluates them, and the order
    lemmas the rule evaluator needs. *)
From stdpp Require Import base list sets.
From Stdlib Require Import ZArith Lia.
From S2P Require Import Prelude.
Local Open Scope Z_scope.

Inductive num : Type :=
| Fin (m e : Z)
| PosInf
| NegInf
| NaN.

#[export] Instance num_eq_dec : EqDecision num.
Proof. solve_decision. Defined.

Definition num_of_Z (z : Z) : num := Fin z 0.

(** [m * 2^e] in units of [2^e0]; exact when [e0 <= e]. *)
Definition scaled (e0 m e : Z) : Z := m * 2 ^ (e - e0).

Definition fin_compare (m1 e1 m2 e2 : Z) : comparison :=
  let e0 := Z.min e1 e2 in Z.compare (scaled e0 m1 e1) (scaled e0 m2 e2).

(** [None]: unordered, one side is a NaN. *)
Definition num_compare (x y : num) : option comparison :=
  match x, y with
  | NaN, _ | _, NaN => None
  | Fin m1 e1, Fin m2 e2 => Some (fin_compare m1 e1 m2 e2)
  | PosInf, PosInf | NegInf, NegInf => Some Eq
  | PosInf, _ | _, NegInf => Some Gt
  | NegInf, _ | _, PosInf => Some Lt
  end.

Definition num_geb x y :=
  match num_compare x y with Some Gt | Some Eq => true | _ => false end.
Definition num_gtb x y :=
  match num_compare x y with Some Gt => true | _ => false end.
Definition num_leb x y :=
  match num_compare x y with Some Lt | Some Eq => true | _ => false end.
Definition num_ltb x y :=
  match num_compare x y with Some Lt => true | _ => false end.
Definition num_eqb x y :=
  match num_compare x y with Some Eq => true | _ => false end.
Definition num_neb x y := negb (num_eqb x y).

(** [max(l)] / [min(l)]: the first element, replaced by each later one that is
    strictly larger / smaller. *)
Definition py_max (x : num) (l : list num) : num :=
  foldl (λ m y, if num_gtb y m then y else m) x l.
Definition py_min (x : num) (l : list num) : num :=
  foldl (λ m y, if num_ltb y m then y else m) x l.

(** ** Order lemmas *)
Lemma scaled_shift e0 e0' m e :
  e0' ≤ e0 → e0 ≤ e → scaled e0' m e = scaled e0 m e * 2 ^ (e0 - e0').
Proof.
  intros. unfold scaled. rewrite <-Z.mul_assoc, <-Z.pow_add_r by lia.
  do 2 f_equal. lia.
Qed.

Lemma fin_compare_scaled e0 m1 e1 m2 e2 :
  e0 ≤ e1 → e0 ≤ e2 →
  fin_compare m1 e1 m2 e2 = Z.compare (scaled e0 m1 e1) (scaled e0 m2 e2).
Proof.
  intros. unfold fin_compare.
  rewrite (scaled_shift (Z.min e1 e2) e0 m1 e1),
    (scaled_shift (Z.min e1 e2) e0 m2 e2) by lia.
  apply Zmult_compare_compat_r.
  pose proof (Z.pow_pos_nonneg 2 (Z.min e1 e2 - e0)). lia.
Qed.

Lemma fin_compare_antisym m1 e1 m2 e2 :
  fin_compare m2 e2 m1 e1 = CompOpp (fin_compare m1 e1 m2 e2).
Proof. unfold fin_compare. rewrite Z.min_comm. apply Z.compare_antisym. Qed.

Lemma num_compare_antisym x y : num_compare y x = CompOpp <$> num_compare x y.
Proof. destruct x, y; simpl; try done. by rewrite fin_compare_antisym. Qed.

Lemma num_leb_geb x y : num_geb x y = num_leb y x.
Proof.
  unfold num_geb, num_leb. rewrite (num_compare_antisym x y).
  by destruct (num_compare x y) as [[]|].
Qed.

Lemma num_ltb_gtb x y : num_gtb x y = num_ltb y x.
Proof.
  unfold num_gtb, num_ltb. rewrite (num_compare_antisym x y).
  by destruct (num_compare x y) as [[]|].
Qed.

Lemma num_leb_refl x : x ≠ NaN → num_leb x x = true.
Proof.
  destruct x; try done. intros _. unfold num_leb; simpl.
  unfold fin_compare. by rewrite Z.compare_refl.
Qed.

(** Without NaNs the order is total... *)
Lemma num_ltb_negb_leb x y :
  x ≠ NaN → y ≠ NaN → num_ltb x y = negb (num_leb y x).
Proof.
  unfold num_ltb, num_leb. intros Hx Hy. rewrite (num_compare_antisym x y).
  destruct x, y; try done; simpl. by destruct (fin_compare _ _ _ _).
Qed.

Lemma num_ltb_leb x y : num_ltb x y = true → num_leb x y = true.
Proof. unfold num_ltb, num_leb. by destruct (num_compare x y) as [[]|]. Qed.

Lemma num_leb_not_nan x y : num_leb x y = true → x ≠ NaN ∧ y ≠ NaN.
Proof. by destruct x, y. Qed.

Lemma fin_leb_scaled e0 m1 e1 m2 e2 :
  e0 ≤ e1 → e0 ≤ e2 →
  num_leb (Fin m1 e1) (Fin m2 e2) = true ↔ scaled e0 m1 e1 ≤ scaled e0 m2 e2.
Proof.
  intros. unfold num_leb; simpl. rewrite (fin_compare_scaled e0) by done.
  unfold Z.le. destruct (_ ?= _); split; congruence.
Qed.

(** ...and transitive. *)
Lemma num_leb_trans x y z :
  num_leb x y = true → num_leb y z = true → num_leb x z = true.
Proof.
  destruct x as [mx ex| | |], y as [my ey| | |], z as [mz ez| | |]; try done.
  set (e0 := Z.min ex (Z.min ey ez)).
  rewrite !(fin_leb_scaled e0) by (unfold e0; lia). lia.
Qed.

Lemma num_ltb_leb_trans x y z :
  num_ltb x y = true → num_leb y z = true → num_leb x z = true.
Proof. eauto using num_ltb_leb, num_leb_trans. Qed.

(** ** [max] and [min] pick an element, and an extreme one when no NaN occurs *)
Lemma py_max_elem x l : py_max x l ∈ x :: l.
Proof.
  revert x; induction l as [|y l IH]; intros x; [by left|].
  change (py_max x (y :: l)) with (py_max (if num_gtb y x then y else x) l).
  specialize (IH (if num_gtb y x then y else x)). case_match; set_solver.
Qed.

Lemma py_min_elem x l : py_min x l ∈ x :: l.
Proof.
  revert x; induction l as [|y l IH]; intros x; [by left|].
  change (py_min x (y :: l)) with (py_min (if num_ltb y x then y else x) l).
  specialize (IH (if num_ltb y x then y else x)). case_match; set_solver.
Qed.

Lemma py_max_ub x l y :
  Forall (.≠ NaN) (x :: l) → y ∈ x :: l → num_leb y (py_max x l) = true.
Proof.
  revert x y; induction l as [|z l IH]; intros x y Hnn Hy.
  - apply list_elem_of_singleton in Hy as ->. apply num_leb_refl. by inversion Hnn.
  - change (py_max x (z :: l)) with (py_max (if num_gtb z x then z else x) l).
    apply Forall_cons in Hnn as [Hx [Hz Hl]%Forall_cons].
    destruct (num_gtb z x) eqn:E.
    + apply elem_of_cons in Hy as [->|Hy]; [|apply IH; [by constructor|set_solver]].
      rewrite num_ltb_gtb in E. eapply num_ltb_leb_trans; [done|].
      apply IH; [by constructor|left].
    + apply elem_of_cons in Hy as [->|[->|Hy]%elem_of_cons];
        [apply IH; [by constructor|left]| |apply IH; [by constructor|by right]].
      rewrite num_ltb_gtb, num_ltb_negb_leb in E by done.
      apply negb_false_iff in E. eapply num_leb_trans; [done|].
      apply IH; [by constructor|left].
Qed.

Lemma py_min_lb x l y :
  Forall (.≠ NaN) (x :: l) → y ∈ x :: l → num_leb (py_min x l) y = true.
Proof.
  revert x y; induction l as [|z l IH]; intros x y Hnn Hy.
  - apply list_elem_of_singleton in Hy as ->. apply num_leb_refl. by inversion Hnn.
  - change (py_min x (z :: l)) with (py_min (if num_ltb z x then z else x) l).
    apply Forall_cons in Hnn as [Hx [Hz Hl]%Forall_cons].
    destruct (num_ltb z x) eqn:E.
    + apply elem_of_cons in Hy as [->|Hy]; [|apply IH; [by constructor|set_solver]].
      eapply num_leb_trans; [|by apply num_ltb_leb].
      apply IH; [by constructor|left].
    + apply elem_of_cons in Hy as [->|[->|Hy]%elem_of_cons];
        [apply IH; [by constructor|left]| |apply IH; [by constructor|by right]].
      rewrite num_ltb_negb_leb in E by done. apply negb_false_iff in E.
      eapply num_leb_trans; [|done]. apply IH; [by constructor|left].
Qed.
