(* ===== verification/FactCatalog.v ===== *)
(** * FactCatalog: the closed catalogue of facts ([src/analyzer/fact_catalog.py])

    The enum, the operator table, the phases, the parameter-requirement sets and
    the Elasticsearch aggregation strategy of each fact type. *)
From stdpp Require Import base list strings sets.
From S2P Require Import Prelude PyNum.

Inductive FactType : Set :=
| MAX | MIN | AVG | LAST | P50 | P90 | P95 | P99 | SPIKE_COUNT
| DURATION | DELTA | GROWTH_RATE | MOVING_AVG | TREND | ZSCORE
| BASELINE_DEV.

#[export] Instance FactType_eq_dec : EqDecision FactType.
Proof. solve_decision. Defined.

Definition all_fact_types : list FactType :=
  [MAX; MIN; AVG; LAST; P50; P90; P95; P99; SPIKE_COUNT;
   DURATION; DELTA; GROWTH_RATE; MOVING_AVG; TREND; ZSCORE; BASELINE_DEV].

Lemma elem_of_all_fact_types t : t ∈ all_fact_types.
Proof. unfold all_fact_types. destruct t; set_solver. Qed.

(** [FactType.value] *)
Definition value (t : FactType) : string :=
  match t with
  | MAX => "max" | MIN => "min" | AVG => "avg" | LAST => "last"
  | P50 => "p50" | P90 => "p90" | P95 => "p95" | P99 => "p99"
  | SPIKE_COUNT => "spike_count"
  | DURATION => "duration" | DELTA => "delta" | GROWTH_RATE => "growth_rate"
  | MOVING_AVG => "moving_avg" | TREND => "trend" | ZSCORE => "zscore"
  | BASELINE_DEV => "baseline_dev"
  end.

(** The [Operator] literal and the [OP_*] constants. *)
Inductive Operator : Set :=
| OP_GE | OP_GT | OP_LE | OP_LT | OP_EQ | OP_NE | OP_TREND.

#[export] Instance Operator_eq_dec : EqDecision Operator.
Proof. solve_decision. Defined.

Definition op_str (o : Operator) : string :=
  match o with
  | OP_GE => ">=" | OP_GT => ">" | OP_LE => "<=" | OP_LT => "<"
  | OP_EQ => "==" | OP_NE => "!=" | OP_TREND => "trend=="
  end.

Definition ALL_OPERATORS : list Operator :=
  [OP_GE; OP_GT; OP_LE; OP_LT; OP_EQ; OP_NE; OP_TREND].

Definition _HIGH : list Operator := [OP_GT; OP_GE].
Definition _LOW : list Operator := [OP_LT; OP_LE].
Definition _NUMERIC : list Operator := _HIGH ++ _LOW.

Definition ALLOWED_OPS (t : FactType) : list Operator :=
  match t with
  | MAX => _HIGH
  | MIN => _LOW ++ [OP_EQ]
  | AVG => _NUMERIC
  | LAST => _NUMERIC ++ [OP_EQ; OP_NE]
  | P50 | P90 | P95 | P99 => _NUMERIC
  | SPIKE_COUNT => _HIGH
  | DURATION => _HIGH
  | DELTA => _NUMERIC ++ [OP_NE]
  | GROWTH_RATE => _NUMERIC
  | MOVING_AVG => _NUMERIC
  | TREND => [OP_TREND]
  | ZSCORE => _HIGH
  | BASELINE_DEV => _NUMERIC
  end.

Definition PHASE_OF_FACT (t : FactType) : nat :=
  match t with
  | MAX | MIN | AVG | LAST | P50 | P90 | P95 | P99 | SPIKE_COUNT => 1
  | DURATION | DELTA | GROWTH_RATE | MOVING_AVG | TREND | ZSCORE => 2
  | BASELINE_DEV => 3
  end.

Definition IMPLEMENTED_PHASES : list nat := [1].

Definition NEEDS_BUCKETING : list FactType :=
  [DURATION; GROWTH_RATE; MOVING_AVG; TREND].
Definition NEEDS_POINTS : list FactType := [MOVING_AVG; TREND].
Definition NEEDS_BASELINE : list FactType := [BASELINE_DEV].
Definition REQUIRES_OVER_DIRECTION : list FactType := [SPIKE_COUNT; DURATION].

Definition is_implemented (t : FactType) : bool :=
  bool_decide (PHASE_OF_FACT t ∈ IMPLEMENTED_PHASES).

Definition op_allowed (t : FactType) (o : Operator) : bool :=
  bool_decide (o ∈ ALLOWED_OPS t).

Inductive AggStrategy : Set :=
| STAT | PERCENTILES | TOP_HITS | FILTER_RANGE
| DATE_HISTOGRAM | EXTENDED_STATS | BASELINE_QUERY.

#[export] Instance AggStrategy_eq_dec : EqDecision AggStrategy.
Proof. solve_decision. Defined.

Definition agg_strategy (t : FactType) : AggStrategy :=
  match t with
  | MAX | MIN | AVG => STAT
  | LAST => TOP_HITS
  | P50 | P90 | P95 | P99 => PERCENTILES
  | SPIKE_COUNT => FILTER_RANGE
  | DURATION => DATE_HISTOGRAM
  | DELTA => TOP_HITS
  | GROWTH_RATE | MOVING_AVG | TREND => DATE_HISTOGRAM
  | ZSCORE => EXTENDED_STATS
  | BASELINE_DEV => BASELINE_QUERY
  end.

Definition STAT_AGG_NAME (t : FactType) : option string :=
  match t with
  | MAX => Some "max" | MIN => Some "min" | AVG => Some "avg"
  | _ => None
  end.

(** The percentile as an integer; the source writes [50.0], [90.0], ... *)
Definition PERCENTILE_OF_FACT (t : FactType) : option Z :=
  match t with
  | P50 => Some 50%Z | P90 => Some 90%Z | P95 => Some 95%Z | P99 => Some 99%Z
  | _ => None
  end.

(** ** Lemmas *)
#[export] Instance value_inj : Inj (=) (=) value.
Proof. intros [] [] H; try done; vm_compute in H; discriminate H. Qed.

Lemma op_allowed_spec t o : op_allowed t o = true ↔ o ∈ ALLOWED_OPS t.
Proof. apply bool_decide_eq_true. Qed.

(** Catalogue coherence: each implemented fact is computed by one of
    the four strategies the query builder emits, and the lookup its strategy
    makes in the parameter tables succeeds. *)
Lemma implemented_strategy t :
  is_implemented t = true →
  match agg_strategy t with
  | STAT => is_Some (STAT_AGG_NAME t)
  | PERCENTILES => is_Some (PERCENTILE_OF_FACT t)
  | TOP_HITS | FILTER_RANGE => True
  | _ => False
  end.
Proof. destruct t; try done; simpl; eauto. Qed.

(** [trend==] is the only operator of [TREND], and of no other fact. *)
Lemma op_allowed_trend t : op_allowed t OP_TREND = true ↔ t = TREND.
Proof. split; [by destruct t|by intros ->]. Qed.
