(* ===== verification/Models.v ===== *)
(** * Models: the profile documents ([src/db/models.py])

    Value objects ([Scope], [Fact], [Measure], [Condition], [Rule],
    [NotifyChannel], [Governance]), their [model_validator]s, the aggregate
    [MonitorProfile] with its Mongo form, the cascade fold, and the reference
    checks on the folded profile.

    A class is a record; the pydantic constructor is the validator
    ([..._validate]), which may raise ([Err]) and may fill fields in.  One
    constructor of [ModelError] stands for each message, with the values the
    message interpolates.  Integers are [Z], numbers [PyNum.num], a datetime is
    its UTC microsecond count.  A [dict] is an insertion-ordered association list
    ([Prelude.ODict]). *)
From stdpp Require Import base list strings sets.
From Stdlib Require Import ZArith Lia.
From Stdlib Require Import Ascii.
From Stdlib Require String.
From S2P Require Import Prelude PyNum FactCatalog.

(** ** Literals *)
Inductive Severity : Set := WARNING | CRITICAL.
Inductive Direction : Set := above | below | high | low.
Inductive DeltaMode : Set := last_minus_first | max_minus_min.
Inductive GrowthUnit : Set := per_hour | per_day.
Inductive Combine : Set := AND | OR.
Inductive GroupByKey : Set := GK_eqpId | GK_proc.
Inductive ExpandMode : Set := scalar | instance.
Inductive MetricKind : Set := gauge | counter | cumulative.
Inductive Quantifier : Set := q_any | q_all | q_count.
Inductive GroupBy : Set := gb_eqp | gb_model | gb_process.

#[export] Instance Severity_eq_dec : EqDecision Severity.
Proof. solve_decision. Defined.
#[export] Instance Direction_eq_dec : EqDecision Direction.
Proof. solve_decision. Defined.
#[export] Instance DeltaMode_eq_dec : EqDecision DeltaMode.
Proof. solve_decision. Defined.
#[export] Instance GrowthUnit_eq_dec : EqDecision GrowthUnit.
Proof. solve_decision. Defined.
#[export] Instance Combine_eq_dec : EqDecision Combine.
Proof. solve_decision. Defined.
#[export] Instance GroupByKey_eq_dec : EqDecision GroupByKey.
Proof. solve_decision. Defined.
#[export] Instance ExpandMode_eq_dec : EqDecision ExpandMode.
Proof. solve_decision. Defined.
#[export] Instance MetricKind_eq_dec : EqDecision MetricKind.
Proof. solve_decision. Defined.
#[export] Instance Quantifier_eq_dec : EqDecision Quantifier.
Proof. solve_decision. Defined.
#[export] Instance GroupBy_eq_dec : EqDecision GroupBy.
Proof. solve_decision. Defined.

Definition severity_str (s : Severity) : string :=
  match s with WARNING => "WARNING" | CRITICAL => "CRITICAL" end.

(** A [float | str] field. *)
Inductive Value : Type := VNum (n : num) | VStr (s : string).
#[export] Instance Value_eq_dec : EqDecision Value.
Proof. solve_decision. Defined.

(** ** Records *)
Record Scope := mkScope { process : string; eqp_model : string; eqp_id : string }.
#[export] Instance Scope_eq_dec : EqDecision Scope.
Proof. solve_decision. Defined.

Record Bucketing := mkBucketing { b_seconds : Z; b_points : option Z }.
Record BaselineSpec := mkBaseline
  { bl_days : Z; bl_same_hour : bool; bl_min_points : Z; bl_deviation_floor : num }.
#[export] Instance Bucketing_eq_dec : EqDecision Bucketing.
Proof. solve_decision. Defined.
#[export] Instance BaselineSpec_eq_dec : EqDecision BaselineSpec.
Proof. solve_decision. Defined.

Record Fact := mkFact
  { f_type : FactType; f_over : option num; f_direction : option Direction;
    f_mode : option DeltaMode; f_unit : option GrowthUnit }.
#[export] Instance Fact_eq_dec : EqDecision Fact.
Proof. solve_decision. Defined.

Record Measure := mkMeasure
  { m_id : string; m_category : string; m_metric : string; m_proc : string;
    m_window_minutes : Z; m_group_by : list GroupByKey; m_expand : ExpandMode;
    m_metric_kind : option MetricKind; m_bucketing : option Bucketing;
    m_baseline : option BaselineSpec; m_facts : list Fact }.
#[export] Instance Measure_eq_dec : EqDecision Measure.
Proof. solve_decision. Defined.

Record Condition := mkCondition
  { c_fact : string; c_op : Operator; c_value : Value; c_quantifier : Quantifier;
    c_count_min : option Z }.
#[export] Instance Condition_eq_dec : EqDecision Condition.
Proof. solve_decision. Defined.

Record Rule := mkRule
  { r_id : string; r_interval_minutes : Z; r_severity : Severity;
    r_combine : Combine; r_when : list Condition; r_notify : string;
    r_enabled : bool }.
#[export] Instance Rule_eq_dec : EqDecision Rule.
Proof. solve_decision. Defined.

Record NotifyChannel := mkNotify
  { n_cooldown_minutes : Z; n_email_code : string; n_email_subcode : option string;
    n_group_by : GroupBy; n_email_group : option string }.
#[export] Instance NotifyChannel_eq_dec : EqDecision NotifyChannel.
Proof. solve_decision. Defined.

Record Governance := mkGovernance
  { g_version : Z; g_updated_by : string; g_updated_at : Z; g_change_reason : string }.
#[export] Instance Governance_eq_dec : EqDecision Governance.
Proof. solve_decision. Defined.

Record MonitorProfile := mkProfile
  { p_id : option string; p_scope : Scope; p_enabled : bool;
    p_governance : Governance; p_measures : list Measure; p_rules : list Rule;
    p_notify : list (string * NotifyChannel) }.
#[export] Instance MonitorProfile_eq_dec : EqDecision MonitorProfile.
Proof. solve_decision. Defined.

(** [Governance()] at time [now]. *)
Definition Governance_default (now : Z) : Governance := mkGovernance 1 "" now "".

(** ** Validators *)
Inductive ModelError : Type :=
| FactNeedsOverDirection (t : FactType)
| FactDirectionAboveBelow (t : FactType)
| ZscoreDirection
| MeasureNoFact (id : string)
| MeasureDuplicateFact (id : string)
| MeasureNeedsBucketing (id : string)
| MeasureNeedsPoints (id : string)
| MeasureNeedsBaseline (id : string)
| MeasureBucketsExceedWindow (id : string)
| ConditionFactFormat (fact : string)
| ConditionCountMin
| TrendNeedsString
| OpNeedsNumber (o : Operator)
| RuleWhenEmpty (id : string)
| DuplicateMeasureId
| DuplicateRuleId
| MissingKey (key : string)
| ExtraForbidden (key : string).

Definition _per_type_params (self : Fact) : res ModelError Fact :=
  let t := f_type self in
  _ ← (if bool_decide (t ∈ REQUIRES_OVER_DIRECTION) then
         match f_over self, f_direction self with
         | None, _ | _, None => Err (FactNeedsOverDirection t)
         | Some _, Some d =>
             raise_if (negb (bool_decide (d ∈ [above; below])))
               (FactDirectionAboveBelow t)
         end
       else Ok tt);
  let self :=
    if bool_decide (t = DELTA ∧ f_mode self = None)
    then mkFact t (f_over self) (f_direction self) (Some last_minus_first) (f_unit self)
    else self in
  let self :=
    if bool_decide (t = GROWTH_RATE ∧ f_unit self = None)
    then mkFact t (f_over self) (f_direction self) (f_mode self) (Some per_hour)
    else self in
  if bool_decide (t = ZSCORE) then
    match f_direction self with
    | None => Ok (mkFact t (f_over self) (Some high) (f_mode self) (f_unit self))
    | Some d =>
        if bool_decide (d ∈ [high; low]) then Ok self else Err ZscoreDirection
    end
  else Ok self.

Definition has_wildcard (s : string) : bool :=
  existsb (λ c, bool_decide (c ∈ ["*"%char; "?"%char; "["%char])) (String.list_ascii_of_string s).

Definition Measure_with (m : Measure) gb ex fs : Measure :=
  mkMeasure (m_id m) (m_category m) (m_metric m) (m_proc m) (m_window_minutes m)
    gb ex (m_metric_kind m) (m_bucketing m) (m_baseline m) fs.

Definition overlaps (ts set : list FactType) : bool :=
  existsb (λ t, bool_decide (t ∈ set)) ts.

Definition _consistency (self : Measure) : res ModelError Measure :=
  let types := f_type <$> m_facts self in
  _ ← raise_if (bool_decide (m_facts self = [])) (MeasureNoFact (m_id self));
  _ ← raise_if (negb (bool_decide (NoDup types))) (MeasureDuplicateFact (m_id self));
  _ ← raise_if (overlaps types NEEDS_BUCKETING && bool_decide (m_bucketing self = None))
        (MeasureNeedsBucketing (m_id self));
  _ ← raise_if (overlaps types NEEDS_POINTS
                && bool_decide (m_bucketing self ≫= b_points = None))
        (MeasureNeedsPoints (m_id self));
  _ ← raise_if (overlaps types NEEDS_BASELINE && bool_decide (m_baseline self = None))
        (MeasureNeedsBaseline (m_id self));
  _ ← raise_if (match m_bucketing self with
                | Some (mkBucketing s (Some pts)) =>
                    bool_decide (s * pts > m_window_minutes self * 60)%Z
                | _ => false
                end) (MeasureBucketsExceedWindow (m_id self));
  let gb := if bool_decide (m_proc self = "*" ∧ GK_proc ∉ m_group_by self)
            then m_group_by self ++ [GK_proc] else m_group_by self in
  let ex := if has_wildcard (m_metric self) && bool_decide (m_expand self = scalar)
            then instance else m_expand self in
  Ok (Measure_with self gb ex (m_facts self)).

(** [str.partition(".")]: before and after the first dot, and whether there is one. *)
Fixpoint partition_dot (s : string) : string * bool * string :=
  match s with
  | EmptyString => ("", false, "")
  | String c s' =>
      if decide (c = "."%char) then ("", true, s')
      else let '(a, d, b) := partition_dot s' in (String c a, d, b)
  end.
Definition fact_mid (fact : string) : string := (partition_dot fact).1.1.
Definition fact_ftype (fact : string) : string := (partition_dot fact).2.
Definition has_dot (fact : string) : bool := (partition_dot fact).1.2.

Definition _checks (self : Condition) : res ModelError Condition :=
  _ ← raise_if (negb (has_dot (c_fact self))) (ConditionFactFormat (c_fact self));
  _ ← raise_if (bool_decide (c_quantifier self = q_count)
                && match c_count_min self with
                   | None => true
                   | Some n => bool_decide (n < 1)%Z
                   end) ConditionCountMin;
  _ ← (if decide (c_op self = OP_TREND) then
         match c_value self with VStr _ => Ok tt | VNum _ => Err TrendNeedsString end
       else
         match c_value self with
         | VNum _ => Ok tt
         | VStr _ => Err (OpNeedsNumber (c_op self))
         end);
  Ok self.

Definition _nonempty (self : Rule) : res ModelError Rule :=
  _ ← raise_if (bool_decide (r_when self = [])) (RuleWhenEmpty (r_id self));
  Ok self.

(** Nested models are validated before the enclosing one. *)
Definition Measure_validate (m : Measure) : res ModelError Measure :=
  fs ← mapM _per_type_params (m_facts m);
  _consistency (Measure_with m (m_group_by m) (m_expand m) fs).

Definition Rule_validate (r : Rule) : res ModelError Rule :=
  _ ← mapM _checks (r_when r);
  _nonempty r.

Definition _doc_consistency (self : MonitorProfile) : res ModelError MonitorProfile :=
  _ ← raise_if (negb (bool_decide (NoDup (m_id <$> p_measures self)))) DuplicateMeasureId;
  _ ← raise_if (negb (bool_decide (NoDup (r_id <$> p_rules self)))) DuplicateRuleId;
  Ok self.

(** ** Scope queries and the Mongo form *)
Definition to_mongo_query (self : Scope) : list (string * string) :=
  [("process", process self)]
  ++ (if decide (eqp_model self = "*") then [] else [("eqpModel", eqp_model self)])
  ++ (if decide (eqp_id self = "*") then [] else [("eqpId", eqp_id self)]).

Definition Scope_to_mongo (self : Scope) : list (string * string) :=
  [("process", process self); ("eqpModel", eqp_model self); ("eqpId", eqp_id self)].

Definition Scope_from_mongo (doc : list (string * string)) : res ModelError Scope :=
  match ODict.get "process" doc with
  | None => Err (MissingKey "process")
  | Some p => Ok (mkScope p (default "*" (ODict.get "eqpModel" doc))
                    (default "*" (ODict.get "eqpId" doc)))
  end.

(** A stored channel: the keys of the document that are not fields of
    [NotifyChannel], and the fields. *)
Record NotifyDoc := mkNotifyDoc { nd_extra : list string; nd_channel : NotifyChannel }.
#[export] Instance NotifyDoc_eq_dec : EqDecision NotifyDoc.
Proof. solve_decision. Defined.

Definition _REMOVED_NOTIFY_KEYS : list string := ["representatives"].

Definition _strip_legacy_notify (channel : NotifyDoc) : NotifyDoc :=
  if existsb (λ k, bool_decide (k ∈ nd_extra channel)) _REMOVED_NOTIFY_KEYS
  then mkNotifyDoc (filter (.∉ _REMOVED_NOTIFY_KEYS) (nd_extra channel))
         (nd_channel channel)
  else channel.

(** [NotifyChannel.model_validate], with [extra="forbid"]. *)
Definition NotifyChannel_validate (d : NotifyDoc) : res ModelError NotifyChannel :=
  match nd_extra d with [] => Ok (nd_channel d) | k :: _ => Err (ExtraForbidden k) end.

(** A stored document.  The nested [model_dump]s are written as the value they
    dump; every field but the scope may be missing in an older document, and
    [d_id] is Mongo's [_id]. *)
Record Doc := mkDoc
  { d_id : option string; d_scope : option (list (string * string));
    d_enabled : option bool; d_governance : option Governance;
    d_measures : option (list Measure); d_rules : option (list Rule);
    d_notify : option (list (string * NotifyDoc)) }.

Definition to_mongo (self : MonitorProfile) : Doc :=
  mkDoc None (Some (Scope_to_mongo (p_scope self))) (Some (p_enabled self))
    (Some (p_governance self)) (Some (p_measures self)) (Some (p_rules self))
    (Some ((λ kv, (kv.1, mkNotifyDoc [] kv.2)) <$> p_notify self)).

Definition from_mongo (now : Z) (doc : Doc) : res ModelError MonitorProfile :=
  sdoc ← (match d_scope doc with Some s => Ok s | None => Err (MissingKey "scope") end);
  scope ← Scope_from_mongo sdoc;
  ms ← mapM Measure_validate (default [] (d_measures doc));
  rs ← mapM Rule_validate (default [] (d_rules doc));
  ns ← mapM (λ kv, pair kv.1 <$> NotifyChannel_validate (_strip_legacy_notify kv.2))
         (default [] (d_notify doc));
  _doc_consistency
    (mkProfile (d_id doc) scope (default true (d_enabled doc))
       (default (Governance_default now) (d_governance doc)) ms rs ns).

(** ** Signature of the behavioural content *)
Definition signature_payload (self : MonitorProfile)
  : bool * list Measure * list Rule * list (string * NotifyChannel) :=
  (p_enabled self,
   sort_by (str_key_leb m_id) (p_measures self),
   sort_by (str_key_leb r_id) (p_rules self),
   sorted_items (p_notify self)).

(** ** The cascade fold *)
Definition with_enabled (b : bool) (r : Rule) : Rule :=
  mkRule (r_id r) (r_interval_minutes r) (r_severity r) (r_combine r) (r_when r)
    (r_notify r) b.

(** A rule of a document, with the document's flag baked in. *)
Definition bake (prof : MonitorProfile) (r : Rule) : Rule :=
  with_enabled (p_enabled prof && r_enabled r) r.

Definition fold_profiles (now : Z) (ordered : list MonitorProfile)
    (target_scope : Scope) : res ModelError MonitorProfile :=
  let measures := foldl (λ d prof,
    ODict.set_all ((λ m, (m_id m, m)) <$> p_measures prof) d) [] ordered in
  let rules := foldl (λ d prof,
    ODict.set_all ((λ r, (r_id r, bake prof r)) <$> p_rules prof) d) [] ordered in
  let notify := foldl (λ d prof, ODict.set_all (p_notify prof) d) [] ordered in
  let governance := foldl (λ _ prof, p_governance prof)
    (Governance_default now) ordered in
  _doc_consistency
    (mkProfile None target_scope (existsb r_enabled rules.*2) governance
       measures.*2 rules.*2 notify).

(** ** Reference integrity of the folded profile *)
Inductive RefError : Type :=
| ChannelUndefined (ri : nat) (channel : string)
| MeasureNotFound (ri ci : nat) (mid : string)
| NoSuchFact (ri ci : nat) (mid ftype : string)
| OpNotAllowed (ri ci : nat) (o : Operator) (ftype : string)
| IntervalExceedsWindow (ri : nat) (interval : Z) (mid : string) (window : Z)
| MixedProcs (ri : nat) (procs : list string).

Definition measures_by_id (ms : list Measure) : list (string * Measure) :=
  ODict.of_list ((λ m, (m_id m, m)) <$> ms).

Definition by_type (m : Measure) : list (string * FactType) :=
  ODict.of_list ((λ f, (value (f_type f), f_type f)) <$> m_facts m).

(** One [when] clause: its errors, and the measure it adds to [referenced]. *)
Definition check_condition (mbi : list (string * Measure)) (ri ci : nat)
    (cond : Condition) : list RefError * list string :=
  let mid := fact_mid (c_fact cond) in
  let ftype := fact_ftype (c_fact cond) in
  match ODict.get mid mbi with
  | None => ([MeasureNotFound ri ci mid], [])
  | Some measure =>
      (match ODict.get ftype (by_type measure) with
       | None => [NoSuchFact ri ci mid ftype]
       | Some t => if op_allowed t (c_op cond) then []
                   else [OpNotAllowed ri ci (c_op cond) ftype]
       end, [mid])
  end.

Definition check_window (mbi : list (string * Measure)) (ri : nat) (rule : Rule)
    (mid : string) : list RefError :=
  match ODict.get mid mbi with
  | Some measure =>
      if bool_decide (r_interval_minutes rule > m_window_minutes measure)%Z
      then [IntervalExceedsWindow ri (r_interval_minutes rule) mid
              (m_window_minutes measure)]
      else []
  | None => []
  end.

Definition procs_of (mbi : list (string * Measure)) (referenced : list string)
  : list string :=
  remove_dups (omap (λ mid, m_proc <$> ODict.get mid mbi) referenced).

Definition check_rule `{!SetIter} (profile : MonitorProfile)
    (mbi : list (string * Measure)) (ri : nat) (rule : Rule) : list RefError :=
  let checked := imap (check_condition mbi ri) (r_when rule) in
  let referenced := remove_dups (mjoin checked.*2) in
  let procs := procs_of mbi referenced in
  (if bool_decide (r_notify rule ∈ (p_notify profile).*1) then []
   else [ChannelUndefined ri (r_notify rule)])
  ++ mjoin checked.*1
  ++ mjoin (check_window mbi ri rule <$> iter_set referenced)
  ++ (if bool_decide (1 < length procs) then [MixedProcs ri (sort_str procs)] else []).

Definition validate_effective `{!SetIter} (profile : MonitorProfile) : list RefError :=
  mjoin (imap (check_rule profile (measures_by_id (p_measures profile)))
    (p_rules profile)).

Inductive LintWarning : Type :=
| DeadFact (mid ftype : string)
| DeltaOnGauge (mid ftype : string).

Definition lint_effective (profile : MonitorProfile) : list LintWarning :=
  let referenced := (λ c, (fact_mid (c_fact c), fact_ftype (c_fact c)))
                    <$> mjoin (r_when <$> p_rules profile) in
  mjoin ((λ measure,
    omap (λ f, if bool_decide ((m_id measure, value (f_type f)) ∈ referenced)
               then None else Some (DeadFact (m_id measure) (value (f_type f))))
      (m_facts measure)
    ++ (if decide (m_metric_kind measure = Some gauge) then
          omap (λ f, if bool_decide (f_type f ∈ [DELTA; GROWTH_RATE])
                     then Some (DeltaOnGauge (m_id measure) (value (f_type f)))
                     else None) (m_facts measure)
        else [])) <$> p_measures profile).

(** ** Lemmas *)

(** The fold against its specification: the entry of a key is the one of the
    most specific document that declares it. *)
Fixpoint most_specific {A} (decl : MonitorProfile → option A)
    (ordered : list MonitorProfile) : option (MonitorProfile * A) :=
  match ordered with
  | [] => None
  | p :: rest =>
      match most_specific decl rest with
      | Some x => Some x
      | None => pair p <$> decl p
      end
  end.

Definition find_measure (i : string) (p : MonitorProfile) : option Measure :=
  last (filter (λ m, m_id m = i) (p_measures p)).
Definition find_rule (i : string) (p : MonitorProfile) : option Rule :=
  last (filter (λ r, r_id r = i) (p_rules p)).
Definition find_channel (n : string) (p : MonitorProfile) : option NotifyChannel :=
  snd <$> last (filter (λ kv, kv.1 = n) (p_notify p)).

Definition measure_entries (p : MonitorProfile) : list (string * Measure) :=
  (λ m, (m_id m, m)) <$> p_measures p.
Definition rule_entries (p : MonitorProfile) : list (string * Rule) :=
  (λ r, (r_id r, bake p r)) <$> p_rules p.

Lemma last_filter_join {A} (P : A → Prop) `{!∀ x, Decision (P x)}
    (f : MonitorProfile → list A) ordered :
  last (filter P (mjoin (f <$> ordered)))
  = snd <$> most_specific (λ p, last (filter P (f p))) ordered.
Proof.
  induction ordered as [|p rest IH]; [done|]. csimpl.
  rewrite filter_app, last_app, IH.
  destruct (most_specific _ rest); [done|]. simpl. by destruct (last (filter P (f p))).
Qed.

Lemma most_specific_fmap {A B} (g : A → B) (decl : MonitorProfile → option A) ordered :
  most_specific (λ p, g <$> decl p) ordered
  = prod_map id g <$> most_specific decl ordered.
Proof.
  induction ordered as [|p rest IH]; simpl; [done|].
  rewrite IH. destruct (most_specific decl rest); simpl; [done|]. by destruct (decl p).
Qed.

Lemma most_specific_ext {A} (decl decl' : MonitorProfile → option A) ordered :
  (∀ p, decl p = decl' p) → most_specific decl ordered = most_specific decl' ordered.
Proof. intros H. induction ordered as [|p rest IH]; simpl; [done|]. by rewrite IH, H. Qed.

Lemma most_specific_Some {A} (decl : MonitorProfile → option A) ordered p x :
  most_specific decl ordered = Some (p, x) → p ∈ ordered ∧ decl p = Some x.
Proof.
  induction ordered as [|q rest IH]; simpl; [done|].
  destruct (most_specific decl rest) as [[p' x']|] eqn:E.
  - intros [= -> ->]. destruct IH; [done|]. split; [by right|done].
  - destruct (decl q) eqn:Eq; simpl; [|done]. intros [= -> ->]. split; [left|done].
Qed.

Lemma most_specific_snoc {A} (decl : MonitorProfile → option A) ordered p :
  most_specific decl (ordered ++ [p])
  = match decl p with Some x => Some (p, x) | None => most_specific decl ordered end.
Proof.
  induction ordered as [|q rest IH]; simpl; [by destruct (decl p)|].
  rewrite IH. by destruct (decl p).
Qed.

(** What the fold returns: the three dicts, as [of_list] of all entries. *)
Definition fold_result (now : Z) (ordered : list MonitorProfile) (scope : Scope)
  : MonitorProfile :=
  let rules := ODict.of_list (mjoin (rule_entries <$> ordered)) in
  mkProfile None scope (existsb r_enabled rules.*2)
    (foldl (λ _ prof, p_governance prof) (Governance_default now) ordered)
    (ODict.of_list (mjoin (measure_entries <$> ordered))).*2
    rules.*2
    (ODict.of_list (mjoin (p_notify <$> ordered))).

Lemma entries_keyed {A} (key : A → string) (f : MonitorProfile → list (string * A)) ordered :
  (∀ p, ODict.keyed key (f p)) → ODict.keyed key (ODict.of_list (mjoin (f <$> ordered))).
Proof.
  intros Hf. apply ODict.set_all_keyed; [|constructor].
  induction ordered; simpl; [constructor|]. apply Forall_app. split; [apply Hf|done].
Qed.

Lemma measure_entries_keyed p : ODict.keyed m_id (measure_entries p).
Proof. apply ODict.keyed_map. Qed.
Lemma rule_entries_keyed p : ODict.keyed r_id (rule_entries p).
Proof. unfold ODict.keyed, rule_entries. apply Forall_fmap, Forall_true. done. Qed.
#[export] Hint Resolve measure_entries_keyed rule_entries_keyed entries_keyed : rms.

Lemma values_NoDup {A} (key : A → string) (f : MonitorProfile → list (string * A)) ordered :
  (∀ p, ODict.keyed key (f p)) →
  NoDup (key <$> (ODict.of_list (mjoin (f <$> ordered))).*2).
Proof.
  intros. rewrite ODict.keyed_values by auto with rms. apply ODict.of_list_NoDup.
Qed.

Lemma doc_consistency_Ok p :
  NoDup (m_id <$> p_measures p) → NoDup (r_id <$> p_rules p) → _doc_consistency p = Ok p.
Proof. intros. unfold _doc_consistency. by rewrite !bool_decide_true by done. Qed.

Lemma fold_profiles_result now ordered scope :
  fold_profiles now ordered scope = Ok (fold_result now ordered scope).
Proof.
  unfold fold_profiles. rewrite !ODict.foldl_set_all.
  apply doc_consistency_Ok; simpl; apply values_NoDup; auto with rms.
Qed.

Lemma find_rule_fold now ordered scope i :
  find_rule i (fold_result now ordered scope)
  = (λ pr, bake pr.1 pr.2) <$> most_specific (find_rule i) ordered.
Proof.
  unfold find_rule at 1. simpl.
  rewrite ODict.keyed_get by auto with rms.
  unfold ODict.of_list. rewrite ODict.get_set_all, last_filter_join.
  rewrite (most_specific_ext _ (λ p, (λ r, (i, bake p r)) <$> find_rule i p)).
  - clear. set (f := λ p, (λ r, (i, bake p r)) <$> find_rule i p).
    induction ordered as [|p rest IH]; [done|]. simpl.
    destruct (most_specific f rest) as [[? ?]|], (most_specific (find_rule i) rest);
      simpl in *; try done. unfold f. by destruct (find_rule i p).
  - intros p. unfold rule_entries, find_rule. clear.
    induction (p_rules p) as [|r l IH] using rev_ind; [done|].
    rewrite fmap_app, !filter_app, !last_app. simpl. rewrite !filter_cons. simpl.
    case_decide; [by subst|]. rewrite filter_nil. simpl. exact IH.
Qed.

Lemma find_measure_fold now ordered scope i :
  find_measure i (fold_result now ordered scope)
  = snd <$> most_specific (find_measure i) ordered.
Proof.
  unfold find_measure at 1. simpl.
  rewrite ODict.keyed_get by auto with rms.
  unfold ODict.of_list. rewrite ODict.get_set_all, last_filter_join.
  rewrite (most_specific_ext _ (λ p, (λ m, (m_id m, m)) <$> find_measure i p))
    by (intros; apply ODict.filter_keyed_map).
  rewrite most_specific_fmap. by destruct (most_specific _ ordered) as [[]|].
Qed.

Lemma find_channel_fold now ordered scope n :
  find_channel n (fold_result now ordered scope)
  = snd <$> most_specific (find_channel n) ordered.
Proof.
  unfold find_channel at 1. simpl.
  transitivity (ODict.get n (ODict.of_list (mjoin (p_notify <$> ordered)))).
  { rewrite <-(ODict.of_list_id (ODict.of_list _)) at 2 by auto with rms.
    unfold ODict.of_list at 2. rewrite ODict.get_set_all. by destruct (last _). }
  unfold ODict.of_list. rewrite ODict.get_set_all, last_filter_join.
  unfold find_channel. rewrite most_specific_fmap.
  by destruct (most_specific _ ordered) as [[? []]|].
Qed.

(** [validate_effective] against reference integrity. *)
Definition condition_ok (p : MonitorProfile) (rule : Rule) (c : Condition) : Prop :=
  ∃ m, find_measure (fact_mid (c_fact c)) p = Some m ∧
    (r_interval_minutes rule ≤ m_window_minutes m)%Z ∧
    ∃ f, f ∈ m_facts m ∧ value (f_type f) = fact_ftype (c_fact c)
         ∧ c_op c ∈ ALLOWED_OPS (f_type f).

Definition one_proc (p : MonitorProfile) (rule : Rule) : Prop :=
  ∀ c1 c2 m1 m2, c1 ∈ r_when rule → c2 ∈ r_when rule →
    find_measure (fact_mid (c_fact c1)) p = Some m1 →
    find_measure (fact_mid (c_fact c2)) p = Some m2 → m_proc m1 = m_proc m2.

Definition rule_refs_ok (p : MonitorProfile) (rule : Rule) : Prop :=
  r_notify rule ∈ (p_notify p).*1 ∧ Forall (condition_ok p rule) (r_when rule)
  ∧ one_proc p rule.

Lemma get_measures_by_id mid p :
  ODict.get mid (measures_by_id (p_measures p)) = find_measure mid p.
Proof.
  unfold measures_by_id, ODict.of_list.
  rewrite ODict.get_set_all, (ODict.filter_keyed_map m_id). unfold find_measure.
  by destruct (last _).
Qed.

Lemma get_by_type ftype m t :
  ODict.get ftype (by_type m) = Some t ↔
  value t = ftype ∧ ∃ f, f ∈ m_facts m ∧ f_type f = t.
Proof.
  unfold by_type. rewrite <-ODict.elem_of_iff_get by auto with rms. split.
  - intros H%ODict.elem_of_get; [|auto with rms].
    unfold ODict.of_list in H. rewrite ODict.get_set_all in H.
    destruct (last _) as [[k t']|] eqn:E; simplify_eq/=.
    apply last_Some_elem_of, list_elem_of_filter in E as [Hk E].
    apply list_elem_of_fmap in E as (f & [= -> ->] & Hf). eauto.
  - intros [<- (f & Hf & <-)]. apply ODict.get_Some_elem_of.
    unfold ODict.of_list. rewrite ODict.get_set_all.
    destruct (last _) as [[k t']|] eqn:E.
    + apply last_Some_elem_of, list_elem_of_filter in E as [Hk E].
      apply list_elem_of_fmap in E as (f' & [= -> ->] & _).
      simpl in *. by apply (inj value) in Hk as ->.
    + exfalso. apply last_None in E.
      assert ((value (f_type f), f_type f) ∈ @nil (string * FactType)) as []%elem_of_nil.
      rewrite <-E. apply list_elem_of_filter. split; [done|].
      apply list_elem_of_fmap. eauto.
Qed.

Lemma elem_of_referenced mbi ri (conds : list Condition) mid :
  mid ∈ remove_dups (mjoin (imap (check_condition mbi ri) conds).*2) ↔
  ∃ c, c ∈ conds ∧ fact_mid (c_fact c) = mid ∧ is_Some (ODict.get mid mbi).
Proof.
  rewrite elem_of_remove_dups, list_elem_of_join. split.
  - intros (l & Hmid & Hl). apply list_elem_of_fmap in Hl as ([es l'] & -> & Hl).
    apply elem_of_lookup_imap in Hl as (ci & c & Hc & Hci).
    exists c. unfold check_condition in Hc.
    destruct (ODict.get (fact_mid (c_fact c)) mbi) eqn:E; simplify_eq/=; [|set_solver].
    apply list_elem_of_singleton in Hmid as ->. rewrite E.
    eauto using list_elem_of_lookup_2.
  - intros (c & [ci Hc]%list_elem_of_lookup & <- & [m Hm]).
    exists [fact_mid (c_fact c)]. split; [by apply list_elem_of_singleton|].
    apply list_elem_of_fmap. exists (check_condition mbi ri ci c).
    split; [unfold check_condition; by rewrite Hm|]. apply elem_of_lookup_imap. eauto.
Qed.

Lemma check_condition_nil p ri ci c :
  (check_condition (measures_by_id (p_measures p)) ri ci c).1 = [] ↔
  ∃ m, find_measure (fact_mid (c_fact c)) p = Some m ∧
    ∃ f, f ∈ m_facts m ∧ value (f_type f) = fact_ftype (c_fact c)
         ∧ c_op c ∈ ALLOWED_OPS (f_type f).
Proof.
  unfold check_condition. rewrite get_measures_by_id.
  destruct (find_measure _ p) as [m|] eqn:Em; simpl; [|naive_solver].
  destruct (ODict.get _ (by_type m)) as [t|] eqn:Et.
  - rewrite if_nil_iff, op_allowed_spec. apply get_by_type in Et as (Hv & f & Hf & <-).
    split; [naive_solver|]. intros (m' & [= <-] & f' & Hf' & Hv' & Hop).
    rewrite <-Hv in Hv'. by apply (inj value) in Hv' as <-.
  - split; [done|]. intros (m' & [= <-] & f & Hf & Hv & _). exfalso.
    assert (ODict.get (fact_ftype (c_fact c)) (by_type m) = Some (f_type f)) by
      (apply get_by_type; eauto). congruence.
Qed.

(** Each of the four error groups of a rule, separately. *)
Section CheckRule.
  Context `{!SetIter} (p : MonitorProfile) (ri : nat) (rule : Rule).
Notation mbi := (measures_by_id (p_measures p)).
Notation checked := (imap (check_condition mbi ri) (r_when rule)).
Notation referenced := (remove_dups (mjoin checked.*2)).

Lemma elem_of_referenced_find mid :
    mid ∈ referenced ↔
    ∃ c, c ∈ r_when rule ∧ fact_mid (c_fact c) = mid ∧ is_Some (find_measure mid p).
  Proof. rewrite elem_of_referenced. by setoid_rewrite get_measures_by_id. Qed.

Lemma checked_nil :
    mjoin checked.*1 = [] ↔
    ∀ c, c ∈ r_when rule →
      ∃ m, find_measure (fact_mid (c_fact c)) p = Some m ∧
      ∃ f, f ∈ m_facts m ∧ value (f_type f) = fact_ftype (c_fact c)
           ∧ c_op c ∈ ALLOWED_OPS (f_type f).
  Proof.
    rewrite mjoin_nil_iff. split.
    - intros Hall c [ci Hc]%list_elem_of_lookup. apply (check_condition_nil p ri ci), Hall.
      apply list_elem_of_fmap_2, elem_of_lookup_imap. eauto.
    - intros Hall l ([es l'] & -> & (ci & c & Hc & Hci)%elem_of_lookup_imap)%list_elem_of_fmap.
      simpl. rewrite (surjective_pairing (check_condition _ _ _ _)) in Hc.
      injection Hc as -> _. apply check_condition_nil, Hall.
      eauto using list_elem_of_lookup_2.
  Qed.

Lemma check_window_nil mid m :
    find_measure mid p = Some m →
    check_window mbi ri rule mid = [] ↔ (r_interval_minutes rule ≤ m_window_minutes m)%Z.
  Proof.
    intros Hm. unfold check_window. rewrite get_measures_by_id, Hm, if_nil_iff_neg.
    rewrite bool_decide_eq_false. lia.
  Qed.

Lemma windows_nil :
    mjoin (check_window mbi ri rule <$> iter_set referenced) = [] ↔
    ∀ c m, c ∈ r_when rule → find_measure (fact_mid (c_fact c)) p = Some m →
      (r_interval_minutes rule ≤ m_window_minutes m)%Z.
  Proof.
    rewrite mjoin_nil_iff. split.
    - intros Hall c m Hc Hm. rewrite <-(check_window_nil _ _ Hm). apply Hall.
      apply list_elem_of_fmap_2, elem_of_iter_set, elem_of_referenced_find. eauto.
    - intros Hall l (mid & -> & Hmid)%list_elem_of_fmap.
      apply elem_of_iter_set, elem_of_referenced_find in Hmid as (c & Hc & <- & m & Hm).
      apply (check_window_nil _ _ Hm). eauto.
  Qed.

Lemma elem_of_procs_of proc :
    proc ∈ procs_of mbi referenced ↔
    ∃ c m, c ∈ r_when rule ∧ find_measure (fact_mid (c_fact c)) p = Some m
           ∧ m_proc m = proc.
  Proof.
    unfold procs_of. rewrite elem_of_remove_dups, list_elem_of_omap.
    setoid_rewrite get_measures_by_id. setoid_rewrite fmap_Some.
    setoid_rewrite elem_of_referenced_find. split; [naive_solver|].
    intros (c & m & Hc & Hm & <-). exists (fact_mid (c_fact c)). split; eauto 6.
  Qed.

Lemma check_rule_nil : check_rule p mbi ri rule = [] ↔ rule_refs_ok p rule.
  Proof.
    unfold check_rule, rule_refs_ok. rewrite !app_nil, if_nil_iff, if_nil_iff_neg.
    rewrite bool_decide_eq_true, bool_decide_eq_false, checked_nil, windows_nil.
    rewrite NoDup_length_le_1 by apply NoDup_remove_dups.
    setoid_rewrite elem_of_procs_of. unfold condition_ok, one_proc. rewrite Forall_forall.
    split; [|naive_solver]. intros (Hn & Hc & Hw & Hp). repeat split; [done| |].
    - intros c Hin. destruct (Hc c Hin) as (m & Hm & Hf). exists m. eauto.
    - intros. eapply Hp; eauto.
  Qed.
End CheckRule.

(** Validation is a normalisation: its results are its fixed points. *)
Lemma per_type_params_idem f f' :
  _per_type_params f = Ok f' → _per_type_params f' = Ok f'.
Proof.
  destruct f as [t ov dir md un].
  destruct t; cbn; try (intros [= <-]; reflexivity).
  - destruct ov, dir as [[]|]; cbn; try discriminate; intros [= <-]; reflexivity.
  - destruct ov, dir as [[]|]; cbn; try discriminate; intros [= <-]; reflexivity.
  - destruct md; cbn; intros [= <-]; reflexivity.
  - destruct un; cbn; intros [= <-]; reflexivity.
  - destruct dir as [[]|]; cbn; try discriminate; intros [= <-]; reflexivity.
Qed.

Lemma mapM_per_type_params_idem fs fs' :
  mapM _per_type_params fs = Ok fs' → mapM _per_type_params fs' = Ok fs'.
Proof.
  rewrite mapM_Ok_Forall2. intros H. apply mapM_Ok_id.
  eapply Forall2_Forall_r; [exact H|]. apply Forall_true.
  eauto using per_type_params_idem.
Qed.

Lemma consistency_idem m m' : _consistency m = Ok m' → _consistency m' = Ok m'.
Proof.
  unfold _consistency. intros H. res_inv H. injection H as <-. simpl.
  repeat match goal with H : ?b = false |- _ => rewrite H; clear H end. simpl.
  f_equal. unfold Measure_with; simpl. f_equal.
  - destruct (decide (m_proc m = "*" ∧ GK_proc ∉ m_group_by m)) as [Hd|Hd].
    + rewrite (bool_decide_true _ Hd), bool_decide_false; [done|]. set_solver.
    + rewrite (bool_decide_false _ Hd). by rewrite bool_decide_false.
  - destruct (has_wildcard (m_metric m)); simpl; [|done].
    by destruct (m_expand m).
Qed.

Lemma Measure_validate_idem m m' : Measure_validate m = Ok m' → Measure_validate m' = Ok m'.
Proof.
  unfold Measure_validate. intros H.
  destruct (mapM _ (m_facts m)) as [fs|] eqn:E; simpl in H; [|discriminate].
  assert (m_facts m' = fs) as Hfs.
  { unfold _consistency in H. res_inv H. by injection H as <-. }
  rewrite Hfs, (mapM_per_type_params_idem _ _ E). simpl.
  apply consistency_idem in H. rewrite <-H. f_equal. destruct m'; simpl in *; by subst.
Qed.

Lemma Rule_validate_id r r' : Rule_validate r = Ok r' → r' = r.
Proof.
  unfold Rule_validate, _nonempty. intros H. destruct (mapM _ _); simpl in H; [|done].
  res_inv H. by injection H.
Qed.

Lemma doc_consistency_id p p' : _doc_consistency p = Ok p' → p' = p.
Proof. unfold _doc_consistency. intros H. res_inv H. by injection H. Qed.

Definition rule_active (i : string) (p : MonitorProfile) : Prop :=
  ∃ r, r ∈ p_rules p ∧ r_id r = i ∧ r_enabled r = true.

Lemma elem_of_find_rule p r :
  NoDup (r_id <$> p_rules p) → r ∈ p_rules p → find_rule (r_id r) p = Some r.
Proof.
  unfold find_rule. intros Hnd Hr. set (d := (λ r, (r_id r, r)) <$> p_rules p).
  assert (d.*2 = p_rules p) as Hd.
  { unfold d. rewrite <-list_fmap_compose. apply list_fmap_id. }
  assert (NoDup d.*1) by (unfold d; by rewrite <-list_fmap_compose).
  rewrite <-Hd, ODict.keyed_get by (done || apply ODict.keyed_map).
  apply ODict.elem_of_get; [done|]. apply list_elem_of_fmap. eauto.
Qed.

Lemma find_rule_elem_of i p r : find_rule i p = Some r → r ∈ p_rules p ∧ r_id r = i.
Proof. unfold find_rule. intros H%last_Some_elem_of. apply list_elem_of_filter in H as []. done. Qed.

Lemma rule_active_find p i :
  NoDup (r_id <$> p_rules p) →
  rule_active i p ↔ ∃ r, find_rule i p = Some r ∧ r_enabled r = true.
Proof.
  intros Hnd. split.
  - intros (r & Hr & <- & He). eauto using elem_of_find_rule.
  - intros (r & [Hr Hi]%find_rule_elem_of & He). exists r. eauto.
Qed.

Lemma fold_result_NoDup now ordered scope :
  NoDup (r_id <$> p_rules (fold_result now ordered scope)).
Proof. apply values_NoDup. auto with rms. Qed.

Lemma fold_result_measures_NoDup now ordered scope :
  NoDup (m_id <$> p_measures (fold_result now ordered scope)).
Proof. apply values_NoDup. auto with rms. Qed.

(** ** Properties *)

(** C10: The cascade fold never raises, gives unique ids, and implements
    "the most specific document wins": each measure and channel of the effective
    profile is the one of the last document that declares it, and each rule is
    that of the last declaring document with that document's [enabled] baked in. *)
Theorem fold_profiles_spec now ordered scope :
  ∃ eff, fold_profiles now ordered scope = Ok eff ∧ p_scope eff = scope
    ∧ NoDup (m_id <$> p_measures eff) ∧ NoDup (r_id <$> p_rules eff)
    ∧ (∀ i, find_measure i eff = snd <$> most_specific (find_measure i) ordered)
    ∧ (∀ i, find_rule i eff
            = (λ pr, bake pr.1 pr.2) <$> most_specific (find_rule i) ordered)
    ∧ (∀ n, find_channel n eff = snd <$> most_specific (find_channel n) ordered).
Proof.
  exists (fold_result now ordered scope).
  split; [apply fold_profiles_result|]. split; [done|].
  split; [apply fold_result_measures_NoDup|]. split; [apply fold_result_NoDup|].
  auto using find_measure_fold, find_rule_fold, find_channel_fold.
Qed.

(** C11: A rule is active in the effective profile iff its most specific declaring
    document is enabled and declares it enabled; so a rule that lives only in
    disabled documents never runs, whatever enabled overlay inherits it, and the
    profile is enabled iff it has an active rule. *)
Theorem fold_rule_active now ordered scope eff :
  fold_profiles now ordered scope = Ok eff →
  (∀ i, rule_active i eff ↔
        ∃ p r, most_specific (find_rule i) ordered = Some (p, r)
               ∧ p_enabled p = true ∧ r_enabled r = true)
  ∧ (∀ i, (∀ p, p ∈ ordered → is_Some (find_rule i p) → p_enabled p = false) →
          ¬ rule_active i eff)
  ∧ (p_enabled eff = true ↔ ∃ i, rule_active i eff).
Proof.
  rewrite fold_profiles_result. intros [= <-].
  assert (∀ i, rule_active i (fold_result now ordered scope) ↔
    ∃ p r, most_specific (find_rule i) ordered = Some (p, r)
           ∧ p_enabled p = true ∧ r_enabled r = true) as Hact.
  { intros i. rewrite rule_active_find by apply fold_result_NoDup.
    setoid_rewrite find_rule_fold. setoid_rewrite fmap_Some. split.
    - intros (r & ([p r0] & Hms & ->) & He). simpl in He.
      apply andb_true_iff in He as []. eauto.
    - intros (p & r & Hms & Hp & Hr). exists (bake p r). simpl.
      rewrite Hp, Hr. split; [|done]. exists (p, r). done. }
  split; [done|]. split.
  - intros i Hdis (p & r & Hms & Hp & _)%Hact.
    apply most_specific_Some in Hms as [Hin Hr]. rewrite (Hdis p) in Hp; eauto. done.
  - simpl. rewrite existsb_exists. unfold rule_active. simpl.
    setoid_rewrite <-list_elem_of_In. naive_solver.
Qed.

(** C12: [validate_effective] returns no error exactly when every rule of the
    profile names a defined channel, every condition names a fact its measure
    declares with an operator allowed for it over a window at least the rule's
    interval, and all the measures of a rule share one proc. *)
Theorem validate_effective_spec `{!SetIter} p :
  validate_effective p = [] ↔ ∀ r, r ∈ p_rules p → rule_refs_ok p r.
Proof.
  unfold validate_effective. rewrite mjoin_imap_nil. split.
  - intros Hall r [i Hi]%list_elem_of_lookup. apply (check_rule_nil p i r), Hall, Hi.
  - intros Hall i r Hi. apply check_rule_nil, Hall. eauto using list_elem_of_lookup_2.
Qed.

Definition valid_profile (p : MonitorProfile) : Prop :=
  Forall (λ m, Measure_validate m = Ok m) (p_measures p)
  ∧ Forall (λ r, Rule_validate r = Ok r) (p_rules p) ∧ _doc_consistency p = Ok p.

Lemma valid_profile_NoDup p :
  valid_profile p → NoDup (m_id <$> p_measures p) ∧ NoDup (r_id <$> p_rules p).
Proof.
  intros (_ & _ & Hd). unfold _doc_consistency in Hd. res_inv Hd.
  apply negb_false_iff, bool_decide_eq_true in E, E0. done.
Qed.

(** The consistency of a document depends on its lists only. *)
Lemma doc_consistency_same p q :
  _doc_consistency p = Ok p → p_measures q = p_measures p → p_rules q = p_rules p →
  _doc_consistency q = Ok q.
Proof.
  intros H Hm Hr. unfold _doc_consistency in H. res_inv H.
  apply negb_false_iff, bool_decide_eq_true in E, E0.
  apply doc_consistency_Ok; by rewrite ?Hm, ?Hr.
Qed.

Definition without_id (p : MonitorProfile) : MonitorProfile :=
  mkProfile None (p_scope p) (p_enabled p) (p_governance p) (p_measures p) (p_rules p)
    (p_notify p).

Lemma Scope_roundtrip s : Scope_from_mongo (Scope_to_mongo s) = Ok s.
Proof. by destruct s. Qed.

Lemma notify_roundtrip (l : list (string * NotifyChannel)) :
  mapM (λ kv, pair kv.1 <$> NotifyChannel_validate (_strip_legacy_notify kv.2))
    ((λ kv, (kv.1, mkNotifyDoc [] kv.2)) <$> l) = @Ok ModelError _ l.
Proof.
  apply mapM_Ok_Forall2, Forall2_fmap_l, Forall_Forall2_diag, Forall_true. by intros [k c].
Qed.

Lemma to_mongo_roundtrip now p : valid_profile p → from_mongo now (to_mongo p) = Ok (without_id p).
Proof.
  intros (Hm & Hr & Hd). unfold from_mongo, to_mongo. cbn -[ODict.get Scope_from_mongo].
  change (Scope_from_mongo _) with (Scope_from_mongo (Scope_to_mongo (p_scope p))).
  rewrite Scope_roundtrip. simpl. rewrite (mapM_Ok_id _ _ Hm). simpl.
  rewrite (mapM_Ok_id _ _ Hr). simpl. rewrite notify_roundtrip. simpl.
  unfold _doc_consistency in *. res_inv Hd. simpl. by rewrite E, E0.
Qed.

(** Loading yields a validated profile. *)
Lemma from_mongo_roundtrip_valid now d p : from_mongo now d = Ok p → valid_profile p.
Proof.
  intros H. unfold from_mongo in H. res_inv H.
  pose proof H as Hd. apply doc_consistency_id in H as ->. split; [|split]; simpl in *.
  - apply mapM_Ok_Forall2 in E1. eapply Forall2_Forall_r; [exact E1|].
    apply Forall_true. eauto using Measure_validate_idem.
  - apply mapM_Ok_Forall2 in E2. eapply Forall2_Forall_r; [exact E2|].
    apply Forall_true. intros r r' Hr. pose proof (Rule_validate_id _ _ Hr). by subst.
  - done.
Qed.

(** C13: Whatever document loads, loads as a validated profile, and writing that
    profile and loading it again gives the same profile (but for Mongo's [_id]):
    the normalisations of the validators are idempotent and lose nothing. *)
Theorem from_mongo_roundtrip now now' d p :
  from_mongo now d = Ok p →
  valid_profile p ∧ from_mongo now' (to_mongo p) = Ok (without_id p).
Proof.
  intros H%from_mongo_roundtrip_valid. auto using to_mongo_roundtrip.
Qed.

(** C14: The signature payload is stable under the order of measures, rules and
    channels, and separates behaviours: profiles with unique keys have the same
    payload iff they have the same flag and, up to order, the same measures, rules
    and channels. *)
Theorem signature_payload_spec p q :
  valid_profile p → valid_profile q → NoDup (p_notify p).*1 → NoDup (p_notify q).*1 →
  signature_payload p = signature_payload q ↔
  p_enabled p = p_enabled q ∧ p_measures p ≡ₚ p_measures q
  ∧ p_rules p ≡ₚ p_rules q ∧ p_notify p ≡ₚ p_notify q.
Proof.
  intros Hp Hq Hnp Hnq. unfold signature_payload. split.
  - intros [= He Hm Hr Hn]. split; [done|].
    split; [by rewrite <-(sort_by_perm (str_key_leb m_id)), Hm, sort_by_perm|].
    split; [by rewrite <-(sort_by_perm (str_key_leb r_id)), Hr, sort_by_perm|].
    by rewrite <-(sorted_items_perm (p_notify p)), Hn, sorted_items_perm by done.
  - intros (-> & Hm & Hr & Hn). destruct (valid_profile_NoDup _ Hp).
    rewrite (sort_by_key_unique m_id _ (p_measures q)) by done.
    rewrite (sort_by_key_unique r_id _ (p_rules q)) by done.
    by rewrite (sorted_items_unique _ (p_notify q)).
Qed.

(** ** Witnesses *)
Definition ex_measure : Measure :=
  mkMeasure "disk" "disk" "*" "*" 30 [GK_eqpId] scalar None None None
    [mkFact MAX None None None None].
Definition ex_cond (fact : string) (o : Operator) (v : Z) : Condition :=
  mkCondition fact o (VNum (num_of_Z v)) q_any None.
Definition ex_rule (id : string) (enabled : bool) : Rule :=
  mkRule id 5 CRITICAL AND [ex_cond "disk.max" OP_GE 95] "default" enabled.
Definition ex_channel : NotifyChannel := mkNotify 30 "RESOURCE_MONITOR" None gb_eqp None.
Definition ex_doc (sc : Scope) (enabled : bool) (ms : list Measure) (rs : list Rule) : MonitorProfile :=
  mkProfile None sc enabled (Governance_default 0) ms rs [("default", ex_channel)].

(** A disabled process document declares the rules [a] and [b]; an enabled
    equipment overlay re-declares only [b]. *)
Definition ex_base := ex_doc (mkScope "ETCH" "*" "*") false [ex_measure]
  [ex_rule "a" true; ex_rule "b" true].
Definition ex_overlay := ex_doc (mkScope "ETCH" "M1" "E1") true [] [ex_rule "b" true].
Definition ex_effective := fold_result 0 [ex_base; ex_overlay] (mkScope "ETCH" "M1" "E1").

Lemma fold_rule_active_witness :
  fold_profiles 0 [ex_base; ex_overlay] (mkScope "ETCH" "M1" "E1") = Ok ex_effective
  ∧ ¬ rule_active "a" ex_effective ∧ rule_active "b" ex_effective
  ∧ p_enabled ex_effective = true.
Proof.
  assert (fold_profiles 0 [ex_base; ex_overlay] (mkScope "ETCH" "M1" "E1")
          = Ok ex_effective) as Hf by (vm_compute; reflexivity).
  destruct (fold_rule_active _ _ _ _ Hf) as (Hact & Hdis & Hen).
  split; [exact Hf|]. split; [|split].
  - apply Hdis. intros p Hp. apply elem_of_cons in Hp as [->|Hp]; [intros _; reflexivity|].
    apply list_elem_of_singleton in Hp as ->. intros [r Hr]. vm_compute in Hr. discriminate Hr.
  - apply Hact. exists ex_overlay, (ex_rule "b" true). vm_compute. repeat split.
  - vm_compute. reflexivity.
Defined.

(** A legacy document: no [enabled], no governance, a removed channel key. *)
Definition ex_legacy : Doc :=
  mkDoc (Some "65a0") (Some [("process", "ETCH")]) None None (Some [ex_measure])
    (Some [ex_rule "a" true])
    (Some [("default", mkNotifyDoc ["representatives"] ex_channel)]).
Definition ex_loaded : MonitorProfile :=
  mkProfile (Some "65a0") (mkScope "ETCH" "*" "*") true (Governance_default 7)
    [Measure_with ex_measure [GK_eqpId; GK_proc] instance (m_facts ex_measure)]
    [ex_rule "a" true] [("default", ex_channel)].

Lemma from_mongo_roundtrip_witness :
  from_mongo 7 ex_legacy = Ok ex_loaded
  ∧ from_mongo 9 (to_mongo ex_loaded) = Ok (without_id ex_loaded).
Proof.
  assert (from_mongo 7 ex_legacy = Ok ex_loaded) as H by (vm_compute; reflexivity).
  split; [exact H|]. apply (from_mongo_roundtrip 7 9 _ _ H).
Defined.

Definition ex_cpu : Measure :=
  mkMeasure "cpu" "cpu" "total_used_pct" "@system" 15 [GK_eqpId] scalar None None None
    [mkFact MAX None None None None].
Definition ex_two (ms : list Measure) : MonitorProfile :=
  mkProfile None (mkScope "ETCH" "*" "*") true (Governance_default 0) ms
    [ex_rule "a" true] [("default", ex_channel)].
Definition ex_disk : Measure :=
  Measure_with ex_measure [GK_eqpId; GK_proc] instance (m_facts ex_measure).

Lemma signature_payload_spec_witness :
  signature_payload (ex_two [ex_disk; ex_cpu]) = signature_payload (ex_two [ex_cpu; ex_disk]).
Proof.
  apply signature_payload_spec.
  - apply (from_mongo_roundtrip_valid 0 (to_mongo (ex_two [ex_disk; ex_cpu]))).
    vm_compute. reflexivity.
  - apply (from_mongo_roundtrip_valid 0 (to_mongo (ex_two [ex_cpu; ex_disk]))).
    vm_compute. reflexivity.
  - repeat constructor. intros []%elem_of_nil.
  - repeat constructor. intros []%elem_of_nil.
  - split; [reflexivity|]. split; [apply Permutation_swap|]. split; reflexivity.
Defined.
