(* ===== verification/PyStr.v ===== *)
(** * Python strings

    A [str] is the string of its UTF-8 bytes.  The operations the code uses on
    patterns that are ASCII ([find], [replace], [startswith], the regular
    expressions) agree with those on code points; [upper], [lower] and [strip] treat
    ASCII letters and white space only. *)
From stdpp Require Import base list strings.
From Stdlib Require Import ZArith Lia Ascii Decimal DecimalZ.
From Stdlib Require String DecimalString.
From S2P Require Import Prelude.

Definition chars : string → list ascii := String.list_ascii_of_string.
Definition of_chars : list ascii → string := String.string_of_list_ascii.

Lemma of_chars_chars s : of_chars (chars s) = s.
Proof. apply String.string_of_list_ascii_of_string. Qed.

Lemma chars_of_chars l : chars (of_chars l) = l.
Proof. apply String.list_ascii_of_string_of_list_ascii. Qed.

Lemma chars_app a b : chars (a +:+ b) = chars a ++ chars b.
Proof. induction a as [|c a IH]; [done|]. rewrite str_app_cons. simpl. by rewrite <-IH. Qed.

(** [len(s.encode())] *)
Definition byte_len (s : string) : nat := length (chars s).

Lemma byte_len_app a b : byte_len (a +:+ b) = byte_len a + byte_len b.
Proof. unfold byte_len. by rewrite chars_app, length_app. Qed.

(** [str(n)] of an int *)
Definition str_Z (n : Z) : string := DecimalString.NilEmpty.string_of_int (Z.to_int n).

(** What is left of [s] after [p]. *)
Fixpoint strip_prefix (p s : string) : option string :=
  match p, s with
  | EmptyString, _ => Some s
  | String a p', String b s' => if decide (a = b) then strip_prefix p' s' else None
  | String _ _, EmptyString => None
  end.

Definition startswith (p s : string) : bool := bool_decide (is_Some (strip_prefix p s)).

(** [s.find(p)]: the text before the first occurrence of [p], and after it. *)
Fixpoint split_first (p s : string) : option (string * string) :=
  match strip_prefix p s with
  | Some post => Some ("", post)
  | None =>
      match s with
      | EmptyString => None
      | String c s' => prod_map (String c) id <$> split_first p s'
      end
  end.

(** [p in s] *)
Definition contains (p s : string) : bool := bool_decide (is_Some (split_first p s)).

(** [s.replace(p, new)] of a non-empty [p]: fuel is the length of [s]. *)
Fixpoint replace_fuel (fuel : nat) (p new s : string) : string :=
  match fuel with
  | 0 => s
  | S fuel =>
      match split_first p s with
      | None => s
      | Some (pre, post) => pre +:+ new +:+ replace_fuel fuel p new post
      end
  end.
Definition replace (p new s : string) : string := replace_fuel (byte_len s) p new s.

(** Every character by [f]. *)
Definition map_chars (f : ascii → string) (s : string) : string :=
  foldr (λ c acc, f c +:+ acc) "" (chars s).

Definition is_upper (c : ascii) : bool :=
  bool_decide (65 ≤ nat_of_ascii c ∧ nat_of_ascii c ≤ 90).
Definition is_lower (c : ascii) : bool :=
  bool_decide (97 ≤ nat_of_ascii c ∧ nat_of_ascii c ≤ 122).
Definition is_alpha (c : ascii) : bool := is_upper c || is_lower c.

Definition upper (s : string) : string :=
  of_chars ((λ c, if is_lower c then ascii_of_nat (nat_of_ascii c - 32) else c) <$> chars s).
Definition lower (s : string) : string :=
  of_chars ((λ c, if is_upper c then ascii_of_nat (nat_of_ascii c + 32) else c) <$> chars s).

Definition is_space (c : ascii) : bool :=
  let n := nat_of_ascii c in bool_decide (n = 32 ∨ 9 ≤ n ≤ 13 ∨ 28 ≤ n ≤ 31).

Fixpoint drop_while (f : ascii → bool) (l : list ascii) : list ascii :=
  match l with
  | [] => []
  | c :: l' => if f c then drop_while f l' else l
  end.

(** [s.strip()] *)
Definition strip (s : string) : string :=
  of_chars (reverse (drop_while is_space (reverse (drop_while is_space (chars s))))).

(** [sep.join(l)] *)
Fixpoint join (sep : string) (l : list string) : string :=
  match l with
  | [] => ""
  | [s] => s
  | s :: l' => s +:+ sep +:+ join sep l'
  end.

(** The double quote, which a string literal cannot hold alone. *)
Definition dquote : ascii := ascii_of_nat 34.
Definition dq : string := String dquote "".

(** ** Lemmas *)
Lemma strip_prefix_Some p s post : strip_prefix p s = Some post → s = p +:+ post.
Proof.
  revert s. induction p as [|a p IH]; intros s; [by intros [= ->]|].
  destruct s as [|b s]; [done|]. simpl. case_decide; [|done]. subst. intros Hs%IH.
  by rewrite str_app_cons, Hs.
Qed.

Lemma strip_prefix_app p s : strip_prefix p (p +:+ s) = Some s.
Proof.
  induction p as [|a p IH]; [done|]. rewrite str_app_cons. simpl. by rewrite decide_True.
Qed.

Lemma split_first_Some p s pre post : split_first p s = Some (pre, post) → s = pre +:+ p +:+ post.
Proof.
  revert pre. induction s as [|c s IH]; intros pre; simpl.
  - destruct (strip_prefix p "") eqn:E; [|done]. intros [= <- <-].
    by apply strip_prefix_Some in E.
  - destruct (strip_prefix p (String c s)) eqn:E.
    + intros [= <- <-]. by apply strip_prefix_Some in E.
    + intros ([pre' post'] & Hs & [= -> ->])%fmap_Some. apply IH in Hs.
      unfold id. by rewrite str_app_cons, <-Hs.
Qed.

Lemma map_chars_elem f s c :
  c ∈ chars (map_chars f s) → ∃ a, a ∈ chars s ∧ c ∈ chars (f a).
Proof.
  unfold map_chars. induction (chars s) as [|a l IH]; simpl; [by intros ?%elem_of_nil|].
  rewrite chars_app, elem_of_app. intros [Hc|Hc].
  - exists a. split; [left|done].
  - destruct (IH Hc) as (a' & ? & ?). exists a'. split; [by right|done].
Qed.

(** What [replace] writes comes from the text or the replacement. *)
Lemma replace_elem p new s c : c ∈ chars (replace p new s) → c ∈ chars s ∨ c ∈ chars new.
Proof.
  unfold replace. generalize (byte_len s) as fuel. intros fuel. revert s.
  induction fuel as [|fuel IH]; intros s; [by left|]. simpl.
  destruct (split_first p s) as [[pre post]|] eqn:E; [|by left].
  apply split_first_Some in E as ->. rewrite !chars_app, !elem_of_app.
  intros [Hc|[Hc|Hc%IH]]; tauto.
Qed.

Lemma drop_while_elem f l c : c ∈ drop_while f l → c ∈ l.
Proof.
  induction l as [|a l IH]; simpl; [done|]. case_match; [|done]. intros Hc. right. auto.
Qed.

Lemma strip_elem s c : c ∈ chars (strip s) → c ∈ chars s.
Proof.
  unfold strip. rewrite chars_of_chars, elem_of_reverse.
  intros Hc%drop_while_elem. rewrite elem_of_reverse in Hc. by apply drop_while_elem in Hc.
Qed.

Lemma split_first_char a s :
  match split_first (String a "") s with
  | None => a ∉ chars s
  | Some (pre, _) => a ∉ chars pre
  end.
Proof.
  induction s as [|c s IH]; simpl; [by intros ?%elem_of_nil|].
  case_decide as Hac; [by intros ?%elem_of_nil|].
  destruct (split_first (String a "") s) as [[pre post]|]; simpl;
    by intros [?|?]%elem_of_cons.
Qed.

(** Every occurrence of a character is replaced. *)
Lemma replace_removes a new s :
  a ∉ chars new → a ∉ chars (replace (String a "") new s).
Proof.
  intros Hn. unfold replace.
  assert (byte_len s ≤ byte_len s) as Hf by done. revert Hf.
  generalize (byte_len s) at 2 3 as fuel. intros fuel. revert s.
  induction fuel as [|fuel IH]; intros s Hf; simpl.
  - unfold byte_len in Hf. destruct s; simpl in *; [by intros ?%elem_of_nil|lia].
  - pose proof (split_first_char a s) as Hs.
    destruct (split_first (String a "") s) as [[pre post]|] eqn:E; [|done].
    apply split_first_Some in E as ->. rewrite !byte_len_app in Hf.
    rewrite !chars_app, !elem_of_app. intros [?|[?|Hc]]; [done|done|].
    revert Hc. apply IH. unfold byte_len in Hf at 2. simpl in Hf. lia.
Qed.

(** ** [s.rpartition(c)] and [s.split(c)] for one character *)
Definition has_char (c : ascii) (s : string) : bool :=
  existsb (λ a, bool_decide (a = c)) (chars s).

(** Before and after the last [c]; [None] when there is none. *)
Fixpoint rpartition (c : ascii) (s : string) : option (string * string) :=
  match s with
  | EmptyString => None
  | String a s' =>
      match rpartition c s' with
      | Some (x, y) => Some (String a x, y)
      | None => if decide (a = c) then Some ("", s') else None
      end
  end.

Lemma rpartition_None c s : has_char c s = false → rpartition c s = None.
Proof.
  induction s as [|a s IH]; [done|]. cbn. intros [Ha Hs]%orb_false_elim.
  rewrite IH by done. apply bool_decide_eq_false in Ha. by rewrite decide_False.
Qed.

Lemma rpartition_app c a b :
  has_char c b = false → rpartition c (a +:+ String c "" +:+ b) = Some (a, b).
Proof.
  intros Hb. induction a as [|x a IH].
  - rewrite str_app_nil, str_app_cons, str_app_nil. simpl.
    by rewrite rpartition_None, decide_True.
  - rewrite str_app_cons. simpl. by rewrite IH.
Qed.

(** [s.split(c)]: never empty. *)
Fixpoint split_char (c : ascii) (s : string) : list string :=
  match s with
  | EmptyString => [""]
  | String a s' =>
      if decide (a = c) then "" :: split_char c s'
      else match split_char c s' with
           | [] => [String a ""]
           | x :: l => String a x :: l
           end
  end.
