(* ===== verification/PyFloat.v ===== *)
(** * Python floats as text

    A finite [float] is [Fin m e] in lowest terms ([norm]): an integer has [e = 0], any
    other value an odd [m] and a negative [e].  The sign of a zero is not kept.
    [scan_number] reads the number a text starts with, as the JSON scanner and [float]
    do: an [int] exactly, a [float] rounded to the nearest double, ties to even.
    [float_repr] is [repr]: the shortest digits that read back as the number. *)
From stdpp Require Import base list strings.
From Stdlib Require Import ZArith Znumtheory Zpow_facts Lia Ascii Decimal DecimalZ.
From Stdlib Require String DecimalString DecimalFacts.
From S2P Require Import Prelude PyNum PyStr.
Local Open Scope Z_scope.

(** ** Doubles *)

(** [m * 2^e] in lowest terms *)
Definition norm (m e : Z) : num :=
  if bool_decide (0 ≤ e) then Fin (m * 2 ^ e) 0
  else let g := Z.gcd m (2 ^ (- e)) in Fin (m / g) (e + Z.log2 g).

(** The finite doubles, minus zero aside. *)
Definition is_double (x : num) : Prop :=
  ∃ m e, Z.abs m < 2 ^ 53 ∧ -1074 ≤ e ≤ 971 ∧ x = norm m e.

(** [2^k <= n/d], for a [k] of either sign *)
Definition pow2_le_ratio (k n d : Z) : bool :=
  bool_decide (d * 2 ^ Z.max 0 k ≤ n * 2 ^ Z.max 0 (- k)).

(** [floor (log2 (n/d))] *)
Definition log2_ratio (n d : Z) : Z :=
  let k := Z.log2 n - Z.log2 d in if pow2_le_ratio k n d then k else k - 1.

(** The double nearest to [n/d] (both positive), ties to even. *)
Definition round_ratio (n d : Z) : num :=
  let e := Z.max (-1074) (log2_ratio n d - 52) in
  let N := n * 2 ^ Z.max 0 (- e) in
  let D := d * 2 ^ Z.max 0 e in
  let q := N / D in
  let r := N mod D in
  let q := if bool_decide (D < 2 * r ∨ 2 * r = D ∧ Z.odd q = true) then q + 1 else q in
  if bool_decide (1024 ≤ Z.log2 q + e) then PosInf else norm q e.

Definition num_opp (x : num) : num :=
  match x with
  | Fin m e => if bool_decide (m = 0) then Fin 0 (- 1 - e) else Fin (- m) e
  | PosInf => NegInf
  | NegInf => PosInf
  | NaN => NaN
  end.

(** The double nearest to [c * 10^j], with a sign. *)
Definition round_dec (neg : bool) (c j : Z) : num :=
  let x := if bool_decide (c = 0) then Fin 0 0
           else if bool_decide (0 ≤ j) then round_ratio (c * 10 ^ j) 1
           else round_ratio c (10 ^ (- j)) in
  if neg then num_opp x else x.

#[global] Arguments round_dec : simpl never.

(** [float(x)]: an [int] is rounded, [None] is the [OverflowError] of one that is too
    large; a [float] stays ([to_float_double]). *)
Definition to_float (x : num) : option num :=
  match x with
  | Fin m 0 =>
      match round_dec (bool_decide (m < 0)) (Z.abs m) 0 with Fin m e => Some (Fin m e) | _ => None end
  | _ => Some x
  end.
#[global] Arguments to_float : simpl never.

(** ** Reading *)
Inductive number : Type := NInt (z : Z) | NFloat (x : num).

Definition digit_of (c : ascii) : option Z :=
  let n := Z.of_nat (nat_of_ascii c) in
  if bool_decide (48 ≤ n ≤ 57) then Some (n - 48) else None.

(** The digits a text starts with, and the rest. *)
Fixpoint span_digits (l : list ascii) : list Z * list ascii :=
  match l with
  | [] => ([], [])
  | c :: l' =>
      match digit_of c with
      | Some d => let '(ds, r) := span_digits l' in (d :: ds, r)
      | None => ([], l)
      end
  end.

Definition digits_val (ds : list Z) : Z := foldl (λ acc d, 10 * acc + d) 0 ds.

Definition signed (neg : bool) (z : Z) : Z := if neg then - z else z.

(** [-?] *)
Definition scan_minus (l : list ascii) : bool * list ascii :=
  match l with "-"%char :: l' => (true, l') | _ => (false, l) end.

(** [0|[1-9]\d*] *)
Definition scan_int_part (l : list ascii) : list Z * list ascii :=
  match l with "0"%char :: l' => ([0], l') | _ => span_digits l end.

(** [(\.\d+)?] *)
Definition scan_fraction (l : list ascii) : list Z * list ascii :=
  match l with
  | "."%char :: l' => let '(ds, r) := span_digits l' in
                      if bool_decide (ds = []) then ([], l) else (ds, r)
  | _ => ([], l)
  end.

(** A sign, and what follows it. *)
Definition scan_sign (l : list ascii) : bool * list ascii :=
  match l with
  | "-"%char :: l' => (true, l')
  | "+"%char :: l' => (false, l')
  | _ => (false, l)
  end.

(** [([eE][-+]?\d+)?] *)
Definition scan_exponent (l : list ascii) : option Z * list ascii :=
  match l with
  | c :: l' =>
      if bool_decide (c = "e"%char ∨ c = "E"%char) then
        let '(neg, l'') := scan_sign l' in
        let '(ds, r) := span_digits l'' in
        if bool_decide (ds = []) then (None, l) else (Some (signed neg (digits_val ds)), r)
      else (None, l)
  | [] => (None, l)
  end.

(** The number a text without a sign starts with, and what follows. *)
Definition scan_unsigned (neg : bool) (l : list ascii) : option (number * list ascii) :=
  let '(ip, l2) := scan_int_part l in
  if bool_decide (ip = []) then None
  else
    let '(fp, l3) := scan_fraction l2 in
    let '(ex, l4) := scan_exponent l3 in
    Some (match fp, ex with
          | [], None => NInt (signed neg (digits_val ip))
          | _, _ => NFloat (round_dec neg (digits_val (ip ++ fp))
                              (default 0 ex - Z.of_nat (length fp)))
          end, l4).

Definition scan_number (l : list ascii) : option (number * list ascii) :=
  let '(neg, l') := scan_minus l in scan_unsigned neg l'.

(** [int(s)] of a decimal text: white space around it, a sign, and single underscores
    between digits are allowed. *)
Fixpoint drop_underscores (after_digit : bool) (l : list ascii) : option (list ascii) :=
  match l with
  | [] => if after_digit then Some [] else None
  | c :: l =>
      if bool_decide (c = "_"%char)
      then if after_digit then drop_underscores false l else None
      else cons c <$> drop_underscores true l
  end.

Definition py_nat (s : string) : option Z :=
  digits ← drop_underscores false (chars s);
  d ← DecimalString.NilEmpty.uint_of_string (of_chars digits); Some (Z.of_uint d).

Definition py_int (s : string) : option Z :=
  match strip s with
  | String "-" digits => Z.opp <$> py_nat digits
  | String "+" digits => py_nat digits
  | digits => py_nat digits
  end.

(** [float(s)]: like [int], or an infinity or a NaN in any case, or digits around an
    optional point with an optional exponent. *)
Fixpoint drop_inner_underscores (after_digit : bool) (l : list ascii) : option (list ascii) :=
  match l with
  | [] => Some []
  | "_"%char :: l' =>
      match l' with
      | c :: _ => if after_digit && bool_decide (is_Some (digit_of c))
                  then drop_inner_underscores false l' else None
      | [] => None
      end
  | c :: l' => cons c <$> drop_inner_underscores (bool_decide (is_Some (digit_of c))) l'
  end.

Definition float_of_digits (neg : bool) (l : list ascii) : option num :=
  let '(ip, l2) := span_digits l in
  let '(fp, l3) := match l2 with "."%char :: l' => span_digits l' | _ => ([], l2) end in
  let '(ex, l4) := scan_exponent l3 in
  if bool_decide (ip ++ fp = [] ∨ l4 ≠ []) then None
  else Some (round_dec neg (digits_val (ip ++ fp)) (default 0 ex - Z.of_nat (length fp))).

Definition py_float (s : string) : option num :=
  let '(neg, l) := scan_sign (chars (lower (strip s))) in
  if bool_decide (l = chars "inf" ∨ l = chars "infinity") then
    Some (if neg : bool then NegInf else PosInf)
  else if bool_decide (l = chars "nan") then Some NaN
  else l' ← drop_inner_underscores false l; float_of_digits neg l'.

(** ** Writing *)
Definition zeros (n : Z) : string := of_chars (replicate (Z.to_nat n) "0"%char).

(** [repr] of the digits [c] at [10^j]: fixed notation for a decimal point at -3 to 16,
    else an exponent of at least two digits. *)
Definition format_float (c j : Z) : string :=
  let ds := chars (str_Z c) in
  let n := Z.of_nat (length ds) in
  let point := n + j in
  if bool_decide (-4 < point ≤ 16) then
    if bool_decide (point ≤ 0) then "0." +:+ zeros (- point) +:+ of_chars ds
    else if bool_decide (n ≤ point) then of_chars ds +:+ zeros (point - n) +:+ ".0"
    else of_chars (take (Z.to_nat point) ds) +:+ "." +:+ of_chars (drop (Z.to_nat point) ds)
  else
    let ex := point - 1 in
    of_chars (take 1 ds)
    +:+ (if bool_decide (n = 1) then "" else "." +:+ of_chars (drop 1 ds))
    +:+ "e" +:+ (if bool_decide (ex < 0) then "-" else "+")
    +:+ (if bool_decide (Z.abs ex < 10) then "0" else "") +:+ str_Z (Z.abs ex).

(** The integers around [m * 2^e / 10^j], the nearest first. *)
Definition around (m e j : Z) : list Z :=
  let n := m * 2 ^ Z.max 0 e * 10 ^ Z.max 0 (- j) in
  let d := 2 ^ Z.max 0 (- e) * 10 ^ Z.max 0 j in
  let c := n / d in
  let r := n mod d in
  if bool_decide (2 * r < d ∨ 2 * r = d ∧ Z.odd c = false) then [c; c + 1] else [c + 1; c].

Definition reads_back (x : num) (s : string) : bool :=
  match scan_unsigned false (chars s) with
  | Some (NFloat y, []) => bool_decide (y = x)
  | _ => false
  end.

(** Of the digits at [10^j], [10^(j-1)], ...: the first that read back. *)
Fixpoint search_digits (fuel : nat) (m e j : Z) : option (Z * Z) :=
  match fuel with
  | O => None
  | S fuel =>
      match list_find (λ c, 0 < c ∧ Is_true (reads_back (Fin m e) (format_float c j))) (around m e j) with
      | Some (_, c) => Some (c, j)
      | None => search_digits fuel m e (j - 1)
      end
  end.

(** The shortest digits of a positive number: they start at its leading digit
    ([30103/100000] is [log10 2] rounded up) and at [min 0 e] they are exact. *)
Definition shortest (m e : Z) : option (Z * Z) :=
  let top := (Z.log2 m + e) * 30103 / 100000 + 1 in
  search_digits (Z.to_nat (top - Z.min 0 e + 1)) m e top.

(** [m * 2^e] with all its digits.  (Seventeen always read back, so [repr] never needs
    it; it keeps the function total without that bound.) *)
Definition exact_digits (m e : Z) : Z * Z :=
  if bool_decide (0 ≤ e) then (m * 2 ^ e, 0) else (m * 5 ^ (- e), e).

Definition exact_text (m e : Z) : string :=
  let '(c, j) := exact_digits m e in
  str_Z c +:+ "e" +:+ (if bool_decide (j < 0) then "-" else "") +:+ str_Z (Z.abs j).

Definition repr_pos (m e : Z) : string :=
  match shortest m e with Some (c, j) => format_float c j | None => exact_text m e end.

(** [repr(x)] and [str(x)] *)
Definition float_repr (x : num) : string :=
  match x with
  | Fin m e =>
      if bool_decide (m = 0) then if bool_decide (e < 0) then "-0.0" else "0.0"
      else if bool_decide (m < 0) then "-" +:+ repr_pos (- m) e else repr_pos m e
  | PosInf => "inf"
  | NegInf => "-inf"
  | NaN => "nan"
  end.


Example repr_examples :
  float_repr (norm 1 (-1)) = "0.5" ∧ float_repr (norm 100 0) = "100.0"
  ∧ float_repr (norm 3602879701896397 (-55)) = "0.1"
  ∧ float_repr (norm 7317624332587241 (-22)) = "1744657595.7744696"
  ∧ float_repr (num_opp (Fin 0 0)) = "-0.0" ∧ float_repr (norm (-1) 80) = "-1.2089258196146292e+24"
  ∧ float_repr (norm 1 (-20)) = "9.5367431640625e-07".
Proof. vm_compute. done. Qed.

Example py_number_examples :
  py_int " -1_0 " = Some (-10) ∧ py_int "1__0" = None ∧ py_int "" = None
  ∧ py_float "+.5e1" = Some (Fin 5 0) ∧ py_float "1_0." = Some (Fin 10 0)
  ∧ py_float "-Infinity" = Some NegInf ∧ py_float "1_" = None ∧ py_float "." = None.
Proof. vm_compute. done. Qed.

Example scan_examples :
  scan_number (chars "12.50]") = Some (NFloat (norm 25 (-1)), ["]"%char])
  ∧ scan_number (chars "-7") = Some (NInt (-7), [])
  ∧ scan_number (chars "01") = Some (NInt 0, ["1"%char])
  ∧ scan_number (chars "1e400") = Some (NFloat PosInf, [])
  ∧ scan_number (chars "0.1") = Some (NFloat (norm 3602879701896397 (-55)), [])
  ∧ scan_number (chars "-") = None.
Proof. vm_compute. done. Qed.

(** ** Rounding is exact on doubles *)
Lemma norm_shift m e k : 0 ≤ k → norm (m * 2 ^ k) (e - k) = norm m e.
Proof.
  intros Hk. unfold norm. repeat case_bool_decide; try lia.
  - f_equal. rewrite <-Z.mul_assoc, <-Z.pow_add_r by lia. do 2 f_equal. lia.
  - assert (m * 2 ^ k = m * 2 ^ e * 2 ^ (- (e - k))) as ->.
    { rewrite <-Z.mul_assoc, <-Z.pow_add_r by lia. do 2 f_equal. lia. }
    set (p := 2 ^ (- (e - k))). assert (0 < p) by (apply Z.pow_pos_nonneg; lia).
    rewrite Z.gcd_comm, (Z.mul_comm _ p), Z.gcd_mul_diag_l by lia.
    rewrite (Z.mul_comm p), Z.div_mul by lia.
    unfold p. rewrite Z.log2_pow2 by lia. f_equal. lia.
  - replace (- (e - k)) with (- e + k) by lia. rewrite Z.pow_add_r by lia.
    rewrite Z.gcd_mul_mono_r_nonneg by (apply Z.pow_nonneg; lia).
    set (g := Z.gcd m (2 ^ (- e))).
    assert (0 < 2 ^ k) by (apply Z.pow_pos_nonneg; lia).
    assert (0 < g).
    { assert (g ≠ 0); [|pose proof (Z.gcd_nonneg m (2 ^ (- e))); lia].
      intros [_ E]%Z.gcd_eq_0. pose proof (Z.pow_pos_nonneg 2 (- e)). lia. }
    rewrite Z.div_mul_cancel_r by lia. rewrite Z.log2_mul_pow2 by lia. f_equal. lia.
Qed.

(** Both sides of [d * 2^k <= n] scaled by [2^s]. *)
Lemma pow2_le_ratio_scaled k s n d :
  0 ≤ k + s → 0 ≤ s → pow2_le_ratio k n d = true → d * 2 ^ (k + s) ≤ n * 2 ^ s.
Proof.
  unfold pow2_le_ratio. intros Hks Hs ?%bool_decide_eq_true.
  assert (k + s = Z.max 0 k + (s - Z.max 0 (- k))) as -> by lia.
  assert (s = Z.max 0 (- k) + (s - Z.max 0 (- k))) as E by lia.
  rewrite E at 2. rewrite !Z.pow_add_r, !Z.mul_assoc by lia.
  apply Z.mul_le_mono_nonneg_r; [apply Z.pow_nonneg; lia|done].
Qed.

Lemma log2_ratio_le n d s :
  0 < n → 0 < d → 0 ≤ s → 0 ≤ log2_ratio n d + s →
  d * 2 ^ (log2_ratio n d + s) ≤ n * 2 ^ s.
Proof.
  intros Hn Hd Hs. unfold log2_ratio. case_match eqn:E; intros Hk.
  - by apply pow2_le_ratio_scaled.
  - pose proof (Z.log2_spec n Hn) as [Hln _]. pose proof (Z.log2_spec d Hd) as [_ Hld].
    trans (2 ^ Z.succ (Z.log2 d) * 2 ^ (Z.log2 n - Z.log2 d - 1 + s)).
    { apply Z.mul_le_mono_nonneg_r; [apply Z.pow_nonneg; lia|lia]. }
    pose proof (Z.log2_nonneg d). pose proof (Z.log2_nonneg n).
    rewrite <-Z.pow_add_r by lia.
    replace (Z.succ (Z.log2 d) + (Z.log2 n - Z.log2 d - 1 + s)) with (Z.log2 n + s) by lia.
    rewrite Z.pow_add_r by lia. apply Z.mul_le_mono_nonneg_r; [apply Z.pow_nonneg; lia|done].
Qed.

(** A ratio that is a double is rounded to it. *)
Lemma round_ratio_exact n d m e :
  0 < n → 0 < d → 0 < m < 2 ^ 53 → -1074 ≤ e ≤ 971 →
  n * 2 ^ Z.max 0 (- e) = m * d * 2 ^ Z.max 0 e → round_ratio n d = norm m e.
Proof.
  intros Hn Hd Hm He E.
  assert (log2_ratio n d ≤ 52 + e) as Hk.
  { destruct (decide (log2_ratio n d ≤ 52 + e)) as [|Hgt]; [done|exfalso].
    set (s := Z.max 0 (- e)).
    pose proof (log2_ratio_le n d s Hn Hd ltac:(lia) ltac:(lia)) as Hl.
    unfold s in Hl at 2. rewrite E in Hl.
    assert (m * d * 2 ^ Z.max 0 e < d * 2 ^ (53 + e + s)).
    { replace (53 + e + s) with (53 + Z.max 0 e) by lia. rewrite Z.pow_add_r by lia.
      pose proof (Z.pow_pos_nonneg 2 (Z.max 0 e)). nia. }
    assert (d * 2 ^ (53 + e + s) ≤ d * 2 ^ (log2_ratio n d + s)); [|lia].
    apply Z.mul_le_mono_nonneg_l; [lia|]. apply Z.pow_le_mono_r; lia. }
  unfold round_ratio. set (e' := Z.max (-1074) (log2_ratio n d - 52)).
  assert (e' ≤ e) as Hee by lia. clearbody e'.
  set (D := d * 2 ^ Z.max 0 e').
  assert (n * 2 ^ Z.max 0 (- e') = m * 2 ^ (e - e') * D) as ->.
  { unfold D. apply (Z.mul_cancel_r _ _ (2 ^ Z.max 0 (- e))).
    { pose proof (Z.pow_pos_nonneg 2 (Z.max 0 (- e))). lia. }
    transitivity (n * 2 ^ Z.max 0 (- e) * 2 ^ Z.max 0 (- e')); [ring|]. rewrite E.
    transitivity (m * d * (2 ^ Z.max 0 e * 2 ^ Z.max 0 (- e'))); [ring|].
    transitivity (m * d * (2 ^ (e - e') * 2 ^ Z.max 0 e' * 2 ^ Z.max 0 (- e))); [|ring].
    rewrite <-!Z.pow_add_r by lia. do 2 f_equal. lia. }
  assert (0 < D) by (apply Z.mul_pos_pos; [lia|apply Z.pow_pos_nonneg; lia]).
  rewrite Z.div_mul, Z.mod_mul by lia.
  rewrite (bool_decide_eq_false_2 (_ ∨ _)) by (intros [?|[? _]]; lia).
  rewrite Z.log2_mul_pow2 by lia. rewrite bool_decide_eq_false_2.
  - replace e' with (e - (e - e')) at 2 by lia. apply norm_shift. lia.
  - pose proof (Z.log2_lt_pow2 m 53). lia.
Qed.

(** ** Digits *)

(** The rest of a text does not go on with a digit. *)
Definition no_digit (l : list ascii) : Prop :=
  match l with c :: _ => digit_of c = None | [] => True end.

Lemma span_digits_app ds l rest :
  span_digits l = (ds, []) → no_digit rest → span_digits (l ++ rest) = (ds, rest).
Proof.
  revert ds. induction l as [|c l IH]; intros ds; simpl.
  - intros [= <-] Hr. destruct rest as [|c rest]; [done|]. simpl in *. by rewrite Hr.
  - destruct (digit_of c); [|done]. destruct (span_digits l) as [ds' r].
    intros [= <- ->] Hr. by rewrite (IH ds').
Qed.

Lemma span_digits_rest l ds c r rest :
  span_digits l = (ds, c :: r) → span_digits (l ++ rest) = (ds, c :: r ++ rest).
Proof.
  revert ds. induction l as [|a l IH]; intros ds; simpl; [done|].
  destruct (digit_of a); [|by intros [= <- -> ->]].
  destruct (span_digits l) as [ds' r']. intros [= <- ->]. by rewrite (IH ds').
Qed.

Lemma digits_val_app ds ds' :
  digits_val (ds ++ ds') = foldl (λ acc d, 10 * acc + d) (digits_val ds) ds'.
Proof. unfold digits_val. by rewrite foldl_app. Qed.

(** The characters of a decimal are its digits. *)
Fixpoint uint_digits (d : uint) : list Z :=
  match d with
  | Nil => []
  | D0 d => 0 :: uint_digits d | D1 d => 1 :: uint_digits d | D2 d => 2 :: uint_digits d
  | D3 d => 3 :: uint_digits d | D4 d => 4 :: uint_digits d | D5 d => 5 :: uint_digits d
  | D6 d => 6 :: uint_digits d | D7 d => 7 :: uint_digits d | D8 d => 8 :: uint_digits d
  | D9 d => 9 :: uint_digits d
  end.

Lemma span_uint d :
  span_digits (chars (DecimalString.NilEmpty.string_of_uint d)) = (uint_digits d, []).
Proof. induction d; simpl; rewrite ?IHd; done. Qed.

Lemma uint_digits_acc d p :
  foldl (λ acc d, 10 * acc + d) (Z.pos p) (uint_digits d) = Z.pos (Pos.of_uint_acc d p).
Proof.
  revert p. induction d; intros p; [done|..]; cbn [uint_digits foldl Pos.of_uint_acc];
    rewrite <-IHd; f_equal; lia.
Qed.

Lemma uint_digits_val d : digits_val (uint_digits d) = Z.of_uint d.
Proof.
  unfold digits_val. induction d; [done|..]; cbn [uint_digits foldl];
    [exact IHd|..];
    match goal with |- foldl _ ?a _ = _ => let a' := eval cbv in a in change a with a' end;
    by rewrite uint_digits_acc.
Qed.

Lemma to_int_pos z :
  0 < z → ∃ d, Z.to_int z = Decimal.Pos d ∧ Z.of_uint d = z ∧ d ≠ Nil ∧ ∀ d', d ≠ D0 d'.
Proof.
  intros Hz. pose proof (DecimalZ.of_to z) as Hof.
  pose proof (DecimalZ.to_of (Z.to_int z)) as Hto. rewrite Hof in Hto.
  destruct z as [|p|p]; [lia| |lia]. simpl in *. exists (Pos.to_uint p).
  split; [done|]. split; [done|].
  assert (Pos.to_uint p ≠ Nil) as Hne by (intros E; by rewrite E in Hof).
  split; [done|]. intros d' E. rewrite E in Hof, Hto. injection Hto as Hto.
  simpl in Hof. unfold unorm in Hto. simpl in Hto.
  destruct (nzhead d') eqn:En; try discriminate.
  - injection Hto as ->. done.
  - by apply (DecimalFacts.nzhead_nonzero d' u).
Qed.

(** The text of a non-negative integer. *)
Lemma span_str_Z z :
  0 ≤ z → ∃ ds, span_digits (chars (str_Z z)) = (ds, []) ∧ digits_val ds = z ∧ ds ≠ [].
Proof.
  intros Hz. destruct (decide (z = 0)) as [->|Hne]; [by exists [0]|].
  destruct (to_int_pos z) as (d & Hd & Hv & Hn & _); [lia|].
  exists (uint_digits d). unfold str_Z. rewrite Hd. cbn [DecimalString.NilEmpty.string_of_int].
  rewrite span_uint, uint_digits_val. split_and!; [done..|]. by destruct d.
Qed.

(** As the integer part of a number, it has no leading zero. *)
Lemma scan_int_part_str_Z z rest :
  0 ≤ z → no_digit rest →
  ∃ ds, scan_int_part (chars (str_Z z) ++ rest) = (ds, rest) ∧ digits_val ds = z ∧ ds ≠ [].
Proof.
  intros Hz Hr. destruct (decide (z = 0)) as [->|Hne]; [by exists [0]|].
  destruct (to_int_pos z) as (d & Hd & Hv & Hn & H0); [lia|].
  exists (uint_digits d). unfold str_Z. rewrite Hd. cbn [DecimalString.NilEmpty.string_of_int].
  split; [|split; [by rewrite uint_digits_val|by destruct d]].
  assert (∀ l, scan_int_part (chars (DecimalString.NilEmpty.string_of_uint d) ++ l)
    = span_digits (chars (DecimalString.NilEmpty.string_of_uint d) ++ l)) as ->.
  { intros l. destruct d; [done|by edestruct H0|done..]. }
  apply span_digits_app; [apply span_uint|done].
Qed.

(** ** A number is read up to where it ends *)
Definition number_ends (l : list ascii) : Prop :=
  match l with
  | c :: _ => digit_of c = None ∧ c ≠ "."%char ∧ c ≠ "e"%char ∧ c ≠ "E"%char
  | [] => True
  end.

Lemma number_ends_no_digit l : number_ends l → no_digit l.
Proof. destruct l; [done|]. by intros []. Qed.

Lemma span_app l ds r rest :
  span_digits l = (ds, r) → no_digit rest → span_digits (l ++ rest) = (ds, r ++ rest).
Proof.
  intros Hl Hr. destruct r as [|c r]; [by apply span_digits_app|by apply span_digits_rest].
Qed.

Lemma scan_int_part_app l ip r rest :
  scan_int_part l = (ip, r) → ip ≠ [] → no_digit rest →
  scan_int_part (l ++ rest) = (ip, r ++ rest).
Proof.
  intros Hl Hip Hr. destruct l as [|c l]; [simpl in Hl; congruence|].
  destruct (decide (c = "0"%char)) as [->|Hc].
  - simpl in *. by injection Hl as <- <-.
  - assert (∀ l', scan_int_part (c :: l') = span_digits (c :: l')) as E.
    { intros l'. unfold scan_int_part.
      destruct c as [[] [] [] [] [] [] [] []]; first [done|by destruct Hc]. }
    rewrite E in Hl. rewrite <-app_comm_cons, E. by apply (span_app (c :: l)).
Qed.

Lemma scan_fraction_app l fp r rest :
  scan_fraction l = (fp, r) → number_ends rest → scan_fraction (l ++ rest) = (fp, r ++ rest).
Proof.
  intros Hl Hr. destruct l as [|c l].
  - injection Hl as <- <-. destruct rest as [|c rest]; [done|]. destruct Hr as (_ & Hc & _).
    unfold scan_fraction. simpl. destruct c as [[] [] [] [] [] [] [] []]; first [done|by destruct Hc].
  - destruct (decide (c = "."%char)) as [->|Hc].
    + simpl in *. destruct (span_digits l) as [ds r'] eqn:E.
      rewrite (span_app l ds r' rest E) by by apply number_ends_no_digit.
      case_bool_decide; by injection Hl as <- <-.
    + assert (∀ l', scan_fraction (c :: l') = ([], c :: l')) as Hx.
      { intros l'. unfold scan_fraction.
        destruct c as [[] [] [] [] [] [] [] []]; first [done|by destruct Hc]. }
      rewrite <-app_comm_cons, Hx in *. by injection Hl as <- <-.
Qed.

Lemma scan_exponent_app l ex rest :
  scan_exponent l = (ex, []) → number_ends rest → scan_exponent (l ++ rest) = (ex, rest).
Proof.
  intros Hl Hr. destruct l as [|c l].
  - injection Hl as <-. destruct rest as [|c rest]; [done|]. destruct Hr as (_ & _ & He & HE).
    simpl. by rewrite bool_decide_eq_false_2 by tauto.
  - simpl in *. case_bool_decide; [|done]. 
    destruct l as [|a l]; [done|].
    assert (∃ neg l1, scan_sign (a :: l) = (neg, l1) ∧
      scan_sign ((a :: l) ++ rest) = (neg, l1 ++ rest)) as (neg & l1 & E1 & E2).
    { destruct (decide (a = "-"%char)) as [->|]; [by eexists _, _|].
      destruct (decide (a = "+"%char)) as [->|]; [by eexists _, _|].
      exists false, (a :: l).
      assert (∀ l', scan_sign (a :: l') = (false, a :: l')) as Hx; [|by rewrite <-app_comm_cons, !Hx].
      intros l'. unfold scan_sign. by destruct a as [[] [] [] [] [] [] [] []]. }
    rewrite E1 in Hl. rewrite E2. destruct (span_digits l1) as [ds r] eqn:E.
    rewrite (span_app l1 ds r rest E) by by apply number_ends_no_digit.
    case_bool_decide; [done|]. by injection Hl as <- ->.
Qed.

Lemma scan_unsigned_app neg l v rest :
  scan_unsigned neg l = Some (v, []) → number_ends rest →
  scan_unsigned neg (l ++ rest) = Some (v, rest).
Proof.
  unfold scan_unsigned. intros Hl Hr.
  destruct (scan_int_part l) as [ip l2] eqn:E2. case_bool_decide as Hip; [done|].
  rewrite (scan_int_part_app l ip l2); [|done|done|by apply number_ends_no_digit].
  rewrite bool_decide_eq_false_2 by done.
  destruct (scan_fraction l2) as [fp l3] eqn:E3. rewrite (scan_fraction_app l2 fp l3) by done.
  destruct (scan_exponent l3) as [ex l4] eqn:E4. injection Hl as <- ->.
  by rewrite (scan_exponent_app l3 ex).
Qed.

(** ** [repr] reads back *)

(** In lowest terms. *)
Lemma norm_spec m e :
  ∃ m' e' k, norm m e = Fin m' e' ∧ 0 ≤ k ∧ e' ≤ 0 ∧ m' * 2 ^ k = m * 2 ^ Z.max 0 e
    ∧ e' = Z.min 0 e + k.
Proof.
  unfold norm. case_bool_decide.
  - exists (m * 2 ^ e), 0, 0. split_and!; [done|lia|lia| |lia].
    rewrite Z.pow_0_r, Z.max_r by lia. ring.
  - set (g := Z.gcd m (2 ^ (- e))). assert (g | 2 ^ (- e)) as Hg by apply Z.gcd_divide_r.
    assert (g | m) as [q Hq] by apply Z.gcd_divide_l.
    assert (0 ≤ g) by apply Z.gcd_nonneg.
    assert (0 < 2 ^ (- e)) as Hp by (apply Z.pow_pos_nonneg; lia).
    assert (g ≠ 0) as Hg0 by (intros E0; rewrite E0 in Hg; apply Z.divide_0_l in Hg; lia).
    assert (g = 2 ^ Z.log2 g ∧ Z.log2 g ≤ - e) as [E Hle].
    { pose proof Hg as [k Hk]%Zdivide_power_2; [|lia|lia|apply prime_2].
      destruct (decide (0 ≤ k)) as [Hk0|Hk0]; [|rewrite Z.pow_neg_r in Hk; lia].
      rewrite Hk, Z.log2_pow2 by done. split; [done|]. rewrite Hk in Hg.
      apply Z.divide_pos_le in Hg; [|done]. apply (Z.pow_le_mono_r_iff 2) in Hg; lia. }
    clearbody g. exists (m / g), (e + Z.log2 g), (Z.log2 g).
    split_and!; [done|apply Z.log2_nonneg|lia| |lia].
    rewrite <-E, Hq, Z.div_mul, Z.max_l, Z.pow_0_r by lia. lia.
Qed.

Lemma round_exact_digits m e :
  is_double (Fin m e) → 0 < m →
  0 < (exact_digits m e).1 ∧
  round_dec false (exact_digits m e).1 (exact_digits m e).2 = Fin m e.
Proof.
  intros (m0 & e0 & Hm0 & He0 & E) Hm.
  destruct (norm_spec m0 e0) as (m' & e' & k & E' & Hk & He & Hv & Hek).
  rewrite E' in E. injection E as -> ->.
  assert (0 < 2 ^ k) by (apply Z.pow_pos_nonneg; lia).
  assert (0 < 2 ^ Z.max 0 e0) by (apply Z.pow_pos_nonneg; lia).
  assert (0 < m0) by nia. unfold exact_digits, round_dec.
  destruct (decide (0 ≤ e')) as [Hpos|Hneg].
  - assert (e' = 0) as -> by lia. rewrite bool_decide_eq_true_2 by done. cbn [fst snd].
    rewrite Z.pow_0_r, Z.mul_1_r. split; [done|]. rewrite bool_decide_eq_false_2 by lia.
    rewrite bool_decide_eq_true_2 by done. rewrite Z.pow_0_r, Z.mul_1_r, <-E'.
    apply round_ratio_exact; [lia..|].
    replace (Z.max 0 (- e0)) with k by lia. lia.
  - rewrite bool_decide_eq_false_2 by done. cbn [fst snd].
    assert (0 < 5 ^ (- e')) by (apply Z.pow_pos_nonneg; lia). split; [nia|].
    rewrite bool_decide_eq_false_2 by nia. rewrite bool_decide_eq_false_2 by done. rewrite <-E'.
    assert (0 < 10 ^ (- e')) by (apply Z.pow_pos_nonneg; lia).
    apply round_ratio_exact; [nia|lia|lia|lia|].
    replace (Z.max 0 e0) with 0 in * by lia. rewrite Z.pow_0_r, Z.mul_1_r in *.
    replace (Z.max 0 (- e0)) with (- e' + k) by lia. rewrite <-Hv.
    change 10 with (2 * 5). rewrite Z.pow_mul_l, Z.pow_add_r by lia. ring.
Qed.

(** A float is converted to itself. *)
Lemma norm_opp m e m' e' : norm m e = Fin m' e' → norm (- m) e = Fin (- m') e'.
Proof.
  unfold norm. case_bool_decide; [intros [= <- <-]; f_equal; ring|].
  rewrite Z.gcd_opp_l. pose proof (Z.gcd_divide_l m (2 ^ (- e))) as [q Hq]. revert Hq.
  generalize (Z.gcd m (2 ^ (- e))). intros g -> [= <- <-]. f_equal.
  destruct (decide (g = 0)) as [E|]; [by rewrite E, !Zdiv_0_r|].
  rewrite <-Z.mul_opp_l, !Z.div_mul by done. done.
Qed.

Lemma is_double_opp m e : is_double (Fin m e) → is_double (Fin (- m) e).
Proof.
  intros (m0 & e0 & ? & ? & E). exists (- m0), e0. split_and!; [lia..|].
  symmetry. by apply norm_opp.
Qed.

Lemma to_float_double x : is_double x → to_float x = Some x.
Proof.
  destruct x as [m e| | |]; [|done..]. intros Hd. unfold to_float. destruct e as [|e|e]; [|done..].
  assert (∀ k, 0 < k → is_double (Fin k 0) → round_dec false k 0 = Fin k 0) as Hpos.
  { intros k Hk Hdk. pose proof (proj2 (round_exact_digits k 0 Hdk Hk)) as E.
    unfold exact_digits in E. cbn [fst snd] in E. by rewrite Z.mul_1_r in E. }
  destruct (decide (m = 0)) as [->|Hm]; [done|]. case_bool_decide.
  - pose proof (Hpos (- m) ltac:(lia) (is_double_opp m 0 Hd)) as E.
    rewrite Z.abs_neq by lia. unfold round_dec in *. rewrite E. simpl.
    rewrite bool_decide_false by lia. by rewrite Z.opp_involutive.
  - rewrite Z.abs_eq by lia. by rewrite Hpos by (done || lia).
Qed.

Example to_float_examples :
  to_float (num_of_Z (2 ^ 53 + 1)) = Some (num_of_Z (2 ^ 53))
  ∧ to_float (num_of_Z (- (2 ^ 53 + 3))) = Some (num_of_Z (- (2 ^ 53 + 4)))
  ∧ to_float (num_of_Z (2 ^ 1024 - 2 ^ 970 - 1)) = Some (num_of_Z (2 ^ 1024 - 2 ^ 971))
  ∧ to_float (num_of_Z (2 ^ 1024 - 2 ^ 970)) = None.
Proof. vm_compute. done. Qed.

Lemma search_reads_back fuel m e j c j' :
  search_digits fuel m e j = Some (c, j') →
  reads_back (Fin m e) (format_float c j') = true.
Proof.
  revert j. induction fuel as [|fuel IH]; intros j; simpl; [done|].
  destruct (list_find _ _) as [[i c']|] eqn:E; [|apply IH].
  intros [= <- <-]. apply list_find_Some in E as (_ & [_ E] & _). by apply Is_true_true.
Qed.

Lemma scan_unsigned_neg l x r :
  scan_unsigned false l = Some (NFloat x, r) →
  scan_unsigned true l = Some (NFloat (num_opp x), r).
Proof.
  unfold scan_unsigned. destruct (scan_int_part l) as [ip l2]. case_bool_decide; [done|].
  destruct (scan_fraction l2) as [fp l3]. destruct (scan_exponent l3) as [ex l4].
  destruct fp, ex; intros [= <- <-]; done.
Qed.

Lemma scan_exact_text c j :
  0 < c → scan_unsigned false (chars (str_Z c +:+ "e" +:+ (if bool_decide (j < 0) then "-" else "")
    +:+ str_Z (Z.abs j))) = Some (NFloat (round_dec false c j), []).
Proof.
  intros Hc. rewrite !chars_app. unfold scan_unsigned.
  set (tl := chars "e" ++ _).
  destruct (scan_int_part_str_Z c tl) as (ip & -> & Hip & Hne); [lia|done|].
  rewrite bool_decide_eq_false_2 by done. unfold tl. simpl.
  destruct (span_str_Z (Z.abs j)) as (ds & Hds & Hv & Hne'); [lia|].
  case_bool_decide as Hj; simpl.
  - rewrite Hds, bool_decide_eq_false_2 by done. cbn.
    rewrite app_nil_r, Hip, Hv.
    match goal with |- context [?z - Z.of_nat 0] => replace (z - Z.of_nat 0) with j by lia end.
    done.
  - assert (∀ l, span_digits l = (ds, []) → scan_sign l = (false, l)) as Hx.
    { intros [|a l] Hl; [done|]. destruct a as [[] [] [] [] [] [] [] []]; try done; simpl in Hl;
        congruence. }
    rewrite (Hx _ Hds), Hds, bool_decide_eq_false_2 by done. cbn.
    rewrite app_nil_r, Hip, Hv.
    match goal with |- context [?z - Z.of_nat 0] => replace (z - Z.of_nat 0) with j by lia end.
    done.
Qed.

Lemma repr_pos_reads m e :
  is_double (Fin m e) → 0 < m →
  scan_unsigned false (chars (repr_pos m e)) = Some (NFloat (Fin m e), []).
Proof.
  intros Hd Hm. unfold repr_pos, shortest. destruct (search_digits _ _ _ _) as [[c j]|] eqn:E.
  - apply search_reads_back in E. unfold reads_back in E.
    destruct (scan_unsigned _ _) as [[[z|x] [|? ?]]|]; try done.
    by apply bool_decide_eq_true in E as ->.
  - unfold exact_text. destruct (round_exact_digits m e Hd Hm) as [Hc Hr].
    destruct (exact_digits m e) as [c j]. simpl in *. by rewrite scan_exact_text, Hr.
Qed.

(** A double followed by something that is not a number reads back. *)
Lemma float_repr_reads x rest :
  is_double x → number_ends rest →
  scan_number (chars (float_repr x) ++ rest) = Some (NFloat x, rest).
Proof.
  intros Hx Hr. pose proof Hx as (m0 & e0 & Hm0 & He0 & E).
  destruct (norm_spec m0 e0) as (m & e & k & E' & Hk & He & Hv & Hek).
  assert (x = Fin m e) as -> by congruence. clear E'.
  assert (0 < 2 ^ k) by (apply Z.pow_pos_nonneg; lia). unfold float_repr.
  case_bool_decide as H0; [subst m|case_bool_decide as Hneg].
  - assert (m0 = 0) as -> by (pose proof (Z.pow_pos_nonneg 2 (Z.max 0 e0)); nia).
    assert (Fin 0 e = Fin 0 0) as [= ->].
    { rewrite E. unfold norm. case_bool_decide; [done|].
      rewrite Z.gcd_0_l, Z.abs_eq by (apply Z.pow_nonneg; lia).
      rewrite Z.div_0_l, Z.log2_pow2 by (pose proof (Z.pow_pos_nonneg 2 (- e0)); lia).
      f_equal. lia. }
    change (chars (if bool_decide _ then _ else _)) with (chars "0.0").
    unfold scan_number. cbn -[scan_unsigned].
    by apply (scan_unsigned_app false (chars "0.0")).
  - pose proof (is_double_opp m e Hx) as Hd.
    rewrite chars_app. unfold scan_number. simpl.
    pose proof (repr_pos_reads (- m) e Hd ltac:(lia)) as Hs%scan_unsigned_neg.
    simpl in Hs. rewrite bool_decide_eq_false_2, Z.opp_involutive in Hs by lia.
    by apply scan_unsigned_app.
  - pose proof (repr_pos_reads m e Hx ltac:(lia)) as Hs.
    assert (∀ l, scan_unsigned false l ≠ None → scan_minus l = (false, l)) as Hx'.
    { intros [|a l] Hl; [done|]. by destruct a as [[] [] [] [] [] [] [] []]. }
    unfold scan_number. pose proof (scan_unsigned_app _ _ _ rest Hs Hr) as Ha.
    by rewrite Hx', Ha by by rewrite Ha.
Qed.

(** An int reads back. *)
Lemma str_Z_reads z rest :
  number_ends rest → scan_number (chars (str_Z z) ++ rest) = Some (NInt z, rest).
Proof.
  intros Hr. assert (∀ z neg, 0 ≤ z →
    scan_unsigned neg (chars (str_Z z) ++ rest) = Some (NInt (signed neg z), rest)) as Hpos.
  { clear z. intros z neg Hz. unfold scan_unsigned.
    destruct (scan_int_part_str_Z z rest) as (ds & -> & Hv & Hne);
      [done|by apply number_ends_no_digit|].
    rewrite bool_decide_eq_false_2 by done. rewrite <-Hv.
    rewrite <-(app_nil_l rest) at 1.
    rewrite (scan_fraction_app [] [] []) by done. simpl.
    rewrite <-(app_nil_l rest) at 1. by rewrite (scan_exponent_app [] None). }
  unfold scan_number. destruct (decide (0 ≤ z)) as [Hz|Hz].
  - specialize (Hpos z false Hz).
    assert (∀ l, scan_unsigned false l ≠ None → scan_minus l = (false, l)) as ->; [|done|by rewrite Hpos].
    intros [|a l] Hl; [done|]. by destruct a as [[] [] [] [] [] [] [] []].
  - destruct z as [|p|p]; [lia|lia|]. exact (Hpos (Z.pos p) true ltac:(lia)).
Qed.

(** ** Number texts are ASCII *)
Definition is_ascii (c : ascii) : Prop := (nat_of_ascii c < 128)%nat.
#[export] Instance is_ascii_dec c : Decision (is_ascii c).
Proof. unfold is_ascii. apply _. Defined.
Definition ascii_text (s : string) : Prop := Forall is_ascii (chars s).

Lemma ascii_text_app a b : ascii_text a → ascii_text b → ascii_text (a +:+ b).
Proof. unfold ascii_text. rewrite chars_app. by apply Forall_app_2. Qed.

Lemma ascii_text_literal s :
  forallb (λ c, bool_decide (is_ascii c)) (chars s) = true → ascii_text s.
Proof.
  unfold ascii_text. intros H. apply Forall_forall. intros c Hc. rewrite forallb_forall in H.
  apply (bool_decide_eq_true (is_ascii c)), H. by apply list_elem_of_In.
Qed.

Lemma ascii_text_sub l l' : (∀ c, c ∈ l' → c ∈ l) → Forall is_ascii l → ascii_text (of_chars l').
Proof.
  intros Hs Hl. unfold ascii_text. rewrite chars_of_chars. rewrite Forall_forall in *. eauto.
Qed.

Lemma ascii_text_str_Z z : ascii_text (str_Z z).
Proof.
  assert (∀ d, ascii_text (DecimalString.NilEmpty.string_of_uint d)) as Hd.
  { unfold ascii_text. induction d; simpl; constructor; try done;
      by apply (bool_decide_unpack (is_ascii _)). }
  unfold str_Z. destruct (Z.to_int z); [apply Hd|]. simpl.
  constructor; [by apply (bool_decide_unpack (is_ascii _))|apply Hd].
Qed.

Create HintDb ascii.
#[export] Hint Resolve ascii_text_app ascii_text_str_Z : ascii.
#[export] Hint Extern 2 (ascii_text _) => apply ascii_text_literal; reflexivity : ascii.

Lemma ascii_text_format c j : ascii_text (format_float c j).
Proof.
  pose proof (ascii_text_str_Z c) as Hc. unfold ascii_text in Hc.
  assert (∀ n, ascii_text (of_chars (take n (chars (str_Z c))))) as Ht.
  { intros n. eapply ascii_text_sub; [|done]. intros x. apply (subseteq_take n). }
  assert (∀ n, ascii_text (of_chars (drop n (chars (str_Z c))))) as Hd.
  { intros n. eapply ascii_text_sub; [|done]. intros x. apply (subseteq_drop n). }
  assert (∀ z, ascii_text (zeros z)) as Hz.
  { intros z. eapply (ascii_text_sub ["0"%char]).
    - intros x (-> & _)%elem_of_replicate. by left.
    - by repeat constructor. }
  assert (ascii_text (of_chars (chars (str_Z c)))) by (rewrite of_chars_chars; auto with ascii).
  unfold format_float. repeat case_bool_decide; eauto 20 with ascii.
Qed.

Lemma ascii_text_repr x : ascii_text (float_repr x).
Proof.
  assert (∀ m e, ascii_text (repr_pos m e)) as Hp.
  { intros m e. unfold repr_pos. destruct (shortest m e) as [[c j]|]; [apply ascii_text_format|].
    unfold exact_text. destruct (exact_digits m e). case_bool_decide; eauto 10 with ascii. }
  unfold float_repr. destruct x; repeat case_bool_decide; eauto with ascii.
Qed.

(** ** Doubles that compare equal are equal *)
Lemma norm_value e0 m1 e1 m2 e2 :
  e0 ≤ e1 → e0 ≤ e2 → scaled e0 m1 e1 = scaled e0 m2 e2 → norm m1 e1 = norm m2 e2.
Proof.
  unfold scaled. intros H1 H2 E.
  rewrite <-(norm_shift m1 e1 (e1 - e0)), <-(norm_shift m2 e2 (e2 - e0)), E by lia.
  f_equal. lia.
Qed.

Lemma norm_idem m e m' e' : norm m e = Fin m' e' → norm m' e' = Fin m' e'.
Proof.
  intros E. destruct (norm_spec m e) as (m0 & e0 & k & E' & Hk & He & Hv & Hek).
  rewrite E in E'. injection E' as <- <-. rewrite <-E.
  apply (norm_value (Z.min 0 e)); [lia|lia|]. unfold scaled.
  replace (e' - Z.min 0 e) with k by lia. replace (e - Z.min 0 e) with (Z.max 0 e) by lia. done.
Qed.

Lemma double_eq x y :
  is_double x → is_double y → num_leb x y = true → num_leb y x = true → x = y.
Proof.
  intros (m1 & e1 & _ & _ & ->) (m2 & e2 & _ & _ & ->).
  destruct (norm_spec m1 e1) as (a & i & ? & E1 & _), (norm_spec m2 e2) as (b & j & ? & E2 & _).
  rewrite E1, E2. rewrite !(fin_leb_scaled (Z.min i j)) by lia. intros.
  rewrite <-(norm_idem _ _ _ _ E1), <-(norm_idem _ _ _ _ E2).
  apply (norm_value (Z.min i j)); lia.
Qed.

(** [int] reads what [str] writes. *)
Lemma drop_while_none f l : Forall (λ c, f c = false) l → drop_while f l = l.
Proof. by intros [|c l' Hc Hl]; simpl; [|rewrite Hc]. Qed.

Lemma strip_none s : Forall (λ c, is_space c = false) (chars s) → strip s = s.
Proof.
  intros Hs. unfold strip. rewrite (drop_while_none _ _ Hs).
  rewrite drop_while_none by (by apply Forall_reverse). by rewrite reverse_involutive, of_chars_chars.
Qed.

Lemma drop_underscores_none b l :
  Forall (λ c, c ≠ "_"%char) l → b = true ∨ l ≠ [] → drop_underscores b l = Some l.
Proof.
  intros Hl. revert b. induction Hl as [|c l Hc Hl IH]; intros b Hb; simpl.
  - by destruct Hb as [->|].
  - rewrite bool_decide_false by done. rewrite IH by auto. done.
Qed.

Lemma digit_chars d :
  Forall (λ c, is_space c = false ∧ c ≠ "_"%char) (chars (DecimalString.NilEmpty.string_of_uint d)).
Proof. induction d; simpl; constructor; done. Qed.

Lemma py_int_uint d : d ≠ Decimal.Nil →
  py_int (DecimalString.NilEmpty.string_of_uint d) = Some (Z.of_uint d).
Proof.
  intros Hd. pose proof (digit_chars d) as Hc.
  assert (py_nat (DecimalString.NilEmpty.string_of_uint d) = Some (Z.of_uint d)) as Hn.
  { unfold py_nat. rewrite drop_underscores_none.
    - simpl. by rewrite of_chars_chars, DecimalString.NilEmpty.usu.
    - eapply Forall_impl; [exact Hc|]. by intros c [].
    - right. by destruct d. }
  unfold py_int. rewrite strip_none by (eapply Forall_impl; [exact Hc|]; by intros c []).
  destruct d; try done; exact Hn.
Qed.

Lemma py_int_str_Z z : (0 ≤ z)%Z → py_int (str_Z z) = Some z.
Proof.
  intros Hz. destruct (decide (z = 0)%Z) as [->|Hne]; [reflexivity|].
  destruct (to_int_pos z) as (d & Hd & <- & Hn & _); [lia|].
  unfold str_Z. rewrite Hd. by apply py_int_uint.
Qed.
