(* ===== verification/PyTime.v ===== *)
(** * UTC instants and their texts

    A [datetime] is a number of microseconds since 1970-01-01T00:00:00Z (years 1000 to
    9999, where the texts have four digits for the year). *)
From stdpp Require Import base strings list.
From Stdlib Require Import ZArith Lia.
From S2P Require Import Prelude PyStr.
Local Open Scope Z_scope.

Definition US_PER_MINUTE : Z := 60000000.
Definition US_PER_DAY : Z := 86400000000.

(** [m] minutes before [t] *)
Definition minus_minutes (t m : Z) : Z := t - m * US_PER_MINUTE.

(** [datetime.min] and [datetime.max] *)
Definition MIN_DATETIME : Z := -62135596800000000.
Definition MAX_DATETIME : Z := 253402300799999999.

(** [t - timedelta(minutes=m)]; [None] is the [OverflowError] of a difference that is out
    of range (as every one of a [timedelta] that is out of its own range would be). *)
Definition sub_minutes (t m : Z) : option Z :=
  let u := minus_minutes t m in
  if decide (MIN_DATETIME ≤ u ≤ MAX_DATETIME) then Some u else None.

(** [t.date()], as a number of days *)
Definition day_of (t : Z) : Z := t / US_PER_DAY.

(** Year, month and day of a number of days since 1970-01-01 (Gregorian). *)
Definition civil_from_days (days : Z) : Z * Z * Z :=
  let z := days + 719468 in
  let era := z / 146097 in
  let doe := z mod 146097 in
  let yoe := (doe - doe / 1460 + doe / 36524 - doe / 146096) / 365 in
  let doy := doe - (365 * yoe + yoe / 4 - yoe / 100) in
  let mp := (5 * doy + 2) / 153 in
  let d := doy - (153 * mp + 2) / 5 + 1 in
  let m := if decide (mp < 10) then mp + 3 else mp - 9 in
  (yoe + era * 400 + (if decide (m ≤ 2) then 1 else 0), m, d).

Definition pad2 (n : Z) : string := if decide (n < 10) then "0" +:+ str_Z n else str_Z n.

(** [n] in [k] digits *)
Fixpoint pad_zeros (k : nat) (n : Z) : string :=
  match k with
  | O => ""
  | S k => pad_zeros k (n / 10) +:+ str_Z (n mod 10)
  end.

(** [t.strftime("%Y.%m.%d")] of the day, with the separator as a parameter *)
Definition date_str (sep : string) (days : Z) : string :=
  let '(y, m, d) := civil_from_days days in str_Z y +:+ sep +:+ pad2 m +:+ sep +:+ pad2 d.

(** [t.isoformat()] of an aware UTC datetime *)
Definition isoformat (t : Z) : string :=
  let us := t mod 1000000 in
  let s := t / 1000000 mod 86400 in
  date_str "-" (day_of t) +:+ "T" +:+ pad2 (s / 3600) +:+ ":" +:+ pad2 (s / 60 mod 60)
  +:+ ":" +:+ pad2 (s mod 60)
  +:+ (if decide (us = 0) then "" else "." +:+ pad_zeros 6 us) +:+ "+00:00".

Lemma day_of_mono t t' : t ≤ t' → day_of t ≤ day_of t'.
Proof. intros. unfold day_of, US_PER_DAY. by apply Z.div_le_mono. Qed.

(** An instant of every day between two instants. *)
Lemma day_between t t' d :
  t ≤ t' → day_of t ≤ d ≤ day_of t' → ∃ u, t ≤ u ≤ t' ∧ day_of u = d.
Proof.
  intros Ht [Hl Hr]. unfold day_of, US_PER_DAY in *.
  destruct (decide (t / 86400000000 = d)) as [<-|Hne]; [exists t; lia|].
  exists (d * 86400000000). rewrite Z.div_mul by lia. split; [|done].
  pose proof (Z.mul_div_le t' 86400000000 ltac:(lia)).
  pose proof (Z.mod_pos_bound t 86400000000 ltac:(lia)).
  pose proof (Z.div_mod t 86400000000 ltac:(lia)). nia.
Qed.

Example isoformat_example :
  isoformat 1781484300000000 = "2026-06-15T00:45:00+00:00"
  ∧ isoformat 1781484300000120 = "2026-06-15T00:45:00.000120+00:00".
Proof. split; vm_compute; reflexivity. Qed.
