(* ===== verification/Json.v ===== *)
(** * JSON values, as [json.loads] gives them: dicts keep their insertion order *)
From stdpp Require Import base list strings.
From Stdlib Require Import ZArith.
From S2P Require Import Prelude PyNum PyStr.

Inductive json : Type :=
| JNull
| JBool (b : bool)
| JInt (z : Z)
| JFloat (x : num)
| JStr (s : string)
| JArr (l : list json)
| JObj (o : list (string * json)).

(** What reading an unexpected shape raises: a missing key, an attribute or an item
    of a value that has none. *)
Inductive ShapeError : Type := KeyError (k : string) | AttributeError | TypeErr.

(** [x.get(k, d)] *)
Definition jget (k : string) (d : json) (x : json) : res ShapeError json :=
  match x with JObj o => Ok (default d (ODict.get k o)) | _ => Err AttributeError end.

(** [x[k]] with a string key *)
Definition jindex (k : string) (x : json) : res ShapeError json :=
  match x with
  | JObj o => match ODict.get k o with Some v => Ok v | None => Err (KeyError k) end
  | _ => Err TypeErr
  end.

(** [k in x] *)
Definition jin (k : string) (x : json) : res ShapeError bool :=
  match x with
  | JObj o => Ok (bool_decide (is_Some (ODict.get k o)))
  | JStr s => Ok (contains k s)
  | JArr l => Ok (existsb (λ y, match y with JStr s => bool_decide (s = k) | _ => false end) l)
  | _ => Err TypeErr
  end.

(** [for y in x] *)
Definition jiter (x : json) : res ShapeError (list json) :=
  match x with
  | JArr l => Ok l
  | JObj o => Ok ((λ kv, JStr kv.1) <$> o)
  | JStr s => Ok ((λ c, JStr (String c "")) <$> chars s)
  | _ => Err TypeErr
  end.

(** [{**x, k: v}] *)
Definition jupdate (k : string) (v : json) (x : json) : res ShapeError json :=
  match x with JObj o => Ok (JObj (ODict.set k v o)) | _ => Err TypeErr end.

(** [for x in l: acc = f(acc, x)] where the body may raise. *)
Fixpoint fold_res {E A B} (f : B → A → res E B) (l : list A) (b : B) : res E B :=
  match l with
  | [] => Ok b
  | x :: l' => b' ← f b x; fold_res f l' b'
  end.

Lemma fold_res_app {E A B} (f : B → A → res E B) l l' b :
  fold_res f (l ++ l') b = (b' ← fold_res f l b; fold_res f l' b').
Proof. revert b. induction l as [|x l IH]; intros b; simpl; [done|]. destruct (f b x); simpl; auto. Qed.

(** Induction with a hypothesis for every part of a container. *)
Section JsonInd.
Context (P : json → Prop) (Hnull : P JNull) (Hbool : ∀ b, P (JBool b)) (Hint : ∀ z, P (JInt z))
  (Hfloat : ∀ x, P (JFloat x)) (Hstr : ∀ s, P (JStr s))
  (Harr : ∀ l, Forall P l → P (JArr l)) (Hobj : ∀ o, Forall (λ kv, P kv.2) o → P (JObj o)).

Fixpoint json_parts_ind (v : json) : P v :=
  match v with
  | JNull => Hnull
  | JBool b => Hbool b
  | JInt z => Hint z
  | JFloat x => Hfloat x
  | JStr s => Hstr s
  | JArr l => Harr l ((fix go l : Forall P l :=
      match l with
      | [] => Forall_nil_2 _
      | v :: l' => Forall_cons_2 _ _ _ (json_parts_ind v) (go l')
      end) l)
  | JObj o => Hobj o ((fix go o : Forall (λ kv, P kv.2) o :=
      match o with
      | [] => Forall_nil_2 _
      | kv :: o' => Forall_cons_2 _ _ _ (json_parts_ind kv.2) (go o')
      end) o)
  end.
End JsonInd.
