(* ===== verification/JsonText.v ===== *)
(** * JSON text: [json.dumps] and [json.loads] with their defaults

    [dumps] escapes every character that is not printable ASCII; [loads] is the strict
    scanner of the standard library, which reads [NaN] and the infinities too, and keeps
    the last value of a repeated key.  A [str] is the string of its UTF-8 bytes, so the
    two go through code points.  Not modelled: the limits on the digits of an [int] (4300)
    and on nesting, beyond which [loads] raises something else than [JSONDecodeError]. *)
From stdpp Require Import base list strings.
From Stdlib Require Import ZArith Lia Ascii.
From S2P Require Import Prelude PyNum PyStr PyFloat Json.
Local Open Scope Z_scope.

(** ** UTF-8 *)
Definition byte (z : Z) : ascii := ascii_of_N (Z.to_N z).
Definition code (c : ascii) : Z := Z.of_N (N_of_ascii c).

(** [chr(c).encode("utf-8")] *)
Definition utf8 (c : Z) : list ascii :=
  if bool_decide (c < 0x80) then [byte c]
  else if bool_decide (c < 0x800) then [byte (0xC0 + c / 64); byte (0x80 + c mod 64)]
  else if bool_decide (c < 0x10000) then
    [byte (0xE0 + c / 4096); byte (0x80 + c / 64 mod 64); byte (0x80 + c mod 64)]
  else [byte (0xF0 + c / 262144); byte (0x80 + c / 4096 mod 64);
        byte (0x80 + c / 64 mod 64); byte (0x80 + c mod 64)].

(** The code points of a text; a byte that starts none counts for itself. *)
Fixpoint code_points (l : list ascii) : list Z :=
  match l with
  | [] => []
  | a :: l1 =>
      let b := code a in
      if bool_decide (b < 0xC0) then b :: code_points l1
      else if bool_decide (b < 0xE0) then
        match l1 with
        | c1 :: l2 => ((b - 0xC0) * 64 + (code c1 - 0x80)) :: code_points l2
        | _ => b :: code_points l1
        end
      else if bool_decide (b < 0xF0) then
        match l1 with
        | c1 :: c2 :: l3 =>
            ((b - 0xE0) * 4096 + (code c1 - 0x80) * 64 + (code c2 - 0x80)) :: code_points l3
        | _ => b :: code_points l1
        end
      else
        match l1 with
        | c1 :: c2 :: c3 :: l4 =>
            ((b - 0xF0) * 262144 + (code c1 - 0x80) * 4096 + (code c2 - 0x80) * 64
             + (code c3 - 0x80)) :: code_points l4
        | _ => b :: code_points l1
        end
  end.

(** A Unicode scalar value: no surrogate. *)
Definition is_scalar (c : Z) : Prop := 0 ≤ c < 0xD800 ∨ 0xE000 ≤ c < 0x110000.
#[export] Instance is_scalar_dec c : Decision (is_scalar c).
Proof. unfold is_scalar. apply _. Defined.

(** The text decodes: it is the encoding of scalar values.  [bytes.decode("utf-8")] of
    other bytes raises [UnicodeDecodeError]. *)
Definition is_utf8 (s : string) : Prop :=
  Forall is_scalar (code_points (chars s)) ∧
  mjoin (utf8 <$> code_points (chars s)) = chars s.
#[export] Instance is_utf8_dec s : Decision (is_utf8 s).
Proof. unfold is_utf8. apply _. Defined.

(** ** Writing *)
Definition hex_digit (n : Z) : ascii := byte (if bool_decide (n < 10) then 48 + n else 87 + n).

(** [\uXXXX] *)
Definition hex4 (n : Z) : list ascii :=
  [hex_digit (n / 4096); hex_digit (n / 256 mod 16); hex_digit (n / 16 mod 16);
   hex_digit (n mod 16)].
Definition backslash : ascii := ascii_of_nat 92.
Definition u_escape (n : Z) : list ascii := backslash :: "u"%char :: hex4 n.

Definition escape (c : Z) : list ascii :=
  if bool_decide (c = 34) then [backslash; dquote]
  else if bool_decide (c = 92) then [backslash; backslash]
  else if bool_decide (c = 10) then [backslash; "n"%char]
  else if bool_decide (c = 13) then [backslash; "r"%char]
  else if bool_decide (c = 9) then [backslash; "t"%char]
  else if bool_decide (c = 12) then [backslash; "f"%char]
  else if bool_decide (c = 8) then [backslash; "b"%char]
  else if bool_decide (32 ≤ c ≤ 126) then [byte c]
  else if bool_decide (c < 0x10000) then u_escape c
  else let n := c - 0x10000 in u_escape (0xD800 + n / 1024) ++ u_escape (0xDC00 + n mod 1024).

Definition dump_str (s : string) : list ascii :=
  dquote :: mjoin (escape <$> code_points (chars s)) ++ [dquote].

Fixpoint join_chars (sep : list ascii) (l : list (list ascii)) : list ascii :=
  match l with
  | [] => []
  | [x] => x
  | x :: l' => x ++ sep ++ join_chars sep l'
  end.

Definition dump_float (x : num) : list ascii :=
  chars match x with
        | NaN => "NaN" | PosInf => "Infinity" | NegInf => "-Infinity"
        | _ => float_repr x
        end.

Fixpoint dump (v : json) : list ascii :=
  match v with
  | JNull => chars "null"
  | JBool b => chars (if b then "true" else "false")
  | JInt z => chars (str_Z z)
  | JFloat x => dump_float x
  | JStr s => dump_str s
  | JArr l => "["%char :: join_chars (chars ", ") (map dump l) ++ ["]"%char]
  | JObj o =>
      "{"%char :: join_chars (chars ", ")
        (map (λ kv, dump_str kv.1 ++ chars ": " ++ dump kv.2) o) ++ ["}"%char]
  end.

(** [json.dumps(v)] *)
Definition dumps (v : json) : string := of_chars (dump v).

(** ** Reading *)
Definition hex_val (c : ascii) : option Z :=
  let n := code c in
  if bool_decide (48 ≤ n ≤ 57) then Some (n - 48)
  else if bool_decide (97 ≤ n ≤ 102) then Some (n - 87)
  else if bool_decide (65 ≤ n ≤ 70) then Some (n - 55)
  else None.

Definition hex4_val (a b c d : ascii) : option Z :=
  a ← hex_val a; b ← hex_val b; c ← hex_val c; d ← hex_val d;
  Some (a * 4096 + b * 256 + c * 16 + d).

Definition simple_escape (c : ascii) : option ascii :=
  ODict.get c [(dquote, dquote); (backslash, backslash); ("/"%char, "/"%char);
    ("b"%char, byte 8); ("f"%char, byte 12); ("n"%char, byte 10); ("r"%char, byte 13);
    ("t"%char, byte 9)].

Definition is_high (u : Z) : bool := bool_decide (0xD800 ≤ u ≤ 0xDBFF).
Definition is_low (u : Z) : bool := bool_decide (0xDC00 ≤ u ≤ 0xDFFF).

Definition prepend (p : list ascii) (r : option (list ascii * list ascii))
  : option (list ascii * list ascii) :=
  '(s, rest) ← r; Some (p ++ s, rest).

(** The character a [\u] escape stands for, after the [\u]: a high surrogate followed by
    the escape of a low one is one character with it. *)
Definition scan_u_escape (l : list ascii) : option (list ascii * list ascii) :=
  match l with
  | h1 :: h2 :: h3 :: h4 :: r =>
      u ← hex4_val h1 h2 h3 h4;
      match r with
      | b :: v :: g1 :: g2 :: g3 :: g4 :: r' =>
          if is_high u && bool_decide (b = backslash ∧ v = "u"%char) then
            u' ← hex4_val g1 g2 g3 g4;
            if is_low u'
            then Some (utf8 (0x10000 + (u - 0xD800) * 1024 + (u' - 0xDC00)), r')
            else Some (utf8 u, r)
          else Some (utf8 u, r)
      | _ => Some (utf8 u, r)
      end
  | _ => None
  end.

(** One character inside quotes; [None] in the pair is the closing quote. *)
Definition scan_char (l : list ascii) : option (option (list ascii) * list ascii) :=
  match l with
  | [] => None
  | c :: l1 =>
      if bool_decide (c = dquote) then Some (None, l1)
      else if bool_decide (c = backslash) then
        match l1 with
        | [] => None
        | e :: l2 =>
            if bool_decide (e = "u"%char)
            then '(s, r) ← scan_u_escape l2; Some (Some s, r)
            else s ← simple_escape e; Some (Some [s], l2)
        end
      else if bool_decide (code c < 32) then None
      else Some (Some [c], l1)
  end.

(** The string a text inside quotes starts with, and what follows the closing quote:
    fuel is the length of the text. *)
Fixpoint scan_str_fuel (fuel : nat) (l : list ascii) : option (list ascii * list ascii) :=
  match fuel with
  | O => None
  | S fuel =>
      match scan_char l with
      | None => None
      | Some (None, r) => Some ([], r)
      | Some (Some s, r) => prepend s (scan_str_fuel fuel r)
      end
  end.
Definition scan_str (l : list ascii) : option (list ascii * list ascii) :=
  scan_str_fuel (length l) l.

Definition is_json_space (c : ascii) : bool :=
  bool_decide (code c = 32 ∨ code c = 9 ∨ code c = 10 ∨ code c = 13).
Definition skip_ws (l : list ascii) : list ascii := drop_while is_json_space l.

(** The rest after one expected character. *)
Definition expect (c : ascii) (l : list ascii) : option (list ascii) :=
  match l with a :: l' => if decide (a = c) then Some l' else None | [] => None end.

Fixpoint strip_chars (p l : list ascii) : option (list ascii) :=
  match p with [] => Some l | c :: p' => l' ← expect c l; strip_chars p' l' end.

Definition literals : list (string * json) :=
  [("null", JNull); ("true", JBool true); ("false", JBool false); ("NaN", JFloat NaN);
   ("Infinity", JFloat PosInf); ("-Infinity", JFloat NegInf)].

Fixpoint scan_literal (ls : list (string * json)) (l : list ascii)
  : option (json * list ascii) :=
  match ls with
  | [] => None
  | (t, v) :: ls => match strip_chars (chars t) l with
                    | Some r => Some (v, r)
                    | None => scan_literal ls l
                    end
  end.

Definition json_of_number (n : number) : json :=
  match n with NInt z => JInt z | NFloat x => JFloat x end.

Definition scan_atom (l : list ascii) : option (json * list ascii) :=
  match scan_literal literals l with
  | Some r => Some r
  | None => '(n, r) ← scan_number l; Some (json_of_number n, r)
  end.

(** The value a text starts with.  Every call has consumed a character since the one
    above it, so fuel of twice the length of the text is enough ([scan_once_fuel]). *)
Fixpoint scan_once (fuel : nat) (l : list ascii) : option (json * list ascii) :=
  match fuel, l with
  | S fuel, c :: l1 =>
      if bool_decide (c = dquote) then '(s, r) ← scan_str l1; Some (JStr (of_chars s), r)
      else if bool_decide (c = "["%char) then
        match expect "]"%char (skip_ws l1) with
        | Some r => Some (JArr [], r)
        | None => '(vs, r) ← scan_items fuel (skip_ws l1); Some (JArr vs, r)
        end
      else if bool_decide (c = "{"%char) then
        match expect "}"%char (skip_ws l1) with
        | Some r => Some (JObj [], r)
        | None => '(kvs, r) ← scan_members fuel (skip_ws l1); Some (JObj (ODict.of_list kvs), r)
        end
      else scan_atom l
  | _, _ => None
  end
with scan_items (fuel : nat) (l : list ascii) : option (list json * list ascii) :=
  match fuel with
  | O => None
  | S fuel =>
      '(v, r) ← scan_once fuel l;
      match expect "]"%char (skip_ws r) with
      | Some r' => Some ([v], r')
      | None => r' ← expect ","%char (skip_ws r);
                '(vs, r'') ← scan_items fuel (skip_ws r'); Some (v :: vs, r'')
      end
  end
with scan_members (fuel : nat) (l : list ascii) : option (list (string * json) * list ascii) :=
  match fuel with
  | O => None
  | S fuel =>
      l1 ← expect dquote l;
      '(k, r) ← scan_str l1;
      r ← expect ":"%char (skip_ws r);
      '(v, r) ← scan_once fuel (skip_ws r);
      match expect "}"%char (skip_ws r) with
      | Some r' => Some ([(of_chars k, v)], r')
      | None => r' ← expect ","%char (skip_ws r);
                '(kvs, r'') ← scan_members fuel (skip_ws r'); Some ((of_chars k, v) :: kvs, r'')
      end
  end.

(** [json.loads(s)]; [None] is [JSONDecodeError]. *)
Definition loads (s : string) : option json :=
  let l := skip_ws (chars s) in
  '(v, r) ← scan_once (2 * length l) l;
  if bool_decide (skip_ws r = []) then Some v else None.

Definition dq_str (l : list string) : string := join dq l.

Example dumps_example :
  dumps (JObj [("processes", JArr [JStr "PH"; JStr "식각"]); ("leader_epoch", JInt 3);
               ("assigned_at", JFloat (norm 7317624332587241 (-22)))])
  = dq_str ["{"; "processes"; ": ["; "PH"; ", "; "\uc2dd\uac01"; "], "; "leader_epoch"; ": 3, ";
            "assigned_at"; ": 1744657595.7744696}"].
Proof. vm_compute. reflexivity. Qed.

Example loads_examples :
  loads (dq_str [" [1, -2.50 ,"; "a\n\u00e9\ud83d\ude00"; ",true,null,[] ]"])
  = Some (JArr [JInt 1; JFloat (norm (-5) (-1)); JStr ("a" +:+ String (byte 10) "é😀");
                JBool true; JNull; JArr []])
  ∧ loads (dq_str ["{"; "k"; ":1, "; "k"; ": {}}"]) = Some (JObj [("k", JObj [])])
  ∧ loads "" = None ∧ loads "[1,]" = None ∧ loads "01" = None
  ∧ loads (dq_str ["{"; "a"; ":1"]) = None ∧ loads "1 2" = None.
Proof. vm_compute. done. Qed.

(** ** Scanning consumes *)
Lemma skip_ws_length l : (length (skip_ws l) ≤ length l)%nat.
Proof. unfold skip_ws. induction l as [|c l IH]; simpl; [done|]. case_match; simpl; lia. Qed.

Lemma expect_Some c l r : expect c l = Some r ↔ l = c :: r.
Proof. destruct l as [|a l]; simpl; [done|]. case_decide; naive_solver. Qed.

Lemma strip_chars_Some p l r : strip_chars p l = Some r ↔ l = p ++ r.
Proof.
  revert l. induction p as [|c p IH]; intros l; simpl; [naive_solver|].
  rewrite bind_Some. setoid_rewrite expect_Some. setoid_rewrite IH. naive_solver.
Qed.

Lemma prepend_Some p o s r :
  prepend p o = Some (s, r) → ∃ s', o = Some (s', r) ∧ s = p ++ s'.
Proof. unfold prepend. destruct o as [[s' r']|]; simpl; naive_solver. Qed.

Lemma scan_u_escape_length l s r : scan_u_escape l = Some (s, r) → (length r < length l)%nat.
Proof.
  destruct l as [|h1 [|h2 [|h3 [|h4 l]]]]; simpl; try done.
  intros (u & _ & Hu)%bind_Some. revert Hu.
  assert (∀ l', Some (utf8 u, l) = Some (s, r) → l' = S (S (S (S (length l)))) →
    (length r < l')%nat) as Hx by (intros l' [= _ <-] ->; lia).
  destruct l as [|b [|v [|g1 [|g2 [|g3 [|g4 l]]]]]]; try (intros Hu; by eapply Hx).
  case_match; [|intros Hu; by eapply Hx].
  intros (u' & _ & H')%bind_Some. revert H'.
  case_match; [intros [= _ <-]; simpl; lia|intros H'; by eapply Hx].
Qed.

Lemma scan_char_length l o r : scan_char l = Some (o, r) → (length r < length l)%nat.
Proof.
  destruct l as [|c l]; simpl; [done|]. case_bool_decide; [intros [= _ <-]; lia|].
  case_bool_decide.
  - destruct l as [|e l]; [done|]. case_bool_decide.
    + intros ([s r'] & H'%scan_u_escape_length & [= _ ->])%bind_Some. simpl. lia.
    + intros (? & _ & [= _ ->])%bind_Some. simpl. lia.
  - case_bool_decide; [done|]. intros [= _ <-]. lia.
Qed.

Lemma scan_str_fuel_S n l :
  (length l ≤ n)%nat → scan_str_fuel n l = scan_str_fuel (S n) l.
Proof.
  revert l. induction n as [|n IH]; intros l Hl.
  - destruct l; [done|simpl in Hl; lia].
  - change (scan_str_fuel (S n) l) with (match scan_char l with
      | None => None | Some (None, r) => Some ([], r)
      | Some (Some s, r) => prepend s (scan_str_fuel n r) end).
    change (scan_str_fuel (S (S n)) l) with (match scan_char l with
      | None => None | Some (None, r) => Some ([], r)
      | Some (Some s, r) => prepend s (scan_str_fuel (S n) r) end).
    destruct (scan_char l) as [[[s|] r]|] eqn:E; [|done|done].
    apply scan_char_length in E. by rewrite IH by lia.
Qed.

Lemma scan_str_fuel_enough n l :
  (length l ≤ n)%nat → scan_str_fuel n l = scan_str l.
Proof.
  unfold scan_str. intros Hl. induction Hl as [|n Hl IH]; [done|].
  by rewrite <-scan_str_fuel_S.
Qed.

Lemma scan_str_eq l :
  scan_str l = match scan_char l with
               | None => None
               | Some (None, r) => Some ([], r)
               | Some (Some s, r) => prepend s (scan_str r)
               end.
Proof.
  rewrite <-(scan_str_fuel_enough (S (length l))) by lia. cbn [scan_str_fuel].
  destruct (scan_char l) as [[[s|] r]|] eqn:E; [|done|done].
  apply scan_char_length in E. by rewrite scan_str_fuel_enough by lia.
Qed.

Lemma scan_str_length l s r : scan_str l = Some (s, r) → (length r < length l)%nat.
Proof.
  remember (length l) as n eqn:En. revert l En s.
  induction (lt_wf n) as [n _ IH]. intros l -> s. rewrite scan_str_eq.
  destruct (scan_char l) as [[[s'|] r']|] eqn:E; [|by intros [= _ <-]; eapply scan_char_length|done].
  apply scan_char_length in E. intros (s0 & Hs & _)%prepend_Some.
  specialize (IH _ E r' eq_refl _ Hs). lia.
Qed.

Lemma span_digits_length l ds r :
  span_digits l = (ds, r) → length l = (length ds + length r)%nat.
Proof.
  revert ds. induction l as [|c l IH]; intros ds; simpl; [by intros [= <- <-]|].
  destruct (digit_of c); [|by intros [= <- <-]].
  destruct (span_digits l) as [ds' r']. intros [= <- ->]. by rewrite (IH ds').
Qed.

Lemma scan_number_length l n r : scan_number l = Some (n, r) → (length r < length l)%nat.
Proof.
  unfold scan_number, scan_unsigned.
  assert (∀ l, (length (scan_minus l).2 ≤ length l)%nat) as Hm.
  { intros [|a l']; [done|]. unfold scan_minus. repeat (case_match; try (simpl; lia)). }
  assert (∀ l, length l = (length (scan_int_part l).1 + length (scan_int_part l).2)%nat) as Hi.
  { intros l'. unfold scan_int_part.
    assert (length l' = (length (span_digits l').1 + length (span_digits l').2)%nat)
      by (by apply span_digits_length, surjective_pairing).
    repeat (case_match; try done; simpl). }
  assert (∀ l, (length (scan_fraction l).2 ≤ length l)%nat) as Hf.
  { intros [|a l']; [done|]. unfold scan_fraction.
    destruct (span_digits l') as [ds r'] eqn:E; apply span_digits_length in E.
    repeat (case_match; simplify_eq/=; try lia). }
  assert (∀ l, (length (scan_exponent l).2 ≤ length l)%nat) as He.
  { intros [|a l']; [done|]. cbn [scan_exponent]. case_bool_decide; [|done].
    assert (length (scan_sign l').2 ≤ length l')%nat.
    { destruct l' as [|b l']; [done|]. unfold scan_sign. repeat (case_match; try (simpl; lia)). }
    destruct (scan_sign l') as [neg l1].
    destruct (span_digits l1) as [ds r'] eqn:E; apply span_digits_length in E.
    case_bool_decide; simpl in *; lia. }
  specialize (Hm l). destruct (scan_minus l) as [neg l1]. simpl in Hm.
  specialize (Hi l1). destruct (scan_int_part l1) as [ip l2]. simpl in Hi.
  case_bool_decide as Hip; [done|].
  specialize (Hf l2). destruct (scan_fraction l2) as [fp l3]. simpl in Hf.
  specialize (He l3). destruct (scan_exponent l3) as [ex l4]. simpl in He.
  intros [= _ <-]. destruct ip; [done|]. simpl in Hi. lia.
Qed.

Lemma scan_literal_length ls l v r :
  Forall (λ tv, tv.1 ≠ "") ls → scan_literal ls l = Some (v, r) → (length r < length l)%nat.
Proof.
  induction ls as [|[t w] ls IH]; intros Hne; [done|]. simpl.
  apply Forall_cons in Hne as [Ht Hne].
  destruct (strip_chars (chars t) l) as [r'|] eqn:E; [|by apply IH].
  intros [= _ ->]. apply strip_chars_Some in E as ->. rewrite length_app.
  destruct t; [done|]. simpl. lia.
Qed.

Lemma scan_atom_length l v r : scan_atom l = Some (v, r) → (length r < length l)%nat.
Proof.
  unfold scan_atom. destruct (scan_literal literals l) as [[w r']|] eqn:E.
  - intros [= _ <-]. eapply scan_literal_length, E. repeat constructor; done.
  - intros ([n r'] & H & [= _ ->])%bind_Some. by eapply scan_number_length.
Qed.

Lemma scan_lengths n :
  (∀ l v r, scan_once n l = Some (v, r) → (length r < length l)%nat) ∧
  (∀ l vs r, scan_items n l = Some (vs, r) → (length r < length l)%nat) ∧
  (∀ l kvs r, scan_members n l = Some (kvs, r) → (length r < length l)%nat).
Proof.
  induction n as [|n (IHo & IHi & IHm)]; [by split_and!; intros [] |].
  split_and!.
  - intros [|c l] v r; [done|]. cbn [scan_once]. pose proof (skip_ws_length l) as Hw.
    case_bool_decide; [|case_bool_decide; [|case_bool_decide; [|by intros ?%scan_atom_length]]].
    + intros ([s r'] & ?%scan_str_length & [= _ ->])%bind_Some. simpl. lia.
    + destruct (expect "]"%char (skip_ws l)) as [r'|] eqn:E.
      * apply expect_Some in E. intros [= _ <-]. rewrite E in Hw. simpl in *. lia.
      * intros ([vs r'] & ?%IHi & [= _ ->])%bind_Some. simpl. lia.
    + destruct (expect "}"%char (skip_ws l)) as [r'|] eqn:E.
      * apply expect_Some in E. intros [= _ <-]. rewrite E in Hw. simpl in *. lia.
      * intros ([vs r'] & ?%IHm & [= _ ->])%bind_Some. simpl. lia.
  - intros l vs r. cbn [scan_items].
    intros ([v r1] & ?%IHo & H)%bind_Some. pose proof (skip_ws_length r1).
    destruct (expect "]"%char (skip_ws r1)) as [r'|] eqn:E.
    + apply expect_Some in E. injection H as _ <-. rewrite E in *. simpl in *. lia.
    + apply bind_Some in H as (r2 & E2%expect_Some & H). pose proof (skip_ws_length r2).
      apply bind_Some in H as ([vs' r3] & ?%IHi & [= _ ->]). rewrite E2 in *. simpl in *. lia.
  - intros l kvs r. cbn [scan_members]. intros (l1 & ->%expect_Some & H)%bind_Some.
    apply bind_Some in H as ([k r1] & ?%scan_str_length & H). pose proof (skip_ws_length r1).
    apply bind_Some in H as (r2 & E2%expect_Some & H). pose proof (skip_ws_length r2).
    apply bind_Some in H as ([v r3] & ?%IHo & H). pose proof (skip_ws_length r3).
    rewrite E2 in *. simpl in *.
    destruct (expect "}"%char (skip_ws r3)) as [r'|] eqn:E.
    + apply expect_Some in E. injection H as _ <-. rewrite E in *. simpl in *. lia.
    + apply bind_Some in H as (r4 & E4%expect_Some & H). pose proof (skip_ws_length r4).
      apply bind_Some in H as ([vs' r5] & ?%IHm & [= _ ->]). rewrite E4 in *. simpl in *. lia.
Qed.

(** ** Fuel of twice the length is enough *)
Lemma bind_ext {A B} (o : option A) (f g : A → option B) :
  (∀ a, o = Some a → f a = g a) → o ≫= f = o ≫= g.
Proof. destruct o; simpl; auto. Qed.

Lemma scan_fuel_S n :
  (∀ l, (2 * length l ≤ S n)%nat → scan_once n l = scan_once (S n) l) ∧
  (∀ l, (2 * length l ≤ n)%nat → scan_items n l = scan_items (S n) l) ∧
  (∀ l, (2 * length l ≤ n)%nat → scan_members n l = scan_members (S n) l).
Proof.
  induction n as [|n (IHo & IHi & IHm)].
  { split_and!; intros [|c l] Hl; simpl in Hl; try done; lia. }
  split_and!.
  - intros [|c l] Hl; [done|]. simpl in Hl. pose proof (skip_ws_length l).
    cbn [scan_once]. case_bool_decide; [done|]. case_bool_decide; [|case_bool_decide; [|done]];
      (destruct (expect _ _); [done|]); rewrite ?IHi, ?IHm by lia; done.
  - intros l Hl. cbn [scan_items]. rewrite <-IHo by lia. apply bind_ext. intros [v r] Hr.
    apply scan_lengths in Hr. pose proof (skip_ws_length r).
    destruct (expect "]"%char (skip_ws r)); [done|]. apply bind_ext. intros r' E%expect_Some.
    pose proof (skip_ws_length r'). rewrite E in *. simpl in *. by rewrite IHi by lia.
  - intros l Hl. cbn [scan_members]. apply bind_ext. intros l1 ->%expect_Some.
    apply bind_ext. intros [k r] Hk%scan_str_length. pose proof (skip_ws_length r).
    apply bind_ext. intros r1 E1%expect_Some. pose proof (skip_ws_length r1).
    rewrite E1 in *. simpl in *. rewrite <-IHo by lia. apply bind_ext. intros [v r2] Hr.
    apply scan_lengths in Hr. pose proof (skip_ws_length r2).
    destruct (expect "}"%char (skip_ws r2)); [done|]. apply bind_ext. intros r' E%expect_Some.
    pose proof (skip_ws_length r'). rewrite E in *. simpl in *. by rewrite IHm by lia.
Qed.

Lemma scan_once_fuel n l :
  (2 * length l ≤ S n)%nat → scan_once n l = scan_once (2 * length l) l.
Proof.
  intros Hl. destruct (decide (S n = 2 * length l)%nat) as [<-|Hne].
  { by apply (scan_fuel_S n). }
  assert (2 * length l ≤ n)%nat as Hle by lia. clear Hl Hne.
  induction Hle as [|m Hle IH]; [done|]. rewrite <-IH. symmetry. apply scan_fuel_S. lia.
Qed.

(** More fuel gives the same result. *)
Lemma scan_mono n :
  (∀ l x, scan_once n l = Some x → scan_once (S n) l = Some x) ∧
  (∀ l x, scan_items n l = Some x → scan_items (S n) l = Some x) ∧
  (∀ l x, scan_members n l = Some x → scan_members (S n) l = Some x).
Proof.
  assert (∀ A B (o o' : option A) (f g : A → option B) x,
    o ≫= f = Some x → (∀ a, o = Some a → o' = Some a) →
    (∀ a, f a = Some x → g a = Some x) → o' ≫= g = Some x) as Hb.
  { intros A B o o' f g x (a & Ha & Hf)%bind_Some Ho Hg. rewrite (Ho a Ha). simpl. auto. }
  induction n as [|n (IHo & IHi & IHm)]; [by split_and!; intros []|]. split_and!.
  - intros [|c l] x; [done|]. cbn [scan_once].
    case_bool_decide; [done|]. case_bool_decide; [|case_bool_decide; [|done]];
      (destruct (expect _ _); [done|]); intros Hx; eapply Hb; try done; intros; auto.
  - intros l x Hx. cbn [scan_items] in *. eapply Hb; [exact Hx|auto|]. intros [v r].
    destruct (expect _ _); [done|]. intros Hy. eapply Hb; [exact Hy|done|]. intros r' Hz.
    eapply Hb; [exact Hz|auto|done].
  - intros l x H0. cbn [scan_members] in *. eapply Hb; [exact H0|done|]. intros l1 H1.
    eapply Hb; [exact H1|done|]. intros [k r] H2. eapply Hb; [exact H2|done|]. intros r1 H3.
    eapply Hb; [exact H3|auto|]. intros [v r2].
    destruct (expect "}"%char (skip_ws r2)); [done|]. intros Hy. eapply Hb; [exact Hy|done|]. intros r' Hz.
    eapply Hb; [exact Hz|intros ? Hm; exact (IHm _ _ Hm)|done].
Qed.

Lemma scan_once_le n m l x : (n ≤ m)%nat → scan_once n l = Some x → scan_once m l = Some x.
Proof. induction 1; [done|]. intros. by apply scan_mono, IHle. Qed.
Lemma scan_items_le n m l x : (n ≤ m)%nat → scan_items n l = Some x → scan_items m l = Some x.
Proof. induction 1; [done|]. intros. by apply scan_mono, IHle. Qed.
Lemma scan_members_le n m l x :
  (n ≤ m)%nat → scan_members n l = Some x → scan_members m l = Some x.
Proof. induction 1; [done|]. intros. by apply scan_mono, IHle. Qed.

Lemma scan_once_enough n l x : scan_once n l = Some x → scan_once (2 * length l) l = Some x.
Proof.
  intros Hx. rewrite <-(scan_once_fuel (Nat.max n (2 * length l))) by lia.
  eapply scan_once_le; [|done]. lia.
Qed.

(** ** Characters read back *)
Lemma code_byte z : 0 ≤ z < 256 → code (byte z) = z.
Proof. intros Hz. unfold code, byte. rewrite N_ascii_embedding by lia. lia. Qed.

Lemma byte_code c : byte (code c) = c.
Proof. unfold code, byte. by rewrite N2Z.id, ascii_N_embedding. Qed.

Lemma byte_inj y z : 0 ≤ y < 256 → 0 ≤ z < 256 → byte y = byte z → y = z.
Proof. intros Hy Hz E. by rewrite <-(code_byte y), <-(code_byte z), E. Qed.

Lemma code_points_utf8 c l :
  0 ≤ c < 0x110000 → code_points (utf8 c ++ l) = c :: code_points l.
Proof.
  intros Hc. unfold utf8. pose proof (Z.mod_pos_bound c 64 eq_refl).
  pose proof (Z.mod_pos_bound (c / 64) 64 eq_refl).
  pose proof (Z.mod_pos_bound (c / 4096) 64 eq_refl).
  pose proof (Z.div_mod c 64 ltac:(done)). pose proof (Z.div_mod (c / 64) 64 ltac:(done)) as H64.
  pose proof (Z.div_mod (c / 4096) 64 ltac:(done)) as H4096.
  rewrite Z.div_div in H64 by lia. rewrite Z.div_div in H4096 by lia.
  change (64 * 64) with 4096 in *. change (4096 * 64) with 262144 in *.
  repeat case_bool_decide; cbn [app code_points].
  - rewrite code_byte by lia. by rewrite bool_decide_eq_true_2 by lia.
  - rewrite !code_byte by lia.
    rewrite bool_decide_eq_false_2, bool_decide_eq_true_2 by lia. f_equal. lia.
  - rewrite !code_byte by lia.
    rewrite !bool_decide_eq_false_2, bool_decide_eq_true_2 by lia. f_equal. lia.
  - rewrite !code_byte by lia. rewrite !bool_decide_eq_false_2 by lia. f_equal. lia.
Qed.

(** What is decoded from encoded scalars is them: the encoding of scalars is UTF-8. *)
Lemma is_utf8_encode cs :
  Forall is_scalar cs →
  is_utf8 (of_chars (mjoin (utf8 <$> cs))) ∧ code_points (mjoin (utf8 <$> cs)) = cs.
Proof.
  intros Hcs. assert (code_points (mjoin (utf8 <$> cs)) = cs) as E.
  { induction Hcs as [|c cs Hc Hcs IH]; [done|]. csimpl.
    rewrite code_points_utf8 by (unfold is_scalar in Hc; lia). by rewrite IH. }
  unfold is_utf8. rewrite chars_of_chars, E. done.
Qed.

(** ASCII text is UTF-8. *)
Lemma is_utf8_ascii s : Forall (λ c, code c < 128) (chars s) → is_utf8 s.
Proof.
  intros Hs. rewrite <-(of_chars_chars s).
  assert (mjoin (utf8 <$> (code <$> chars s)) = chars s) as <-.
  { induction Hs as [|c l Hc Hl IH]; [done|]. csimpl. rewrite IH. unfold utf8.
    rewrite bool_decide_eq_true_2 by done. by rewrite byte_code. }
  apply is_utf8_encode. apply Forall_fmap. eapply Forall_impl; [done|].
  intros c Hc. simpl in *. left. unfold code in *. lia.
Qed.

Lemma hex_val_digit n : 0 ≤ n < 16 → hex_val (hex_digit n) = Some n.
Proof.
  intros Hn. unfold hex_digit. case_bool_decide; unfold hex_val; rewrite code_byte by lia.
  - rewrite bool_decide_eq_true_2 by lia. f_equal. lia.
  - rewrite bool_decide_eq_false_2, bool_decide_eq_true_2 by lia. f_equal. lia.
Qed.

Lemma hex4_val_hex4 n :
  0 ≤ n < 0x10000 →
  hex4_val (hex_digit (n / 4096)) (hex_digit (n / 256 mod 16)) (hex_digit (n / 16 mod 16))
    (hex_digit (n mod 16)) = Some n.
Proof.
  intros Hn. pose proof (Z.div_mod n 16 ltac:(done)).
  pose proof (Z.div_mod (n / 16) 16 ltac:(done)) as H16.
  pose proof (Z.div_mod (n / 256) 16 ltac:(done)) as H256.
  rewrite Z.div_div in H16 by lia. rewrite Z.div_div in H256 by lia.
  change (16 * 16) with 256 in *. change (256 * 16) with 4096 in *.
  pose proof (Z.mod_pos_bound n 16 eq_refl). pose proof (Z.mod_pos_bound (n / 16) 16 eq_refl).
  pose proof (Z.mod_pos_bound (n / 256) 16 eq_refl).
  unfold hex4_val. rewrite !hex_val_digit by lia. simpl. f_equal. lia.
Qed.

Lemma scan_char_u n l :
  scan_char (u_escape n ++ l) = ('(s, r) ← scan_u_escape (hex4 n ++ l); Some (Some s, r)).
Proof. reflexivity. Qed.

Lemma scan_u_escape_one n l :
  0 ≤ n < 0x10000 → is_high n = false → scan_u_escape (hex4 n ++ l) = Some (utf8 n, l).
Proof.
  intros Hn Hh. unfold scan_u_escape, hex4. cbn [app].
  rewrite hex4_val_hex4 by done. cbn [mbind option_bind].
  destruct l as [|b [|v [|g1 [|g2 [|g3 [|g4 r]]]]]]; try done. by rewrite Hh.
Qed.

Lemma scan_u_escape_pair u u' l :
  0xD800 ≤ u ≤ 0xDBFF → 0xDC00 ≤ u' ≤ 0xDFFF →
  scan_u_escape (hex4 u ++ u_escape u' ++ l)
  = Some (utf8 (0x10000 + (u - 0xD800) * 1024 + (u' - 0xDC00)), l).
Proof.
  intros Hu Hu'. unfold scan_u_escape, u_escape, hex4. cbn [app].
  rewrite (hex4_val_hex4 u) by lia. cbn [mbind option_bind].
  unfold is_high, is_low. rewrite (bool_decide_eq_true_2 (_ ≤ u ≤ _)) by lia.
  rewrite bool_decide_eq_true_2 by done. cbn [andb].
  rewrite (hex4_val_hex4 u') by lia. cbn [mbind option_bind].
  by rewrite bool_decide_eq_true_2 by lia.
Qed.

(** An escaped character is read as one character. *)
Lemma scan_char_escape c l :
  is_scalar c → scan_char (escape c ++ l) = Some (Some (utf8 c), l).
Proof.
  intros Hc. unfold escape.
  do 7 (case_bool_decide; [by subst|]). case_bool_decide as Hp.
  - unfold utf8. rewrite (bool_decide_eq_true_2 (c < 128)) by lia. cbn [app scan_char].
    rewrite (bool_decide_eq_false_2 (byte c = dquote)).
    2: { change dquote with (byte 34). intros ?%byte_inj; lia. }
    rewrite (bool_decide_eq_false_2 (byte c = backslash)).
    2: { change backslash with (byte 92). intros ?%byte_inj; lia. }
    rewrite code_byte by lia. by rewrite bool_decide_eq_false_2 by lia.
  - unfold is_scalar in Hc. case_bool_decide.
    + rewrite scan_char_u, scan_u_escape_one; [done|lia|].
      unfold is_high. apply bool_decide_eq_false_2. lia.
    + set (n := c - 0x10000). rewrite <-app_assoc, scan_char_u.
      pose proof (Z.div_mod n 1024 ltac:(done)). pose proof (Z.mod_pos_bound n 1024 eq_refl).
      rewrite scan_u_escape_pair by lia. cbn [mbind option_bind]. repeat f_equal. lia.
Qed.

Lemma scan_str_dump s rest :
  is_utf8 s → scan_str (mjoin (escape <$> code_points (chars s)) ++ dquote :: rest)
              = Some (chars s, rest).
Proof.
  intros [Hsc Henc]. rewrite <-Henc at 2. clear Henc.
  induction Hsc as [|c cs Hc Hcs IH]; [done|]. csimpl. rewrite <-app_assoc, scan_str_eq.
  rewrite scan_char_escape by done. by rewrite IH.
Qed.

(** ** Values read back *)

(** What [loads] can give: decoded strings, doubles, keys without duplicates. *)
Fixpoint readable (v : json) : Prop :=
  match v with
  | JFloat (Fin m e) => is_double (Fin m e)
  | JStr s => is_utf8 s
  | JArr l => foldr (λ v P, readable v ∧ P) True l
  | JObj o => NoDup o.*1 ∧ foldr (λ kv P, (is_utf8 kv.1 ∧ readable kv.2) ∧ P) True o
  | _ => True
  end.

Lemma foldr_and_Forall {A} (P : A → Prop) l :
  foldr (λ x Q, P x ∧ Q) True l ↔ Forall P l.
Proof. induction l; simpl; [by split; [constructor|]|]. by rewrite Forall_cons, IHl. Qed.

Lemma skip_ws_id c l : is_json_space c = false → skip_ws (c :: l) = c :: l.
Proof. intros Hc. unfold skip_ws. simpl. by rewrite Hc. Qed.

(** A value that follows: its first character is no space and ends no number. *)
Lemma scan_number_head l n r :
  scan_number l = Some (n, r) →
  ∃ c l', l = c :: l' ∧ (is_Some (digit_of c) ∨
    c = "-"%char ∧ ∃ d l'', l' = d :: l'' ∧ is_Some (digit_of d)).
Proof.
  assert (∀ neg l, is_Some (scan_unsigned neg l) →
    ∃ c l', l = c :: l' ∧ is_Some (digit_of c)) as Hu.
  { intros neg [|c l0]; [by intros []|]. intros Hs. exists c, l0. split; [done|].
    destruct (digit_of c) as [d|] eqn:E; [done|]. unfold scan_unsigned in Hs.
    assert (scan_int_part (c :: l0) = ([], c :: l0)) as Ei.
    { unfold scan_int_part. assert (span_digits (c :: l0) = ([], c :: l0)) as ->
        by (simpl; by rewrite E). by destruct c as [[] [] [] [] [] [] [] []]. }
    rewrite Ei in Hs. by destruct Hs. }
  unfold scan_number. intros Hs. destruct (scan_minus l) as [neg l1] eqn:Em.
  destruct (Hu neg l1) as (c & l' & -> & Hd); [by rewrite Hs|].
  destruct l as [|a l]; [done|]. destruct (decide (a = "-"%char)) as [->|Ha].
  - injection Em as _ ->. eauto 10.
  - assert (scan_minus (a :: l) = (false, a :: l)) as E.
    { unfold scan_minus. destruct a as [[] [] [] [] [] [] [] []]; done. }
    rewrite E in Em. injection Em as _ -> ->. eauto 10.
Qed.

Lemma digit_of_ne c d : is_Some (digit_of c) → digit_of d = None → c ≠ d.
Proof. intros [? Hc] Hd ->. congruence. Qed.

Lemma scan_literal_number l n r : scan_number l = Some (n, r) → scan_literal literals l = None.
Proof.
  intros (c & l' & -> & Hc)%scan_number_head.
  assert (∀ a p, digit_of a = None → a ≠ "-"%char → strip_chars (chars (String a p)) (c :: l') = None) as Hx.
  { intros a p Ha Hm. simpl. destruct Hc as [Hc|[-> _]]; [|by rewrite decide_False].
    rewrite decide_False; [done|]. by apply digit_of_ne. }
  unfold literals. cbn [scan_literal].
  rewrite (Hx "n"%char "ull"), (Hx "t"%char "rue"), (Hx "f"%char "alse"), (Hx "N"%char "aN"),
    (Hx "I"%char "nfinity") by done.
  simpl. case_decide as Hm; [|done]. subst c. simpl.
  destruct Hc as [[? ?]|(_ & d & l'' & -> & Hd)]; [done|]. simpl.
  rewrite decide_False; [done|]. by apply digit_of_ne.
Qed.

Lemma dump_number v rest :
  match v with JInt _ | JFloat (Fin _ _) => readable v | _ => False end → number_ends rest →
  ∃ n, scan_number (dump v ++ rest) = Some (n, rest) ∧ json_of_number n = v.
Proof.
  destruct v as [| |z|[]| | |]; try done; intros Hv Hr.
  - exists (NInt z). split; [by apply str_Z_reads|done].
  - eexists (NFloat _). split; [by apply float_repr_reads|done].
Qed.

(** The first character of a value. *)
Lemma dump_head v :
  readable v → ∃ c l, dump v = c :: l ∧ is_json_space c = false ∧ c ≠ "]"%char.
Proof.
  intros Hv.
  assert (match v with JInt _ | JFloat (Fin _ _) => readable v | _ => False end →
    ∃ c l, dump v = c :: l ∧ is_json_space c = false ∧ c ≠ "]"%char) as Hnum.
  { intros (n & (c & l & E & Hc)%scan_number_head & _)%(λ H, dump_number v [] H I).
    rewrite app_nil_r in E. exists c, l. split; [done|].
    destruct Hc as [[d Hd]|[-> _]]; [|by split].
    split; [|by apply (digit_of_ne c); [eauto|]].
    unfold is_json_space. apply bool_decide_eq_false_2. unfold digit_of in Hd. unfold code.
    case_bool_decide; [|done]. unfold nat_of_ascii in *. lia. }
  destruct v as [|[]|z|[m e| | |]|s|l|o]; try (eexists _, _; split; [reflexivity|by split]);
    by apply Hnum.
Qed.

Lemma dump_starts v rest :
  readable v → skip_ws (dump v ++ rest) = dump v ++ rest ∧ expect "]"%char (dump v ++ rest) = None.
Proof.
  intros (c & l & -> & Hs & Hc)%dump_head. split; [by apply skip_ws_id|].
  simpl. by rewrite decide_False.
Qed.

(** The text of [v] scans as [v], before anything that ends a number. *)
Definition scans (v : json) : Prop :=
  ∀ rest, number_ends rest → ∃ n, scan_once n (dump v ++ rest) = Some (v, rest).

Lemma scans_atom v :
  match v with JNull | JBool _ | JInt _ | JFloat _ => True | _ => False end →
  readable v → scans v.
Proof.
  intros Hk Hv rest Hr. exists 1%nat.
  assert (∀ c l, c ≠ dquote → c ≠ "["%char → c ≠ "{"%char →
    scan_once 1 (c :: l) = scan_atom (c :: l)) as Hat.
  { intros c l ? ? ?. cbn [scan_once]. by rewrite !bool_decide_eq_false_2 by done. }
  assert (match v with JInt _ | JFloat (Fin _ _) => readable v | _ => False end →
    scan_once 1 (dump v ++ rest) = Some (v, rest)) as Hnum.
  { intros (n & Hs & <-)%(λ H, dump_number v rest H Hr). pose proof Hs as Hh.
    apply scan_number_head in Hh as (c & l & E & Hc). rewrite E in *.
    rewrite Hat; [|by (destruct Hc as [?|[-> _]]; [apply digit_of_ne|])..].
    unfold scan_atom. by rewrite (scan_literal_number _ _ _ Hs), Hs. }
  destruct v as [|[]|z|[m e| | |]|s|l|o]; try done; try (by apply Hnum).
Qed.

Lemma scan_items_dump l :
  l ≠ [] → Forall readable l → Forall scans l → ∀ rest,
  ∃ n, scan_items n (join_chars (chars ", ") (dump <$> l) ++ "]"%char :: rest) = Some (l, rest).
Proof.
  intros Hne Hrd Hsc rest. revert Hne. induction Hsc as [|v l Hv Hl IH]; [done|]. intros _.
  apply Forall_cons in Hrd as [Hrv Hrl]. destruct l as [|w l].
  - destruct (Hv ("]"%char :: rest)) as [n Hn]; [done|]. exists (S n). csimpl.
    cbn [scan_items]. by rewrite Hn.
  - destruct IH as [m Hm]; [done|done|]. apply Forall_cons in Hrl as [Hw _].
    set (tl := join_chars (chars ", ") (dump <$> w :: l) ++ "]"%char :: rest) in *.
    destruct (Hv (chars ", " ++ tl)) as [n Hn]; [done|].
    exists (S (Nat.max n m)).
    assert (join_chars (chars ", ") (dump <$> v :: w :: l) ++ "]"%char :: rest
      = dump v ++ chars ", " ++ tl) as ->.
    { unfold tl. rewrite !fmap_cons. cbn [join_chars]. by rewrite <-!app_assoc. }
    cbn [scan_items]. rewrite (scan_once_le n (Nat.max n m) _ _ ltac:(lia) Hn).
    cbn [mbind option_bind]. change (skip_ws (chars ", " ++ tl)) with (","%char :: " "%char :: tl).
    cbn [expect]. rewrite decide_False, decide_True by done. cbn [mbind option_bind].
    assert (skip_ws (" "%char :: tl) = tl) as ->.
    { change (skip_ws tl = tl). unfold tl. rewrite fmap_cons. destruct l as [|x l].
      - cbn [fmap list_fmap map join_chars]. by apply dump_starts.
      - rewrite fmap_cons. cbn [join_chars]. rewrite <-app_assoc. by apply dump_starts. }
    by rewrite (scan_items_le m (Nat.max n m) _ _ ltac:(lia) Hm).
Qed.

Definition dump_member (kv : string * json) : list ascii :=
  dump_str kv.1 ++ chars ": " ++ dump kv.2.

Lemma scan_member k v tl n :
  is_utf8 k → readable v → scan_once n (dump v ++ tl) = Some (v, tl) →
  (l1 ← expect dquote (dump_member (k, v) ++ tl);
   '(k, r) ← scan_str l1;
   r ← expect ":"%char (skip_ws r);
   '(v, r) ← scan_once n (skip_ws r);
   match expect "}"%char (skip_ws r) with
   | Some r' => Some ([(of_chars k, v)], r')
   | None => r' ← expect ","%char (skip_ws r);
             '(kvs, r'') ← scan_members n (skip_ws r'); Some ((of_chars k, v) :: kvs, r'')
   end)
  = match expect "}"%char (skip_ws tl) with
    | Some r' => Some ([(k, v)], r')
    | None => r' ← expect ","%char (skip_ws tl);
              '(kvs, r'') ← scan_members n (skip_ws r'); Some ((k, v) :: kvs, r'')
    end.
Proof.
  intros Hk Hv Hn. unfold dump_member, dump_str. cbn [fst snd].
  rewrite <-!app_comm_cons. cbn [expect]. rewrite decide_True by done. cbn [mbind option_bind].
  rewrite <-!app_assoc. change ([dquote] ++ chars ": " ++ dump v ++ tl)
    with (dquote :: ":"%char :: " "%char :: dump v ++ tl).
  rewrite scan_str_dump by done. cbn [mbind option_bind].
  rewrite skip_ws_id by done. cbn [expect]. rewrite decide_True by done. cbn [mbind option_bind].
  change (skip_ws (" "%char :: dump v ++ tl)) with (skip_ws (dump v ++ tl)).
  rewrite (proj1 (dump_starts v tl Hv)), Hn. cbn [mbind option_bind]. by rewrite of_chars_chars.
Qed.

Lemma scan_members_dump o :
  o ≠ [] → Forall (λ kv, is_utf8 kv.1 ∧ readable kv.2) o → Forall (λ kv, scans kv.2) o → ∀ rest,
  ∃ n, scan_members n (join_chars (chars ", ") (dump_member <$> o) ++ "}"%char :: rest)
       = Some (o, rest).
Proof.
  intros Hne Hrd Hsc rest. revert Hne. induction Hsc as [|[k v] o Hv Ho IH]; [done|]. intros _.
  apply Forall_cons in Hrd as [[Hk Hrv] Hro]. simpl in Hk, Hrv, Hv. destruct o as [|kv o].
  - destruct (Hv ("}"%char :: rest)) as [n Hn]; [done|]. exists (S n).
    cbn [scan_members fmap list_fmap map join_chars].
    by rewrite (scan_member k v _ n Hk Hrv Hn).
  - destruct IH as [m Hm]; [done|done|].
    set (tl := join_chars (chars ", ") (dump_member <$> kv :: o) ++ "}"%char :: rest) in *.
    destruct (Hv (chars ", " ++ tl)) as [n Hn]; [done|].
    exists (S (Nat.max n m)).
    assert (join_chars (chars ", ") (dump_member <$> (k, v) :: kv :: o) ++ "}"%char :: rest
      = dump_member (k, v) ++ chars ", " ++ tl) as ->.
    { unfold tl. rewrite !fmap_cons. cbn [join_chars]. by rewrite <-!app_assoc. }
    cbn [scan_members].
    rewrite (scan_member k v _ _ Hk Hrv
      (scan_once_le n (Nat.max n m) _ _ ltac:(lia) Hn)).
    change (skip_ws (chars ", " ++ tl)) with (","%char :: " "%char :: tl).
    cbn [expect]. rewrite decide_False, decide_True by done. cbn [mbind option_bind].
    assert (skip_ws (" "%char :: tl) = tl) as ->.
    { change (skip_ws tl = tl). unfold tl, dump_member, dump_str. rewrite fmap_cons.
      destruct o; cbn [fmap list_fmap map join_chars]; rewrite <-!app_comm_cons; done. }
    by rewrite (scan_members_le m (Nat.max n m) _ _ ltac:(lia) Hm).
Qed.

Lemma readable_scans v : readable v → scans v.
Proof.
  induction v as [|b|z|x|s|l IH|o IH] using json_parts_ind; intros Hv;
    try (by apply scans_atom).
  - intros rest Hr. exists 1%nat. cbn [dump]. unfold dump_str. rewrite <-app_comm_cons, <-app_assoc.
    cbn [scan_once]. rewrite bool_decide_eq_true_2 by done.
    change ([dquote] ++ rest) with (dquote :: rest). rewrite scan_str_dump by done.
    cbn [mbind option_bind]. by rewrite of_chars_chars.
  - intros rest Hr. cbn [readable] in Hv. apply foldr_and_Forall in Hv.
    cbn [dump]. rewrite <-app_comm_cons, <-app_assoc. destruct l as [|v l]; [by exists 1%nat|].
    destruct (scan_items_dump (v :: l) ltac:(done) Hv) with (rest := rest) as [n Hn].
    { rewrite Forall_forall in *. auto. }
    exists (S n). cbn [scan_once]. rewrite bool_decide_eq_false_2, bool_decide_eq_true_2 by done.
    change (["]"%char] ++ rest) with ("]"%char :: rest). change (map dump) with (fmap (M := list) dump).
    assert (∀ tl, skip_ws (join_chars (chars ", ") (dump <$> v :: l) ++ tl)
      = join_chars (chars ", ") (dump <$> v :: l) ++ tl ∧
      expect "]"%char (join_chars (chars ", ") (dump <$> v :: l) ++ tl) = None) as Hst.
    { intros tl. apply Forall_cons in Hv as [Hv _]. rewrite fmap_cons.
      destruct l as [|w l]; [by apply dump_starts|]. rewrite fmap_cons. cbn [join_chars].
      rewrite <-app_assoc. by apply dump_starts. }
    by rewrite (proj1 (Hst _)), (proj2 (Hst _)), Hn.
  - intros rest Hr. cbn [readable] in Hv. destruct Hv as [Hnd Hv]. apply foldr_and_Forall in Hv.
    cbn [dump]. rewrite <-app_comm_cons, <-app_assoc. destruct o as [|kv o]; [by exists 1%nat|].
    destruct (scan_members_dump (kv :: o) ltac:(done) Hv) with (rest := rest) as [n Hn].
    { rewrite Forall_forall in *. intros x Hx. apply IH; [done|]. by apply Hv. }
    exists (S n). cbn [scan_once].
    rewrite bool_decide_eq_false_2, bool_decide_eq_false_2, bool_decide_eq_true_2 by done.
    change (["}"%char] ++ rest) with ("}"%char :: rest).
    change (map _ (kv :: o)) with (dump_member <$> kv :: o).
    assert (∀ tl, skip_ws (join_chars (chars ", ") (dump_member <$> kv :: o) ++ tl)
      = join_chars (chars ", ") (dump_member <$> kv :: o) ++ tl ∧
      expect "}"%char (join_chars (chars ", ") (dump_member <$> kv :: o) ++ tl) = None) as Hst.
    { intros tl. unfold dump_member, dump_str. rewrite fmap_cons.
      destruct o; cbn [fmap list_fmap map join_chars]; rewrite <-!app_comm_cons; done. }
    rewrite (proj1 (Hst _)), (proj2 (Hst _)), Hn. cbn [mbind option_bind].
    by rewrite ODict.of_list_id.
Qed.

(** [json.loads(json.dumps(v)) = v] *)
Lemma loads_dumps v : readable v → loads (dumps v) = Some v.
Proof.
  intros Hv. unfold loads, dumps. rewrite chars_of_chars.
  destruct (readable_scans v Hv [] I) as [n Hn].
  pose proof (dump_starts v [] Hv) as [Hw _]. rewrite app_nil_r in *. rewrite Hw.
  by rewrite (scan_once_enough _ _ _ Hn).
Qed.

(** ** What [dumps] writes is ASCII *)
Lemma is_ascii_byte z : 0 ≤ z < 128 → is_ascii (byte z).
Proof.
  intros Hz. pose proof (code_byte z ltac:(lia)) as E. unfold is_ascii, code in *.
  unfold nat_of_ascii. lia.
Qed.

Lemma is_ascii_hex n : 0 ≤ n < 16 → is_ascii (hex_digit n).
Proof. intros Hn. unfold hex_digit. case_bool_decide; apply is_ascii_byte; lia. Qed.

Lemma ascii_u_escape n : 0 ≤ n < 0x10000 → Forall is_ascii (u_escape n).
Proof.
  intros Hn. pose proof (Z.mod_pos_bound n 16 eq_refl).
  pose proof (Z.mod_pos_bound (n / 16) 16 eq_refl).
  pose proof (Z.mod_pos_bound (n / 256) 16 eq_refl).
  assert (0 ≤ n / 4096 < 16).
  { split; [apply Z.div_pos; lia|apply Z.div_lt_upper_bound; lia]. }
  unfold u_escape, hex4. repeat apply Forall_cons_2; try apply is_ascii_hex; try lia;
    [by apply (bool_decide_unpack (is_ascii _))..|constructor].
Qed.

Lemma ascii_escape c : is_scalar c → Forall is_ascii (escape c).
Proof.
  unfold is_scalar. intros Hc. unfold escape.
  do 7 (case_bool_decide; [by repeat constructor|]).
  case_bool_decide; [apply Forall_singleton, is_ascii_byte; lia|].
  case_bool_decide; [apply ascii_u_escape; lia|].
  set (n := c - 0x10000).
  pose proof (Z.div_mod n 1024 ltac:(done)). pose proof (Z.mod_pos_bound n 1024 eq_refl).
  apply Forall_app. split; apply ascii_u_escape; lia.
Qed.

Lemma ascii_dump_str s : is_utf8 s → Forall is_ascii (dump_str s).
Proof.
  intros [Hs _]. unfold dump_str. constructor; [by apply (bool_decide_unpack (is_ascii _))|].
  apply Forall_app. split; [|by repeat constructor].
  apply Forall_join, Forall_fmap. eapply Forall_impl; [done|]. apply ascii_escape.
Qed.

Lemma ascii_join sep ls :
  Forall is_ascii sep → Forall (Forall is_ascii) ls → Forall is_ascii (join_chars sep ls).
Proof.
  intros Hsep. induction 1 as [|x ls Hx Hls IH]; [constructor|]. simpl.
  destruct ls; [done|]. by repeat apply Forall_app_2.
Qed.

Lemma ascii_dump v : readable v → Forall is_ascii (dump v).
Proof.
  induction v as [|[]|z|x|s|l IH|o IH] using json_parts_ind; intros Hv;
    try (by repeat constructor).
  - apply ascii_text_str_Z.
  - destruct x; try (by repeat constructor). apply ascii_text_repr.
  - by apply ascii_dump_str.
  - cbn [readable] in Hv. apply foldr_and_Forall in Hv. cbn [dump].
    constructor; [by apply (bool_decide_unpack (is_ascii _))|].
    apply Forall_app_2; [|by repeat constructor]. apply ascii_join; [by repeat constructor|].
    change (map dump) with (fmap (M := list) dump). apply Forall_fmap.
    rewrite Forall_forall in *. simpl. auto.
  - cbn [readable] in Hv. destruct Hv as [_ Hv]. apply foldr_and_Forall in Hv. cbn [dump].
    constructor; [by apply (bool_decide_unpack (is_ascii _))|].
    apply Forall_app_2; [|by repeat constructor]. apply ascii_join; [by repeat constructor|].
    apply Forall_fmap. rewrite Forall_forall in *. intros [k w] Hkw.
    destruct (Hv _ Hkw) as [Hk Hw]. cbn [fst snd] in *. apply Forall_app_2; [by apply ascii_dump_str|].
    apply (Forall_app_2 _ (chars ": ")); [by repeat constructor|]. by apply (IH (k, w)).
Qed.

Lemma dumps_utf8 v : readable v → is_utf8 (dumps v).
Proof.
  intros Hv. apply is_utf8_ascii. unfold dumps. rewrite chars_of_chars.
  eapply Forall_impl; [by apply ascii_dump|]. intros c Hc. unfold is_ascii, code, nat_of_ascii in *.
  lia.
Qed.
