(* ===== verification/Settings.v ===== *)
(** * Settings: the list-valued variables ([src/config/settings.py])

    An environment variable is a text; a default is a list already.  pydantic-settings reads
    the variables and checks the result against [list[str]] (not modelled); what the code
    adds is the validator that accepts both a JSON array and a comma-separated text. *)
From stdpp Require Import base list strings.
From Stdlib Require Import ZArith Lia Ascii.
From S2P Require Import Prelude PyNum PyStr PyFloat Json JsonText.

Inductive ParseError : Set := JSONDecodeError.

(** [AppSettings.parse_string_list], of [es_hosts], [debug_processes], [redis_sentinels] *)
Definition parse_string_list (v : json) : res ParseError json :=
  match v with
  | JStr s =>
      let stripped := strip s in
      if decide (stripped = "") then Ok (JArr [])
      else if startswith "[" stripped then
        match loads stripped with Some x => Ok x | None => Err JSONDecodeError end
      else Ok (JArr (JStr <$> filter (λ h, h ≠ "") (strip <$> split_char "," stripped)))
  | _ => Ok v
  end.

(** ** White space around a text *)
Definition ltrim (l : list ascii) : list ascii := drop_while is_space l.
Definition rtrim (l : list ascii) : list ascii := reverse (drop_while is_space (reverse l)).

Lemma strip_trim s : chars (strip s) = rtrim (ltrim (chars s)).
Proof. unfold strip. by rewrite chars_of_chars. Qed.

Lemma ltrim_app a c b : is_space c = false → ltrim (a ++ c :: b) = ltrim a ++ c :: b.
Proof.
  intros Hc. unfold ltrim. induction a as [|x a IH]; simpl; [by rewrite Hc|]. by case_match.
Qed.

Lemma rtrim_app a c b : is_space c = false → rtrim (a ++ c :: b) = a ++ c :: rtrim b.
Proof.
  intros Hc. unfold rtrim. rewrite reverse_app, reverse_cons, <-app_assoc.
  change ([c] ++ reverse a) with (c :: reverse a). pose proof (ltrim_app (reverse b) c (reverse a) Hc) as E.
  unfold ltrim in E. rewrite E, reverse_app, reverse_cons, reverse_involutive, <-app_assoc. done.
Qed.

Lemma ltrim_cases l : ltrim l = [] ∧ Forall (λ c, is_space c = true) l ∨
  ∃ sp c t, l = sp ++ c :: t ∧ Forall (λ c, is_space c = true) sp ∧ is_space c = false ∧
    ltrim l = c :: t.
Proof.
  unfold ltrim. induction l as [|c l IH]; simpl; [by left|]. destruct (is_space c) eqn:E.
  - destruct IH as [[-> Hl]|(sp & a & t & -> & Hsp & Ha & ->)]; [left; auto|right].
    exists (c :: sp), a, t. auto.
  - right. exists [], c, l. auto.
Qed.

Lemma ltrim_spaces l : Forall (λ c, is_space c = true) l → ltrim l = [].
Proof. unfold ltrim. induction 1 as [|c l Hc _ IH]; simpl; [done|]. by rewrite Hc. Qed.

Lemma rtrim_spaces l : Forall (λ c, is_space c = true) l → rtrim l = [].
Proof.
  intros Hl. unfold rtrim. pose proof (ltrim_spaces (reverse l)) as E. unfold ltrim in E.
  rewrite E; [done|]. by apply Forall_reverse.
Qed.

Lemma trim_comm l : ltrim (rtrim l) = rtrim (ltrim l).
Proof.
  destruct (ltrim_cases l) as [[-> Hl]|(sp & c & t & -> & Hsp & Hc & ->)].
  - by rewrite rtrim_spaces.
  - rewrite rtrim_app, ltrim_app, (ltrim_spaces sp) by done. symmetry. by apply (rtrim_app []).
Qed.

Lemma ltrim_idem l : ltrim (ltrim l) = ltrim l.
Proof.
  destruct (ltrim_cases l) as [[-> _]|(sp & c & t & -> & Hsp & Hc & ->)]; [done|].
  by apply (ltrim_app []).
Qed.

Lemma rtrim_idem l : rtrim (rtrim l) = rtrim l.
Proof.
  unfold rtrim. rewrite reverse_involutive. pose proof (ltrim_idem (reverse l)) as E.
  unfold ltrim in E. by rewrite E.
Qed.

Lemma strip_ltrim l : strip (of_chars (ltrim l)) = strip (of_chars l).
Proof.
  rewrite <-(of_chars_chars (strip _)), <-(of_chars_chars (strip (of_chars l))).
  by rewrite !strip_trim, !chars_of_chars, ltrim_idem.
Qed.

Lemma strip_rtrim l : strip (of_chars (rtrim l)) = strip (of_chars l).
Proof.
  rewrite <-(of_chars_chars (strip _)), <-(of_chars_chars (strip (of_chars l))).
  by rewrite !strip_trim, !chars_of_chars, trim_comm, rtrim_idem.
Qed.

(** ** Splitting at commas *)
Definition no_comma (s : string) : Prop := has_char "," s = false.

Lemma split_char_app c a b :
  has_char c a = false → split_char c (a +:+ String c b) = a :: split_char c b.
Proof.
  induction a as [|x a IH]; intros Ha.
  - rewrite str_app_nil. simpl. by rewrite decide_True.
  - rewrite str_app_cons. simpl in *. unfold has_char in Ha. simpl in Ha.
    apply orb_false_iff in Ha as [Hx Ha]. apply bool_decide_eq_false in Hx.
    rewrite decide_False by done. by rewrite IH.
Qed.

Lemma split_char_none c s : has_char c s = false → split_char c s = [s].
Proof.
  induction s as [|x s IH]; intros Hs; [done|]. unfold has_char in Hs. simpl in *.
  apply orb_false_iff in Hs as [Hx Hs]. apply bool_decide_eq_false in Hx.
  rewrite decide_False by done. by rewrite IH.
Qed.

Lemma has_char_sub c s l : (∀ x, x ∈ l → x ∈ chars s) → has_char c s = false →
  has_char c (of_chars l) = false.
Proof.
  unfold has_char. rewrite chars_of_chars. intros Hl Hs. apply not_true_iff_false.
  apply not_true_iff_false in Hs. intros E. apply Hs. apply existsb_exists in E as (x & Hx & Ex).
  apply existsb_exists. exists x. split; [|done]. apply list_elem_of_In, Hl. by apply list_elem_of_In.
Qed.

Lemma rtrim_elem l x : x ∈ rtrim l → x ∈ l.
Proof.
  unfold rtrim. rewrite elem_of_reverse. intros Hx%drop_while_elem. by rewrite elem_of_reverse in Hx.
Qed.

(** Only the right end of a joined text is trimmed: the pieces are the same up to the white
    space around them. *)
Lemma split_rtrim_join raw :
  raw ≠ [] → Forall no_comma raw →
  strip <$> split_char "," (of_chars (rtrim (chars (join "," raw)))) = strip <$> raw.
Proof.
  intros Hne Hraw. induction Hraw as [|x raw Hx Hraw IH]; [done|].
  destruct raw as [|y raw].
  - simpl. rewrite split_char_none.
    + csimpl. by rewrite strip_rtrim, of_chars_chars.
    + eapply has_char_sub; [|exact Hx]. apply rtrim_elem.
  - change (join "," (x :: y :: raw)) with (x +:+ "," +:+ join "," (y :: raw)).
    rewrite !chars_app.
    change (chars x ++ chars "," ++ chars (join "," (y :: raw)))
      with (chars x ++ ","%char :: chars (join "," (y :: raw))).
    rewrite rtrim_app by done.
    assert (∀ l, of_chars (chars x ++ ","%char :: l) = x +:+ String "," (of_chars l)) as ->.
    { intros l. rewrite <-(of_chars_chars (x +:+ _)), chars_app. simpl. by rewrite chars_of_chars. }
    rewrite split_char_app by done. rewrite !fmap_cons, IH by done. done.
Qed.

Lemma split_strip_join raw :
  raw ≠ [] → Forall no_comma raw →
  strip <$> split_char "," (strip (join "," raw)) = strip <$> raw.
Proof.
  intros Hne Hraw. rewrite <-(of_chars_chars (strip _)), strip_trim, <-trim_comm.
  destruct raw as [|x [|y raw]]; [done| |].
  - apply Forall_cons in Hraw as [Hraw _]. rewrite split_char_none.
    + csimpl. by rewrite strip_ltrim, strip_rtrim, of_chars_chars.
    + eapply has_char_sub; [|exact Hraw]. intros c Hc%drop_while_elem. by apply rtrim_elem.
  - pose proof (split_rtrim_join (x :: y :: raw) ltac:(done) Hraw) as E. revert E.
    apply Forall_cons in Hraw as [Hx Hraw].
    change (join "," (x :: y :: raw)) with (x +:+ "," +:+ join "," (y :: raw)).
    rewrite !chars_app.
    change (chars x ++ chars "," ++ chars (join "," (y :: raw)))
      with (chars x ++ ","%char :: chars (join "," (y :: raw))).
    rewrite rtrim_app, ltrim_app by done.
    assert (∀ a l, of_chars (a ++ ","%char :: l) = of_chars a +:+ String "," (of_chars l)) as Ha.
    { intros a l. rewrite <-(of_chars_chars (of_chars a +:+ _)), chars_app. simpl.
      by rewrite !chars_of_chars. }
    rewrite !Ha, !split_char_app.
    + rewrite !fmap_cons, strip_ltrim. done.
    + eapply has_char_sub; [|exact Hx]. intros c. apply drop_while_elem.
    + by rewrite of_chars_chars.
Qed.

(** Text that starts with a bracket is an array, or nothing. *)
Lemma loads_bracket r x : loads ("[" +:+ r) = Some x → ∃ l, x = JArr l.
Proof.
  unfold loads. rewrite chars_app. change (chars "[" ++ chars r) with ("["%char :: chars r).
  rewrite skip_ws_id by done. intros ([v t] & Hs & Hx)%bind_Some.
  case_bool_decide; [|done]. injection Hx as <-.
  change (2 * length ("["%char :: chars r)) with (S (length (chars r) + S (length (chars r) + 0))) in Hs.
  cbn [scan_once] in Hs. rewrite bool_decide_eq_false_2, bool_decide_eq_true_2 in Hs by done.
  destruct (expect "]"%char (skip_ws (chars r))); [injection Hs as <- _; eauto|].
  apply bind_Some in Hs as ([vs t'] & _ & [= <- _]). eauto.
Qed.

(** ** Properties *)

(** A text that a [ConfigMap] or an env file may hold gives the same list either way: the
    JSON array of some strings gives them back, whatever characters they have; and
    comma-separated entries give the entries without the white space around them and
    without the empty ones (the first must not start with a bracket). *)
Theorem parse_string_list_forms :
  (∀ l, Forall is_utf8 l →
    parse_string_list (JStr (dumps (JArr (JStr <$> l)))) = Ok (JArr (JStr <$> l))) ∧
  (∀ raw, raw ≠ [] → Forall no_comma raw → startswith "[" (strip (join "," raw)) = false →
    parse_string_list (JStr (join "," raw))
    = Ok (JArr (JStr <$> filter (λ h, h ≠ "") (strip <$> raw)))) ∧
  (∀ s x, parse_string_list (JStr s) = Ok x → ∃ l, x = JArr l).
Proof.
  split_and!.
  - intros l Hl. assert (readable (JArr (JStr <$> l))) as Hr.
    { cbn [readable]. apply foldr_and_Forall, Forall_fmap. eapply Forall_impl; done. }
    assert (strip (dumps (JArr (JStr <$> l))) = dumps (JArr (JStr <$> l))) as E.
    { rewrite <-(of_chars_chars (strip _)), strip_trim. unfold dumps. rewrite chars_of_chars.
      f_equal. cbn [dump]. set (t := join_chars _ _). change (?a :: ?b ++ ?c) with ((a :: b) ++ c).
      pose proof (ltrim_app [] "["%char (t ++ ["]"%char]) eq_refl) as El. cbn [app] in *.
      rewrite El. cbn [ltrim drop_while app].
      exact (rtrim_app ("["%char :: t) "]"%char [] eq_refl). }
    unfold parse_string_list. rewrite E, loads_dumps by done. done.
  - intros raw Hne Hraw Hs. unfold parse_string_list. rewrite Hs.
    rewrite <-(split_strip_join raw) by done. case_decide as E; [|done]. by rewrite E.
  - intros s x. unfold parse_string_list. case_decide; [intros [= <-]; eauto|].
    destruct (startswith "[" (strip s)) eqn:E; [|intros [= <-]; eauto].
    destruct (loads (strip s)) as [y|] eqn:El; [|done]. intros [= <-].
    unfold startswith in E. apply bool_decide_eq_true in E as [r Hr%strip_prefix_Some].
    rewrite Hr in El. by eapply loads_bracket.
Qed.

Lemma parse_string_list_forms_witness :
  parse_string_list (JStr (dumps (JArr [JStr "PHOTO"; JStr "식각"])))
  = Ok (JArr [JStr "PHOTO"; JStr "식각"]) ∧
  parse_string_list (JStr " http://es1:9200 , http://es2:9200,")
  = Ok (JArr [JStr "http://es1:9200"; JStr "http://es2:9200"]).
Proof.
  destruct parse_string_list_forms as (H1 & H2 & _). split.
  - apply (H1 ["PHOTO"; "식각"]). repeat constructor; apply (bool_decide_unpack _); vm_compute; done.
  - apply (H2 [" http://es1:9200 "; " http://es2:9200"; ""]).
    + discriminate.
    + repeat constructor.
    + reflexivity.
Defined.
