(* ===== verification/Renderer.v ===== *)
(** * The e-mail body renderer ([src/alert/body_renderer.py], [src/alert/tokens.py])

    Templates and values are UTF-8 byte strings.  A template is lexed into literal
    characters and [@]-tokens, so a substitution is a function on tokens. *)
From stdpp Require Import base list strings.
From Stdlib Require Import ZArith Lia Ascii.
From Stdlib Require String.
From S2P Require Import Prelude PyNum PyStr PyFloat.

(** A value bound to a token. *)
Inductive TVal : Type :=
| TNone
| TStr (s : string)
| TInt (z : Z)
| TNum (x : num).

(** ** Tokens *)
Inductive Context : Set := text | url.

Definition SCALAR_TOKENS : list (string * Context) :=
  [("@Severity", text); ("@Category", text); ("@Fact", text); ("@CurrentValue", text);
   ("@Threshold", text); ("@Operator", text); ("@WindowMin", text); ("@Timestamp", text);
   ("@Process", text); ("@GroupBy", text); ("@GroupValue", text); ("@AffectedCount", text);
   ("@AffectedEquipment", text); ("@GrafanaUrl", url); ("@Hostname", text);
   ("@Model", text); ("@Line", text); ("@IP", text); ("@CODE", text)].

Definition ROW_TOKENS : list (string * Context) :=
  [("@Row.Index", text); ("@Row.EqpId", text); ("@Row.CurrentValue", text);
   ("@Row.Threshold", text); ("@Row.Severity", text); ("@Row.Fact", text);
   ("@Row.Category", text); ("@Row.Operator", text); ("@Row.Model", text);
   ("@Row.Line", text); ("@Row.IP", text); ("@Row.Proc", text)].

Definition TOKEN_CONTEXT : list (string * Context) := SCALAR_TOKENS ++ ROW_TOKENS.

(** ** Lexing by [_TOKEN_RE], an at sign, an optional [Row.], and letters *)
Inductive Lexeme : Type := Lit (c : ascii) | Tok (name : string).

Fixpoint span_alpha (l : list ascii) : list ascii * list ascii :=
  match l with
  | c :: l' => if is_alpha c then prod_map (c ::.) id (span_alpha l') else ([], l)
  | [] => ([], [])
  end.

(** The match at the text after an at sign, and what follows it; without letters after
    [Row.] the group is skipped, and [Row] itself is the name. *)
Definition match_token (l : list ascii) : option (list ascii * list ascii) :=
  let plain := match span_alpha l with ([], _) => None | r => Some r end in
  match strip_prefix "Row." (of_chars l) with
  | Some rest =>
      match span_alpha (chars rest) with
      | ([], _) => plain
      | (name, rest) => Some (chars "Row." ++ name, rest)
      end
  | None => plain
  end.

Fixpoint lex_fuel (fuel : nat) (l : list ascii) : list Lexeme :=
  match fuel, l with
  | 0, _ | _, [] => []
  | S fuel, c :: l' =>
      if decide (c = "@"%char) then
        match match_token l' with
        | Some (name, rest) => Tok (String "@" (of_chars name)) :: lex_fuel fuel rest
        | None => Lit c :: lex_fuel fuel l'
        end
      else Lit c :: lex_fuel fuel l'
  end.

Definition lex (s : string) : list Lexeme := lex_fuel (byte_len s) (chars s).

(** [_TOKEN_RE.sub(repl, s)] *)
Definition sub_tokens (repl : string → string) (s : string) : string :=
  foldr (λ x acc, match x with Lit c => String c acc | Tok t => repl t +:+ acc end) "" (lex s).

(** ** Values *)
Definition ValueMap : Type := list (string * TVal).

Definition _format_value (raw : TVal) : string :=
  match raw with
  | TNone => "-"
  | TStr s => s
  | TInt z => str_Z z
  | TNum x => float_repr x
  end.

(** [html.escape(s, quote=True)] *)
Definition html_escape_char (c : ascii) : string :=
  if decide (c = "&"%char) then "&amp;"
  else if decide (c = "<"%char) then "&lt;"
  else if decide (c = ">"%char) then "&gt;"
  else if decide (c = dquote) then "&quot;"
  else if decide (c = "'"%char) then "&#x27;"
  else String c "".

Definition html_escape (s : string) : string := map_chars html_escape_char s.

Definition _RESERVED_AKKA_TOKEN : string := "@HttpWebServerAddress".
Definition _RESERVED_AKKA_NEUTRAL : string := "&#64;HttpWebServerAddress".

Definition _escape_text (raw : TVal) : string :=
  replace _RESERVED_AKKA_TOKEN _RESERVED_AKKA_NEUTRAL (html_escape (_format_value raw)).

(** [not raw]: also an empty string and zero. *)
Definition falsy (raw : TVal) : bool :=
  match raw with
  | TNone => true
  | TStr s => bool_decide (s = "")
  | TInt z => bool_decide (z = 0%Z)
  | TNum x => num_eqb x (num_of_Z 0)
  end.

Definition _escape_url (raw : TVal) : string :=
  if falsy raw then ""
  else
    let s := _format_value raw in
    if negb (startswith "http://" s || startswith "https://" s) then ""
    else replace dq "&quot;" s.

Definition _render_token (token : string) (value_map : ValueMap) : string :=
  match ODict.get token value_map with
  | None => ""
  | Some raw =>
      match ODict.get token TOKEN_CONTEXT with
      | Some url => _escape_url raw
      | _ => _escape_text raw
      end
  end.

Definition _substitute (s : string) (value_map : ValueMap) (only_provided : bool) : string :=
  sub_tokens (λ token,
    if bool_decide (token ∉ TOKEN_CONTEXT.*1) then token
    else if only_provided && bool_decide (token ∉ value_map.*1) then token
    else _render_token token value_map) s.

(** ** The Equipment Repeat Block *)
Definition ERB_START : string := "<!--@EachEquipment-->".
Definition ERB_END : string := "<!--@EndEachEquipment-->".

(** [_ERB_BLOCK_RE.sub]: the fuel is the length of the text. *)
Fixpoint drop_blocks (fuel : nat) (s : string) : string :=
  match fuel with
  | 0 => s
  | S fuel =>
      match split_first ERB_START s with
      | None => s
      | Some (pre, rest) =>
          match split_first ERB_END rest with
          | None => s
          | Some (_, post) => pre +:+ drop_blocks fuel post
          end
      end
  end.

Definition drop_markers (s : string) : string := replace ERB_END "" (replace ERB_START "" s).

Definition _strip_erb (s : string) : string := drop_markers (drop_blocks (byte_len s) s).

Definition has_marker (s : string) : bool := contains ERB_START s || contains ERB_END s.

(** [{**row, "@Row.Index": i}] substituted in the inner text. *)
Definition expand_row (inner : string) (i : nat) (row : ValueMap) : string :=
  _substitute inner (ODict.set "@Row.Index" (TInt (Z.of_nat (S i))) row) true.

Definition _expand_erb (template : string) (rows : list ValueMap) (row_limit : option nat)
    (overflow_text : string) : string :=
  let block :=
    '(pre, rest) ← split_first ERB_START template;
    '(inner, post) ← split_first ERB_END rest;
    Some (pre, inner, post) in
  match block with
  | None => if has_marker template then _strip_erb template else template
  | Some (pre, inner, post) =>
      let capped := match row_limit with None => rows | Some n => take n rows end in
      let remaining := length rows - length capped in
      let pieces := imap (expand_row inner) capped in
      let overflow := if decide (remaining = 0) then ""
                      else replace "@RemainingCount" (str_Z (Z.of_nat remaining)) overflow_text in
      let '(pre, post) := if has_marker pre || has_marker post
                          then (_strip_erb pre, _strip_erb post) else (pre, post) in
      let result := pre +:+ join "" pieces +:+ overflow +:+ post in
      if has_marker result then drop_markers result else result
  end.

(** ** Truncation *)
Definition _TRUNCATE_MARKER : string := "<!-- truncated -->".

(** The number of bytes of the UTF-8 sequence a byte begins. *)
Definition utf8_width (c : ascii) : nat :=
  let n := nat_of_ascii c in
  if decide (n < 192) then 1 else if decide (n < 224) then 2
  else if decide (n < 240) then 3 else 4.

(** [.decode("utf-8", errors="ignore")] of a prefix of valid UTF-8: a sequence that is
    cut at the end is dropped.  The fuel is the length. *)
Fixpoint decode_ignore (fuel : nat) (l : list ascii) : list ascii :=
  match fuel, l with
  | 0, _ | _, [] => []
  | S fuel, c :: _ =>
      if decide (utf8_width c ≤ length l)
      then take (utf8_width c) l ++ decode_ignore fuel (drop (utf8_width c) l)
      else []
  end.

Definition _truncate_to_bytes (s : string) (byte_cap : nat) : string :=
  let budget := byte_cap - byte_len _TRUNCATE_MARKER in
  let cut := take budget (chars s) in
  of_chars (decode_ignore (length cut) cut) +:+ _TRUNCATE_MARKER.

(** ** Rows, title and body *)
Definition _SEV_RANK (s : string) : nat :=
  if decide (s = "CRITICAL") then 0 else if decide (s = "WARNING") then 1 else 99.

Definition get_str (k : string) (row : ValueMap) : string :=
  match ODict.get k row with Some v => _format_value v | None => "" end.

(** The number of [@Row.CurrentValue], if it is one. *)
Definition row_value (row : ValueMap) : option num :=
  match ODict.get "@Row.CurrentValue" row with
  | Some (TNum x) => Some x
  | Some (TInt z) => Some (num_of_Z z)
  | _ => None
  end.

(** The key of [order_rows]: severity, the value negated ([None] is infinity), id. *)
Definition row_leb (a b : ValueMap) : bool :=
  let sa := _SEV_RANK (upper (get_str "@Row.Severity" a)) in
  let sb := _SEV_RANK (upper (get_str "@Row.Severity" b)) in
  let ids := str_leb (get_str "@Row.EqpId" a) (get_str "@Row.EqpId" b) in
  if decide (sa = sb) then
    match row_value a, row_value b with
    | Some x, Some y => if num_eqb x y then ids else num_leb y x
    | Some x, None => if num_eqb x NegInf then ids else true
    | None, Some y => if num_eqb y NegInf then ids else false
    | None, None => ids
    end
  else bool_decide (sa < sb).

Definition order_rows : list ValueMap → list ValueMap := sort_by row_leb.

Definition DEFAULT_TITLE : string := "[EARS] 자원 모니터링 알림".

Definition DEFAULT_BODY : string :=
  "<h3>[@Category] @Severity 임계 초과</h3>" +:+
  "<p>공정 @Process · 최근 @WindowMin분 · @Timestamp</p>" +:+
  "<p>영향 장비 @AffectedCount대</p>" +:+
  "<table border=" +:+ dq +:+ "1" +:+ dq +:+ " cellpadding=" +:+ dq +:+ "4" +:+ dq +:+ ">" +:+
  "<tr><th>장비</th><th>지표</th><th>현재값</th><th>임계</th><th>심각도</th></tr>" +:+
  "<!--@EachEquipment-->" +:+
  "<tr><td>@Row.EqpId</td><td>@Row.Fact</td><td>@Row.CurrentValue</td>" +:+
  "<td>@Row.Threshold</td><td>@Row.Severity</td></tr>" +:+
  "<!--@EndEachEquipment-->" +:+
  "</table>".

Definition render_title (title_template : string) (scalars : ValueMap) : string :=
  let tpl := if decide (title_template = "") then DEFAULT_TITLE else title_template in
  let rendered :=
    sub_tokens (λ token,
      if bool_decide (token ∉ TOKEN_CONTEXT.*1) then token
      else match ODict.get token scalars with
           | None => ""
           | Some v => _format_value v
           end) tpl in
  strip (replace ":" " " rendered).

Definition render_body (template_html : string) (scalars : ValueMap) (rows : list ValueMap)
    (row_limit : option nat) (overflow_text : string) (byte_cap : option nat) : string :=
  let expanded := _expand_erb template_html rows row_limit overflow_text in
  let out := _substitute expanded scalars false in
  match byte_cap with
  | Some cap => if decide (cap < byte_len out) then _truncate_to_bytes out cap else out
  | None => out
  end.

(** ** Lemmas on lexing *)
Definition lexeme_chars (x : Lexeme) : list ascii :=
  match x with Lit c => [c] | Tok t => chars t end.

(** A character a token name can have after its at sign. *)
Definition name_char (c : ascii) : bool := is_alpha c || bool_decide (c = "."%char).

Lemma span_alpha_spec l a b :
  span_alpha l = (a, b) → l = a ++ b ∧ Forall (λ c, name_char c = true) a.
Proof.
  revert a b. induction l as [|c l IH]; simpl; intros a b; [by intros [= <- <-]|].
  destruct (is_alpha c) eqn:Ec; [|by intros [= <- <-]].
  destruct (span_alpha l) as [a' b'] eqn:E. intros [= <- <-].
  destruct (IH _ _ eq_refl) as [-> Ha]. split; [done|]. constructor; [|done].
  unfold name_char. by rewrite Ec.
Qed.

Lemma match_token_spec l name rest :
  match_token l = Some (name, rest) →
  l = name ++ rest ∧ Forall (λ c, name_char c = true) name.
Proof.
  unfold match_token.
  assert (∀ a b, match span_alpha l with ([], _) => None | r => Some r end = Some (a, b) →
    l = a ++ b ∧ Forall (λ c, name_char c = true) a) as Hplain.
  { intros a b. destruct (span_alpha l) as [[|c a'] b'] eqn:E; [done|]. intros [= <- <-].
    by apply span_alpha_spec. }
  destruct (strip_prefix "Row." (of_chars l)) as [r|] eqn:Ep; [|apply Hplain].
  destruct (span_alpha (chars r)) as [[|c a] b] eqn:E; [apply Hplain|]. intros [= <- <-].
  apply strip_prefix_Some in Ep. apply span_alpha_spec in E as [Er Ha]. split.
  - rewrite <-(chars_of_chars l), Ep, chars_app, Er. done.
  - repeat (constructor; [done|]). done.
Qed.

Lemma lex_fuel_chars fuel l :
  length l ≤ fuel → mjoin (lexeme_chars <$> lex_fuel fuel l) = l.
Proof.
  revert l. induction fuel as [|fuel IH]; intros l Hl; [by destruct l; simpl in *; [|lia]|].
  destruct l as [|c l]; [done|]. simpl in Hl. cbn [lex_fuel].
  destruct (decide (c = "@"%char)) as [->|Hc]; [|csimpl; rewrite IH by lia; done].
  destruct (match_token l) as [[name rest]|] eqn:E; csimpl; [|rewrite IH by lia; done].
  apply match_token_spec in E as [-> _]. rewrite length_app in Hl.
  rewrite IH by lia. simpl. rewrite chars_of_chars. done.
Qed.

Lemma lex_chars s : mjoin (lexeme_chars <$> lex s) = chars s.
Proof. by apply lex_fuel_chars. Qed.

Lemma lex_fuel_tokens fuel l t :
  Tok t ∈ lex_fuel fuel l →
  ∃ name, t = String "@" (of_chars name) ∧ Forall (λ c, name_char c = true) name.
Proof.
  revert l. induction fuel as [|fuel IH]; intros l; [by intros ?%elem_of_nil|].
  destruct l as [|c l]; [by intros ?%elem_of_nil|]. cbn [lex_fuel].
  destruct (decide (c = "@"%char)); [|intros [?|?]%elem_of_cons; [done|eauto]].
  destruct (match_token l) as [[name rest]|] eqn:E; intros [Ht|?]%elem_of_cons; eauto; [|done].
  injection Ht as ->. apply match_token_spec in E as [_ ?]. eauto.
Qed.

(** The occurrences of a character. *)
Definition count (c : ascii) (s : string) : nat := length (filter (.= c) (chars s)).

Lemma count_app c a b : count c (a +:+ b) = count c a + count c b.
Proof. unfold count. by rewrite chars_app, filter_app, length_app. Qed.

Lemma count_zero c s : (∀ a, a ∈ chars s → a ≠ c) → count c s = 0.
Proof.
  intros Hs. unfold count. apply length_zero_iff_nil, elem_of_nil_inv.
  intros a [E Ha]%list_elem_of_filter. by apply (Hs a).
Qed.

(** The tokens of a template, in order. *)
Definition tokens (s : string) : list string :=
  omap (λ x, match x with Tok t => Some t | Lit _ => None end) (lex s).

Lemma token_chars t s c :
  t ∈ tokens s → name_char c = false → c ≠ "@"%char → count c t = 0.
Proof.
  intros (x & Hx & E)%list_elem_of_omap Hc Hat. destruct x as [|t']; [done|]. injection E as ->.
  apply lex_fuel_tokens in Hx as (name & -> & Hn). apply count_zero. simpl.
  rewrite chars_of_chars. intros a [->|Ha]%elem_of_cons; [done|].
  rewrite Forall_forall in Hn. intros ->. apply Hn in Ha. congruence.
Qed.

(** A character that no token has: rendering adds what the texts of the tokens have. *)
Lemma count_sub_tokens c repl s :
  name_char c = false → c ≠ "@"%char →
  count c (sub_tokens repl s) = count c s + sum_list ((λ t, count c (repl t)) <$> tokens s).
Proof.
  intros Hc Hat. pose proof (λ t H, token_chars t s c H Hc Hat) as Hname. unfold count at 2.
  rewrite <-lex_chars. unfold sub_tokens. unfold tokens in *. revert Hname.
  induction (lex s) as [|x l IH]; intros Hname; [done|].
  csimpl. rewrite filter_app, length_app. destruct x as [a|t]; csimpl in Hname; csimpl.
  - change (String a ?r) with (String a "" +:+ r). rewrite count_app, IH by done.
    unfold count. simpl. lia.
  - rewrite count_app, IH by (intros t' Ht'; apply Hname; by right).
    specialize (Hname t ltac:(left)). unfold count in *. simpl. rewrite Hname. simpl. lia.
Qed.

(** ** Lemmas on escaping *)
Definition markup (c : ascii) : Prop := c = "<"%char ∨ c = ">"%char ∨ c = dquote ∨ c = "'"%char.

#[export] Instance markup_dec c : Decision (markup c).
Proof. unfold markup. apply _. Defined.

Definition no_markup (s : string) : bool := forallb (λ c, negb (bool_decide (markup c))) (chars s).

Lemma no_markup_spec s : no_markup s = true → ∀ c, c ∈ chars s → ¬ markup c.
Proof.
  unfold no_markup. rewrite forallb_forall. intros Hs c Hc%list_elem_of_In%Hs.
  by apply negb_true_iff, bool_decide_eq_false in Hc.
Qed.

Lemma html_escape_markup s c : c ∈ chars (html_escape s) → ¬ markup c.
Proof.
  intros (a & _ & Hc)%map_chars_elem. unfold html_escape_char in Hc.
  repeat match type of Hc with
         | context [decide (a = ?x)] =>
             destruct (decide (a = x)); [by apply no_markup_spec in Hc|]
         end.
  simpl in Hc. apply list_elem_of_singleton in Hc as ->. unfold markup. naive_solver.
Qed.

Lemma escape_text_markup raw c : c ∈ chars (_escape_text raw) → ¬ markup c.
Proof.
  intros [Hc|Hc]%replace_elem; [by apply html_escape_markup in Hc|].
  by apply no_markup_spec in Hc.
Qed.

(** ** Lemmas on truncation *)
Lemma decode_ignore_length fuel l : length (decode_ignore fuel l) ≤ length l.
Proof.
  revert l. induction fuel as [|fuel IH]; intros l; [simpl; lia|].
  destruct l as [|c l]; [done|]. cbn [decode_ignore]. case_decide as Hw; [|simpl; lia].
  rewrite length_app, length_take. specialize (IH (drop (utf8_width c) (c :: l))).
  rewrite length_drop in IH. lia.
Qed.

Lemma truncate_length s cap :
  byte_len (_truncate_to_bytes s cap) ≤ cap `max` byte_len _TRUNCATE_MARKER.
Proof.
  unfold _truncate_to_bytes. rewrite byte_len_app. unfold byte_len at 1.
  rewrite chars_of_chars.
  set (cut := take _ _). pose proof (decode_ignore_length (length cut) cut) as Hd.
  assert (length cut ≤ cap - byte_len _TRUNCATE_MARKER) as Hc
    by (unfold cut; rewrite length_take; lia).
  lia.
Qed.

(** ** The markup of a substitution *)
Lemma escape_url_dquote raw : count dquote (_escape_url raw) = 0.
Proof.
  unfold _escape_url. case_match; [done|]. case_match; [done|].
  apply count_zero. intros a Ha ->. revert Ha. apply replace_removes.
  apply (bool_decide_unpack _). vm_compute. exact I.
Qed.

(** The only token whose value is a URL. *)
Lemma url_token t : ODict.get t TOKEN_CONTEXT = Some url → t = "@GrafanaUrl".
Proof.
  intros Ht%ODict.get_Some_elem_of.
  assert (Forall (λ kv, kv.2 = url → kv.1 = "@GrafanaUrl") TOKEN_CONTEXT) as Hall
    by (repeat (constructor; [done|]); constructor).
  rewrite Forall_forall in Hall. by apply (Hall _ Ht).
Qed.

(** What the value of a token adds: only one that is shown as a URL does. *)
Definition url_marks (c : ascii) (value_map : ValueMap) (t : string) : nat :=
  match ODict.get t TOKEN_CONTEXT, ODict.get t value_map with
  | Some url, Some raw => count c (_escape_url raw)
  | _, _ => 0
  end.

Lemma substitute_marks c s value_map only_provided :
  markup c →
  count c (_substitute s value_map only_provided)
  = count c s + sum_list (url_marks c value_map <$> tokens s).
Proof.
  intros Hc. assert (name_char c = false ∧ c ≠ "@"%char) as [Hn Hat]
    by (destruct Hc as [->|[->|[->| ->]]]; by split).
  unfold _substitute. rewrite count_sub_tokens by done. f_equal. f_equal.
  apply list_fmap_ext. intros i t Ht%list_elem_of_lookup_2. unfold url_marks.
  assert (count c t = 0) as Ht0 by (by eapply token_chars).
  case_bool_decide as Htok.
  { rewrite Ht0. destruct (ODict.get t TOKEN_CONTEXT) eqn:E; [|done].
    exfalso. apply Htok. apply ODict.get_Some_elem_of in E.
    by apply (list_elem_of_fmap_2 fst _ (t, c0)). }
  assert (∀ raw, count c (_escape_text raw) = 0) as Hesc
    by (intros raw; apply count_zero; intros a Ha ->; by apply escape_text_markup in Ha).
  unfold _render_token. destruct (ODict.get t value_map) as [raw|] eqn:Eg.
  - rewrite bool_decide_false, andb_false_r; [by destruct (ODict.get t TOKEN_CONTEXT) as [[]|]|].
    intros Hni. apply Hni. apply ODict.get_Some_elem_of in Eg.
    by apply (list_elem_of_fmap_2 fst _ (t, raw)).
  - destruct (_ && _); rewrite ?Ht0; by destruct (ODict.get t TOKEN_CONTEXT) as [[]|].
Qed.

(** ** Properties *)
(** C35: The rendered body respects its byte limit (for a limit of at least the
    truncation marker's 18 bytes), and the title has no colon, so the mail server
    splits title and body where it should. *)
Theorem render_limits template_html title_template scalars rows row_limit overflow_text cap :
  byte_len (render_body template_html scalars rows row_limit overflow_text (Some cap))
    ≤ cap `max` 18 ∧
  count ":"%char (render_title title_template scalars) = 0.
Proof.
  split.
  - unfold render_body. case_decide; [|lia]. apply (truncate_length _ cap).
  - apply count_zero. intros a Ha ->. unfold render_title in Ha. apply strip_elem in Ha.
    revert Ha. apply replace_removes. apply (bool_decide_unpack _). vm_compute. exact I.
Qed.

(** ** Examples *)
(** The scalar pass runs over the expanded rows, so a token inside a row's value is
    substituted as well. *)
Example row_value_reexpanded :
  render_body "<!--@EachEquipment-->@Row.Line<!--@EndEachEquipment-->"
    [("@Severity", TStr "CRITICAL")] [[("@Row.Line", TStr "@Severity")]] None "" None
  = "CRITICAL".
Proof. vm_compute. reflexivity. Qed.

Example two_rows_one_shown :
  render_body "<ul><!--@EachEquipment--><li>@Row.Index @Row.EqpId @Nope</li><!--@EndEachEquipment--></ul>"
    [] [[("@Row.EqpId", TStr "E1")]; [("@Row.EqpId", TStr "E2")]] (Some 1)
    "+@RemainingCount" None
  = "<ul><li>1 E1 @Nope</li>+1</ul>".
Proof. vm_compute. reflexivity. Qed.
