(* ===== verification/Threshold.v ===== *)
(** * Threshold: rule evaluation ([src/analyzer/threshold.py])

    A fact of one target is the list of its instance values; a value is a
    number, a string or [None] (an empty bucket), [option Value].  A numeric
    operator between a string and a number raises [TypeError].  The breach record
    holds a [float | None]: an [int] is converted, and turning a string into one is
    pydantic's ([pydantic_float], a parameter). *)
From stdpp Require Import base list strings sets.
From Stdlib Require Import ZArith Lia.
From S2P Require Import Prelude PyNum PyFloat FactCatalog Models.

Inductive EvalError : Type :=
| TypeError
| BreachValidationError (v : Value).

Record ThresholdBreach := mkBreach
  { tb_eqp_id : string; tb_proc : string; tb_rule_id : string; tb_fact : string;
    tb_category : string; tb_op : Operator; tb_current_value : option num;
    tb_threshold_value : Value; tb_severity : Severity }.
#[export] Instance ThresholdBreach_eq_dec : EqDecision ThresholdBreach.
Proof. solve_decision. Defined.

Record AnalysisResult := mkResult
  { ar_process : string; ar_rule_ids : list string; ar_breaches : list ThresholdBreach;
    ar_total_evaluated : nat; ar_timestamp : Z }.

(** [==] between two values. *)
Definition value_eqb (a b : Value) : bool :=
  match a, b with
  | VNum x, VNum y => num_eqb x y
  | VStr s, VStr t => bool_decide (s = t)
  | _, _ => false
  end.

Definition num_op (o : Operator) : num → num → bool :=
  match o with
  | OP_GE => num_geb | OP_GT => num_gtb | OP_LE => num_leb | OP_LT => num_ltb
  | OP_EQ => num_eqb | OP_NE => num_neb | OP_TREND => λ _ _, false
  end.

Definition str_op (o : Operator) (s t : string) : bool :=
  match o with
  | OP_GE => str_leb t s | OP_GT => negb (str_leb s t)
  | OP_LE => str_leb s t | OP_LT => negb (str_leb t s)
  | OP_EQ => bool_decide (s = t) | OP_NE => negb (bool_decide (s = t))
  | OP_TREND => false
  end.

(** [_NUMERIC_OPS[op](value, threshold)] *)
Definition _NUMERIC_OPS (o : Operator) (a b : Value) : res EvalError bool :=
  match a, b with
  | VNum x, VNum y => Ok (num_op o x y)
  | VStr s, VStr t => Ok (str_op o s t)
  | _, _ =>
      match o with OP_EQ => Ok false | OP_NE => Ok true | _ => Err TypeError end
  end.

Definition op_compare (v : option Value) (o : Operator) (threshold : Value)
  : res EvalError bool :=
  if decide (o = OP_TREND) then
    Ok (match v with Some v => value_eqb v threshold | None => false end)
  else
    match v with
    | None => Ok false
    | Some v => _NUMERIC_OPS o v threshold
    end.

Definition _worst (x : num) (values : list num) (o : Operator) : num :=
  match o with
  | OP_GE | OP_GT => py_max x values
  | OP_LE | OP_LT => py_min x values
  | _ => x
  end.

(** [[v for v in l if f(v)]] where [f] may raise. *)
Fixpoint filter_res {E A} (f : A → res E bool) (l : list A) : res E (list A) :=
  match l with
  | [] => Ok []
  | x :: l' => b ← f x; r ← filter_res f l'; Ok (if (b : bool) then x :: r else r)
  end.

Definition as_num (v : option Value) : option num :=
  match v with Some (VNum n) => Some n | _ => None end.

Definition quantified (cond : Condition) (n n_present : nat) : bool :=
  match c_quantifier cond with
  | q_any => bool_decide (1 ≤ n)
  | q_all => bool_decide (0 < n_present) && bool_decide (n = n_present)
  | q_count => bool_decide (default 0 (c_count_min cond) ≤ Z.of_nat n)%Z
  end.

Definition evaluate_condition (cond : Condition) (values : list (option Value))
  : res EvalError (bool * option Value) :=
  let present := filter is_Some values in
  passing ← filter_res (λ v, op_compare v (c_op cond) (c_value cond))
              (if decide (c_op cond = OP_TREND) then values else present);
  let passed := quantified cond (length passing) (length present) in
  if negb passed then Ok (false, mjoin (head present))
  else
    let rep := match omap as_num passing with
               | x :: numeric => Some (VNum (_worst x numeric (c_op cond)))
               | [] => mjoin (head passing)
               end in
    Ok (true, rep).

(** The first result that passed, else the first one. *)
Definition trigger_of (results : list (Condition * bool * option Value))
  : option (Condition * bool * option Value) :=
  match list_find (λ r, r.1.2 = true) results with
  | Some (_, r) => Some r
  | None => head results
  end.

Definition combined (c : Combine) (flags : list bool) : bool :=
  match c with AND => forallb id flags | OR => existsb id flags end.

(** The validation of [current_value]. *)
Definition breach_value (pydantic_float : string → option num) (rep : option Value)
  : res EvalError (option num) :=
  match rep with
  | None => Ok None
  | Some v =>
      match (match v with VNum n => to_float n | VStr s => pydantic_float s end) with
      | Some n => Ok (Some n)
      | None => Err (BreachValidationError v)
      end
  end.

(** [facts_by_ref.get(cond.fact, [])] *)
Definition values_of (facts : list (string * list (option Value))) (cond : Condition)
  : list (option Value) := default [] (ODict.get (c_fact cond) facts).

Definition evaluate_rule (pydantic_float : string → option num) (rule : Rule)
    (facts_by_ref : list (string * list (option Value))) (eqp_id proc : string)
    (measure_category : list (string * string))
  : res EvalError (option ThresholdBreach) :=
  results ← mapM (λ cond,
    pr ← evaluate_condition cond (values_of facts_by_ref cond);
    Ok (cond, pr.1, pr.2)) (r_when rule);
  if combined (r_combine rule) (results.*1.*2) then
    match trigger_of results with
    | None => Ok None
    | Some (cond, _, rep) =>
        cv ← breach_value pydantic_float rep;
        Ok (Some (mkBreach eqp_id proc (r_id rule) (c_fact cond)
              (default "" (ODict.get (fact_mid (c_fact cond)) measure_category))
              (c_op cond) cv (c_value cond) (r_severity rule)))
    end
  else Ok None.

(** ** Lemmas *)
Lemma filter_res_Ok {E A} (f : A → res E bool) (g : A → bool) l :
  Forall (λ x, f x = Ok (g x)) l → filter_res f l = Ok (filter (λ x, g x = true) l).
Proof.
  induction 1 as [|x l Hx _ IH]; simpl; [done|].
  rewrite Hx; simpl. rewrite IH; simpl. rewrite filter_cons.
  by destruct (g x).
Qed.

(** Numeric instance values: no strings among them. *)
Definition numeric (values : list (option Value)) : Prop :=
  Forall (λ v, ∀ s, v ≠ Some (VStr s)) values.

Definition nums (values : list (option Value)) : list num := omap as_num values.

(** A condition with a numeric threshold, as the validators guarantee. *)
Definition numeric_condition (cond : Condition) (t : num) : Prop :=
  c_op cond ≠ OP_TREND ∧ c_value cond = VNum t.

Definition passing_nums (cond : Condition) (t : num) (values : list (option Value)) : list num :=
  filter (λ x, num_op (c_op cond) x t = true) (nums values).

Lemma present_nums values :
  numeric values → filter is_Some values = (Some ∘ VNum) <$> nums values.
Proof.
  induction 1 as [|v l Hv _ IH]; [done|]. rewrite filter_cons. unfold nums. csimpl.
  destruct v as [[n|s]|]; simpl.
  - by rewrite IH.
  - by destruct (Hv s).
  - exact IH.
Qed.

Lemma omap_as_num_nums (l : list num) : omap as_num ((Some ∘ VNum) <$> l) = l.
Proof. induction l; csimpl; congruence. Qed.

Lemma filter_passing o t (l : list num) :
  filter (λ v, match as_num v with Some x => num_op o x t | None => false end = true)
    ((Some ∘ VNum) <$> l)
  = (Some ∘ VNum) <$> filter (λ x, num_op o x t = true) l.
Proof.
  induction l as [|x l IH]; csimpl; [done|]. rewrite !filter_cons. simpl.
  by case_decide; csimpl; rewrite IH.
Qed.

(** Evaluation of a numeric condition, in terms of the numbers alone. *)
Definition representative (o : Operator) (l : list num) : option Value :=
  match l with [] => None | x :: l => Some (VNum (_worst x l o)) end.

Lemma evaluate_condition_numeric cond t values :
  numeric_condition cond t → numeric values →
  evaluate_condition cond values =
  Ok (let passing := passing_nums cond t values in
      if quantified cond (length passing) (length (nums values))
      then (true, representative (c_op cond) passing)
      else (false, VNum <$> head (nums values))).
Proof.
  intros [Hop Hv] Hnum. unfold evaluate_condition. rewrite decide_False by done.
  rewrite present_nums by done.
  rewrite (filter_res_Ok _ (λ v, match as_num v with
    | Some x => num_op (c_op cond) x t | None => false end)).
  2: { apply Forall_fmap, Forall_true. intros x. unfold op_compare; simpl.
       by rewrite decide_False, Hv by done. }
  simpl. rewrite filter_passing, !length_fmap. fold (passing_nums cond t values).
  destruct (quantified cond _ _); simpl.
  - rewrite omap_as_num_nums. by destruct (passing_nums _ _ _).
  - by destruct (nums values).
Qed.

(** A value that passes a comparison is not a NaN, unless the test is [!=]. *)
Lemma num_op_not_nan o x t : o ≠ OP_NE → num_op o x t = true → x ≠ NaN.
Proof. intros Ho H ->. by destruct o, t. Qed.

Lemma passing_not_nan cond t values :
  c_op cond ≠ OP_NE → Forall (.≠ NaN) (passing_nums cond t values).
Proof.
  intros Ho. apply Forall_forall. intros x Hx.
  apply list_elem_of_filter in Hx as [Hx _]. by eapply num_op_not_nan.
Qed.

(** "More extreme in the direction of the operator". *)
Definition at_least_as_bad (o : Operator) (x y : num) : Prop :=
  match o with
  | OP_GE | OP_GT => num_leb y x = true
  | OP_LE | OP_LT => num_leb x y = true
  | _ => True
  end.

Lemma worst_spec o x l :
  Forall (.≠ NaN) (x :: l) →
  _worst x l o ∈ x :: l ∧ ∀ y, y ∈ x :: l → at_least_as_bad o (_worst x l o) y.
Proof.
  intros Hnn. destruct o; simpl;
    (split; [first [apply py_max_elem | apply py_min_elem | left]|intros y Hy; try done]).
  - by apply py_max_ub.
  - by apply py_max_ub.
  - by apply py_min_lb.
  - by apply py_min_lb.
Qed.

Lemma trigger_of_Some results r :
  trigger_of results = Some r → existsb id results.*1.*2 = true →
  r.1.2 = true ∧ ∃ i, results !! i = Some r
    ∧ ∀ j r', j < i → results !! j = Some r' → r'.1.2 = false.
Proof.
  unfold trigger_of. intros Ht Hex.
  destruct (list_find _ results) as [[i r0]|] eqn:E; simplify_eq.
  - apply list_find_Some in E as (Hi & Hp & Hmin). split; [done|].
    exists i. split; [done|]. intros j r' Hj Hr'.
    specialize (Hmin j r' Hr' Hj). by destruct (r'.1.2).
  - exfalso. apply list_find_None in E. apply existsb_exists in Hex as (b & Hb & Hid).
    apply list_elem_of_In, list_elem_of_fmap in Hb as (cb & -> & Hb).
    apply list_elem_of_fmap in Hb as (r0 & -> & Hr0).
    rewrite Forall_forall in E. by apply (E r0).
Qed.

Lemma trigger_of_None results : trigger_of results = None ↔ results = [].
Proof.
  unfold trigger_of. split; [|by intros ->].
  destruct (list_find _ _) as [[]|]; [done|]. by destruct results.
Qed.

Lemma combined_spec c (results : list (Condition * bool * option Value)) :
  combined c results.*1.*2 = true ↔
  match c with
  | AND => ∀ r, r ∈ results → r.1.2 = true
  | OR => ∃ r, r ∈ results ∧ r.1.2 = true
  end.
Proof.
  rewrite <-list_fmap_compose. destruct c; simpl.
  - rewrite forallb_forall. setoid_rewrite <-list_elem_of_In.
    setoid_rewrite list_elem_of_fmap. naive_solver.
  - rewrite existsb_exists. setoid_rewrite <-list_elem_of_In.
    setoid_rewrite list_elem_of_fmap. naive_solver.
Qed.

Lemma combined_exists c (results : list (Condition * bool * option Value)) :
  results ≠ [] → combined c results.*1.*2 = true → existsb id results.*1.*2 = true.
Proof.
  intros Hne. destruct c; [|done]. destruct results as [|[[cond b] v] l]; [done|].
  simpl. intros H%andb_true_iff. by destruct H as [-> _].
Qed.

(** What a condition means on the numbers of a target. *)
Definition condition_holds (cond : Condition) (values : list (option Value)) : Prop :=
  ∃ t, c_value cond = VNum t ∧
  match c_quantifier cond with
  | q_any => ∃ x, x ∈ nums values ∧ num_op (c_op cond) x t = true
  | q_all => nums values ≠ [] ∧ ∀ x, x ∈ nums values → num_op (c_op cond) x t = true
  | q_count => (default 0 (c_count_min cond)
                ≤ Z.of_nat (length (passing_nums cond t values)))%Z
  end.

Lemma quantified_spec cond t values :
  c_value cond = VNum t →
  quantified cond (length (passing_nums cond t values)) (length (nums values)) = true
  ↔ condition_holds cond values.
Proof.
  intros Hv. unfold condition_holds, quantified.
  trans (match c_quantifier cond with
  | q_any => ∃ x, x ∈ nums values ∧ num_op (c_op cond) x t = true
  | q_all => nums values ≠ [] ∧ ∀ x, x ∈ nums values → num_op (c_op cond) x t = true
  | q_count => (default 0 (c_count_min cond)
                ≤ Z.of_nat (length (passing_nums cond t values)))%Z
  end); [|split; [eauto|intros (t' & Ht' & H); rewrite Hv in Ht'; by injection Ht' as <-]].
  unfold passing_nums.
  destruct (c_quantifier cond).
  - rewrite bool_decide_eq_true. split.
    + destruct (filter _ _) as [|x l] eqn:E; simpl; [lia|]. intros _.
      assert (x ∈ x :: l) as Hx by left. rewrite <-E in Hx.
      apply list_elem_of_filter in Hx as [? ?]. eauto.
    + intros (x & Hx & Hp). destruct (filter _ _) as [|y l] eqn:E; simpl; [|lia].
      exfalso. apply (elem_of_nil x). rewrite <-E. by apply list_elem_of_filter.
  - rewrite andb_true_iff, !bool_decide_eq_true. split.
    + intros [Hpos Hlen]. split; [by destruct (nums values); simpl in *; [lia|]|].
      apply length_filter_all in Hlen. by apply Forall_forall.
    + intros [Hne Hall]. split; [destruct (nums values); simpl; [done|lia]|].
      apply (length_filter_all (λ x, num_op (c_op cond) x t = true)).
      by apply Forall_forall.
  - by rewrite bool_decide_eq_true.
Qed.


Lemma representative_num o l s : representative o l ≠ Some (VStr s).
Proof. by destruct l. Qed.

Lemma head_num (l : list num) s : VNum <$> head l ≠ Some (VStr s).
Proof. by destruct l. Qed.

(** The combination of a rule, over what is said of its conditions. *)
Definition combines {A} (c : Combine) (P : A → Prop) (l : list A) : Prop :=
  l ≠ [] ∧ match c with AND => ∀ x, x ∈ l → P x | OR => ∃ x, x ∈ l ∧ P x end.

Lemma combines_Forall2 {A B} c (P : A → Prop) (Q : B → Prop) l k :
  Forall2 (λ a b, P a ↔ Q b) l k → combines c P l ↔ combines c Q k.
Proof.
  intros HF. unfold combines. rewrite <-!length_zero_iff_nil, (Forall2_length _ _ _ HF).
  apply and_iff_compat_l. destruct c; induction HF; set_solver.
Qed.

(** The rule from the results of its conditions. *)
Lemma evaluate_rule_results pf rule facts eqp proc cats results :
  mapM (λ cond, pr ← evaluate_condition cond (values_of facts cond);
          Ok (cond, pr.1, pr.2)) (r_when rule) = Ok results →
  let fires := combines (r_combine rule) (λ r, r.1.2 = true) results in
  match evaluate_rule pf rule facts eqp proc cats with
  | Ok None => ¬ fires
  | Ok (Some b) => fires ∧
      tb_eqp_id b = eqp ∧ tb_proc b = proc ∧ tb_rule_id b = r_id rule
      ∧ tb_severity b = r_severity rule
      ∧ ∃ i cond rep, results !! i = Some (cond, true, rep)
        ∧ (∀ j r, j < i → results !! j = Some r → r.1.2 = false)
        ∧ tb_fact b = c_fact cond ∧ tb_op b = c_op cond
        ∧ tb_threshold_value b = c_value cond ∧ breach_value pf rep = Ok (tb_current_value b)
        ∧ tb_category b = default "" (ODict.get (fact_mid (c_fact cond)) cats)
  | Err e => fires ∧ ∃ i cond rep, results !! i = Some (cond, true, rep)
      ∧ breach_value pf rep = Err e
  end.
Proof.
  intros Hres. unfold evaluate_rule. rewrite Hres. simpl.
  pose proof (combined_spec (r_combine rule) results) as Hcomb.
  destruct (combined _ _) eqn:Ecomb; [|intros [_ H%Hcomb]; done].
  destruct (trigger_of results) as [[[cond fl] rep]|] eqn:Et;
    [|apply trigger_of_None in Et as ->; by intros []].
  assert (results ≠ []) as Hne by (by intros ->).
  assert (combines (r_combine rule) (λ r, r.1.2 = true) results) as Hf
    by (split; [done|]; by apply Hcomb).
  apply trigger_of_Some in Et as (Hfl & i & Hi & Hmin);
    [|by apply (combined_exists (r_combine rule))].
  simpl in Hfl. subst fl. destruct (breach_value pf rep) as [cv|e] eqn:Hcv; simpl; [|eauto 6].
  split; [done|]. do 4 (split; [done|]). exists i, cond, rep. done.
Qed.

(** What a breach carries over from the rule and the target. *)
Lemma evaluate_rule_ids pf rule facts eqp proc cats b :
  evaluate_rule pf rule facts eqp proc cats = Ok (Some b) →
  tb_eqp_id b = eqp ∧ tb_proc b = proc ∧ tb_rule_id b = r_id rule
  ∧ tb_severity b = r_severity rule.
Proof.
  unfold evaluate_rule. destruct (mapM _ _) as [results|]; simpl; [|done].
  destruct (combined _ _); [|done]. destruct (trigger_of results) as [[[c fl] rep]|]; [|done].
  destruct (breach_value pf rep); simpl; [|done]. by intros [= <-].
Qed.

Lemma conditions_results facts conds :
  (∀ c, c ∈ conds → ∃ t, numeric_condition c t) →
  (∀ c, c ∈ conds → numeric (values_of facts c)) →
  ∃ results,
    mapM (λ cond, pr ← evaluate_condition cond (values_of facts cond);
            Ok (cond, pr.1, pr.2)) conds = Ok results
    ∧ Forall2 (λ c (r : Condition * bool * option Value), r.1.1 = c
         ∧ (condition_holds c (values_of facts c) ↔ r.1.2 = true)
         ∧ evaluate_condition c (values_of facts c) = Ok (r.1.2, r.2)
         ∧ ∀ s, r.2 ≠ Some (VStr s)) conds results.
Proof.
  induction conds as [|c conds IH]; intros Hc Hv; [by exists []|].
  destruct IH as (results & Hm & HF); [set_solver|set_solver|].
  destruct (Hc c) as [t Ht]; [left|].
  simpl. pose proof (evaluate_condition_numeric c t (values_of facts c) Ht (Hv c ltac:(left))) as Ee.
  pose proof (quantified_spec c t (values_of facts c) (proj2 Ht)) as Hq.
  rewrite Ee. simpl in *. rewrite Hm. destruct (quantified _ _ _); simpl in *;
    (eexists; split; [reflexivity|]); constructor; try done; simpl; rewrite Ee;
    (split; [done|]); (split; [by rewrite <-Hq|]); (split; [done|]).
  - apply representative_num.
  - apply head_num.
Qed.

(** ** Properties *)

(** C15: A rule whose conditions compare numbers, over numeric fact values, fires exactly
    when its conditions combine: all of them hold ([AND]) or one of them does ([OR]), each
    under its quantifier ([any], [all] of a non-empty list, at least [count_min]), missing
    values being ignored.  The breach carries the rule's id and severity, the fact,
    operator, threshold and category of the first condition that holds, and the value that
    condition reports, as a float.  The only exception is that of a rule that fires with
    an integer to report that is too large for one. *)
Theorem evaluate_rule_fires pf rule facts eqp proc cats :
  (∀ c, c ∈ r_when rule → ∃ t, numeric_condition c t) →
  (∀ c, c ∈ r_when rule → numeric (values_of facts c)) →
  let holds c := condition_holds c (values_of facts c) in
  let fires := r_when rule ≠ [] ∧
    match r_combine rule with
    | AND => ∀ c, c ∈ r_when rule → holds c
    | OR => ∃ c, c ∈ r_when rule ∧ holds c
    end in
  match evaluate_rule pf rule facts eqp proc cats with
  | Ok None => ¬ fires
  | Ok (Some b) => fires ∧
      tb_eqp_id b = eqp ∧ tb_proc b = proc ∧ tb_rule_id b = r_id rule
      ∧ tb_severity b = r_severity rule
      ∧ ∃ i cond rep, r_when rule !! i = Some cond ∧ holds cond
        ∧ (∀ j c, j < i → r_when rule !! j = Some c → ¬ holds c)
        ∧ tb_fact b = c_fact cond ∧ tb_op b = c_op cond ∧ tb_threshold_value b = c_value cond
        ∧ tb_category b = default "" (ODict.get (fact_mid (c_fact cond)) cats)
        ∧ evaluate_condition cond (values_of facts cond) = Ok (true, VNum <$> rep)
        ∧ Some (tb_current_value b) = match rep with Some x => Some <$> to_float x | None => Some None end
  | Err e => fires ∧ ∃ c x, c ∈ r_when rule
      ∧ evaluate_condition c (values_of facts c) = Ok (true, Some (VNum x))
      ∧ to_float x = None ∧ e = BreachValidationError (VNum x)
  end.
Proof.
  intros Hc Hv holds fires. destruct (conditions_results _ _ Hc Hv) as (results & Hm & HF).
  pose proof (evaluate_rule_results pf rule facts eqp proc cats results Hm) as Hr. cbv zeta in Hr.
  assert (combines (r_combine rule) (λ r, r.1.2 = true) results ↔ fires) as Hfires.
  { symmetry. apply (combines_Forall2 (r_combine rule) holds). eapply Forall2_impl; [exact HF|].
    by intros c r (_ & ? & _). }
  assert (∀ i cond rep, results !! i = Some (cond, true, rep) →
    r_when rule !! i = Some cond ∧ holds cond ∧ ∃ n, rep = VNum <$> n ∧
    evaluate_condition cond (values_of facts cond) = Ok (true, VNum <$> n)) as Hlook.
  { intros i cond rep Hi. destruct (Forall2_lookup_r _ _ _ _ _ HF Hi) as (c & Hci & Heq & Hh & He & Hs).
    simpl in *. subst c. split; [done|]. split; [by apply Hh|].
    destruct rep as [[x|x]|]; [by exists (Some x)|by destruct (Hs x)|by exists None]. }
  destruct (evaluate_rule pf rule facts eqp proc cats) as [[b|]|e]; rewrite Hfires in Hr; [| done |].
  - destruct Hr as (Hf & ? & ? & ? & ? & i & cond & rep & Hi & Hmin & ? & ? & ? & Hcv & ?).
    split; [done|]. do 4 (split; [done|]). destruct (Hlook i cond rep Hi) as (Hw & Hh & n & -> & He).
    exists i, cond, n. do 2 (split; [done|]). split_and!; try done.
    + intros j c Hj Hcj Hholds. destruct (Forall2_lookup_l _ _ _ _ _ HF Hcj) as (r & Hr & _ & Hh' & _).
      apply Hh' in Hholds. by rewrite (Hmin j r Hj Hr) in Hholds.
    + destruct n as [x|]; simpl in Hcv; [|by injection Hcv as <-].
      destruct (to_float x); [|done]. by injection Hcv as <-.
  - destruct Hr as (Hf & i & cond & rep & Hi & Hcv). split; [done|].
    destruct (Hlook i cond rep Hi) as (Hw & Hh & [x|] & -> & He); [|done]. simpl in Hcv.
    exists cond, x. split; [by eapply list_elem_of_lookup_2|]. split; [done|].
    destruct (to_float x); [done|]. by injection Hcv as <-.
Qed.

(** C16: When a numeric condition other than [!=] passes because some value passes,
    the value it reports is one of the passing values, and the most extreme one in
    the direction of the operator. *)
Theorem evaluate_condition_worst cond t values rep :
  numeric_condition cond t → numeric values → c_op cond ≠ OP_NE →
  evaluate_condition cond values = Ok (true, rep) →
  passing_nums cond t values ≠ [] →
  ∃ w, rep = Some (VNum w) ∧ w ∈ passing_nums cond t values
    ∧ ∀ y, y ∈ passing_nums cond t values → at_least_as_bad (c_op cond) w y.
Proof.
  intros Hc Hv Hne. rewrite (evaluate_condition_numeric _ t) by done. simpl.
  destruct (quantified cond _ _); [|done]. intros [= <-] Hnil.
  pose proof (passing_not_nan cond t values Hne) as Hnn.
  destruct (passing_nums cond t values) as [|x l]; [done|]. simpl.
  destruct (worst_spec (c_op cond) x l Hnn). eauto.
Qed.


(** ** Witnesses *)
Definition ex_facts : list (string * list (option Value)) :=
  [("disk.max", [Some (VNum (num_of_Z 97)); None; Some (VNum (num_of_Z 99))])].

Lemma ex_rule_numeric c : c ∈ r_when (ex_rule "a" true) → ∃ t, numeric_condition c t.
Proof. intros ->%list_elem_of_singleton. exists (num_of_Z 95). by split. Qed.

Lemma ex_facts_numeric c : c ∈ r_when (ex_rule "a" true) → numeric (values_of ex_facts c).
Proof. intros ->%list_elem_of_singleton. repeat constructor; intros s; discriminate. Qed.

Lemma evaluate_rule_fires_witness :
  ∃ b, evaluate_rule (λ _, None) (ex_rule "a" true) ex_facts "E1" "C:" [("disk", "disk")]
       = Ok (Some b) ∧ tb_fact b = "disk.max" ∧ tb_current_value b = Some (num_of_Z 99).
Proof.
  pose proof (evaluate_rule_fires (λ _, None) (ex_rule "a" true) ex_facts "E1" "C:"
    [("disk", "disk")] ex_rule_numeric ex_facts_numeric) as Hx. cbv zeta in Hx.
  assert (match evaluate_rule (λ _, None) (ex_rule "a" true) ex_facts "E1" "C:" [("disk", "disk")] with
          | Ok (Some _) => True | _ => False end) as Ho by (vm_compute; exact I).
  destruct (evaluate_rule _ _ _ _ _ _) as [[b|]|e]; [|contradiction Ho|contradiction Ho].
  exists b. split; [reflexivity|].
  destruct Hx as (_ & _ & _ & _ & _ & i & cond & rep & Hi & _ & _ & -> & _ & _ & _ & He & Hv).
  destruct i as [|i]; [|discriminate Hi]. injection Hi as <-. split; [reflexivity|].
  vm_compute in He. destruct rep as [x|]; [|discriminate He]. injection He as <-.
  revert Hv. generalize (tb_current_value b). intros v Hv. vm_compute in Hv. injection Hv as ->.
  reflexivity.
Defined.

Lemma evaluate_condition_worst_witness :
  ∃ w, Some (VNum (num_of_Z 99)) = Some (VNum w)
    ∧ w ∈ passing_nums (ex_cond "disk.max" OP_GE 95) (num_of_Z 95)
            (values_of ex_facts (ex_cond "disk.max" OP_GE 95)).
Proof.
  destruct (evaluate_condition_worst (ex_cond "disk.max" OP_GE 95) (num_of_Z 95)
    (values_of ex_facts (ex_cond "disk.max" OP_GE 95)) (Some (VNum (num_of_Z 99))))
    as (w & Hw & Hin & _).
  - split; [discriminate|reflexivity].
  - repeat constructor; intros s; discriminate.
  - discriminate.
  - vm_compute. reflexivity.
  - discriminate.
  - exists w. split; [exact Hw|exact Hin].
Defined.
