(* ===== verification/Assignments.v ===== *)
(** * Assignments: who analyses which process
    ([PartitionManager._compute_assignments] and [._apply_assignment] of
    [src/distributed/partition_manager.py])

    The leader's round-robin, the text it writes to the node of an instance, and the
    stale-assignment defence of the member that reads it. *)
From stdpp Require Import base list strings sets.
From Stdlib Require Import ZArith Lia.
From S2P Require Import Prelude PyNum PyStr PyFloat Json JsonText.

(** ** The leader: round-robin over sorted names *)
Definition deal (instances_sorted : list string)
    (result : list (string * list string)) (ip : nat * string)
  : list (string * list string) :=
  match instances_sorted !! (ip.1 mod length instances_sorted) with
  | Some i => ODict.set i (default [] (ODict.get i result) ++ [ip.2]) result
  | None => result
  end.

Definition _compute_assignments (instances processes : list string)
  : list (string * list string) :=
  let instances_sorted := sort_str instances in
  let result := ODict.of_list ((λ i, (i, [])) <$> instances_sorted) in
  if decide (instances_sorted = []) then result
  else foldl (deal instances_sorted) result (imap pair (sort_str processes)).

(** ** The text of an assignment node *)
Record Assignment := mkAssignment
  { a_processes : list string; a_leader_epoch : Z; a_assigned_at : num }.
#[export] Instance Assignment_eq_dec : EqDecision Assignment.
Proof. solve_decision. Defined.

Definition assignment_json (a : Assignment) : json :=
  JObj [("processes", JArr (JStr <$> a_processes a)); ("leader_epoch", JInt (a_leader_epoch a));
        ("assigned_at", JFloat (a_assigned_at a))].

(** [json.dumps({...}).encode()] *)
Definition assignment_data (a : Assignment) : string := dumps (assignment_json a).

(** [int(x)], [float(x)] and [list(x)] of a JSON value; [None]: an exception.  (The
    [OverflowError] of an infinity is not among those [_apply_assignment] catches, but
    nothing has been assigned then and the callers drop it.) *)
Definition int_of (x : json) : option Z :=
  match x with
  | JInt z => Some z
  | JBool b => Some (if b then 1 else 0)%Z
  | JFloat (Fin m e) =>
      Some (if bool_decide (0 ≤ e)%Z then m * 2 ^ e else Z.quot m (2 ^ (- e)))%Z
  | JStr s => py_int s
  | _ => None
  end.

Definition float_of (x : json) : option num :=
  match x with
  | JInt z =>
      match round_dec (bool_decide (z < 0)%Z) (Z.abs z) 0 with Fin m e => Some (Fin m e) | _ => None end
  | JBool b => Some (num_of_Z (if b then 1 else 0)%Z)
  | JFloat x => Some x
  | JStr s => py_float s
  | _ => None
  end.

(** The names of a list; an element that is no string is outside the model. *)
Definition name_of (x : json) : option string := match x with JStr s => Some s | _ => None end.

Definition list_of (x : json) : option (list string) :=
  match x with
  | JArr l => mapM name_of l
  | JStr s => Some ((λ c, of_chars (utf8 c)) <$> code_points (chars s))
  | JObj o => Some o.*1
  | _ => None
  end.

(** ** The member: newer [(leader_epoch, assigned_at)] wins *)

(** The three converted fields of a received object: [None] when the key is missing or
    the conversion fails. *)
Record Payload := mkPayload
  { leader_epoch : option Z; assigned_at : option num; processes : option (list string) }.

Definition field_of {A} (k : string) (conv : json → option A) (data : json) : option A :=
  match jindex k data with Ok x => conv x | Err _ => None end.

Definition payload_of (data : json) : Payload :=
  mkPayload (field_of "leader_epoch" int_of data) (field_of "assigned_at" float_of data)
    (field_of "processes" list_of data).

(** [json.loads(data.decode("utf-8"))]: [None] when either raises. *)
Definition decode_data (data : string) : option json :=
  if decide (is_utf8 data) then loads data else None.

Record Known := mkKnown
  { _known_epoch : Z; _known_assigned_at : num; _assigned_processes : list string }.

(** The state after [__init__] and after a session loss. *)
Definition Known_init : Known := mkKnown 0 (num_of_Z 0) [].

(** The new state, and the processes handed to [scheduler.reload], if any. *)
Definition _apply_assignment (data : Payload) (st : Known) : Known * option (list string) :=
  match leader_epoch data, assigned_at data, processes data with
  | Some incoming_epoch, Some incoming_ts, Some procs =>
      if bool_decide (incoming_epoch < _known_epoch st)%Z then (st, None)
      else if bool_decide (incoming_epoch = _known_epoch st)
              && num_leb incoming_ts (_known_assigned_at st) then (st, None)
      else (mkKnown incoming_epoch incoming_ts procs, Some procs)
  | _, _, _ => (st, None)
  end.

(** ** Round-robin lemmas *)

(** The share of slot [k] out of [n]: the elements whose index is [k] modulo [n]. *)
Definition share (n k : nat) (l : list string) : list string :=
  mjoin (imap (λ idx x, if decide (idx mod n = k) then [x] else []) l).

Lemma share_snoc n k l x :
  share n k (l ++ [x]) = share n k l ++ (if decide (length l mod n = k) then [x] else []).
Proof.
  unfold share. rewrite imap_app, join_app. simpl. by rewrite Nat.add_0_r, app_nil_r.
Qed.

Lemma div_step L n k :
  k < n →
  (L + 1 + (n - 1 - k)) / n
  = (L + (n - 1 - k)) / n + (if decide (L mod n = k) then 1 else 0).
Proof.
  intros Hk. pose proof (Nat.div_mod_eq L n) as HL. pose proof (Nat.mod_upper_bound L n).
  set (q := L / n) in *. set (r := L mod n) in *. case_decide as Hr.
  - rewrite <-(Nat.div_unique (L + 1 + (n - 1 - k)) n (q + 1) 0) by nia.
    rewrite <-(Nat.div_unique (L + (n - 1 - k)) n q (n - 1)) by nia. lia.
  - destruct (decide (r < k)).
    + rewrite <-(Nat.div_unique (L + 1 + (n - 1 - k)) n q (r + n - k)) by nia.
      rewrite <-(Nat.div_unique (L + (n - 1 - k)) n q (r + n - 1 - k)) by nia. lia.
    + rewrite <-(Nat.div_unique (L + 1 + (n - 1 - k)) n (q + 1) (r - k)) by nia.
      rewrite <-(Nat.div_unique (L + (n - 1 - k)) n (q + 1) (r - 1 - k)) by nia. lia.
Qed.

Lemma length_share n k l : k < n → length (share n k l) = (length l + (n - 1 - k)) / n.
Proof.
  intros Hk. induction l as [|x l IH] using rev_ind.
  - simpl. rewrite Nat.div_small; [done|lia].
  - rewrite share_snoc, !length_app, IH. simpl. rewrite div_step by done.
    by case_decide.
Qed.

(** The shares of all slots together are the list. *)
Lemma shares_perm n l :
  0 < n → mjoin ((λ k, share n k l) <$> seq 0 n) ≡ₚ l.
Proof.
  intros Hn. induction l as [|x l IH] using rev_ind.
  - replace ((λ k, share n k []) <$> seq 0 n) with (replicate n (@nil string)).
    + clear. induction n; simpl; done.
    + clear. generalize 0. induction n; intros; csimpl; [done|]. by f_equal.
  - set (j := length l mod n).
    assert (j < n) as Hj by (apply Nat.mod_upper_bound; lia).
    assert (seq 0 n = seq 0 j ++ j :: seq (S j) (n - 1 - j)) as Hseq.
    { transitivity (seq 0 (j + S (n - 1 - j))); [f_equal; lia|]. by rewrite seq_app. }
    rewrite Hseq in IH |- *.
    rewrite fmap_app, join_app in IH |- *. csimpl. csimpl in IH.
    rewrite share_snoc, decide_True by done.
    rewrite (list_fmap_ext (λ k, share n k (l ++ [x])) (λ k, share n k l) (seq 0 j)).
    2: { intros i k Hi. rewrite share_snoc. fold j. apply lookup_seq in Hi as [-> ?].
         rewrite decide_False by lia. by rewrite app_nil_r. }
    rewrite (list_fmap_ext (λ k, share n k (l ++ [x])) (λ k, share n k l)
               (seq (S j) (n - 1 - j))).
    2: { intros i k Hi. rewrite share_snoc. fold j. apply lookup_seq in Hi as [-> ?].
         rewrite decide_False by lia. by rewrite app_nil_r. }
    trans ((mjoin ((λ k, share n k l) <$> seq 0 j)
            ++ share n j l ++ mjoin ((λ k, share n k l) <$> seq (S j) (n - 1 - j)))
           ++ [x]); [|by rewrite IH].
    rewrite <-!app_assoc. f_equiv. f_equiv. apply Permutation_app_comm.
Qed.

(** ** The dealing loop gives each slot its share *)
Section Deal.
Context (slots : list string) (Hnd : NoDup slots) (Hne : slots ≠ []).

Definition dealt (l : list string) : list (string * list string) :=
  foldl (deal slots) (ODict.of_list ((λ i, (i, [])) <$> slots)) (imap pair l).

Lemma dealt_snoc l x : dealt (l ++ [x]) = deal slots (dealt l) (length l, x).
Proof. unfold dealt. rewrite imap_app, foldl_app. simpl. by rewrite Nat.add_0_r. Qed.

Lemma dealt_nil : dealt [] = (λ i, (i, [])) <$> slots.
Proof. apply ODict.of_list_id. by rewrite <-list_fmap_compose, list_fmap_id. Qed.

Lemma slot_index m : ∃ i, slots !! (m mod length slots) = Some i.
Proof.
  apply lookup_lt_is_Some, Nat.mod_upper_bound. by destruct slots.
Qed.

Lemma dealt_keys l : (dealt l).*1 = slots.
Proof.
  induction l as [|x l IH] using rev_ind.
  - rewrite dealt_nil, <-list_fmap_compose. apply list_fmap_id.
  - rewrite dealt_snoc. unfold deal; simpl. destruct (slot_index (length l)) as [i Hi].
    rewrite Hi, ODict.set_keys, IH, decide_True; [done|]. by eapply list_elem_of_lookup_2.
Qed.

Lemma dealt_get k i l :
  slots !! k = Some i → ODict.get i (dealt l) = Some (share (length slots) k l).
Proof.
  intros Hk. induction l as [|x l IH] using rev_ind.
  - rewrite dealt_nil. apply ODict.elem_of_get.
    + by rewrite <-list_fmap_compose, list_fmap_id.
    + apply list_elem_of_fmap. exists i. split; [done|]. by eapply list_elem_of_lookup_2.
  - rewrite dealt_snoc, share_snoc. unfold deal; simpl.
    destruct (slot_index (length l)) as [j Hj]. rewrite Hj, ODict.get_set.
    destruct (decide (i = j)) as [<-|Hij].
    + rewrite IH. simpl. rewrite decide_True; [done|].
      by eapply NoDup_lookup.
    + rewrite IH, decide_False; [by rewrite app_nil_r|]. intros <-. congruence.
Qed.

Lemma dealt_values l :
  (dealt l).*2 = (λ k, share (length slots) k l) <$> seq 0 (length slots).
Proof.
  apply list_eq. intros k. rewrite !list_lookup_fmap.
  destruct (decide (k < length slots)) as [Hk|Hk].
  - rewrite lookup_seq_lt by done. simpl.
    assert (is_Some (dealt l !! k)) as [[i v] Hv].
    { apply lookup_lt_is_Some. rewrite <-(length_fmap fst), dealt_keys. done. }
    rewrite Hv. simpl. f_equal.
    assert (slots !! k = Some i) as Hi by (rewrite <-(dealt_keys l), list_lookup_fmap, Hv; done).
    assert (ODict.get i (dealt l) = Some v) as Hg.
    { apply ODict.elem_of_get; [by rewrite dealt_keys|]. by eapply list_elem_of_lookup_2. }
    rewrite (dealt_get k) in Hg by done. by injection Hg.
  - rewrite lookup_seq_ge, (proj2 (lookup_ge_None (dealt l) k)); [done| |lia].
    rewrite <-(length_fmap fst), dealt_keys. lia.
Qed.

Lemma dealt_share_of i l v :
  ODict.get i (dealt l) = Some v → ∃ k, k < length slots ∧ v = share (length slots) k l.
Proof.
  intros Hg. assert (i ∈ slots) as [k Hk]%list_elem_of_lookup.
  { rewrite <-(dealt_keys l). apply (list_elem_of_fmap_2 fst _ (i, v)).
    by apply ODict.get_Some_elem_of. }
  exists k. split; [by eapply lookup_lt_Some|].
  rewrite (dealt_get k) in Hg by done. by injection Hg.
Qed.
End Deal.

Lemma div_balanced L n k k' :
  k < n → k' < n → (L + (n - 1 - k)) / n ≤ S ((L + (n - 1 - k')) / n).
Proof.
  intros. etrans; [apply (Nat.Div0.div_le_mono _ (L + (n - 1 - k') + 1 * n)); lia|].
  rewrite Nat.div_add by lia. lia.
Qed.

Lemma sort_str_nil l : sort_str l = [] ↔ l = [].
Proof.
  split; [|by intros ->]. intros H. apply length_zero_iff_nil.
  unfold sort_str in H. by rewrite <-(length_sort_by str_leb), H.
Qed.

Lemma sort_str_NoDup l : NoDup l → NoDup (sort_str l).
Proof. unfold sort_str. by rewrite sort_by_perm. Qed.

Lemma compute_assignments_dealt instances processes :
  instances ≠ [] →
  _compute_assignments instances processes = dealt (sort_str instances) (sort_str processes).
Proof.
  intros Hne. unfold _compute_assignments. rewrite decide_False; [done|].
  by rewrite sort_str_nil.
Qed.

Lemma compute_assignments_keys instances processes :
  NoDup instances → (_compute_assignments instances processes).*1 = sort_str instances.
Proof.
  intros Hnd. destruct (decide (instances = [])) as [->|Hne].
  - unfold _compute_assignments. by rewrite decide_True by by apply sort_str_nil.
  - rewrite compute_assignments_dealt by done.
    apply dealt_keys; [by apply sort_str_NoDup|by rewrite sort_str_nil].
Qed.

(** ** Freshness order of payloads *)
Definition newer (e : Z) (t : num) (st : Known) : bool :=
  negb (bool_decide (e < _known_epoch st)%Z
        || bool_decide (e = _known_epoch st) && num_leb t (_known_assigned_at st)).

Lemma apply_assignment_well_formed e t procs st :
  _apply_assignment (mkPayload (Some e) (Some t) (Some procs)) st
  = if newer e t st then (mkKnown e t procs, Some procs) else (st, None).
Proof.
  unfold _apply_assignment, newer; simpl.
  by destruct (bool_decide _), (bool_decide _ && _).
Qed.

(** The lexicographic order on [(epoch, assigned_at)]. *)
Definition stamp_le (e : Z) (t : num) (e' : Z) (t' : num) : Prop :=
  (e < e')%Z ∨ e = e' ∧ num_leb t t' = true.

Lemma stamp_le_trans e1 t1 e2 t2 e3 t3 :
  stamp_le e1 t1 e2 t2 → stamp_le e2 t2 e3 t3 → stamp_le e1 t1 e3 t3.
Proof. unfold stamp_le. intros [|[-> ?]] [|[-> ?]]; eauto using num_leb_trans with lia. Qed.

Lemma newer_false e t st :
  newer e t st = false ↔ stamp_le e t (_known_epoch st) (_known_assigned_at st).
Proof.
  unfold newer, stamp_le. rewrite negb_false_iff, orb_true_iff, andb_true_iff.
  by rewrite !bool_decide_eq_true.
Qed.

Lemma newer_true e t st :
  t ≠ NaN → _known_assigned_at st ≠ NaN → newer e t st = true →
  stamp_le (_known_epoch st) (_known_assigned_at st) e t
  ∧ ¬ stamp_le e t (_known_epoch st) (_known_assigned_at st).
Proof.
  intros Ht Hk Hn. rewrite <-newer_false, Hn. split; [|done].
  unfold newer in Hn. apply negb_true_iff, orb_false_iff in Hn as [H1 H2].
  apply bool_decide_eq_false in H1. unfold stamp_le.
  destruct (decide (e = _known_epoch st)) as [->|]; [|lia].
  rewrite bool_decide_true in H2 by done. simpl in H2. right. split; [done|].
  apply num_ltb_leb. by rewrite num_ltb_negb_leb, H2.
Qed.

(** ** The text of a node reads back *)
Definition to_payload (s : Assignment) : Payload :=
  mkPayload (Some (a_leader_epoch s)) (Some (a_assigned_at s)) (Some (a_processes s)).
Definition to_known (s : Assignment) : Known :=
  mkKnown (a_leader_epoch s) (a_assigned_at s) (a_processes s).

(** What Python values an assignment is made of: names are strings, the time a double. *)
Definition writable (a : Assignment) : Prop :=
  Forall is_utf8 (a_processes a) ∧ is_double (a_assigned_at a).

Lemma is_double_finite x : is_double x → ∃ m e, x = Fin m e.
Proof.
  intros (m & e & _ & _ & ->). destruct (norm_spec m e) as (m' & e' & k & -> & _). eauto.
Qed.

Lemma assignment_readable a : writable a → readable (assignment_json a).
Proof.
  intros [Hps Hd]. pose proof (is_double_finite _ Hd) as (m & e & Ht). rewrite Ht in Hd.
  unfold assignment_json. rewrite Ht. cbn [readable foldr fst snd].
  split; [apply (bool_decide_unpack _); vm_compute; done|].
  split_and!; try done; try (apply (bool_decide_unpack _); vm_compute; done).
  apply foldr_and_Forall, Forall_fmap. eapply Forall_impl; done.
Qed.

Lemma payload_of_assignment a : payload_of (assignment_json a) = to_payload a.
Proof.
  assert (mapM name_of (JStr <$> a_processes a) = Some (a_processes a)) as Hn.
  { induction (a_processes a) as [|p l IH]; [done|].
    change (mapM name_of (JStr <$> p :: l)) with (l' ← mapM name_of (JStr <$> l); Some (p :: l')).
    by rewrite IH. }
  unfold payload_of, to_payload. rewrite <-Hn. reflexivity.
Qed.

Lemma assignment_text_decodes a :
  writable a →
  ∃ data, decode_data (assignment_data a) = Some data ∧ payload_of data = to_payload a.
Proof.
  intros Hr%assignment_readable. exists (assignment_json a).
  split; [|apply payload_of_assignment]. unfold decode_data.
  rewrite decide_True by by apply dumps_utf8. by apply loads_dumps.
Qed.

(** ** Receiving a sequence of payloads *)
Lemma apply_to_payload s st :
  _apply_assignment (to_payload s) st
  = if newer (a_leader_epoch s) (a_assigned_at s) st then (to_known s, Some (a_processes s)) else (st, None).
Proof. apply apply_assignment_well_formed. Qed.

Definition receive (l : list Payload) (st : Known) : Known :=
  foldl (λ st p, (_apply_assignment p st).1) st l.

Definition stamped_le (s : Assignment) (st : Known) : Prop :=
  stamp_le (a_leader_epoch s) (a_assigned_at s) (_known_epoch st) (_known_assigned_at st).

Lemma receive_cons s l st :
  receive (to_payload <$> s :: l) st
  = receive (to_payload <$> l) (if newer (a_leader_epoch s) (a_assigned_at s) st then to_known s else st).
Proof.
  unfold receive. rewrite fmap_cons. cbn [foldl]. rewrite apply_to_payload.
  by destruct (newer _ _ _).
Qed.

Definition known_le (st st' : Known) : Prop :=
  stamp_le (_known_epoch st) (_known_assigned_at st)
    (_known_epoch st') (_known_assigned_at st').

Lemma known_le_refl st : _known_assigned_at st ≠ NaN → known_le st st.
Proof. intros. right. auto using num_leb_refl. Qed.

Lemma receive_newest l st :
  _known_assigned_at st ≠ NaN → Forall (λ s, a_assigned_at s ≠ NaN) l →
  let st' := receive (to_payload <$> l) st in
  known_le st st' ∧ Forall (λ s, stamped_le s st') l
  ∧ (st' = st ∨ ∃ s, s ∈ l ∧ st' = to_known s ∧ ¬ stamped_le s st).
Proof.
  intros Hst Hl; revert st Hst.
  induction Hl as [|s l Hs Hl IH]; intros st Hst; cbv zeta; [auto using known_le_refl|].
  rewrite receive_cons. destruct (newer _ _ st) eqn:E.
  - apply newer_true in E as [Hle Hnle]; [|done|done].
    destruct (IH (to_known s) Hs) as (H1 & H2 & H3).
    assert (known_le st (receive (to_payload <$> l) (to_known s))) as Hk.
    { eapply stamp_le_trans; [exact Hle|exact H1]. }
    split; [done|]. split; [constructor; [exact H1|done]|]. right.
    destruct H3 as [->|(s' & Hin & -> & Hn)]; [exists s; split; [by left|done]|].
    exists s'. split; [by right|]. split; [done|]. intros Hc. apply Hn.
    eapply stamp_le_trans; [exact Hc|exact Hle].
  - apply newer_false in E. destruct (IH st Hst) as (H1 & H2 & H3).
    split; [done|]. split; [constructor; [|done]; eapply stamp_le_trans; [exact E|exact H1]|].
    destruct H3 as [->|(s' & Hin & -> & Hn)]; [by left|right].
    exists s'. split; [by right|done].
Qed.

(** ** Properties *)

(** The round-robin is a balanced partition: every instance gets an entry, in
    the sorted order of names; each process is given to exactly one instance; and
    two instances' loads differ by at most one. *)
Theorem compute_assignments_partition instances processes :
  NoDup instances → instances ≠ [] →
  let result := _compute_assignments instances processes in
  result.*1 = sort_str instances ∧ mjoin result.*2 ≡ₚ processes
  ∧ ∀ i j pi pj, ODict.get i result = Some pi → ODict.get j result = Some pj →
      length pi ≤ S (length pj).
Proof.
  intros Hnd Hne. cbv zeta. rewrite compute_assignments_dealt by done.
  set (slots := sort_str instances). set (ps := sort_str processes).
  assert (NoDup slots) as Hnds by by apply sort_str_NoDup.
  assert (slots ≠ []) as Hnes by (unfold slots; by rewrite sort_str_nil).
  assert (0 < length slots) as Hpos by (by destruct slots; simpl in *; [done|lia]).
  split; [by apply dealt_keys|]. split.
  - rewrite dealt_values by done. rewrite shares_perm by done. apply sort_by_perm.
  - intros i j pi pj Hi Hj.
    destruct (dealt_share_of slots Hnds Hnes i ps pi Hi) as (ki & Hki & ->).
    destruct (dealt_share_of slots Hnds Hnes j ps pj Hj) as (kj & Hkj & ->).
    rewrite !length_share by done. by apply div_balanced.
Qed.

(** The assignment does not depend on the order in which ZooKeeper lists the
    members or Mongo the processes: every leader computes the same one. *)
Theorem compute_assignments_order instances instances' processes processes' :
  instances ≡ₚ instances' → processes ≡ₚ processes' →
  _compute_assignments instances processes = _compute_assignments instances' processes'.
Proof.
  intros Hi Hp. unfold _compute_assignments.
  by rewrite (sort_str_unique _ _ Hi), (sort_str_unique _ _ Hp).
Qed.

(** Whatever sequence of well-formed payloads arrives, the member ends on the
    newest [(leader_epoch, assigned_at)] it has seen, with the processes of such a
    payload, and never moves back. *)
Theorem apply_assignment_newest l st :
  _known_assigned_at st ≠ NaN → Forall (λ s, a_assigned_at s ≠ NaN) l →
  let st' := receive (to_payload <$> l) st in
  known_le st st' ∧ Forall (λ s, stamped_le s st') l
  ∧ (st' = st ∨ ∃ s, s ∈ l ∧ st' = to_known s ∧ ¬ stamped_le s st).
Proof. apply receive_newest. Qed.

(** Delivery order is irrelevant: two deliveries of the same payloads, in which
    equal stamps mean equal payloads, leave a member in the same state. *)
Theorem apply_assignment_converges l l' st :
  _known_assigned_at st ≠ NaN → Forall (λ s, a_assigned_at s ≠ NaN) l → l ≡ₚ l' →
  (∀ s s', s ∈ l → s' ∈ l → stamped_le s (to_known s') → stamped_le s' (to_known s) → s = s') →
  receive (to_payload <$> l) st = receive (to_payload <$> l') st.
Proof.
  intros Hst Hl Hp Huniq. assert (Forall (λ s, a_assigned_at s ≠ NaN) l') as Hl' by by rewrite <-Hp.
  destruct (receive_newest l st Hst Hl) as (H1 & H2 & H3).
  destruct (receive_newest l' st Hst Hl') as (H1' & H2' & H3').
  rewrite Forall_forall in H2, H2'.
  destruct H3 as [E|(s & Hs & E & Hn)], H3' as [E'|(s' & Hs' & E' & Hn')];
    rewrite E, E' in *; try done.
  - destruct Hn'. apply H2. by rewrite Hp.
  - destruct Hn. apply H2'. by rewrite <-Hp.
  - f_equal. apply Huniq; [done|by rewrite Hp|apply H2'; by rewrite <-Hp|apply H2].
    by rewrite Hp.
Qed.

(** C22: What a leader writes reads back on the member: the same epoch, the very same time
    (so the comparison of stamps is not blurred by the text) and the same processes,
    whatever characters their names have; so the text determines the assignment. *)
Theorem assignment_text_roundtrip a :
  writable a →
  (∃ data, decode_data (assignment_data a) = Some data ∧ payload_of data = to_payload a) ∧
  ∀ a', writable a' → assignment_data a' = assignment_data a → a' = a.
Proof.
  intros Ha. destruct (assignment_text_decodes a Ha) as (d & Hd & Hp). split; [eauto|].
  intros a' Ha' E. destruct (assignment_text_decodes a' Ha') as (d' & Hd' & Hp').
  rewrite E, Hd in Hd'. injection Hd' as <-. rewrite Hp in Hp'.
  destruct a, a'. unfold to_payload in Hp'. simpl in Hp'. congruence.
Qed.

(** ** Witnesses *)
Example compute_assignments_example :
  _compute_assignments ["b"; "a"] ["P3"; "P1"; "P2"] = [("a", ["P1"; "P3"]); ("b", ["P2"])].
Proof. reflexivity. Qed.

Lemma compute_assignments_partition_witness :
  (_compute_assignments ["b"; "a"] ["P3"; "P1"; "P2"]).*1 = ["a"; "b"].
Proof.
  apply (compute_assignments_partition ["b"; "a"] ["P3"; "P1"; "P2"]).
  - apply (bool_decide_eq_true_1 _). vm_compute. reflexivity.
  - discriminate.
Defined.

Lemma compute_assignments_order_witness :
  _compute_assignments ["b"; "a"] ["P2"; "P1"] = _compute_assignments ["a"; "b"] ["P1"; "P2"].
Proof. apply compute_assignments_order; apply Permutation_swap. Defined.

Definition ex_stamps : list Assignment :=
  [mkAssignment ["P1"] 2 (num_of_Z 50); mkAssignment ["P2"] 1 (num_of_Z 90);
   mkAssignment ["P3"] 2 (num_of_Z 60)].

Lemma ex_stamps_not_nan : Forall (λ s, a_assigned_at s ≠ NaN) ex_stamps.
Proof. repeat constructor; discriminate. Qed.

Lemma apply_assignment_newest_witness :
  receive (to_payload <$> ex_stamps) Known_init = mkKnown 2 (num_of_Z 60) ["P3"]
  ∧ known_le Known_init (receive (to_payload <$> ex_stamps) Known_init).
Proof.
  split; [vm_compute; reflexivity|].
  apply (apply_assignment_newest ex_stamps Known_init); [discriminate|].
  exact ex_stamps_not_nan.
Defined.

Lemma apply_assignment_converges_witness :
  receive (to_payload <$> ex_stamps) Known_init
  = receive (to_payload <$> reverse ex_stamps) Known_init.
Proof.
  apply apply_assignment_converges; [discriminate|exact ex_stamps_not_nan| |].
  - symmetry. apply reverse_Permutation.
  - assert (∀ s, s ∈ ex_stamps → ∀ s', s' ∈ ex_stamps →
      stamped_le s (to_known s') → stamped_le s' (to_known s) → s = s') as H;
      [|intros s s' Hs Hs'; exact (H s Hs s' Hs')].
    rewrite <-Forall_forall. repeat constructor; rewrite <-Forall_forall;
      repeat constructor; unfold stamped_le, stamp_le; simpl; intros [|[]] [|[]];
      first [reflexivity|exfalso; lia|discriminate].
Defined.

(** A name outside ASCII, and a time with a fraction. *)
Definition ex_written : Assignment :=
  mkAssignment ["PHOTO"; "식각"] 3 (norm 7317624332587241 (-22)).

Example ex_written_text :
  assignment_data ex_written
  = join dq ["{"; "processes"; ": ["; "PHOTO"; ", "; "\uc2dd\uac01"; "], "; "leader_epoch";
             ": 3, "; "assigned_at"; ": 1744657595.7744696}"].
Proof. vm_compute. reflexivity. Qed.

Lemma ex_written_writable : writable ex_written.
Proof.
  split; [repeat constructor; apply (bool_decide_unpack _); vm_compute; done|].
  exists 7317624332587241%Z, (-22)%Z. split; [reflexivity|split; [lia|reflexivity]].
Qed.

Lemma assignment_text_roundtrip_witness :
  ∃ data, decode_data (assignment_data ex_written) = Some data
  ∧ leader_epoch (payload_of data) = Some 3%Z.
Proof.
  destruct (assignment_text_roundtrip ex_written ex_written_writable) as [(d & Hd & Hp) _].
  exists d. split; [exact Hd|]. rewrite Hp. reflexivity.
Defined.
