(* ===== verification/Cache.v ===== *)
(** * Caches and cache keys

    [cachetools.TTLCache] as the code uses it ([src/db/repository.py],
    [src/cache/cooldown.py], [src/es/client.py]): a class of its operations and the
    laws of its documentation, with an instance.  And the keys the code joins with
    colons, which are unambiguous as long as only the last part has colons. *)
From stdpp Require Import base list strings gmap.
From Stdlib Require Import ZArith Lia.
From Stdlib Require Import Ascii.
From Stdlib Require String.
From S2P Require Import Prelude.

(** ** [TTLCache(maxsize, ttl)] *)

(** [now] is the reading of the cache's timer, in seconds. *)
Class TTLCache (C V : Type) := {
  cache_empty : C;
  (** [cache.get(key)] *)
  cache_get : Z → string → C → option V;
  (** [cache[key] = value] *)
  cache_set : Z → string → V → C → C;
  (** [cache.pop(key, None)] *)
  cache_pop : string → C → C;
  (** [cache.clear()] *)
  cache_clear : C → C;
}.

(** [entries c] is what was stored and when; an entry may be evicted at any write,
    and is not found any more when it is [ttl] old. *)
Class TTLCacheLaws (C V : Type) `{TTLCache C V} (ttl : Z)
    (entries : C → gmap string (V * Z)) := {
  entries_empty : entries cache_empty = ∅;
  entries_clear c : entries (cache_clear c) = ∅;
  entries_pop k c : entries (cache_pop k c) = delete k (entries c);
  entries_set now k v c k' e :
    entries (cache_set now k v c) !! k' = Some e →
    k' = k ∧ e = (v, now) ∨ entries c !! k' = Some e;
  entries_set_eq now k v c : entries (cache_set now k v c) !! k = Some (v, now);
  cache_get_spec now k c :
    cache_get now k c =
      match entries c !! k with
      | Some (v, t) => if bool_decide (now < t + ttl)%Z then Some v else None
      | None => None
      end;
}.

(** An instance that never evicts. *)
Record MapCache (V : Type) := mkCache { map_cache : gmap string (V * Z) }.
Arguments mkCache {V}.
Arguments map_cache {V}.

Section MapCache.
Context {V : Type} (ttl : Z).

#[local] Instance map_cache_ops : TTLCache (MapCache V) V := {
  cache_empty := mkCache ∅;
  cache_get now k c :=
    match map_cache c !! k with
    | Some (v, t) => if bool_decide (now < t + ttl)%Z then Some v else None
    | None => None
    end;
  cache_set now k v c := mkCache (<[k := (v, now)]> (map_cache c));
  cache_pop k c := mkCache (delete k (map_cache c));
  cache_clear c := mkCache ∅;
}.

Lemma map_cache_laws : TTLCacheLaws (MapCache V) V ttl map_cache.
Proof.
  split; try done.
  - intros now k v c k' e. simpl. rewrite lookup_insert_Some. naive_solver.
  - intros. apply lookup_insert_eq.
Qed.
End MapCache.

(** ** Keys joined with colons *)
Definition colon_free (s : string) : bool :=
  forallb (λ c, negb (bool_decide (c = ":"%char))) (String.list_ascii_of_string s).

Lemma colon_free_cons c s :
  colon_free (String c s) = true ↔ c ≠ ":"%char ∧ colon_free s = true.
Proof.
  unfold colon_free. simpl. rewrite andb_true_iff, negb_true_iff, bool_decide_eq_false.
  done.
Qed.

(** The first colon ends a part without one. *)
Lemma colon_split a b x y :
  colon_free a = true → colon_free b = true →
  a +:+ ":" +:+ x = b +:+ ":" +:+ y → a = b ∧ x = y.
Proof.
  revert b. induction a as [|c a IH]; intros [|d b]; cbn [String.app]; intros Ha Hb E.
  - by injection E.
  - apply colon_free_cons in Hb as [Hd _]. injection E. congruence.
  - apply colon_free_cons in Ha as [Hc _]. injection E. congruence.
  - apply colon_free_cons in Ha as [_ Ha]. apply colon_free_cons in Hb as [_ Hb].
    injection E as -> E. by destruct (IH b Ha Hb E) as [-> ->].
Qed.

(** [":".join(parts)] *)
Fixpoint join_colon (parts : list string) : string :=
  match parts with
  | [] => ""
  | [s] => s
  | s :: rest => s +:+ ":" +:+ join_colon rest
  end.

Lemma join_colon_inj l l' :
  length l = length l' →
  Forall (λ s, colon_free s = true) (removelast l) →
  Forall (λ s, colon_free s = true) (removelast l') →
  join_colon l = join_colon l' → l = l'.
Proof.
  revert l'. induction l as [|a l IH]; intros [|b l']; try done.
  simpl. intros [= Hlen] Ha Hb. destruct l as [|a2 l], l' as [|b2 l']; try done.
  - by intros ->.
  - inversion Ha; inversion Hb; subst. intros [-> E]%colon_split; [|done..].
    f_equal. by apply IH.
Qed.
