(* ===== verification/Repository.v ===== *)
(** * The MongoDB repositories ([src/db/repository.py])

    The collections are services: their operations are classes ([Collection],
    [EqpCollection], [TemplateCollection]) with the documented behaviour of MongoDB
    as laws, and the resolve cache is [Cache.TTLCache].  A repository method is a
    function on the pair of the world and the cache in which a call may raise
    ([SE]).  While a call is awaited other clients write to the database: that is
    the argument [others]. *)
From stdpp Require Import base list strings sets gmap sorting.
From Stdlib Require Import ZArith Lia.
From S2P Require Import Prelude PyNum FactCatalog Models Cache.
Local Open Scope se_scope.

(** ** MongoDB *)

(** What a driver call raises; [Unavailable] is one of the three classes of
    [_MONGO_UNAVAILABLE_EXC]. *)
Inductive MongoExc : Type := DuplicateKeyError | Unavailable | OtherMongo.

Definition Triple : Type := string * string * string.

(** The filters of this module, as data. *)
Inductive Query : Type :=
| ByScope (t : Triple) (version : option Z)
| AnyScope (ts : list Triple)
| ScheduledIn (processes : list string).

Definition doc_triple (d : Doc) : option Triple :=
  s ← d_scope d;
  p ← ODict.get "process" s; m ← ODict.get "eqpModel" s; e ← ODict.get "eqpId" s;
  Some (p, m, e).

Definition doc_process (d : Doc) : option string := s ← d_scope d; ODict.get "process" s.

Definition matches (q : Query) (d : Doc) : Prop :=
  match q with
  | ByScope t v =>
      doc_triple d = Some t ∧
      match v with Some v => g_version <$> d_governance d = Some v | None => True end
  | AnyScope ts => match doc_triple d with Some t => t ∈ ts | None => False end
  | ScheduledIn ps =>
      match doc_process d with Some p => p ∈ ps | None => False end ∧
      d_enabled d ≠ Some false
  end.

#[export] Instance matches_dec q d : Decision (matches q d).
Proof. destruct q; simpl; repeat case_match; apply _. Defined.

(** [{"$set": doc}] *)
Definition set_doc (new old : Doc) : Doc :=
  let upd {A} (f : Doc → option A) := match f new with Some x => Some x | None => f old end in
  mkDoc (d_id old) (upd d_scope) (upd d_enabled) (upd d_governance) (upd d_measures)
    (upd d_rules) (upd d_notify).

Class Collection (W : Type) := {
  insert_one : Doc → SE W MongoExc string;
  (** [replace_one(..., upsert=True)] *)
  replace_one : Query → Doc → SE W MongoExc unit;
  (** [update_one(q, {"$set": doc})]: the matched count *)
  update_one : Query → Doc → SE W MongoExc nat;
  (** the deleted count *)
  delete_one : Query → SE W MongoExc nat;
  find_one : Query → SE W MongoExc (option Doc);
  find : Query → SE W MongoExc (list Doc);
  (** the clocks *)
  utcnow : W → Z;
  timer : W → Z;
}.

(** The document as it is stored, with the [_id] it is given. *)
Definition doc_with_id (i : string) (d : Doc) : Doc :=
  mkDoc (Some i) (d_scope d) (d_enabled d) (d_governance d) (d_measures d) (d_rules d)
    (d_notify d).

(** A replaced document keeps its [_id]. *)
Definition replacement (d old : Doc) : Doc :=
  mkDoc (d_id old) (d_scope d) (d_enabled d) (d_governance d) (d_measures d) (d_rules d)
    (d_notify d).

(** What a call has done to the documents; the unique index on the scope is the one
    [init_repos] creates.  An update that raises may have taken effect. *)
Class CollectionLaws (W : Type) `{Collection W} (docs : W → list Doc) := {
  find_one_law q w w' r :
    find_one q w = (w', Ok r) →
    docs w' = docs w ∧
    match r with
    | Some d => d ∈ docs w ∧ matches q d
    | None => Forall (λ d, ¬ matches q d) (docs w)
    end;
  find_law q w w' l :
    find q w = (w', Ok l) → docs w' = docs w ∧ l ≡ₚ filter (matches q) (docs w);
  update_one_law q d w w' n :
    update_one q d w = (w', Ok n) →
    (n = 0 ∧ docs w' = docs w ∧ Forall (λ d, ¬ matches q d) (docs w)) ∨
    (n = 1 ∧ ∃ l1 old l2, docs w = l1 ++ old :: l2 ∧ matches q old ∧
      docs w' = l1 ++ set_doc d old :: l2);
  update_one_raise_law q d w w' e :
    update_one q d w = (w', Err e) →
    docs w' = docs w ∨
    ∃ l1 old l2, docs w = l1 ++ old :: l2 ∧ matches q old ∧ docs w' = l1 ++ set_doc d old :: l2;
  delete_one_law q w w' n :
    delete_one q w = (w', Ok n) →
    (n = 0 ∧ docs w' = docs w ∧ Forall (λ d, ¬ matches q d) (docs w)) ∨
    (n = 1 ∧ ∃ l1 old l2, docs w = l1 ++ old :: l2 ∧ matches q old ∧ docs w' = l1 ++ l2);
  insert_one_law d w w' i :
    insert_one d w = (w', Ok i) →
    docs w' = docs w ++ [doc_with_id i d] ∧
    Forall (λ d', is_Some (doc_triple d) → doc_triple d' ≠ doc_triple d) (docs w);
  insert_duplicate_law d w w' :
    insert_one d w = (w', Err DuplicateKeyError) → docs w' = docs w;
  replace_one_law q d w w' :
    replace_one q d w = (w', Ok tt) →
    (Forall (λ d', ¬ matches q d') (docs w) ∧ ∃ i, docs w' = docs w ++ [doc_with_id i d]) ∨
    (∃ l1 old l2, docs w = l1 ++ old :: l2 ∧ matches q old ∧
      docs w' = l1 ++ replacement d old :: l2);
  replace_duplicate_law q d w w' :
    replace_one q d w = (w', Err DuplicateKeyError) →
    docs w' = docs w ∧ Forall (λ d', ¬ matches q d') (docs w);
  (** also when they raise *)
  find_reads_law q w : docs (find q w).1 = docs w;
  find_one_reads_law q w : docs (find_one q w).1 = docs w;
}.

(** ** [ProfileRepository] *)
Inductive RepoError : Type :=
| ProfileAlreadyExistsError (scope : Scope)
| ProfileNotFoundError (scope : Scope)
| ProfileVersionConflictError (scope : Scope) (expected : Z)
| MongoUnavailableError (op : string)
| InvalidDocument (e : ModelError)
| Propagated (e : MongoExc).

Definition _specificity_rank (scope : Scope) : nat :=
  if decide (process scope = "*") then 0
  else if decide (eqp_model scope = "*") then 1
  else if decide (eqp_id scope = "*") then 2
  else 3.

Definition _scope_exact_filter (scope : Scope) : Triple :=
  (process scope, eqp_model scope, eqp_id scope).

Definition _cascade_triples (process eqp_model eqp_id : string) : list Triple :=
  let triples :=
    ("*", "*", "*") ::
    (if decide (process = "*") then [] else
       (process, "*", "*") ::
       (if decide (eqp_model = "*") then [] else
          (process, eqp_model, "*") ::
          (if decide (eqp_id = "*") then [] else [(process, eqp_model, eqp_id)]))) in
  foldl (λ deduped t, if decide (t ∈ deduped) then deduped else deduped ++ [t]) [] triples.

Definition cache_key (process eqp_model eqp_id : string) : string :=
  join_colon [process; eqp_model; eqp_id].

(** [governance] with its change-tracking fields written over. *)
Definition stamp_governance (version now : Z) (g : Governance) : Governance :=
  mkGovernance version "api" now (g_change_reason g).

Section ProfileRepository.
Context {W C : Type} `{!Collection W, !TTLCache C MonitorProfile, !SetIter}.

Definition Repo (A : Type) : Type := SE (W * C) RepoError A.

Variable others : W → W.

(** [await op], with the driver's exceptions translated by [f]. *)
Definition call {A} (f : MongoExc → RepoError) (op : SE W MongoExc A) : Repo A := λ s,
  let '(w', r) := op s.1 in
  ((others w', s.2), match r with Ok a => Ok a | Err e => Err (f e) end).

(** [except _MONGO_UNAVAILABLE_EXC] *)
Definition unavailable (op : string) (e : MongoExc) : RepoError :=
  match e with Unavailable => MongoUnavailableError op | _ => Propagated e end.

Definition clear_cache : Repo unit := λ s, ((s.1, cache_clear s.2), Ok tt).

Definition of_res {A} (r : res ModelError A) : Repo A :=
  λ s, (s, match r with Ok a => Ok a | Err e => Err (InvalidDocument e) end).

Definition create (profile : MonitorProfile) : Repo string :=
  inserted_id <- call (λ e, match e with
                            | DuplicateKeyError => ProfileAlreadyExistsError (p_scope profile)
                            | _ => unavailable "create" e
                            end) (insert_one (to_mongo profile)) ;;
  clear_cache ;;;
  se_ret inserted_id.

Definition upsert (profile : MonitorProfile) : Repo unit :=
  call (unavailable "upsert")
    (replace_one (ByScope (_scope_exact_filter (p_scope profile)) None)
       (to_mongo profile)) ;;;
  clear_cache.

Definition find_by_scope (scope : Scope) : Repo (option MonitorProfile) :=
  doc <- call (unavailable "find_by_scope")
           (find_one (ByScope (_scope_exact_filter scope) None)) ;;
  now <- se_gets (λ s, utcnow s.1) ;;
  match doc with
  | Some d => p <- of_res (from_mongo now d) ;; se_ret (Some p)
  | None => se_ret None
  end.

Definition _raise_write_conflict {A} (scope : Scope) (expected_version : option Z) : Repo A :=
  existing <- find_by_scope scope ;;
  match existing with
  | None => se_raise (ProfileNotFoundError scope)
  | Some _ => se_raise (ProfileVersionConflictError scope (default 0%Z expected_version))
  end.

Definition replace_with_version (profile : MonitorProfile) (expected_version : Z) : Repo Z :=
  let new_version := (expected_version + 1)%Z in
  now <- se_gets (λ s, utcnow s.1) ;;
  let doc := to_mongo profile in
  let doc := mkDoc (d_id doc) (d_scope doc) (d_enabled doc)
               (stamp_governance new_version now <$> d_governance doc)
               (d_measures doc) (d_rules doc) (d_notify doc) in
  matched_count <- call (unavailable "replace_with_version")
    (update_one (ByScope (_scope_exact_filter (p_scope profile)) (Some expected_version))
       doc) ;;
  (if decide (matched_count = 0)
   then _raise_write_conflict (p_scope profile) (Some expected_version)
   else se_ret tt) ;;;
  clear_cache ;;;
  se_ret new_version.

Definition delete_by_scope (scope : Scope) (expected_version : option Z) : Repo unit :=
  deleted_count <- call (unavailable "delete_by_scope")
    (delete_one (ByScope (_scope_exact_filter scope) expected_version)) ;;
  (if decide (deleted_count = 0)
   then _raise_write_conflict scope expected_version
   else se_ret tt) ;;;
  clear_cache.

Definition sort_by_rank : list MonitorProfile → list MonitorProfile :=
  sort_by (λ p q, bool_decide (_specificity_rank (p_scope p) ≤ _specificity_rank (p_scope q))).

Definition collect_scope_docs (process eqp_model eqp_id : string)
  : Repo (list MonitorProfile) :=
  docs <- call (unavailable "collect_scope_docs")
            (find (AnyScope (_cascade_triples process eqp_model eqp_id))) ;;
  now <- se_gets (λ s, utcnow s.1) ;;
  profiles <- of_res (mapM (from_mongo now) docs) ;;
  se_ret (sort_by_rank profiles).

(** What is logged about an effective profile. *)
Definition profile_log (effective : MonitorProfile) : list RefError * list LintWarning :=
  (validate_effective effective, lint_effective effective).

(** The part of [resolve_profile] after a cache miss. *)
Definition resolve_uncached (process eqp_model eqp_id : string)
  : Repo (option MonitorProfile * option (list RefError * list LintWarning)) :=
  docs <- collect_scope_docs process eqp_model eqp_id ;;
  if decide (docs = []) then se_ret (None, None)
  else
    now <- se_gets (λ s, utcnow s.1) ;;
    effective <- of_res (fold_profiles now docs (mkScope process eqp_model eqp_id)) ;;
    se_modify (λ s, (s.1, cache_set (timer s.1) (cache_key process eqp_model eqp_id)
                            effective s.2)) ;;;
    se_ret (Some effective, Some (profile_log effective)).

(** The result, with what is logged when it is computed. *)
Definition resolve_profile (process eqp_model eqp_id : string)
  : Repo (option MonitorProfile * option (list RefError * list LintWarning)) :=
  let key := cache_key process eqp_model eqp_id in
  cached <- se_gets (λ s, cache_get (timer s.1) key s.2) ;;
  match cached with
  | Some p => se_ret (Some p, None)
  | None => resolve_uncached process eqp_model eqp_id
  end.

(** [sorted] of the set of the intervals of the enabled rules. *)
Definition intervals_of (docs : list Doc) : list Z :=
  sort_by (λ a b, bool_decide (a ≤ b)%Z)
    (remove_dups (r_interval_minutes <$>
       mjoin ((λ d, filter (λ r, r_enabled r = true) (default [] (d_rules d))) <$> docs))).

Definition get_scheduling_intervals (process : string) : Repo (list Z) :=
  docs <- call (unavailable "get_scheduling_intervals") (find (ScheduledIn [process; "*"])) ;;
  se_ret (intervals_of docs).
End ProfileRepository.

(** ** [EqpInfoRepository] *)

(** A document of [EQP_INFO], the fields the code reads; some may be missing. *)
Record EqpInfo := mkEqpInfo
  { ei_eqpId : string; ei_eqpModel : option string; ei_process : string;
    ei_localpc : option string; ei_ipAddr : option string; ei_line : option string;
    ei_category : option string; ei_onoff : Z; ei_webmanagerUse : Z }.
#[export] Instance EqpInfo_eq_dec : EqDecision EqpInfo.
Proof. solve_decision. Defined.

Definition _ACTIVE_FILTER (d : EqpInfo) : Prop := ei_onoff d = 1%Z ∧ ei_webmanagerUse d = 1%Z.
#[export] Instance active_dec d : Decision (_ACTIVE_FILTER d).
Proof. unfold _ACTIVE_FILTER. apply _. Defined.

(** [_ACTIVE_FILTER], with a process when there is one. *)
Definition eqp_filter (process : option string) (d : EqpInfo) : Prop :=
  match process with Some p => ei_process d = p | None => True end ∧ _ACTIVE_FILTER d.
#[export] Instance eqp_filter_dec p d : Decision (eqp_filter p d).
Proof. destruct p; apply _. Defined.

Class EqpCollection (W : Type) := {
  eqp_distinct_process : option string → SE W MongoExc (list string);
  eqp_count : option string → SE W MongoExc nat;
  eqp_find : option string → SE W MongoExc (list EqpInfo);
}.

(** The filter of a call is its process argument and [_ACTIVE_FILTER]. *)
Class EqpCollectionLaws (W : Type) `{EqpCollection W} (eqps : W → list EqpInfo) := {
  eqp_distinct_law f w w' l :
    eqp_distinct_process f w = (w', Ok l) →
    NoDup l ∧ ∀ p, p ∈ l ↔ ∃ d, d ∈ eqps w ∧ eqp_filter f d ∧ ei_process d = p;
  eqp_count_law f w w' n :
    eqp_count f w = (w', Ok n) → n = length (filter (eqp_filter f) (eqps w));
  eqp_find_law f w w' l :
    eqp_find f w = (w', Ok l) → l ≡ₚ filter (eqp_filter f) (eqps w);
}.

Section EqpInfoRepository.
Context {W : Type} `{!EqpCollection W}.

Definition eqp_call {A} (name : string) (op : SE W MongoExc A) : SE W RepoError A := λ w,
  let '(w', r) := op w in
  (w', match r with Ok a => Ok a | Err e => Err (unavailable name e) end).

Definition get_distinct_processes : SE W RepoError (list string) :=
  eqp_call "get_distinct_processes" (eqp_distinct_process None).

Definition count_active_by_process (process : string) : SE W RepoError nat :=
  eqp_call "count_active_by_process" (eqp_count (Some process)).

Definition get_active_equipment_by_process (process : string)
  : SE W RepoError (list EqpInfo) :=
  eqp_call "get_active_equipment_by_process" (eqp_find (Some process)).
End EqpInfoRepository.

(** ** [RmsEmailTemplateRepository] *)
Record TemplateKey := mkTemplateKey
  { tk_app : string; tk_process : string; tk_model : string; tk_code : string;
    tk_subcode : string }.
#[export] Instance TemplateKey_eq_dec : EqDecision TemplateKey.
Proof. solve_decision. Defined.

Class TemplateCollection (W T : Type) := {
  find_template_doc : TemplateKey → SE W MongoExc (option T);
}.

Definition _fallback_queries (k : TemplateKey) : list TemplateKey :=
  let '(mkTemplateKey app process model code subcode) := k in
  [mkTemplateKey app process model code subcode;
   mkTemplateKey app process model code "_";
   mkTemplateKey app process "_" code "_";
   mkTemplateKey app "_" "_" code "_";
   mkTemplateKey app "_" "_" "_" "_"].

Section TemplateRepository.
Context {W T : Type} `{!TemplateCollection W T}.

Fixpoint first_found (queries : list TemplateKey) : SE W RepoError (option T) :=
  match queries with
  | [] => se_ret None
  | query :: rest =>
      doc <- eqp_call "find_template" (find_template_doc query) ;;
      match doc with
      | Some d => se_ret (Some d)
      | None => first_found rest
      end
  end.

Definition find_template (k : TemplateKey) : SE W RepoError (option T) :=
  first_found (_fallback_queries k).
End TemplateRepository.

(** ** Lemmas *)
Definition scope_triple (sc : Scope) : Triple := _scope_exact_filter sc.

Lemma from_mongo_triple now d t p :
  doc_triple d = Some t → from_mongo now d = Ok p → scope_triple (p_scope p) = t.
Proof.
  unfold doc_triple, from_mongo, Scope_from_mongo. destruct (d_scope d) as [s|]; [|done].
  simpl. destruct (ODict.get "process" s) as [pr|]; [|done]. simpl.
  destruct (ODict.get "eqpModel" s), (ODict.get "eqpId" s); try done. simpl.
  intros [= <-] Hf. res_inv Hf. apply doc_consistency_id in Hf. by subst.
Qed.

(** Rules and flag of a loaded document are those of the stored one. *)
Lemma from_mongo_rules now d p :
  from_mongo now d = Ok p →
  p_rules p = default [] (d_rules d) ∧ p_enabled p = default true (d_enabled d).
Proof.
  unfold from_mongo. intros Hf. res_inv Hf. apply doc_consistency_id in Hf. subst. simpl.
  split; [|done]. match goal with E : mapM Rule_validate _ = Ok _ |- _ => rename E into Hr end.
  apply mapM_Ok_Forall2 in Hr.
  induction Hr as [|r r' l l' Hrr _ IH]; [done|]. apply Rule_validate_id in Hrr. congruence.
Qed.

Lemma cascade_cases p m e t :
  t ∈ _cascade_triples p m e →
  t = ("*", "*", "*") ∨ (p ≠ "*" ∧ t = (p, "*", "*")) ∨
  (p ≠ "*" ∧ m ≠ "*" ∧ t = (p, m, "*")) ∨
  (p ≠ "*" ∧ m ≠ "*" ∧ e ≠ "*" ∧ t = (p, m, e)).
Proof.
  unfold _cascade_triples.
  repeat (match goal with |- context [decide (?a = ?b)] => destruct (decide (a = b)) end);
  simpl; repeat case_decide; set_solver.
Qed.

Definition triple_rank (t : Triple) : nat :=
  _specificity_rank (mkScope t.1.1 t.1.2 t.2).

Lemma scope_rank sc : _specificity_rank sc = triple_rank (scope_triple sc).
Proof. by destruct sc. Qed.

Lemma cascade_rank_inj p m e t1 t2 :
  t1 ∈ _cascade_triples p m e → t2 ∈ _cascade_triples p m e →
  triple_rank t1 = triple_rank t2 → t1 = t2.
Proof.
  intros H1%cascade_cases H2%cascade_cases. unfold triple_rank, _specificity_rank.
  destruct H1 as [->|[[? ->]|[(? & ? & ->)|(? & ? & ? & ->)]]],
    H2 as [->|[[? ->]|[(? & ? & ->)|(? & ? & ? & ->)]]]; simpl; repeat case_decide; done.
Qed.

Lemma cascade_process p m e t : t ∈ _cascade_triples p m e → t.1.1 ∈ [p; "*"].
Proof. intros Ht%cascade_cases. set_solver. Qed.

Lemma rank_sorted l :
  StronglySorted (λ p q, _specificity_rank (p_scope p) ≤ _specificity_rank (p_scope q))
    (sort_by_rank l).
Proof.
  eapply StronglySorted_impl; [|apply sort_by_StronglySorted].
  - intros p q. apply bool_decide_eq_true.
  - intros p q. rewrite !bool_decide_eq_true. lia.
  - intros p q r. rewrite !bool_decide_eq_true. lia.
Qed.

(** ** Properties *)
Section RepositoryProperties.
Context {W C : Type} `{!Collection W, !TTLCache C MonitorProfile, !SetIter}.
Context (docs : W → list Doc) `{!CollectionLaws W docs}.
Context (ttl : Z) (entries : C → gmap string (MonitorProfile * Z))
  `{!TTLCacheLaws C MonitorProfile ttl entries}.
Context (others : W → W).

(** Nobody else writes while a call is awaited. *)
Definition alone : Prop := ∀ w, docs (others w) = docs w.

(** The unique index on the scope. *)
Definition unique_scopes (w : W) : Prop := NoDup (omap doc_triple (docs w)).

Lemma call_Ok {A} f (op : SE W MongoExc A) (s s' : W * C) a :
  call others f op s = (s', Ok a) →
  ∃ w', op s.1 = (w', Ok a) ∧ s' = (others w', s.2).
Proof. unfold call. destruct (op s.1) as [w' [b|e]]; naive_solver. Qed.

Lemma call_find q s s' l name :
  call (C := C) others (unavailable name) (find q) s = (s', Ok l) →
  s'.2 = s.2 ∧ l ≡ₚ filter (matches q) (docs s.1).
Proof. intros (w' & Hf & ->)%call_Ok. by apply find_law in Hf as [_ Hl]. Qed.

(** The document an optimistic-locked replace leaves in the place of [old]. *)
Definition replaced (profile : MonitorProfile) (version now : Z) (old : Doc) : Doc :=
  mkDoc (d_id old) (Some (Scope_to_mongo (p_scope profile))) (Some (p_enabled profile))
    (Some (stamp_governance version now (p_governance profile)))
    (Some (p_measures profile)) (Some (p_rules profile))
    (Some ((λ kv, (kv.1, mkNotifyDoc [] kv.2)) <$> p_notify profile)).

Lemma find_by_scope_spec sc (s s' : W * C) r :
  alone → find_by_scope others sc s = (s', r) →
  match r with
  | Ok None => docs s'.1 = docs s.1 ∧
               Forall (λ d, doc_triple d ≠ Some (scope_triple sc)) (docs s.1)
  | Ok (Some p) => docs s'.1 = docs s.1 ∧
               ∃ d, d ∈ docs s.1 ∧ doc_triple d = Some (scope_triple sc)
  | Err (ProfileNotFoundError _) | Err (ProfileVersionConflictError _ _) => False
  | Err _ => True
  end.
Proof.
  intros Hal. unfold find_by_scope, se_bind at 1, call.
  destruct (find_one _ s.1) as [w' [d|e]] eqn:Ef; [|intros [= <- <-]; by destruct e].
  apply find_one_law in Ef as [Hd Hm]. unfold se_bind, se_gets, of_res. simpl.
  destruct d as [d|].
  - destruct Hm as [Hin [Ht _]].
    destruct (from_mongo _ d) as [p|e]; intros [= <- <-]; simpl; [|done].
    rewrite Hal. split; [done|]. eauto.
  - intros [= <- <-]. simpl. rewrite Hal. split; [done|].
    eapply Forall_impl; [exact Hm|]. simpl. naive_solver.
Qed.

Lemma write_conflict_spec {A} sc v (s s' : W * C) (r : res RepoError A) :
  alone → _raise_write_conflict others sc v s = (s', r) →
  match r with
  | Ok _ => False
  | Err (ProfileNotFoundError _) => docs s'.1 = docs s.1 ∧
      Forall (λ d, doc_triple d ≠ Some (scope_triple sc)) (docs s.1)
  | Err (ProfileVersionConflictError _ v') => v' = default 0%Z v ∧ docs s'.1 = docs s.1 ∧
      ∃ d, d ∈ docs s.1 ∧ doc_triple d = Some (scope_triple sc)
  | Err _ => True
  end.
Proof.
  intros Hal. unfold _raise_write_conflict, se_bind at 1.
  destruct (find_by_scope others sc s) as [s1 r1] eqn:E.
  apply find_by_scope_spec in E; [|done].
  destruct r1 as [[p|]|e]; intros [= <- <-]; [naive_solver..|].
  by destruct e.
Qed.

Lemma replace_spec profile v s s' r :
  alone → replace_with_version others profile v s = (s', r) →
  match r with
  | Ok n => n = (v + 1)%Z ∧ entries s'.2 = ∅ ∧
      ∃ l1 old l2, docs s.1 = l1 ++ old :: l2 ∧
        doc_triple old = Some (scope_triple (p_scope profile)) ∧
        g_version <$> d_governance old = Some v ∧
        docs s'.1 = l1 ++ replaced profile n (utcnow s.1) old :: l2
  | Err (ProfileNotFoundError _) => docs s'.1 = docs s.1 ∧
      Forall (λ d, doc_triple d ≠ Some (scope_triple (p_scope profile))) (docs s.1)
  | Err (ProfileVersionConflictError _ v') => v' = v ∧ docs s'.1 = docs s.1 ∧
      ∃ d, d ∈ docs s.1 ∧ doc_triple d = Some (scope_triple (p_scope profile)) ∧
        g_version <$> d_governance d ≠ Some v
  | Err _ => True
  end.
Proof.
  intros Hal. unfold replace_with_version, se_bind at 1, se_gets, se_bind at 1, call.
  destruct (update_one _ _ s.1) as [w' [n|e]] eqn:Eu; [|intros [= <- <-]; by destruct e].
  apply update_one_law in Eu as [(-> & Hd & Hno)|(-> & l1 & old & l2 & Hd & Hm & Hd')].
  - unfold se_bind at 1. rewrite decide_True by done.
    destruct (_raise_write_conflict _ _ _ _) as [s1 r1] eqn:Ec.
    apply write_conflict_spec in Ec; [|done]. simpl in Ec. rewrite Hal, Hd in Ec.
    destruct r1 as [u|e]; [done|]. intros [= <- <-]. destruct e; try done.
    destruct Ec as (-> & Hds & d & Hin & Ht). split; [done|]. split; [done|].
    exists d. split; [done|]. split; [done|]. intros Hv.
    rewrite Forall_forall in Hno. by apply (Hno d).
  - unfold se_bind. rewrite decide_False by done. intros [= <- <-]. simpl.
    split; [done|]. split; [apply entries_clear|].
    destruct Hm as [Ht Hv]. exists l1, old, l2. split_and!; try done. by rewrite Hal.
Qed.

(** How [_raise_write_conflict] ends, whatever it finds. *)
Lemma write_conflict_cases {A} sc v (s s' : W * C) (r : res RepoError A) :
  _raise_write_conflict others sc v s = (s', r) →
  s'.2 = s.2 ∧ ∃ w, s'.1 = others w ∧ docs w = docs s.1 ∧
  match r with
  | Ok _ => False
  | Err (ProfileNotFoundError sc') => sc' = sc ∧
      Forall (λ d, doc_triple d ≠ Some (scope_triple sc)) (docs s.1)
  | Err (ProfileVersionConflictError sc' v') => sc' = sc ∧ v' = default 0%Z v ∧
      ∃ d, d ∈ docs s.1 ∧ doc_triple d = Some (scope_triple sc)
  | Err (MongoUnavailableError op) => op = "find_by_scope"
  | Err (Propagated e) => e ≠ Unavailable
  | Err (InvalidDocument e) => ∃ d now, d ∈ docs s.1 ∧ doc_triple d = Some (scope_triple sc) ∧
      from_mongo now d = Err e
  | Err (ProfileAlreadyExistsError _) => False
  end.
Proof.
  unfold _raise_write_conflict, find_by_scope, se_bind, se_gets, call, of_res.
  pose proof (find_one_reads_law (ByScope (_scope_exact_filter sc) None) s.1) as Hreads.
  destruct (find_one _ s.1) as [w' [[d|]|e]] eqn:Ef; simpl in Hreads.
  - apply find_one_law in Ef as [_ [Hin [Ht _]]].
    simpl. destruct (from_mongo _ d) eqn:Ep; intros [= <- <-]; (split; [done|]);
      exists w'; (split; [done|]); (split; [done|]); [split_and!; eauto|eauto 6].
  - apply find_one_law in Ef as [_ Hno]. intros [= <- <-]. split; [done|]. exists w'.
    split_and!; try done. eapply Forall_impl; [exact Hno|]. simpl. naive_solver.
  - intros [= <- <-]. split; [done|]. exists w'. split; [done|]. split; [done|]. by destruct e.
Qed.

(** C23: An optimistic-locked replace on every branch, whatever the other writers do
    while it awaits.  It succeeds exactly by one write, on a document of the scope that
    has the expected version: the version becomes the next one, the change is stamped,
    the other documents stay, and nothing cached survives.  When it raises the cache is
    as before, and either the update itself raised (then that write may or may not have
    been made), or no document of the scope had the expected version, nothing was
    written, and the error says what a second look at the scope found: no document, one
    (so another version), one that does not load, or no answer. *)
Theorem replace_with_version_spec profile v s :
  let '(s', r) := replace_with_version others profile v s in
  let sc := p_scope profile in
  let written (w : W) := ∃ l1 old l2, docs s.1 = l1 ++ old :: l2 ∧
    doc_triple old = Some (scope_triple sc) ∧ g_version <$> d_governance old = Some v ∧
    docs w = l1 ++ replaced profile (v + 1) (utcnow s.1) old :: l2 in
  match r with
  | Ok n => n = (v + 1)%Z ∧ entries s'.2 = ∅ ∧ ∃ w, s'.1 = others w ∧ written w
  | Err e => s'.2 = s.2 ∧
      ((∃ w, s'.1 = others w ∧ (docs w = docs s.1 ∨ written w) ∧
        match e with
        | MongoUnavailableError op => op = "replace_with_version"
        | Propagated x => x ≠ Unavailable
        | _ => False
        end) ∨
       (∃ w1 w2, docs w1 = docs s.1 ∧ docs w2 = docs (others w1) ∧ s'.1 = others w2 ∧
        (∀ d, d ∈ docs s.1 → doc_triple d = Some (scope_triple sc) →
           g_version <$> d_governance d ≠ Some v) ∧
        match e with
        | ProfileNotFoundError sc' => sc' = sc ∧
            Forall (λ d, doc_triple d ≠ Some (scope_triple sc)) (docs (others w1))
        | ProfileVersionConflictError sc' v' => sc' = sc ∧ v' = v ∧
            ∃ d, d ∈ docs (others w1) ∧ doc_triple d = Some (scope_triple sc)
        | InvalidDocument e => ∃ d now, d ∈ docs (others w1) ∧
            doc_triple d = Some (scope_triple sc) ∧ from_mongo now d = Err e
        | MongoUnavailableError op => op = "find_by_scope"
        | Propagated x => x ≠ Unavailable
        | ProfileAlreadyExistsError _ => False
        end))
  end.
Proof.
  unfold replace_with_version, se_bind at 1, se_gets, se_bind at 1, call.
  destruct (update_one _ _ s.1) as [w [n|e]] eqn:Eu.
  - apply update_one_law in Eu as [(-> & Hd & Hno)|(-> & l1 & old & l2 & Hd & [Ht Hv] & Hd')].
    + unfold se_bind. rewrite decide_True by done.
      destruct (_raise_write_conflict _ _ _ _) as [s1 [[]|e]] eqn:Ec;
        apply write_conflict_cases in Ec as (Hc & w2 & Hs1 & Hw2 & He); [done|].
      cbn zeta. split; [done|]. right. exists w, w2. split_and!; try done.
      intros d Hin Ht Hv. rewrite Forall_forall in Hno. by apply (Hno d).
    + unfold se_bind. rewrite decide_False by done. simpl.
      split; [done|]. split; [apply entries_clear|]. exists w. split; [done|].
      exists l1, old, l2. by split_and!.
  - cbn zeta. split; [done|]. left. exists w. split; [done|].
    split; [|by destruct e].
    apply update_one_raise_law in Eu as [?|(l1 & old & l2 & Hd & [Ht Hv] & Hd')]; [by left|right].
    exists l1, old, l2. by split_and!.
Qed.

(** No document of the scope has the version. *)
Definition superseded (sc : Scope) (v : Z) (w : W) : Prop :=
  ∀ d, d ∈ docs w → doc_triple d = Some (scope_triple sc) → g_version <$> d_governance d ≠ Some v.

(** C38: No lost update.  Two edits of a scope start from the same version [v], from any
    processes: once the first has succeeded the second cannot, whatever everybody else
    does in between and during the calls, as long as nobody gives the scope a document
    of version [v] again (by deleting it and creating it anew). *)
Theorem no_lost_update p q v s s1 n s2 :
  unique_scopes s.1 → p_scope q = p_scope p →
  (∀ w, superseded (p_scope p) v w → superseded (p_scope p) v (others w)) →
  replace_with_version others p v s = (s1, Ok n) →
  rtc (λ w w', w' = others w) s1.1 s2.1 →
  isOk (replace_with_version others q v s2).2 = false.
Proof.
  intros Hu Hsc Ho Hp Hr.
  assert (superseded (p_scope p) v s1.1) as H1.
  { revert Hp. unfold replace_with_version, se_bind, se_gets, call.
    destruct (update_one _ _ s.1) as [w [m|]] eqn:Eu; [|done].
    apply update_one_law in Eu as [(-> & _)|(-> & l1 & old & l2 & Hd & [Ht _] & Hd')].
    { rewrite decide_True by done. destruct (_raise_write_conflict _ _ _ _) as [? [[]|]] eqn:Ec; [|done].
      by apply write_conflict_cases in Ec as (_ & ? & _ & _ & []). }
    rewrite decide_False by done. intros [= <- _]. apply Ho. intros d Hin Htd. simpl in Hd'.
    unfold unique_scopes in Hu. rewrite Hd, omap_app in Hu. csimpl in Hu. simpl in Ht. rewrite Ht in Hu.
    apply NoDup_app in Hu as (_ & Hu1 & [Hu2 _]%NoDup_cons).
    rewrite Hd' in Hin. apply elem_of_app in Hin as [Hin|[->|Hin]%elem_of_cons].
    - exfalso. apply (Hu1 (scope_triple (p_scope p))); [|left]. apply list_elem_of_omap. eauto.
    - simpl. intros [= E]. lia.
    - exfalso. apply Hu2, list_elem_of_omap. eauto. }
  assert (superseded (p_scope p) v s2.1) as H2
    by (clear -H1 Hr Ho; revert H1; induction Hr as [|w1 w2 w3 -> _ IH]; auto).
  unfold replace_with_version, se_bind, se_gets, call.
  destruct (update_one _ _ s2.1) as [w [m|]] eqn:Eu; [|done].
  apply update_one_law in Eu as [(-> & _)|(-> & l1 & old & l2 & Hd & [Ht Hv] & _)].
  - rewrite decide_True by done. destruct (_raise_write_conflict _ _ _ _) as [? [[]|]] eqn:Ec; [|done].
    by apply write_conflict_cases in Ec as (_ & ? & _ & _ & []).
  - exfalso. rewrite Hsc in Ht. apply (H2 old); [rewrite Hd; set_solver|done|done].
Qed.

Lemma collect_spec pr m e (s s' : W * C) l :
  collect_scope_docs others pr m e s = (s', Ok l) →
  s'.2 = s.2 ∧
  ∃ ds now, ds ≡ₚ filter (matches (AnyScope (_cascade_triples pr m e))) (docs s.1) ∧
    ∃ ps, Forall2 (λ d p, from_mongo now d = Ok p) ds ps ∧ l = sort_by_rank ps.
Proof.
  intros (s1 & ds & Hf & Hb)%se_bind_Ok. apply call_find in Hf as [Hc Hl].
  apply se_bind_Ok in Hb as (s2 & now & [= <- <-] & Hb).
  apply se_bind_Ok in Hb as (s3 & ps & Hp & [= <- <-]). unfold of_res in Hp.
  destruct (mapM _ ds) as [ps'|] eqn:Em; [|done]. injection Hp as <- <-.
  split; [done|]. exists ds, (utcnow s1.1). split; [done|].
  exists ps'. split; [by apply mapM_Ok_Forall2|done].
Qed.

Lemma collect_docs pr m e (s s' : W * C) l :
  alone → collect_scope_docs others pr m e s = (s', Ok l) → docs s'.1 = docs s.1.
Proof.
  intros Hal (s1 & ds & (w' & Hf & ->)%call_Ok & Hb)%se_bind_Ok.
  apply se_bind_Ok in Hb as (s2 & now & [= <- <-] & Hb).
  apply se_bind_Ok in Hb as (s3 & ps & [= <- _] & [= <- _]).
  apply find_law in Hf as [<- _]. apply Hal.
Qed.

Lemma collect_elem pr m e (s s' : W * C) l p :
  collect_scope_docs others pr m e s = (s', Ok l) → p ∈ l →
  ∃ d now, d ∈ docs s.1 ∧ from_mongo now d = Ok p ∧
    doc_triple d = Some (scope_triple (p_scope p)) ∧
    scope_triple (p_scope p) ∈ _cascade_triples pr m e.
Proof.
  intros Hc Hp. apply collect_spec in Hc as (_ & ds & now & Hds & ps & Hf & ->).
  unfold sort_by_rank in Hp. rewrite sort_by_perm in Hp.
  apply list_elem_of_lookup in Hp as [i Hi].
  destruct (Forall2_lookup_r _ _ _ _ _ Hf Hi) as (d & Hd & Hfm).
  apply list_elem_of_lookup_2 in Hd. rewrite Hds in Hd.
  apply list_elem_of_filter in Hd as [Hm Hin]. simpl in Hm.
  destruct (doc_triple d) as [t|] eqn:Et; [|done].
  pose proof (from_mongo_triple _ _ _ _ Et Hfm) as <-. eauto 10.
Qed.

(** The collected documents are those of the cascade (global, process, model,
    equipment), at most one per level, the most specific last, in whatever order
    the database returns them. *)
Theorem collect_scope_docs_cascade pr m e (s s' : W * C) l :
  unique_scopes s.1 → collect_scope_docs others pr m e s = (s', Ok l) →
  (∀ t, t ∈ scope_triple ∘ p_scope <$> l ↔
        t ∈ _cascade_triples pr m e ∧ t ∈ omap doc_triple (docs s.1)) ∧
  StronglySorted (λ p q, _specificity_rank (p_scope p) < _specificity_rank (p_scope q)) l.
Proof.
  intros Hu Hc. pose proof Hc as Hc'.
  apply collect_spec in Hc as (_ & ds & now & Hds & ps & Hf & ->).
  set (q := AnyScope (_cascade_triples pr m e)) in *.
  assert (scope_triple ∘ p_scope <$> ps = omap doc_triple ds) as Hps.
  { assert (Forall (matches q) ds) as Hall 
      by (rewrite Hds, Forall_forall; by intros d [? _]%list_elem_of_filter).
    clear -Hf Hall. induction Hf as [|d p ds ps Hd _ IH]; [done|].
    apply Forall_cons in Hall as [Hm Hall]. csimpl. rewrite <-IH by done. simpl in Hm.
    destruct (doc_triple d) as [t|] eqn:Et; [|done].
    by rewrite (from_mongo_triple _ _ _ _ Et Hd). }
  assert (sort_by_rank ps ≡ₚ ps) as Hperm by apply sort_by_perm.
  assert (scope_triple ∘ p_scope <$> sort_by_rank ps ≡ₚ omap doc_triple ds) as Hp2
    by (by rewrite Hperm, Hps).
  assert (NoDup (omap doc_triple (filter (matches q) (docs s.1)))) as Hnd.
  { clear -Hu. unfold unique_scopes in Hu. induction (docs s.1) as [|d l IH]; [done|].
    csimpl in Hu. rewrite filter_cons. destruct (doc_triple d) as [t|] eqn:Et.
    - apply NoDup_cons in Hu as [Hn Hu]. case_decide; [|by apply IH]. csimpl. rewrite Et.
      apply NoDup_cons. split; [|by apply IH]. rewrite list_elem_of_omap in *.
      intros (d' & Hin%list_elem_of_filter & Hd'). naive_solver.
    - case_decide; csimpl; rewrite ?Et; by apply IH. }
  split.
  - intros t. rewrite Hp2, Hds. rewrite !list_elem_of_omap.
    setoid_rewrite list_elem_of_filter. simpl. split.
    + intros (d & [Hm Hin] & Ht). rewrite Ht in Hm. eauto.
    + intros [Ht (d & Hin & Hd)]. exists d. by rewrite Hd.
  - apply StronglySorted_strict; [apply rank_sorted|].
    rewrite (list_fmap_ext _ (triple_rank ∘ (scope_triple ∘ p_scope)))
      by (intros ? p _; apply (scope_rank (p_scope p))).
    rewrite list_fmap_compose. apply NoDup_fmap_2_strong; [|by rewrite Hp2, Hds].
    intros t1 t2 H1 H2. apply (cascade_rank_inj pr m e).
    1: rewrite Hp2, Hds in H1; rename H1 into Ht. 2: rewrite Hp2, Hds in H2; rename H2 into Ht.
    all: apply list_elem_of_omap in Ht as (d & [Hm _]%list_elem_of_filter & Ht).
    all: simpl in Hm; by rewrite Ht in Hm.
Qed.

(** An enabled rule of a document for the process, or for every process, asks for the
    interval. *)
Definition asked_by (ds : list Doc) (p : string) (i : Z) : Prop :=
  ∃ d r, d ∈ ds ∧ matches (ScheduledIn [p; "*"]) d ∧ r ∈ default [] (d_rules d)
  ∧ r_enabled r = true ∧ r_interval_minutes r = i.

Lemma elem_of_intervals all ds p i :
  ds ≡ₚ filter (matches (ScheduledIn [p; "*"])) all → i ∈ intervals_of ds ↔ asked_by all p i.
Proof.
  intros Hl. unfold intervals_of, asked_by.
  rewrite sort_by_perm, elem_of_remove_dups, list_elem_of_fmap.
  setoid_rewrite list_elem_of_join. setoid_rewrite list_elem_of_fmap. split.
  - intros (r & -> & l' & Hr & d & -> & Hd). rewrite Hl in Hd.
    apply list_elem_of_filter in Hd as [Hm Hd], Hr as [He Hr]. eauto 10.
  - intros (d & r & Hd & Hm & Hr & He & <-). exists r. split; [done|].
    exists (filter (λ r, r_enabled r = true) (default [] (d_rules d))).
    split; [by apply list_elem_of_filter|]. exists d. split; [done|].
    rewrite Hl. by apply list_elem_of_filter.
Qed.

Lemma triple_process d t : doc_triple d = Some t → doc_process d = Some t.1.1.
Proof.
  unfold doc_triple, doc_process. destruct (d_scope d) as [sd|]; [|done]. simpl.
  destruct (ODict.get "process" sd); [|done]. simpl.
  destruct (ODict.get "eqpModel" sd), (ODict.get "eqpId" sd); naive_solver.
Qed.

(** An enabled rule of the folded profile of an equipment is asked for by a stored
    document of its process. *)
Lemma active_rule_asked p m e (s s1 : W * C) l now eff r :
  collect_scope_docs others p m e s = (s1, Ok l) →
  fold_profiles now l (mkScope p m e) = Ok eff → r ∈ p_rules eff → r_enabled r = true →
  asked_by (docs s.1) p (r_interval_minutes r).
Proof.
  intros Hc Hf Hr He. rewrite fold_profiles_result in Hf. injection Hf as <-.
  apply elem_of_find_rule in Hr as Hr'; [|apply fold_result_NoDup].
  rewrite find_rule_fold in Hr'. apply fmap_Some in Hr' as ([q r0] & Hms & ->). simpl in *.
  apply andb_true_iff in He as [Hpe Hre].
  apply most_specific_Some in Hms as [Hp Hr0]. apply find_rule_elem_of in Hr0 as [Hr0 _].
  destruct (collect_elem _ _ _ _ _ _ _ Hc Hp) as (d & t & Hd & Hm & Ht & Hcas).
  apply from_mongo_rules in Hm as [Erules Een].
  exists d, r0. rewrite <-Erules. split_and!; try done. split.
  - rewrite (triple_process _ _ Ht). by apply cascade_process in Hcas.
  - rewrite Een in Hpe. intros Hx. by rewrite Hx in Hpe.
Qed.

Lemma scheduling_intervals_asked p (s s' : W * C) l :
  get_scheduling_intervals others p s = (s', Ok l) →
  NoDup l ∧ ∀ i, i ∈ l ↔ asked_by (docs s.1) p i.
Proof.
  intros (s1 & ds & [_ Hl]%call_find & [= <- <-])%se_bind_Ok. split.
  - unfold intervals_of. rewrite sort_by_perm. apply NoDup_remove_dups.
  - intros i. by apply elem_of_intervals.
Qed.

Lemma scheduling_intervals_docs p (s : W * C) :
  alone → docs (get_scheduling_intervals others p s).1.1 = docs s.1.
Proof.
  intros Hal. unfold get_scheduling_intervals, se_bind, call.
  pose proof (find_reads_law (ScheduledIn [p; "*"]) s.1) as Hd.
  destruct (find _ s.1) as [w [l|e]]; simpl in *; by rewrite <-Hd.
Qed.

(** Scheduling misses nothing: the interval of every rule that is active in the
    effective profile of any equipment of a process is among the scheduling
    intervals of that process, each listed once. *)
Theorem scheduling_covers_active_rules pr m e (s s1 s' s2 : W * C) l now eff ivs r :
  collect_scope_docs others pr m e s = (s1, Ok l) →
  fold_profiles now l (mkScope pr m e) = Ok eff →
  docs s'.1 = docs s.1 →
  get_scheduling_intervals others pr s' = (s2, Ok ivs) →
  NoDup ivs ∧
  (r ∈ p_rules eff → r_enabled r = true → r_interval_minutes r ∈ ivs).
Proof.
  intros Hc Hf Hds [Hnd Hivs]%scheduling_intervals_asked. split; [done|]. intros Hr He.
  apply Hivs. rewrite Hds. by eapply active_rule_asked.
Qed.

(** Every cached profile is cached under the key of its own scope. *)
Definition cache_own (c : C) : Prop :=
  ∀ key eff t, entries c !! key = Some (eff, t) →
    colon_free (process (p_scope eff)) = true ∧ colon_free (eqp_model (p_scope eff)) = true ∧
    key = cache_key (process (p_scope eff)) (eqp_model (p_scope eff)) (eqp_id (p_scope eff)).

Lemma cache_key_inj p m e p' m' e' :
  colon_free p = true → colon_free m = true → colon_free p' = true → colon_free m' = true →
  cache_key p m e = cache_key p' m' e' → p = p' ∧ m = m' ∧ e = e'.
Proof.
  intros Hp Hm Hp' Hm' E. unfold cache_key in E.
  apply join_colon_inj in E; simpl; [naive_solver|done|repeat constructor; done..].
Qed.

Lemma cache_own_set now pr m e eff c :
  colon_free pr = true → colon_free m = true → p_scope eff = mkScope pr m e →
  cache_own c → cache_own (cache_set now (cache_key pr m e) eff c).
Proof.
  intros Hp Hm He Hc key eff' t Hl.
  apply entries_set in Hl as [[-> [= -> ->]]|Hl]; [|by eapply Hc].
  by rewrite He.
Qed.

(** The part of [resolve_profile] after a miss. *)
Lemma resolve_miss pr m e (s : W * C) :
  colon_free pr = true → colon_free m = true → cache_own s.2 →
  let '(s', r) := resolve_uncached others pr m e s in
  cache_own s'.2 ∧
  match r with
  | Ok (Some eff, Some log) =>
      log = profile_log eff ∧ p_scope eff = mkScope pr m e ∧
      ∃ l now s1, collect_scope_docs others pr m e s = (s1, Ok l) ∧ l ≠ [] ∧
        fold_profiles now l (mkScope pr m e) = Ok eff ∧
        entries s'.2 !! cache_key pr m e = Some (eff, timer s1.1)
  | Ok (Some _, None) => False
  | Ok (None, _) => collect_scope_docs others pr m e s = (s', Ok [])
  | Err err => collect_scope_docs others pr m e s = (s', Err err)
  end.
Proof.
  intros Hp Hm Hown. unfold resolve_uncached, se_bind at 1.
  assert ((collect_scope_docs others pr m e s).1.2 = s.2) as Hcache.
  { unfold collect_scope_docs, se_bind, call, se_gets, of_res.
    destruct (find _ s.1) as [w' [ds|err]]; [|done]. simpl. by destruct (mapM _ ds). }
  destruct (collect_scope_docs others pr m e s) as [s1 [l|err]] eqn:E; simpl in Hcache;
    [|by rewrite Hcache].
  destruct (decide (l = [])) as [->|Hne]; [by simpl; rewrite Hcache|].
  unfold se_bind, se_gets, of_res, se_modify. simpl. rewrite fold_profiles_result. simpl.
  split; [apply cache_own_set; rewrite ?Hcache; done|]. split; [done|]. split; [done|].
  exists l, (utcnow s1.1), s1. rewrite fold_profiles_result.
  split_and!; try done. apply entries_set_eq.
Qed.

(** For colon-free process and model names, [resolve_profile] gives the profile of
    the asked equipment: either a cached one of that very scope, less than [ttl]
    old, or the fold of the documents collected now, which it caches; [None] means
    no document of the cascade, an error comes from collecting them; and the cache
    stays keyed by scope. *)
Theorem resolve_profile_own pr m e (s : W * C) :
  colon_free pr = true → colon_free m = true → cache_own s.2 →
  let '(s', r) := resolve_profile others pr m e s in
  cache_own s'.2 ∧
  match r with
  | Ok (Some eff, None) =>
      p_scope eff = mkScope pr m e ∧ s' = s ∧
      ∃ t, entries s.2 !! cache_key pr m e = Some (eff, t) ∧ (timer s.1 < t + ttl)%Z
  | Ok (Some eff, Some log) =>
      log = profile_log eff ∧ p_scope eff = mkScope pr m e ∧
      ∃ l now s1, collect_scope_docs others pr m e s = (s1, Ok l) ∧ l ≠ [] ∧
        fold_profiles now l (mkScope pr m e) = Ok eff ∧
        entries s'.2 !! cache_key pr m e = Some (eff, timer s1.1)
  | Ok (None, _) => collect_scope_docs others pr m e s = (s', Ok [])
  | Err err => collect_scope_docs others pr m e s = (s', Err err)
  end.
Proof.
  intros Hp Hm Hown. unfold resolve_profile. unfold se_bind at 1, se_gets at 1.
  pose proof (resolve_miss pr m e s Hp Hm Hown) as Hmiss.
  rewrite cache_get_spec. destruct (entries s.2 !! _) as [[eff t]|] eqn:Ec.
  - case_bool_decide as Ht.
    { simpl. split; [done|]. split; [|eauto].
      destruct (Hown _ _ _ Ec) as (Hp' & Hm' & Hk).
      apply cache_key_inj in Hk as (-> & -> & ->); [by destruct (p_scope eff)|done..]. }
    by destruct (resolve_uncached others pr m e s) as [s' [[[eff'|] [log|]]|err]];
      destruct Hmiss.
  - by destruct (resolve_uncached others pr m e s) as [s' [[[eff'|] [log|]]|err]];
      destruct Hmiss.
Qed.
End RepositoryProperties.

Section TemplateProperties.
Context {W T : Type} `{!TemplateCollection W T} (rows : W → TemplateKey → option T).
(** A query that returns gives the row of its key, and changes nothing. *)
Hypothesis find_template_law : ∀ k w w' r,
  find_template_doc k w = (w', Ok r) → rows w' = rows w ∧ r = rows w k.

Lemma first_found_spec qs w w' r :
  first_found qs w = (w', Ok r) → r = head (omap (rows w) qs).
Proof.
  revert w. induction qs as [|q qs IH]; intros w; [by intros [= _ <-]|].
  intros (w1 & d & Hq & Hr)%se_bind_Ok. unfold eqp_call in Hq.
  destruct (find_template_doc q w) as [w2 [d'|]] eqn:Ef; [|done]. simplify_eq.
  apply find_template_law in Ef as [Hrows ->]. csimpl.
  destruct (rows w q); [by injection Hr|]. apply IH in Hr. by rewrite Hrows in Hr.
Qed.

(** A template lookup that returns gives the row of the first key of the fallback
    order that has one (exact, then without subcode, model, process, code), so a
    row of the application's catch-all key always gives one. *)
Theorem find_template_fallback k w w' r :
  find_template k w = (w', Ok r) →
  r = head (omap (rows w) (_fallback_queries k)) ∧
  (is_Some (rows w (mkTemplateKey (tk_app k) "_" "_" "_" "_")) → is_Some r).
Proof.
  intros Hf%first_found_spec. split; [done|]. subst r. destruct k. cbn [tk_app _fallback_queries].
  intros [d Hd]. csimpl. rewrite Hd. repeat case_match; eauto.
Qed.
End TemplateProperties.

(** ** A database in memory *)
Record MemDb := mkMemDb { md_docs : list Doc; md_now : Z }.

(** [f] on the first element that satisfies [P]. *)
Fixpoint on_first {A} (P : A → Prop) `{!∀ x, Decision (P x)} (f : A → list A) (l : list A)
  : option (list A) :=
  match l with
  | [] => None
  | x :: l' => if decide (P x) then Some (f x ++ l') else (x ::.) <$> on_first P f l'
  end.

Lemma on_first_None {A} (P : A → Prop) `{!∀ x, Decision (P x)} f l :
  on_first P f l = None → Forall (λ x, ¬ P x) l.
Proof.
  induction l as [|x l IH]; [constructor|]. simpl. case_decide; [done|].
  rewrite fmap_None. by constructor; [|apply IH].
Qed.

Lemma on_first_Some {A} (P : A → Prop) `{!∀ x, Decision (P x)} f l k :
  on_first P f l = Some k →
  ∃ l1 x l2, l = l1 ++ x :: l2 ∧ P x ∧ k = l1 ++ f x ++ l2.
Proof.
  revert k. induction l as [|x l IH]; intros k; [done|]. simpl. case_decide.
  - intros [= <-]. by exists [], x, l.
  - intros (k' & Hk & ->)%fmap_Some. destruct (IH _ Hk) as (l1 & y & l2 & -> & Hy & ->).
    by exists (x :: l1), y, l2.
Qed.

Definition md_write (f : Doc → list Doc) (q : Query) (w : MemDb) : MemDb * res MongoExc nat :=
  match on_first (matches q) f (md_docs w) with
  | Some ds => (mkMemDb ds (md_now w), Ok 1)
  | None => (w, Ok 0)
  end.

#[export] Instance memdb_collection : Collection MemDb := {
  insert_one d w :=
    if decide (Exists (λ d', doc_triple d' = doc_triple d) (md_docs w))
    then (w, Err DuplicateKeyError)
    else (mkMemDb (md_docs w ++ [doc_with_id "id" d]) (md_now w), Ok "id");
  replace_one q d w :=
    match on_first (matches q) (λ old, [replacement d old]) (md_docs w) with
    | Some ds => (mkMemDb ds (md_now w), Ok tt)
    | None => (mkMemDb (md_docs w ++ [doc_with_id "id" d]) (md_now w), Ok tt)
    end;
  update_one q d := md_write (λ old, [set_doc d old]) q;
  delete_one q := md_write (λ _, []) q;
  find_one q w := (w, Ok (head (filter (matches q) (md_docs w))));
  find q w := (w, Ok (filter (matches q) (md_docs w)));
  utcnow := md_now;
  timer := md_now;
}.

#[export] Instance memdb_laws : CollectionLaws MemDb md_docs.
Proof.
  split; simpl.
  - intros q w w' r [= <- <-]. split; [done|].
    destruct (filter (matches q) (md_docs w)) as [|d l] eqn:E; simpl.
    + apply Forall_forall. intros d Hd Hm. assert (d ∈ filter (matches q) (md_docs w)) as Hx
        by (by apply list_elem_of_filter). rewrite E in Hx. set_solver.
    + assert (d ∈ filter (matches q) (md_docs w)) as Hx by (rewrite E; left).
      apply list_elem_of_filter in Hx. naive_solver.
  - by intros q w w' l [= <- <-].
  - intros q d w w' n. unfold md_write. destruct (on_first _ _ _) eqn:E; intros [= <- <-].
    + right. apply on_first_Some in E as (l1 & x & l2 & Hd & Hm & ->). naive_solver.
    + left. split; [done|]. split; [done|]. by apply on_first_None in E.
  - intros q d w w' e. unfold md_write. by case_match.
  - intros q w w' n. unfold md_write. destruct (on_first _ _ _) eqn:E; intros [= <- <-].
    + right. apply on_first_Some in E as (l1 & x & l2 & Hd & Hm & ->). naive_solver.
    + left. split; [done|]. split; [done|]. by apply on_first_None in E.
  - intros d w w' i. case_decide as Hex; [done|]. intros [= <- <-]. split; [done|].
    apply Forall_Exists_neg in Hex. eapply Forall_impl; [exact Hex|]. naive_solver.
  - intros d w w'. case_decide; [by intros [= <-]|done].
  - intros q d w w'. destruct (on_first _ _ _) eqn:E; intros [= <-]; simpl.
    + right. apply on_first_Some in E as (l1 & x & l2 & Hd & Hm & ->). naive_solver.
    + left. split; [by apply on_first_None in E|eauto].
  - intros q d w w'. by destruct (on_first _ _ _).
  - done.
  - done.
Qed.

(** ** Witnesses *)
#[local] Existing Instance set_iter_id.
#[local] Instance ex_cache : TTLCache (MapCache MonitorProfile) MonitorProfile :=
  map_cache_ops 300.
#[local] Instance ex_cache_laws :
  TTLCacheLaws (MapCache MonitorProfile) MonitorProfile 300 map_cache := map_cache_laws 300.

Definition ex_db : MemDb := mkMemDb [to_mongo ex_overlay; to_mongo ex_base] 1000.
Definition ex_repo : MemDb * MapCache MonitorProfile := (ex_db, cache_empty).

Lemma ex_unique : unique_scopes md_docs ex_db.
Proof. apply (bool_decide_unpack _). vm_compute. exact I. Qed.

Lemma replace_with_version_spec_witness :
  let '(s', r) := replace_with_version id ex_overlay 1 ex_repo in
  r = Ok 2%Z ∧ map_cache s'.2 = ∅ ∧ length (md_docs s'.1) = 2.
Proof.
  pose proof (replace_with_version_spec md_docs 300 map_cache id ex_overlay 1 ex_repo) as Hx.
  assert ((replace_with_version id ex_overlay 1 ex_repo).2 = Ok 2%Z) as Hr
    by (vm_compute; reflexivity).
  destruct (replace_with_version id ex_overlay 1 ex_repo) as [s' r]. simpl in Hr. subst r.
  destruct Hx as (_ & He & w & -> & l1 & old & l2 & Hd & _ & _ & Hd').
  split; [done|]. split; [done|]. unfold id. rewrite Hd'.
  change 2 with (length (md_docs ex_repo.1)). rewrite Hd.
  rewrite !length_app. reflexivity.
Defined.

(** Meanwhile the clock goes on. *)
Definition ex_tick (w : MemDb) : MemDb := mkMemDb (md_docs w) (md_now w + 1).

Lemma no_lost_update_witness :
  let s1 := (replace_with_version ex_tick ex_overlay 1 ex_repo).1 in
  isOk (replace_with_version ex_tick ex_overlay 1 (ex_tick s1.1, s1.2)).2 = false.
Proof.
  intros s1.
  apply (no_lost_update md_docs 300 map_cache ex_tick ex_overlay ex_overlay 1 ex_repo s1 2
    (ex_tick s1.1, s1.2)); [apply ex_unique|reflexivity| |vm_compute; reflexivity|].
  - intros w Hw. exact Hw.
  - apply rtc_once. reflexivity.
Defined.

(** An edit started from version 1 (of [ex_overlay]) overwrites the document that was
    created anew after a deletion: that one has version 1 again. *)
Example recreated_document_overwritten :
  let anew := ex_doc (p_scope ex_overlay) true [] [] in
  let '(s1, r1) := delete_by_scope id (p_scope ex_overlay) (Some 1%Z) ex_repo in
  let '(s2, r2) := create id anew s1 in
  let '(s3, r3) := replace_with_version id ex_overlay 1 s2 in
  (r1, isOk r2, r3) = (Ok tt, true, Ok 2%Z).
Proof. vm_compute. reflexivity. Qed.

Definition ex_collected : list MonitorProfile :=
  match (collect_scope_docs id "ETCH" "M1" "E1" ex_repo).2 with Ok l => l | Err _ => [] end.

Lemma collect_scope_docs_cascade_witness :
  p_scope <$> ex_collected = [mkScope "ETCH" "*" "*"; mkScope "ETCH" "M1" "E1"] ∧
  StronglySorted (λ p q, _specificity_rank (p_scope p) < _specificity_rank (p_scope q))
    ex_collected.
Proof.
  split; [vm_compute; reflexivity|].
  apply (collect_scope_docs_cascade md_docs id "ETCH" "M1" "E1" ex_repo ex_repo ex_collected);
    [apply ex_unique|].
  vm_compute. reflexivity.
Defined.

Definition ex_folded : MonitorProfile :=
  fold_result 0 ex_collected (mkScope "ETCH" "M1" "E1").

(** The baked [b] of the overlay. *)
Lemma scheduling_covers_active_rules_witness :
  ex_rule "b" true ∈ p_rules ex_folded ∧
  r_interval_minutes (ex_rule "b" true) ∈ intervals_of [to_mongo ex_overlay].
Proof.
  assert (ex_rule "b" true ∈ p_rules ex_folded) as Hb
    by (apply (bool_decide_unpack _); vm_compute; exact I).
  split; [exact Hb|].
  apply (scheduling_covers_active_rules md_docs id "ETCH" "M1" "E1" ex_repo ex_repo ex_repo
    ex_repo ex_collected 0 ex_folded); [| |done| |exact Hb|done].
  all: vm_compute; reflexivity.
Defined.

Lemma resolve_profile_own_witness :
  cache_own map_cache (resolve_profile id "ETCH" "M1" "E1" ex_repo).1.2 ∧
  isOk (resolve_profile id "ETCH" "M1" "E1" ex_repo).2 = true.
Proof.
  split; [|vm_compute; reflexivity].
  pose proof (resolve_profile_own 300 map_cache id "ETCH" "M1" "E1" ex_repo
    eq_refl eq_refl) as Hx.
  destruct (resolve_profile id "ETCH" "M1" "E1" ex_repo) as [s' r]. apply Hx.
  intros key eff t Hk. done.
Defined.

Definition ex_rows (k : TemplateKey) : option string :=
  if decide (k = mkTemplateKey "ARS" "_" "_" "_" "_") then Some "catch-all" else None.

#[local] Instance ex_templates : TemplateCollection unit string :=
  {| find_template_doc k w := (w, Ok (ex_rows k)) |}.

Lemma find_template_fallback_witness :
  find_template (mkTemplateKey "ARS" "ETCH" "M1" "RM" "CPU") tt = (tt, Ok (Some "catch-all")) ∧
  is_Some (Some "catch-all").
Proof.
  assert (find_template (mkTemplateKey "ARS" "ETCH" "M1" "RM" "CPU") tt
          = (tt, Ok (Some "catch-all"))) as Hf by (vm_compute; reflexivity).
  split; [exact Hf|].
  assert (∀ k w w' r, find_template_doc k w = (w', Ok r) →
    (λ _ : unit, ex_rows) w' = ex_rows ∧ r = ex_rows k) as Hlaw
    by (intros k w w' r E; injection E; by intros <- _).
  apply (find_template_fallback (λ _, ex_rows) Hlaw _ tt tt _ Hf).
  eexists. vm_compute. reflexivity.
Defined.
