(* ===== verification/Content.v ===== *)
(** * The content of stored profiles

    What a profile says, without its identifier, its governance and the time it was
    loaded at: the part of a document that the API and the seeding are about. *)
From stdpp Require Import base list strings sets gmap.
From Stdlib Require Import ZArith Lia.
From S2P Require Import Prelude PyNum FactCatalog Models Repository.

(** What a profile says, without its bookkeeping. *)
Definition Content : Type :=
  Scope * bool * list Measure * list Rule * list (string * NotifyChannel).

Definition content (p : MonitorProfile) : Content :=
  (p_scope p, p_enabled p, p_measures p, p_rules p, p_notify p).

Definition doc_content (d : Doc) : option Content :=
  match from_mongo 0 d with Ok p => Some (content p) | Err _ => None end.

Lemma from_mongo_content now d p : from_mongo now d = Ok p → doc_content d = Some (content p).
Proof.
  unfold doc_content, from_mongo. intros H. res_inv H.
  pose proof (doc_consistency_id _ _ H) as ->. simpl.
  rewrite E0. simpl. by erewrite doc_consistency_same by done.
Qed.

Lemma contents_of now ds ps :
  Forall2 (λ d p, from_mongo now d = Ok p) ds ps → omap doc_content ds = content <$> ps.
Proof.
  induction 1 as [|d p ds ps Hd _ IH]; [done|]. csimpl.
  by rewrite (from_mongo_content _ _ _ Hd), IH.
Qed.

Definition c_scope (c : Content) : Scope := c.1.1.1.1.

Lemma content_triple d c t :
  doc_triple d = Some t → doc_content d = Some c → scope_triple (c_scope c) = t.
Proof.
  intros Ht. unfold doc_content. destruct (from_mongo 0 d) as [p|] eqn:E; [|done].
  intros [= <-]. by apply (from_mongo_triple _ _ _ _ Ht E).
Qed.

(** What is stored of a valid overlay has its content. *)
Lemma stored_content p d :
  valid_profile p → d_scope d = Some (Scope_to_mongo (p_scope p)) →
  d_enabled d = Some (p_enabled p) → d_measures d = Some (p_measures p) →
  d_rules d = Some (p_rules p) →
  d_notify d = Some ((λ kv, (kv.1, mkNotifyDoc [] kv.2)) <$> p_notify p) →
  doc_content d = Some (content p).
Proof.
  intros (Hm & Hr & Hd) Es Ee Em Er En. unfold doc_content, from_mongo.
  rewrite Es, Ee, Em, Er, En. cbn -[Scope_from_mongo Scope_to_mongo].
  rewrite Scope_roundtrip. simpl. rewrite (mapM_Ok_id _ _ Hm). simpl.
  rewrite (mapM_Ok_id _ _ Hr). simpl. rewrite notify_roundtrip. simpl.
  by erewrite doc_consistency_same by done.
Qed.

(** Loading a document at another time gives the same content and the same author. *)
Lemma from_mongo_times now now' d p p' :
  from_mongo now d = Ok p → from_mongo now' d = Ok p' →
  content p = content p' ∧ g_updated_by (p_governance p) = g_updated_by (p_governance p').
Proof.
  intros H H'. split.
  - apply from_mongo_content in H, H'. congruence.
  - unfold from_mongo in H, H'. res_inv H. res_inv H'. simplify_eq.
    apply doc_consistency_id in H as ->, H' as ->. simpl. by destruct (d_governance d).
Qed.
