(* ===== verification/Scheduler.v ===== *)
(** * AnalysisScheduler: jobs, cadence reconciliation, pause and shutdown
    ([src/scheduler/jobs.py])

    APScheduler and the repositories are the class [Backend], with the laws the code
    relies on ([BackendLaws]); the scheduler object is the record [Sched].
    [reload] and [reconcile] run under one lock, so neither sees the job set in the
    middle of the other: each is one step. *)
From stdpp Require Import base list strings sets gmap sorting.
From Stdlib Require Import ZArith Lia Ascii Decimal DecimalN DecimalZ.
From Stdlib Require String DecimalString.
From S2P Require Import Prelude PyStr.
Import DecimalString.NilEmpty.
Local Open Scope se_scope.

(** ** Job ids *)

(** [f"analysis-{process}-{interval}m"] *)
Definition job_id (process : string) (interval : Z) : string :=
  "analysis-" +:+ process +:+ "-" +:+ str_Z interval +:+ "m".

Fixpoint strip_last (c : ascii) (s : string) : option string :=
  match s with
  | EmptyString => None
  | String a EmptyString => if decide (a = c) then Some "" else None
  | String a s' => String a <$> strip_last c s'
  end.

Definition newline : ascii := ascii_of_nat 10.

(** [_JOB_ID_RE.match], [^analysis-(.+)-(\d+)m$]: the digits hold no dash, so the
    greedy group ends at the last one; the dot is no newline; the dollar also
    matches before a final one. *)
Definition parse_job_id (id : string) : option (string * Z) :=
  rest ← strip_prefix "analysis-" id;
  let rest := default rest (strip_last newline rest) in
  body ← strip_last "m"%char rest;
  '(process, digits) ← rpartition "-"%char body;
  if bool_decide (process = "" ∨ digits = "" ∨ has_char newline process = true) then None
  else d ← uint_of_string digits; Some (process, Z.of_uint d).

(** ** What the scheduler calls *)
Notation Key := (string * Z)%type.

(** A registered job: what it runs, and the next run time APScheduler gave it. *)
Record Job := mkJob { j_key : Key; j_next_run : Z }.

Inductive SchedExn : Type :=
| MongoUnavailable
| JobLookupError (id : string)
| NotDebugMode
| OtherExn.

Class Backend (W : Type) := {
  (** APScheduler *)
  ap_jobs : W → gmap string Job;
  ap_get_jobs : W → list string;
  ap_remove_all_jobs : W → W;
  ap_remove_job : string → SE W SchedExn unit;
  (** [add_job(..., minutes=interval, args=[run_analysis, process, interval],
      id=..., replace_existing=True)] *)
  ap_add_job : string → Key → W → W;
  ap_running : W → bool;
  ap_start : W → W;
  ap_pause : W → W;
  ap_resume : W → W;
  ap_shutdown : W → W;
  (** the repositories *)
  get_scheduling_intervals : string → SE W SchedExn (list Z);
  get_distinct_processes : SE W SchedExn (list string);
  (** [asyncio.wait(pending, timeout)]: the tasks still pending *)
  wait_timeout : list nat → W → W * list nat;
}.

Class BackendLaws (W : Type) `{Backend W} := {
  get_jobs_law w : ap_get_jobs w ≡ₚ elements (dom (ap_jobs w));
  remove_all_law w : ap_jobs (ap_remove_all_jobs w) = ∅;
  remove_job_law id w :
    is_Some (ap_jobs w !! id) →
    (ap_remove_job id w).2 = Ok tt ∧ ap_jobs (ap_remove_job id w).1 = delete id (ap_jobs w);
  add_job_law id k w :
    ∃ next, ap_jobs (ap_add_job id k w) = <[id := mkJob k next]> (ap_jobs w);
  intervals_law p w : ap_jobs (get_scheduling_intervals p w).1 = ap_jobs w;
  processes_law w : ap_jobs (get_distinct_processes w).1 = ap_jobs w;
  pause_law w : ap_jobs (ap_pause w) = ap_jobs w;
  resume_law w : ap_jobs (ap_resume w) = ap_jobs w;
}.

(** ** The scheduler *)
Record Settings := mkSettings
  { debug_read_only : bool; debug_processes : list string;
    scheduler_reconcile_interval_sec : Z }.

Record Sched := mkSched {
  s_running_jobs : list nat;
  s_paused : bool;
  s_running : bool;
  s_owned_processes : option (list string);
  (** [_reconcile_task is not None] *)
  s_reconcile_task : bool;
  (** the tasks [shutdown] has cancelled *)
  s_cancelled : list nat;
  (** [JOB_TOTAL.labels(process, status, reason).inc()], in order *)
  s_job_total : list (string * string * string);
}.

Definition Sched_init : Sched := mkSched [] false false None false [] [].

Definition set_flags (paused running task : bool) (s : Sched) : Sched :=
  mkSched (s_running_jobs s) paused running (s_owned_processes s) task (s_cancelled s)
    (s_job_total s).
Definition set_owned (ps : option (list string)) (s : Sched) : Sched :=
  mkSched (s_running_jobs s) (s_paused s) (s_running s) ps (s_reconcile_task s)
    (s_cancelled s) (s_job_total s).
Definition set_running_jobs (ts : list nat) (s : Sched) : Sched :=
  mkSched ts (s_paused s) (s_running s) (s_owned_processes s) (s_reconcile_task s)
    (s_cancelled s) (s_job_total s).
Definition set_cancelled (ts : list nat) (s : Sched) : Sched :=
  mkSched (s_running_jobs s) (s_paused s) (s_running s) (s_owned_processes s)
    (s_reconcile_task s) ts (s_job_total s).
Definition count_job (label : string * string * string) (s : Sched) : Sched :=
  mkSched (s_running_jobs s) (s_paused s) (s_running s) (s_owned_processes s)
    (s_reconcile_task s) (s_cancelled s) (s_job_total s ++ [label]).

(** The order of [sorted] on pairs of a string and an int. *)
Definition key_leb (a b : Key) : bool :=
  if decide (a.1 = b.1) then bool_decide (a.2 ≤ b.2)%Z else str_leb a.1 b.1.

Section Scheduler.
Context {W : Type} `{!Backend W, !SetIter} (settings : Settings).

Definition SM (A : Type) : Type := SE (Sched * W) SchedExn A.

Definition on_world (f : W → W) : SM unit := λ s, ((s.1, f s.2), Ok tt).
Definition on_sched (f : Sched → Sched) : SM unit := λ s, ((f s.1, s.2), Ok tt).
Definition lift {A} (op : SE W SchedExn A) : SM A := λ s,
  let '(w', r) := op s.2 in ((s.1, w'), r).

Fixpoint iter {A} (f : A → SM unit) (l : list A) : SM unit :=
  match l with
  | [] => se_ret tt
  | x :: l' => f x ;;; iter f l'
  end.

Definition start : SM unit :=
  on_world ap_start ;;;
  on_sched (λ s, set_flags (s_paused s) true
    (if negb (debug_read_only settings)
        && bool_decide (scheduler_reconcile_interval_sec settings > 0)%Z
     then true else s_reconcile_task s) s).

Definition resolve_processes_for_debug : SM (list string) :=
  if negb (debug_read_only settings) then se_raise NotDebugMode
  else if decide (debug_processes settings = []) then lift get_distinct_processes
  else se_ret (debug_processes settings).

Definition _add_interval_job (k : Key) : SM unit :=
  on_world (ap_add_job (job_id k.1 k.2) k).

(** The jobs of one process. *)
Definition reload_process (process : string) : SM unit :=
  intervals <- lift (get_scheduling_intervals process) ;;
  iter (λ interval, _add_interval_job (process, interval)) intervals.

Definition reload (processes : option (list string)) : SM unit :=
  on_world ap_remove_all_jobs ;;;
  processes <- match processes with
               | Some ps => se_ret (Some ps)
               | None =>
                   if debug_read_only settings then
                     ps <- resolve_processes_for_debug ;; se_ret (Some ps)
                   else se_ret None
               end ;;
  match processes with
  | None => se_ret tt
  | Some ps => on_sched (set_owned (Some ps)) ;;; iter reload_process ps
  end.

(** [_current_interval_jobs]: key to id, a later job winning. *)
Definition _current_interval_jobs (w : W) : list (Key * string) :=
  ODict.of_list (omap (λ id, (λ k, (k, id)) <$> parse_job_id id) (ap_get_jobs w)).

Definition _processes_to_schedule : SM (option (list string)) :=
  owned <- se_gets (λ s, s_owned_processes s.1) ;;
  match owned with
  | Some ps => se_ret (Some ps)
  | None =>
      if debug_read_only settings then
        ps <- resolve_processes_for_debug ;; se_ret (Some ps)
      else se_ret None
  end.

(** The wanted keys, with repetitions. *)
Fixpoint desired_keys (processes : list string) : SM (list Key) :=
  match processes with
  | [] => se_ret []
  | p :: rest =>
      intervals <- lift (get_scheduling_intervals p) ;;
      ks <- desired_keys rest ;;
      se_ret ((pair p <$> intervals) ++ ks)
  end.

(** Apply the difference to the job set. *)
Definition apply_delta (desired : list Key) (current : list (Key * string)) : SM bool :=
  let current_keys := current.*1 in
  let to_add := filter (.∉ current_keys) (remove_dups desired) in
  let to_remove := filter (.∉ desired) current_keys in
  if decide (to_add = [] ∧ to_remove = []) then se_ret false
  else
    iter (λ k, match ODict.get k current with
               | Some id => lift (ap_remove_job id)
               | None => se_ret tt
               end) (iter_set to_remove) ;;;
    iter _add_interval_job (sort_by key_leb to_add) ;;;
    se_ret true.

Definition reconcile : SM bool :=
  paused <- se_gets (λ s, s_paused s.1) ;;
  running <- se_gets (λ s, s_running s.1) ;;
  if paused || negb running then se_ret false
  else
    processes <- _processes_to_schedule ;;
    match processes with
    | None | Some [] => se_ret false
    | Some ps =>
        desired <- desired_keys ps ;;
        current <- se_gets (λ s, _current_interval_jobs s.2) ;;
        apply_delta desired current
    end.

(** One round of [_reconcile_loop]: only a cancellation ends it. *)
Definition reconcile_tick (s : Sched * W) : Sched * W :=
  if s_paused s.1 || negb (s_running s.1) then s else (reconcile s).1.

Definition pause_all_jobs : SM unit :=
  on_sched (λ s, set_flags true (s_running s) (s_reconcile_task s) s) ;;;
  on_world (λ w, if ap_running w then ap_pause w else w).

Definition resume_jobs_for (processes : list string) : SM unit :=
  on_sched (λ s, set_flags false (s_running s) (s_reconcile_task s) s) ;;;
  on_world (λ w, if ap_running w then ap_resume w else w).

Definition shutdown : SM unit :=
  on_sched (λ s, set_flags true (s_running s) (s_reconcile_task s) s) ;;;
  on_sched (λ s, set_flags (s_paused s) (s_running s) false s) ;;;
  on_world (λ w, if ap_running w then ap_shutdown w else w) ;;;
  on_sched (λ s, set_flags (s_paused s) false (s_reconcile_task s) s) ;;;
  pending <- se_gets (λ s, s_running_jobs s.1) ;;
  if decide (pending = []) then se_ret tt
  else
    λ s, let '(w', still_pending) := wait_timeout pending s.2 in
         ((set_cancelled still_pending s.1, w'), Ok tt).
End Scheduler.

(** ** What a method keeps, however it ends *)
Section SmKeeps.
Context {W : Type} (P : Sched * W → Prop).

Definition sm_keeps {A} (m : SM (W := W) A) : Prop := ∀ s, P s → P (m s).1.

Lemma sm_keeps_ret {A} (a : A) : sm_keeps (se_ret a).
Proof. by intros s. Qed.

Lemma sm_keeps_raise {A} e : sm_keeps (se_raise (A := A) e).
Proof. by intros s. Qed.

Lemma sm_keeps_gets {A} (f : Sched * W → A) : sm_keeps (se_gets f).
Proof. by intros s. Qed.

Lemma sm_keeps_bind {A B} (m : SM A) (k : A → SM B) :
  sm_keeps m → (∀ a, sm_keeps (k a)) → sm_keeps (se_bind m k).
Proof.
  intros Hm Hk s Hs. unfold se_bind. specialize (Hm s Hs).
  destruct (m s) as [s' [a|e]]; simpl in *; [by apply Hk|done].
Qed.

Lemma sm_keeps_iter {A} (f : A → SM unit) l : (∀ x, x ∈ l → sm_keeps (f x)) → sm_keeps (iter f l).
Proof.
  intros Hf. induction l as [|x l IH]; [apply sm_keeps_ret|].
  apply sm_keeps_bind; [apply Hf; left|intros _]. apply IH. intros y Hy. apply Hf. by right.
Qed.

Lemma sm_keeps_lift {A} (op : SE W SchedExn A) :
  (∀ s, P s → P (s.1, (op s.2).1)) → sm_keeps (lift op).
Proof. intros Hop s Hs. unfold lift. specialize (Hop s Hs). by destruct (op s.2). Qed.

Lemma sm_keeps_world (f : W → W) : (∀ s, P s → P (s.1, f s.2)) → sm_keeps (on_world f).
Proof. intros Hf s. apply Hf. Qed.

Lemma sm_keeps_sched (f : Sched → Sched) : (∀ s, P s → P (f s.1, s.2)) → sm_keeps (on_sched f).
Proof. intros Hf s. apply Hf. Qed.
End SmKeeps.

Create HintDb sm_keeps.
#[export] Hint Resolve sm_keeps_ret sm_keeps_raise sm_keeps_gets sm_keeps_bind sm_keeps_iter
  sm_keeps_lift sm_keeps_world sm_keeps_sched : sm_keeps.
#[export] Hint Extern 1 (sm_keeps _ (match ?x with _ => _ end)) => destruct x : sm_keeps.

(** ** The job wrapper *)

(** What a job raises; [JobOther] carries the module of the exception's class. *)
Inductive JobExn : Type :=
| JobCancelled
| JobMongoUnavailable
| JobLockTimeout
| JobOther (module : string).

Definition _classify_failure_reason (e : JobExn) : string :=
  match e with
  | JobMongoUnavailable => "mongo_unavailable"
  | JobLockTimeout => "lock_timeout"
  | JobOther module =>
      if decide (is_Some (strip_prefix "elasticsearch" module)) then "es_unavailable"
      else "other"
  | JobCancelled => "other"
  end.

(** [job]: the outcome of [await job_fn(process, ...)], which may change the
    scheduler and the world while it runs. *)
Definition _job_wrapper {W} (task : nat) (process : string)
    (job : SE (Sched * W) JobExn unit) : SE (Sched * W) JobExn unit := λ s,
  if s_paused s.1 then (s, Ok tt)
  else
    let s := (set_running_jobs (task :: s_running_jobs s.1) s.1, s.2) in
    let '(s', r) := job s in
    let '(s', r) :=
      match r with
      | Ok _ => ((count_job (process, "success", "") s'.1, s'.2), Ok tt)
      | Err JobCancelled => (s', Err JobCancelled)
      | Err e =>
          ((count_job (process, "failure", _classify_failure_reason e) s'.1, s'.2), Ok tt)
      end in
    ((set_running_jobs (filter (.≠ task) (s_running_jobs s'.1)) s'.1, s'.2), r).

(** ** Lemmas on job ids *)
Lemma strip_last_snoc c s a :
  strip_last c (s +:+ String a "") = if decide (a = c) then Some s else None.
Proof.
  induction s as [|b s IH]; [done|]. rewrite str_app_cons. cbn [strip_last].
  rewrite IH. destruct (s +:+ String a "") as [|x y] eqn:E; [by destruct s|].
  by case_decide.
Qed.

Lemma digits_no_dash d : has_char "-"%char (string_of_uint d) = false.
Proof. unfold has_char. induction d; simpl; rewrite ?orb_false_iff; try split; done. Qed.

Lemma str_Z_nonneg n :
  (0 ≤ n)%Z → ∃ d, str_Z n = string_of_uint d ∧ Z.of_uint d = n ∧ d ≠ Nil.
Proof.
  intros Hn. unfold str_Z. pose proof (DecimalZ.of_to n) as Hof.
  assert (∃ d, Z.to_int n = Pos d ∧ d ≠ Nil) as (d & Hd & Hne).
  { destruct n as [|p|p]; simpl; [by eexists|..|lia]. eexists. split; [done|].
    intros E. pose proof (DecimalPos.Unsigned.of_to p) as Hp. by rewrite E in Hp. }
  rewrite Hd in *. by exists d.
Qed.

Lemma uint_str_nonempty d : d ≠ Nil → string_of_uint d ≠ "".
Proof. by destruct d. Qed.

Lemma has_char_snoc c s a :
  has_char c (s +:+ String a "") = has_char c s || bool_decide (a = c).
Proof.
  unfold has_char. induction s as [|b s IH]; [simpl; by rewrite orb_false_r|].
  rewrite str_app_cons. simpl. by rewrite IH, orb_assoc.
Qed.

(** A process name a job id can hold. *)
Definition id_process (p : string) : Prop := p ≠ "" ∧ has_char newline p = false.

Lemma parse_job_id_print p i :
  id_process p → (0 ≤ i)%Z → parse_job_id (job_id p i) = Some (p, i).
Proof.
  intros [Hp Hnl] Hi. destruct (str_Z_nonneg i Hi) as (d & Hd & Hz & Hne).
  unfold parse_job_id, job_id.
  change (strip_prefix _ _) with (Some (p +:+ "-" +:+ str_Z i +:+ "m")). simpl.
  assert (p +:+ "-" +:+ str_Z i +:+ "m" = (p +:+ "-" +:+ str_Z i) +:+ String "m" "") as E
    by (by rewrite !str_app_assoc).
  rewrite E, strip_last_snoc, decide_False by done. simpl.
  rewrite strip_last_snoc, decide_True by done. simpl.
  rewrite (rpartition_app "-"%char) by (rewrite Hd; apply digits_no_dash). simpl.
  rewrite bool_decide_eq_false_2.
  - rewrite Hd, usu. simpl. by rewrite Hz.
  - rewrite Hd. intros [?|[?|?]]; [done|by eapply uint_str_nonempty|congruence].
Qed.

(** A key whose job id reads back. *)
Definition proper (k : Key) : Prop := id_process k.1 ∧ (0 ≤ k.2)%Z.

Definition id_of (k : Key) : string := job_id k.1 k.2.

Lemma parse_id_of k : proper k → parse_job_id (id_of k) = Some k.
Proof. destruct k as [p i]. intros [Hp Hi]. by apply parse_job_id_print. Qed.

Lemma id_of_inj k k' : proper k → proper k' → id_of k = id_of k' → k = k'.
Proof.
  intros Hk%parse_id_of Hk'%parse_id_of E. rewrite E in Hk. congruence.
Qed.

(** ** Lemmas on the job set *)
Section JobSet.
Context {W : Type} `{!Backend W, !BackendLaws W, !SetIter}.

(** Every analysis job is registered under the id of its key, and runs that key. *)
Definition ids_canonical (w : W) : Prop :=
  ∀ id j, ap_jobs w !! id = Some j →
    parse_job_id id = None ∨ ∃ k, proper k ∧ id = id_of k ∧ j_key j = k.

Lemma elem_of_get_jobs (w : W) id : id ∈ ap_get_jobs w ↔ is_Some (ap_jobs w !! id).
Proof. by rewrite get_jobs_law, elem_of_elements, elem_of_dom. Qed.

Lemma current_get (w : W) k id :
  ids_canonical w →
  ODict.get k (_current_interval_jobs w) = Some id ↔
  proper k ∧ id = id_of k ∧ is_Some (ap_jobs w !! id).
Proof.
  intros Hc. unfold _current_interval_jobs.
  set (l := omap (λ id, (λ k, (k, id)) <$> parse_job_id id) (ap_get_jobs w)).
  assert (∀ k id, (k, id) ∈ l ↔ proper k ∧ id = id_of k ∧ is_Some (ap_jobs w !! id)) as Hl.
  { intros k' id'. unfold l. rewrite list_elem_of_omap. setoid_rewrite elem_of_get_jobs. split.
    - intros (id0 & [j Hj] & Hp). destruct (parse_job_id id0) as [k0|] eqn:E; [|done].
      injection Hp as <- <-. destruct (Hc _ _ Hj) as [|(k1 & Hk1 & -> & _)]; [congruence|].
      rewrite parse_id_of in E by done. injection E as <-. eauto.
    - intros (Hk & -> & Hj). exists (id_of k'). by rewrite parse_id_of. }
  assert (NoDup l.*1) as Hnd.
  { assert (NoDup (ap_get_jobs w)) as Hj by (rewrite get_jobs_law; apply NoDup_elements).
    assert (∀ k id, (k, id) ∈ l → id = id_of k) as Hid by naive_solver.
    clear Hl. unfold l in *. clear l. induction Hj as [|id0 ids Hn Hj IH]; [constructor|].
    csimpl in *. destruct (parse_job_id id0) as [k0|] eqn:E; simpl in *; [|by apply IH].
    apply NoDup_cons. split.
    - intros ([k1 id1] & -> & Hin)%list_elem_of_fmap. simpl in *.
      assert (id1 = id0) as ->.
      { rewrite (Hid k1 id1) by by right. symmetry. apply Hid. left. }
      apply list_elem_of_omap in Hin as (id2 & Hin & Hp).
      destruct (parse_job_id id2); [|done]. by injection Hp as _ ->.
    - apply IH. intros. apply Hid. by right. }
  rewrite ODict.of_list_id by done. by rewrite <-ODict.elem_of_iff_get, Hl.
Qed.

Lemma current_keys (w : W) k :
  ids_canonical w →
  k ∈ (_current_interval_jobs w).*1 ↔ proper k ∧ is_Some (ap_jobs w !! id_of k).
Proof.
  intros Hc. destruct (ODict.get k (_current_interval_jobs w)) as [id|] eqn:E.
  - pose proof E as (Hk & -> & Hj)%current_get; [|done]. split; [done|]. intros _.
    apply (list_elem_of_fmap_2 fst _ (k, id_of k)). by apply ODict.get_Some_elem_of.
  - split; [by intros Hk%ODict.get_None|]. intros [Hk Hj].
    assert (ODict.get k (_current_interval_jobs w) = Some (id_of k)) as Hx
      by (by apply current_get). congruence.
Qed.

Lemma remove_jobs_spec (w0 : W) l (s : Sched * W) :
  ids_canonical w0 → NoDup l →
  (∀ k, k ∈ l → proper k ∧ is_Some (ap_jobs w0 !! id_of k) ∧ is_Some (ap_jobs s.2 !! id_of k)) →
  ∃ w', iter (λ k, match ODict.get k (_current_interval_jobs w0) with
               | Some id => lift (ap_remove_job id)
               | None => se_ret tt
               end) l s = ((s.1, w'), Ok tt) ∧
    ∀ id, ap_jobs w' !! id = if decide (id ∈ id_of <$> l) then None else ap_jobs s.2 !! id.
Proof.
  intros Hc Hnd. revert s. induction Hnd as [|k l Hk Hnd IH]; intros s Hl.
  { exists s.2. split; [by destruct s|]. intros id. by rewrite decide_False by set_solver. }
  destruct (Hl k) as (Hp & Hw0 & Hs); [left|].
  assert (ODict.get k (_current_interval_jobs w0) = Some (id_of k)) as Hg
    by (by apply current_get).
  destruct (remove_job_law (id_of k) s.2 Hs) as [Hr Hj].
  cbn [iter]. unfold se_bind at 1. rewrite Hg. unfold lift at 1.
  destruct (ap_remove_job (id_of k) s.2) as [w1 r]. simpl in Hr, Hj. subst r.
  destruct (IH (s.1, w1)) as (w' & -> & Hw').
  - intros k' Hk'. destruct (Hl k') as (? & ? & ?); [by right|]. split_and!; try done.
    simpl. rewrite Hj, lookup_delete_ne; [done|]. intros E. apply Hk.
    by rewrite (id_of_inj k k').
  - exists w'. split; [done|]. intros id. rewrite Hw'. csimpl. rewrite Hj.
    destruct (decide (id = id_of k)) as [->|Hne].
    + rewrite (decide_True (P := id_of k ∈ id_of k :: _)) by left.
      case_decide; [done|]. apply lookup_delete_eq.
    + rewrite lookup_delete_ne by done.
      repeat case_decide; try done; set_solver.
Qed.

Lemma add_jobs_spec l (s : Sched * W) :
  (∀ k, k ∈ l → proper k) →
  ∃ w', iter _add_interval_job l s = ((s.1, w'), Ok tt) ∧
    (∀ id, id ∉ id_of <$> l → ap_jobs w' !! id = ap_jobs s.2 !! id) ∧
    (∀ k, k ∈ l → ∃ next, ap_jobs w' !! id_of k = Some (mkJob k next)).
Proof.
  revert s. induction l as [|k l IH]; intros s Hl.
  { exists s.2. split; [by destruct s|]. split; [done|]. set_solver. }
  cbn [iter]. unfold se_bind at 1, _add_interval_job at 1, on_world. fold (id_of k).
  destruct (add_job_law (id_of k) k s.2) as [next Hadd].
  destruct (IH (s.1, ap_add_job (id_of k) k s.2)) as (w' & -> & Ho & Hn).
  { intros. apply Hl. by right. }
  simpl in Ho. rewrite Hadd in Ho. exists w'. split; [done|]. split.
  - intros id. rewrite fmap_cons, not_elem_of_cons. intros [Hne Hni].
    rewrite Ho by done. by rewrite lookup_insert_ne.
  - intros k' [->|Hk']%elem_of_cons; [|by apply Hn].
    destruct (decide (id_of k ∈ id_of <$> l)) as [(k1 & E & Hk1)%list_elem_of_fmap|Hni].
    + rewrite (id_of_inj k k1); [by apply Hn| | |done]; apply Hl; [left|by right].
    + exists next. rewrite Ho by done. apply lookup_insert_eq.
Qed.

(** Another job under the id of its key. *)
Lemma canonical_add k (w : W) : proper k → ids_canonical w → ids_canonical (ap_add_job (id_of k) k w).
Proof.
  intros Hk Hc id j. destruct (add_job_law (id_of k) k w) as [next ->].
  rewrite lookup_insert_Some. intros [[<- <-]|[_ Hj]]; [right; eauto|by apply Hc].
Qed.

(** A reload keeps the scheduler but for what it owns, however it ends; what it loads starts
    from an empty job set. *)
Lemma reload_eq settings ps (s : Sched * W) :
  reload settings (Some ps) s
  = iter reload_process ps (set_owned (Some ps) s.1, ap_remove_all_jobs s.2).
Proof. done. Qed.

Lemma reload_sched settings ps (s : Sched * W) :
  (reload settings (Some ps) s).1.1 = set_owned (Some ps) s.1.
Proof.
  rewrite reload_eq. apply (sm_keeps_iter (λ t, t.1 = set_owned (Some ps) s.1)); [|done].
  intros p _. apply sm_keeps_bind; [by apply sm_keeps_lift|intros ivs].
  apply sm_keeps_iter. intros i _. by apply sm_keeps_world.
Qed.

Lemma reload_nothing settings (s : Sched * W) : ap_jobs (reload settings (Some []) s).1.2 = ∅.
Proof. rewrite reload_eq. apply remove_all_law. Qed.

Lemma desired_keys_jobs ps (s s' : Sched * W) D :
  desired_keys ps s = (s', Ok D) → ap_jobs s'.2 = ap_jobs s.2 ∧ s'.1 = s.1.
Proof.
  revert s s' D. induction ps as [|p ps IH]; intros s s' D; [by intros [= <- _]|].
  cbn [desired_keys]. intros (s1 & ivs & Hi & (s2 & ks & Hk & [= <- _])%se_bind_Ok)%se_bind_Ok.
  unfold lift in Hi. pose proof (intervals_law p s.2) as Hl.
  destruct (get_scheduling_intervals p s.2) as [w1 r]. injection Hi as <- ->. simpl in *.
  apply IH in Hk as [-> ->]. done.
Qed.
End JobSet.

(** ** The difference, applied *)
Section Delta.
Context {W : Type} `{!Backend W, !BackendLaws W, !SetIter}.

(** The analysis jobs are exactly those of [D]. *)
Definition scheduled (w : W) (D : list Key) : Prop :=
  ∀ k, proper k → is_Some (ap_jobs w !! id_of k) ↔ k ∈ D.

(** What a delta leaves alone: jobs of wanted keys, and jobs that are no analysis. *)
Definition kept (D : list Key) (id : string) : Prop :=
  match parse_job_id id with Some k => k ∈ D | None => True end.

Section Result.
Context (D adds rems : list Key) (w w' : W).
Hypothesis canonical : ids_canonical w.
Hypothesis D_proper : ∀ k, k ∈ D → proper k.
Hypothesis adds_spec : ∀ k, k ∈ adds ↔ k ∈ D ∧ ¬ is_Some (ap_jobs w !! id_of k).
Hypothesis rems_spec : ∀ k, k ∈ rems ↔ k ∉ D ∧ proper k ∧ is_Some (ap_jobs w !! id_of k).
Hypothesis new_jobs : ∀ k, k ∈ adds → ∃ next, ap_jobs w' !! id_of k = Some (mkJob k next).
Hypothesis old_jobs : ∀ id, id ∉ id_of <$> adds →
  ap_jobs w' !! id = if decide (id ∈ id_of <$> rems) then None else ap_jobs w !! id.

Lemma delta_in_adds k : proper k → id_of k ∈ id_of <$> adds ↔ k ∈ adds.
Proof.
  intros Hk. rewrite list_elem_of_fmap. split; [|eauto]. intros (k' & E & Hk').
  pose proof Hk' as [HD _]%adds_spec. by rewrite (id_of_inj k k') by auto.
Qed.

Lemma delta_in_rems k : proper k → id_of k ∈ id_of <$> rems ↔ k ∈ rems.
Proof.
  intros Hk. rewrite list_elem_of_fmap. split; [|eauto]. intros (k' & E & Hk').
  pose proof Hk' as (_ & Hp & _)%rems_spec. by rewrite (id_of_inj k k').
Qed.

Lemma delta_scheduled : scheduled w' D.
Proof.
  intros k Hk. destruct (decide (k ∈ adds)) as [Ha|Ha].
  - destruct (new_jobs k Ha) as [next ->]. apply adds_spec in Ha as [? _]. naive_solver.
  - rewrite old_jobs by by rewrite delta_in_adds. rewrite adds_spec in Ha.
    case_decide as Hr; rewrite delta_in_rems, rems_spec in Hr by done.
    + split; [by intros [? ?]|naive_solver].
    + split; [|intros; destruct (decide (is_Some (ap_jobs w !! id_of k))); naive_solver].
      intros Hj. destruct (decide (k ∈ D)); naive_solver.
Qed.

Lemma delta_kept id j : ap_jobs w !! id = Some j → kept D id → ap_jobs w' !! id = Some j.
Proof.
  intros Hj Hk. unfold kept in Hk. rewrite old_jobs.
  - rewrite decide_False; [done|]. intros (k & -> & Hr)%list_elem_of_fmap.
    apply rems_spec in Hr as (HD & Hp & _). by rewrite parse_id_of in Hk.
  - intros (k & -> & Ha)%list_elem_of_fmap. apply adds_spec in Ha as [_ Hno].
    apply Hno. eauto.
Qed.

Lemma delta_canonical : ids_canonical w'.
Proof.
  intros id j Hj. destruct (decide (id ∈ id_of <$> adds)) as [(k & -> & Ha)%list_elem_of_fmap|Ha].
  - destruct (new_jobs k Ha) as [next Hn]. rewrite Hj in Hn. injection Hn as ->.
    apply adds_spec in Ha as [HD _]. right. exists k. auto.
  - rewrite old_jobs in Hj by done. case_decide; [done|]. by apply canonical in Hj.
Qed.
End Result.

Lemma apply_delta_spec D (s : Sched * W) :
  ids_canonical s.2 → (∀ k, k ∈ D → proper k) →
  ∃ w' b, apply_delta D (_current_interval_jobs s.2) s = ((s.1, w'), Ok b) ∧
    scheduled w' D ∧ ids_canonical w' ∧
    (∀ id j, ap_jobs s.2 !! id = Some j → kept D id → ap_jobs w' !! id = Some j) ∧
    (b = false ↔ scheduled s.2 D) ∧ (b = false → w' = s.2).
Proof.
  intros Hc HD. unfold apply_delta.
  set (cur := _current_interval_jobs s.2).
  set (adds := filter (.∉ cur.*1) (remove_dups D)).
  set (rems := filter (.∉ D) cur.*1).
  assert (∀ k, k ∈ adds ↔ k ∈ D ∧ ¬ is_Some (ap_jobs s.2 !! id_of k)) as Hadds.
  { intros k. unfold adds. rewrite list_elem_of_filter, elem_of_remove_dups.
    unfold cur. rewrite current_keys by done. naive_solver. }
  assert (∀ k, k ∈ rems ↔ k ∉ D ∧ proper k ∧ is_Some (ap_jobs s.2 !! id_of k)) as Hrems.
  { intros k. unfold rems. rewrite list_elem_of_filter. unfold cur.
    by rewrite current_keys by done. }
  assert (adds = [] ∧ rems = [] ↔ scheduled s.2 D) as Hsched.
  { split.
    - intros [Ha Hr] k Hk. rewrite Ha in Hadds. rewrite Hr in Hrems.
      specialize (Hadds k). specialize (Hrems k).
      destruct (decide (k ∈ D)), (decide (is_Some (ap_jobs s.2 !! id_of k))); set_solver.
    - intros Hs. split; apply elem_of_nil_inv; intros k Hk.
      + apply Hadds in Hk as [Hin Hno]. apply Hno, Hs; auto.
      + apply Hrems in Hk as (Hni & Hp & Hj). by apply Hni, Hs. }
  destruct (decide _) as [Hnone|Hsome].
  { exists s.2, false. apply Hsched in Hnone. split; [by destruct s|]. by split_and!. }
  assert (NoDup (iter_set rems)) as Hnd.
  { rewrite iter_set_perm. apply NoDup_filter.
    unfold cur, _current_interval_jobs. auto with rms. }
  destruct (remove_jobs_spec s.2 (iter_set rems) s Hc Hnd) as (w1 & Hr & Hw1).
  { intros k. rewrite elem_of_iter_set, Hrems. tauto. }
  destruct (add_jobs_spec (sort_by key_leb adds) (s.1, w1)) as (w2 & Ha & Hold & Hnew).
  { intros k. rewrite elem_of_sort_by, Hadds. intros [Hk _]. auto. }
  unfold se_bind. fold cur in Hr. rewrite Hr, Ha. exists w2, true. split; [done|].
  assert (∀ k, k ∈ adds → ∃ next, ap_jobs w2 !! id_of k = Some (mkJob k next)) as Hn
    by (intros; apply Hnew; by rewrite elem_of_sort_by).
  assert (∀ id, id ∉ id_of <$> adds → ap_jobs w2 !! id =
    if decide (id ∈ id_of <$> rems) then None else ap_jobs s.2 !! id) as Ho.
  { intros id Hid. rewrite Hold by by rewrite sort_by_perm. simpl. rewrite Hw1.
    apply decide_ext. by rewrite iter_set_perm. }
  split; [by apply (delta_scheduled D adds rems s.2)|].
  split; [by apply (delta_canonical D adds rems s.2)|].
  split; [by apply (delta_kept D adds rems s.2)|].
  split; [|done]. split; [done|]. intros Hx%Hsched. by destruct Hsome.
Qed.
End Delta.

(** ** Reload under a stable repository *)
Section Stable.
Context {W : Type} `{!Backend W, !BackendLaws W, !SetIter} (settings : Settings).
Context (ivs : string → list Z).

(** Every query of a process returns the same intervals. *)
Definition stable_intervals : Prop :=
  ∀ p w, (get_scheduling_intervals p w).2 = Ok (ivs p).

Definition keys_of (ps : list string) : list Key := ps ≫= λ p, pair p <$> ivs p.

Context (Hst : stable_intervals).

Lemma desired_keys_stable ps (s : Sched * W) :
  ∃ w', desired_keys ps s = ((s.1, w'), Ok (keys_of ps)) ∧ ap_jobs w' = ap_jobs s.2.
Proof.
  revert s. induction ps as [|p ps IH]; intros s; [by exists s.2; destruct s|].
  cbn [desired_keys]. unfold se_bind at 1, lift.
  pose proof (Hst p s.2) as Hp. pose proof (intervals_law p s.2) as Hl.
  destruct (get_scheduling_intervals p s.2) as [w1 r]. simpl in *. subst r.
  unfold se_bind. destruct (IH (s.1, w1)) as (w' & -> & Hw'). exists w'.
  split; [done|]. by rewrite Hw'.
Qed.

Lemma iter_fmap {A B} (f : B → SM (W := W) unit) (g : A → B) l s :
  iter (λ x, f (g x)) l s = iter f (g <$> l) s.
Proof.
  revert s. induction l as [|x l IH]; intros s; [done|]. csimpl. unfold se_bind.
  destruct (f (g x) s) as [s1 [[]|e]]; [apply IH|done].
Qed.

Lemma reload_processes_spec ps (s : Sched * W) :
  (∀ k, k ∈ keys_of ps → proper k) →
  ∃ w', iter reload_process ps s = ((s.1, w'), Ok tt) ∧
    (∀ id, id ∉ id_of <$> keys_of ps → ap_jobs w' !! id = ap_jobs s.2 !! id) ∧
    (∀ k, k ∈ keys_of ps → ∃ next, ap_jobs w' !! id_of k = Some (mkJob k next)).
Proof.
  revert s. induction ps as [|p ps IH]; intros s Hp.
  { exists s.2. split; [by destruct s|]. split; [done|]. set_solver. }
  unfold keys_of in Hp. rewrite bind_cons in Hp. cbn [iter]. unfold se_bind at 1.
  unfold reload_process at 1, se_bind at 1, lift.
  pose proof (Hst p s.2) as Hq. pose proof (intervals_law p s.2) as Hl.
  destruct (get_scheduling_intervals p s.2) as [w1 r]. simpl in *. subst r.
  rewrite (iter_fmap _add_interval_job (pair p)).
  destruct (add_jobs_spec (pair p <$> ivs p) (s.1, w1)) as (w2 & -> & Ho & Hn).
  { intros k Hk. apply Hp. by apply elem_of_app; left. }
  cbn [fst snd].
  destruct (IH (s.1, w2)) as (w' & -> & Ho' & Hn').
  { intros k Hk. apply Hp. by apply elem_of_app; right. }
  exists w'. split; [done|]. unfold keys_of. csimpl. rewrite fmap_app. fold (keys_of ps). split.
  - intros id Hid. rewrite not_elem_of_app in Hid. destruct Hid as [H1 H2].
    rewrite Ho' by done. simpl. rewrite Ho by done. simpl. by rewrite Hl.
  - intros k Hk. destruct (decide (id_of k ∈ id_of <$> keys_of ps)) as [Hin|Hni].
    + apply list_elem_of_fmap in Hin as (k' & E & Hk').
      rewrite (id_of_inj k k'); [by apply Hn'| | |done]; apply Hp; [done|].
      by apply elem_of_app; right.
    + apply elem_of_app in Hk as [Hk|Hk]; [|by apply Hn'].
      rewrite Ho' by done. by apply Hn.
Qed.

Lemma reload_spec ps (s : Sched * W) :
  (∀ k, k ∈ keys_of ps → proper k) →
  ∃ w', reload settings (Some ps) s = ((set_owned (Some ps) s.1, w'), Ok tt) ∧
    scheduled w' (keys_of ps) ∧ ids_canonical w'.
Proof.
  intros Hp. unfold reload, se_bind, on_world, on_sched. cbn.
  destruct (reload_processes_spec ps (set_owned (Some ps) s.1, ap_remove_all_jobs s.2) Hp)
    as (w' & -> & Ho & Hn). simpl in *. rewrite remove_all_law in Ho.
  exists w'. split; [done|]. split.
  - intros k Hk. split.
    + intros [j Hj]. destruct (decide (id_of k ∈ id_of <$> keys_of ps)) as [Hin|Hni].
      * apply list_elem_of_fmap in Hin as (k' & E & Hk'). by rewrite (id_of_inj k k') by auto.
      * by rewrite Ho, lookup_empty in Hj.
    + intros Hin. destruct (Hn k Hin) as [next ->]. eauto.
  - intros id j Hj. destruct (decide (id ∈ id_of <$> keys_of ps)) as [Hin|Hni].
    + apply list_elem_of_fmap in Hin as (k & -> & Hk). destruct (Hn k Hk) as [next Hx].
      rewrite Hj in Hx. injection Hx as ->. right. exists k. auto.
    + by rewrite Ho, lookup_empty in Hj.
Qed.
End Stable.

(** ** Properties *)
Section SchedulerProperties.
Context {W : Type} `{!Backend W, !BackendLaws W, !SetIter} (settings : Settings).

Lemma reconcile_owned p ps (s : Sched * W) :
  s_owned_processes s.1 = Some (p :: ps) →
  reconcile settings s =
    if s_paused s.1 || negb (s_running s.1) then (s, Ok false)
    else match desired_keys (p :: ps) s with
         | (s1, Ok D) => apply_delta D (_current_interval_jobs s1.2) s1
         | (s1, Err e) => (s1, Err e)
         end.
Proof.
  intros Ho. unfold reconcile, _processes_to_schedule. unfold se_bind, se_gets. simpl.
  destruct (s_paused s.1 || negb (s_running s.1)); [done|]. simpl. by rewrite Ho.
Qed.

(** A job id reads back as its process and interval, also when the process name has
    dashes, for a non-negative interval and a non-empty name of one line.  The id of
    a negative interval reads back as another process with the opposite interval,
    so [reconcile] never recognises that job. *)
Theorem job_id_roundtrip p i :
  id_process p →
  ((0 ≤ i)%Z → parse_job_id (job_id p i) = Some (p, i)) ∧
  ((i < 0)%Z → parse_job_id (job_id p i) = Some (p +:+ "-", (- i)%Z)).
Proof.
  intros Hp. split; [by apply parse_job_id_print|]. intros Hi.
  assert (job_id p i = job_id (p +:+ "-") (- i)) as ->.
  { unfold job_id. f_equal. rewrite str_app_assoc. f_equal.
    destruct i as [|q|q]; [lia|lia|]. done. }
  apply parse_job_id_print; [|simpl; lia]. destruct Hp as [Hne Hnl]. split.
  - by destruct p.
  - by rewrite has_char_snoc, Hnl.
Qed.

(** C24: A reconcile that reads its wanted keys ends with exactly the analysis jobs of
    those keys; jobs that were already wanted keep their record (their next run
    included), jobs that are no analysis are not touched; it reports a change iff
    the key set differed, and otherwise does nothing.  A paused or stopped
    scheduler does nothing. *)
Theorem reconcile_spec ps (s s1 : Sched * W) D :
  s_owned_processes s.1 = Some ps → ps ≠ [] →
  desired_keys ps s = (s1, Ok D) → ids_canonical s.2 → (∀ k, k ∈ D → proper k) →
  if s_paused s.1 || negb (s_running s.1) then reconcile settings s = (s, Ok false)
  else ∃ w' b, reconcile settings s = ((s.1, w'), Ok b) ∧
    scheduled w' D ∧ ids_canonical w' ∧
    (∀ id j, ap_jobs s.2 !! id = Some j → kept D id → ap_jobs w' !! id = Some j) ∧
    (b = false ↔ scheduled s.2 D) ∧ (b = false → w' = s1.2).
Proof.
  intros Ho Hne Hd Hc HD. destruct ps as [|p ps]; [done|].
  rewrite (reconcile_owned p ps) by done. destruct (s_paused s.1 || negb (s_running s.1)); [done|].
  rewrite Hd.
  apply desired_keys_jobs in Hd as [Hj Hs].
  assert (ids_canonical s1.2) as Hc1 by (unfold ids_canonical; by rewrite Hj).
  destruct (apply_delta_spec D s1 Hc1 HD) as (w' & b & -> & Hsch & Hcan & Hk & Hb & Hb').
  exists w', b. rewrite Hs. unfold scheduled in *. rewrite Hj in Hk, Hb. by split_and!.
Qed.

(** [reload] and [reconcile] agree: under intervals that do not change, a reload
    registers exactly the wanted keys of the given processes, and a reconcile right
    after it changes no job. *)
Theorem reload_reconcile_agree ivs p ps (s : Sched * W) :
  stable_intervals ivs → (∀ k, k ∈ keys_of ivs (p :: ps) → proper k) →
  ∃ w', reload settings (Some (p :: ps)) s
          = ((set_owned (Some (p :: ps)) s.1, w'), Ok tt) ∧
    scheduled w' (keys_of ivs (p :: ps)) ∧
    ∃ w'', reconcile settings (set_owned (Some (p :: ps)) s.1, w')
             = ((set_owned (Some (p :: ps)) s.1, w''), Ok false) ∧
           ap_jobs w'' = ap_jobs w'.
Proof.
  intros Hst Hp. destruct (reload_spec settings ivs Hst (p :: ps) s Hp) as (w' & Hr & Hs & Hc).
  exists w'. split; [done|]. split; [done|].
  set (s' := set_owned (Some (p :: ps)) s.1).
  rewrite (reconcile_owned p ps) by done. destruct (s_paused _ || negb _); [by exists w'|].
  destruct (desired_keys_stable ivs Hst (p :: ps) (s', w')) as (w1 & -> & Hj). simpl in Hj.
  assert (ids_canonical w1) as Hc1 by (unfold ids_canonical; by rewrite Hj).
  destruct (apply_delta_spec (keys_of ivs (p :: ps)) (s', w1) Hc1 Hp)
    as (w2 & b & Ha & _ & _ & _ & Hb & Hb').
  assert (b = false) as ->.
  { apply Hb. unfold scheduled. simpl. by rewrite Hj. }
  rewrite (Hb' eq_refl) in Ha. exists w1. by split.
Qed.

(** The job wrapper lets nothing but a cancellation out: a paused scheduler runs no
    job; a job that ends or fails is counted once, with its reason; and the task is
    tracked while it runs and not any more afterwards. *)
Theorem job_wrapper_contains task process job (s : Sched * W) :
  let '(s', r) := _job_wrapper task process job s in
  if s_paused s.1 then (s', r) = (s, Ok tt)
  else
    let '(sj, rj) := job (set_running_jobs (task :: s_running_jobs s.1) s.1, s.2) in
    task ∉ s_running_jobs s'.1 ∧
    (∀ t, t ≠ task → t ∈ s_running_jobs s'.1 ↔ t ∈ s_running_jobs sj.1) ∧
    s'.2 = sj.2 ∧
    match rj with
    | Err JobCancelled => r = Err JobCancelled ∧ s_job_total s'.1 = s_job_total sj.1
    | Ok _ => r = Ok tt ∧ s_job_total s'.1 = s_job_total sj.1 ++ [(process, "success", "")]
    | Err e => r = Ok tt ∧ s_job_total s'.1
                 = s_job_total sj.1 ++ [(process, "failure", _classify_failure_reason e)]
    end.
Proof.
  unfold _job_wrapper. destruct (s_paused s.1); [done|].
  destruct (job _) as [sj [[]|[]]]; simpl; (split; [|split]);
    try (rewrite list_elem_of_filter; naive_solver);
    try (intros t Ht; rewrite list_elem_of_filter; naive_solver); by split.
Qed.
End SchedulerProperties.

(** ** A backend in memory *)
Record MemSched := mkMemSched
  { ms_jobs : gmap string Job; ms_now : Z; ms_running : bool }.

Definition ms_set (jobs : gmap string Job) (w : MemSched) : MemSched :=
  mkMemSched jobs (ms_now w + 1) (ms_running w).

Definition mem_backend (ivs : string → list Z) : Backend MemSched := {|
  ap_jobs := ms_jobs;
  ap_get_jobs w := elements (dom (ms_jobs w));
  ap_remove_all_jobs := ms_set ∅;
  ap_remove_job id w :=
    match ms_jobs w !! id with
    | Some _ => (ms_set (delete id (ms_jobs w)) w, Ok tt)
    | None => (w, Err (JobLookupError id))
    end;
  ap_add_job id k w := ms_set (<[id := mkJob k (ms_now w + k.2 * 60)]> (ms_jobs w)) w;
  ap_running := ms_running;
  ap_start w := mkMemSched (ms_jobs w) (ms_now w) true;
  ap_pause w := w;
  ap_resume w := w;
  ap_shutdown w := mkMemSched (ms_jobs w) (ms_now w) false;
  get_scheduling_intervals p w := (w, Ok (ivs p));
  get_distinct_processes w := (w, Ok []);
  wait_timeout ts w := (w, ts) |}.

Lemma mem_backend_laws ivs : BackendLaws MemSched (H := mem_backend ivs).
Proof.
  split; simpl; try done.
  - intros id w [j Hj]. by rewrite Hj.
  - intros id k w. eauto.
Qed.

#[local] Existing Instance set_iter_id.

Definition ex_intervals (p : string) : list Z := if decide (p = "PHOTO-1") then [5; 30]%Z else [].
Definition ex_sched : Sched * MemSched :=
  (mkSched [] false true (Some ["PHOTO-1"]) false [] [],
   mkMemSched {["analysis-PHOTO-1-5m" := mkJob ("PHOTO-1", 5%Z) 77;
                "analysis-ETCH-10m" := mkJob ("ETCH", 10%Z) 78]} 0 true).
#[local] Instance ex_backend : Backend MemSched := mem_backend ex_intervals.
#[local] Instance ex_backend_laws : BackendLaws MemSched := mem_backend_laws ex_intervals.

Lemma job_id_roundtrip_witness :
  parse_job_id "analysis-PHOTO-1-30m" = Some ("PHOTO-1", 30%Z) ∧
  parse_job_id (job_id "ETCH" (-5)) = Some ("ETCH-", 5%Z).
Proof.
  split.
  - apply (job_id_roundtrip "PHOTO-1" 30); [by split|lia].
  - apply (job_id_roundtrip "ETCH" (-5)); [by split|lia].
Defined.

Lemma ex_proper k : k ∈ [("PHOTO-1", 5%Z); ("PHOTO-1", 30%Z)] → proper k.
Proof. rewrite !elem_of_cons. intros [->|[->|[]%elem_of_nil]]; (split; [by split|simpl; lia]). Qed.

Definition ex_settings : Settings := mkSettings false [] 60.

Lemma reconcile_spec_witness :
  let w' := (reconcile ex_settings ex_sched).1.2 in
  (reconcile ex_settings ex_sched).2 = Ok true ∧
  scheduled w' [("PHOTO-1", 5%Z); ("PHOTO-1", 30%Z)] ∧
  ms_jobs w' !! "analysis-PHOTO-1-5m" = Some (mkJob ("PHOTO-1", 5%Z) 77).
Proof.
  intros w'.
  assert (ids_canonical ex_sched.2) as Hc.
  { intros id j Hj. right. simpl in Hj. rewrite lookup_insert_Some in Hj.
    destruct Hj as [[<- <-]|[_ [<- <-]%lookup_singleton_Some]].
    - exists ("PHOTO-1", 5%Z). split; [split; [by split|simpl; lia]|by split].
    - exists ("ETCH", 10%Z). split; [split; [by split|simpl; lia]|by split]. }
  pose proof (reconcile_spec ex_settings ["PHOTO-1"] ex_sched ex_sched _ eq_refl
    ltac:(discriminate) eq_refl Hc ex_proper) as (w1 & b & Hr & Hs & _ & Hk & _).
  unfold w'. rewrite Hr. split; [|split; [exact Hs|]].
  - assert ((reconcile ex_settings ex_sched).2 = Ok true) as Hx by (vm_compute; reflexivity).
    rewrite Hr in Hx. exact Hx.
  - apply Hk; [reflexivity|]. vm_compute. left.
Defined.

Lemma reload_reconcile_agree_witness :
  ∃ w', reload ex_settings (Some ["PHOTO-1"]) ex_sched
          = ((set_owned (Some ["PHOTO-1"]) ex_sched.1, w'), Ok tt) ∧
        scheduled w' [("PHOTO-1", 5%Z); ("PHOTO-1", 30%Z)].
Proof.
  assert (stable_intervals ex_intervals) as Hst by by intros p w.
  destruct (reload_reconcile_agree ex_settings ex_intervals "PHOTO-1" [] ex_sched Hst ex_proper)
    as (w' & Hr & Hs & _).
  exists w'. split; [exact Hr|exact Hs].
Defined.
