(* ===== verification/Cadence.v ===== *)
(** * The scheduler over the stored profiles ([src/scheduler/jobs.py],
    [src/db/repository.py])

    The scheduler is verified against the class [Backend]; here its repository half is
    the profile and equipment repositories themselves, over any job store.  The cadence
    of a process is then a function of the stored documents: [reconcile] leaves a job
    for every interval at which some equipment has an active rule, and no other. *)
From stdpp Require Import base list sets strings gmap.
From Stdlib Require Import ZArith Lia.
From S2P Require Import Prelude PyNum PyStr FactCatalog Models Cache Repository Scheduler.
Local Open Scope se_scope.

(** [_classify_failure_reason] and the callers tell only a database that cannot be reached
    apart. *)
Definition sched_exn (e : RepoError) : SchedExn :=
  match e with MongoUnavailableError _ => MongoUnavailable | _ => OtherExn end.

Section Cadence.
Context {A W C : Type} `{!Backend A, !Collection W, !EqpCollection W}.
Context `{!TTLCache C MonitorProfile, !SetIter} (others : W → W).

(** The job store of [A], and the repositories over [W] and the resolve cache. *)
#[local] Instance repo_backend : Backend (A * (W * C)) := {
  ap_jobs s := ap_jobs s.1;
  ap_get_jobs s := ap_get_jobs s.1;
  ap_remove_all_jobs s := (ap_remove_all_jobs s.1, s.2);
  ap_remove_job id s := let '(a, r) := ap_remove_job id s.1 in ((a, s.2), r);
  ap_add_job id k s := (ap_add_job id k s.1, s.2);
  ap_running s := ap_running s.1;
  ap_start s := (ap_start s.1, s.2);
  ap_pause s := (ap_pause s.1, s.2);
  ap_resume s := (ap_resume s.1, s.2);
  ap_shutdown s := (ap_shutdown s.1, s.2);
  get_scheduling_intervals p s :=
    let '(x, r) := Repository.get_scheduling_intervals others p s.2 in
    ((s.1, x), match r with Ok l => Ok l | Err e => Err (sched_exn e) end);
  get_distinct_processes s :=
    let '(w, r) := Repository.get_distinct_processes s.2.1 in
    ((s.1, (w, s.2.2)), match r with Ok l => Ok l | Err e => Err (sched_exn e) end);
  wait_timeout ts s := let '(a, r) := wait_timeout ts s.1 in ((a, s.2), r);
}.

#[local] Instance repo_backend_laws `{!BackendLaws A} : BackendLaws (A * (W * C)).
Proof.
  split; simpl.
  - intros [a x]. apply get_jobs_law.
  - intros [a x]. apply remove_all_law.
  - intros id [a x] Hid. destruct (remove_job_law id a Hid) as [Hr Hj]. cbn [fst snd].
    destruct (ap_remove_job id a) as [a' r]. simpl in *. subst r. split; [reflexivity|exact Hj].
  - intros id k [a x]. apply add_job_law.
  - intros p [a x]. simpl. by destruct (Repository.get_scheduling_intervals _ _ _).
  - intros [a [w c]]. simpl. by destruct (Repository.get_distinct_processes _).
  - intros [a x]. apply pause_law.
  - intros [a x]. apply resume_law.
Qed.

Context `{!BackendLaws A} (docs : W → list Doc) `{!CollectionLaws W docs}.
Notation St := (Sched * (A * (W * C)))%type.
Notation stored s := (docs s.2.2.1).

(** What reading the intervals and moving jobs leaves alone. *)
Definition same_stored (s0 s : St) : Prop := s.1 = s0.1 ∧ stored s = stored s0.

Lemma stored_intervals s0 p :
  alone docs others → sm_keeps (same_stored s0) (lift (get_scheduling_intervals p)).
Proof.
  intros Hal. apply sm_keeps_lift. intros s [E Hd]. split; [done|]. rewrite <-Hd. simpl.
  pose proof (scheduling_intervals_docs docs others p s.2.2 Hal) as Hs.
  by destruct (Repository.get_scheduling_intervals _ _ _).
Qed.

Lemma stored_desired s0 ps : alone docs others → sm_keeps (same_stored s0) (desired_keys ps).
Proof.
  intros Hal. induction ps as [|p ps IH]; simpl; [apply sm_keeps_ret|].
  apply sm_keeps_bind; [by apply stored_intervals|auto with sm_keeps].
Qed.

Lemma stored_jobs s0 (f : A → A) :
  sm_keeps (same_stored s0) (on_world (λ w : A * (W * C), (f w.1, w.2))).
Proof. by apply sm_keeps_world. Qed.

Lemma stored_delta s0 D cur : sm_keeps (same_stored s0) (apply_delta D cur).
Proof.
  unfold apply_delta. case_decide; [apply sm_keeps_ret|].
  apply sm_keeps_bind; [apply sm_keeps_iter; intros k _|intros _].
  - case_match; [|apply sm_keeps_ret]. apply sm_keeps_lift. intros t [Et Hd]. simpl.
    by destruct (ap_remove_job _ t.2.1).
  - apply sm_keeps_bind; [apply sm_keeps_iter; intros k _|intros _; apply sm_keeps_ret].
    apply (stored_jobs s0 (ap_add_job (job_id k.1 k.2) k)).
Qed.

Lemma desired_asked ps (s s' : St) D :
  alone docs others → desired_keys ps s = (s', Ok D) →
  ∀ k, k ∈ D ↔ k.1 ∈ ps ∧ asked_by (stored s) k.1 k.2.
Proof.
  intros Hal. revert s s' D. induction ps as [|p ps IH]; intros s s' D.
  { intros [= _ <-] k. rewrite !elem_of_nil. naive_solver. }
  cbn [desired_keys]. intros (s1 & ivs & Hi & (s2 & ks & Hk & [= _ <-])%se_bind_Ok)%se_bind_Ok.
  destruct (stored_intervals s p Hal s) as [_ Hd]; [done|]. rewrite Hi in Hd. cbn [fst] in Hd.
  unfold lift in Hi. simpl in Hi.
  destruct (Repository.get_scheduling_intervals others p s.2.2) as [x r] eqn:E.
  injection Hi as <- Hr. destruct r as [l|]; [|done]. injection Hr as ->.
  apply (scheduling_intervals_asked docs) in E as [_ Hivs]. specialize (IH _ _ _ Hk).
  rewrite Hd in IH. intros [q i]. rewrite elem_of_app, IH, elem_of_cons, list_elem_of_fmap. simpl.
  split.
  - intros [(j & [= -> ->] & Hj%Hivs)|[? ?]]; auto.
  - intros [[->|?] ?]; [|auto]. left. exists i. split; [done|by apply Hivs].
Qed.

(** The keys the stored documents want of the processes [ps]. *)
Definition wanted (ps : list string) (s : St) (k : Key) : Prop :=
  k.1 ∈ ps ∧ asked_by (stored s) k.1 k.2.

(** A reconcile that returns leaves exactly the wanted analysis jobs. *)
Lemma reconcile_wanted settings ps (s s' : St) b :
  alone docs others → s_owned_processes s.1 = Some ps → ps ≠ [] →
  s_paused s.1 = false → s_running s.1 = true → ids_canonical s.2 →
  (∀ k, wanted ps s k → proper k) →
  reconcile settings s = (s', Ok b) →
  same_stored s s' ∧ ids_canonical s'.2 ∧
  ∀ k, proper k → is_Some (ap_jobs s'.2 !! id_of k) ↔ wanted ps s k.
Proof.
  intros Hal Ho Hne Hp Hr Hcan Hps. destruct ps as [|p0 ps0]; [done|].
  set (ps := p0 :: ps0) in *. rewrite (reconcile_owned settings p0 ps0) by done.
  rewrite Hp, Hr. cbn [negb orb]. fold ps.
  pose proof (stored_desired s ps Hal s) as Hs1.
  destruct (desired_keys ps s) as [s1 [D|e]] eqn:Ed; [|done].
  assert (∀ k, k ∈ D ↔ wanted ps s k) as HD by by apply (desired_asked ps s s1 D).
  apply desired_keys_jobs in Ed as [Hj _].
  assert (ids_canonical s1.2) as Hc1 by (unfold ids_canonical; by rewrite Hj).
  pose proof (stored_delta s D (_current_interval_jobs s1.2) s1) as Hs'.
  destruct (apply_delta_spec D s1 Hc1) as (w' & b' & E & Hsch & Hcw & _);
    [intros k Hk; by apply Hps, HD|].
  rewrite E in *. intros [= <- _]. split; [by apply Hs', Hs1|]. split; [done|].
  intros k Hk. rewrite <-HD. by apply Hsch.
Qed.

(** A reload loads wanted keys only, however it ends. *)
Lemma reload_process_canonical s0 p :
  alone docs others → (∀ i, asked_by (stored s0) p i → proper (p, i)) →
  sm_keeps (λ s, same_stored s0 s ∧ ids_canonical s.2) (reload_process p).
Proof.
  intros Hal Hp s [Hs Hc]. unfold reload_process, se_bind.
  pose proof (stored_intervals s0 p Hal s Hs) as Hs1.
  pose proof (intervals_law p s.2) as Hj. unfold lift in *. simpl in *.
  destruct (Repository.get_scheduling_intervals others p s.2.2) as [x r] eqn:E. simpl in *.
  assert (ids_canonical (s.2.1, x)) as Hc1 by exact Hc.
  destruct r as [l|e]; [|done].
  apply (scheduling_intervals_asked docs) in E as [_ Hl].
  apply (sm_keeps_iter (λ s, same_stored s0 s ∧ ids_canonical s.2)); [|done].
  intros i Hi t [Ht Hct]. split; [exact Ht|]. apply (canonical_add (p, i)); [|done].
  apply Hp. destruct Hs as [_ <-]. by apply Hl.
Qed.

Lemma reload_canonical settings ps (s : St) :
  alone docs others → (∀ k, wanted ps s k → proper k) →
  stored (reload settings (Some ps) s).1 = stored s ∧
  ids_canonical (reload settings (Some ps) s).1.2.
Proof.
  intros Hal Hp. rewrite reload_eq.
  set (s1 := (set_owned (Some ps) s.1, ap_remove_all_jobs s.2)).
  assert (stored s1 = stored s) as <- by done.
  destruct (sm_keeps_iter (λ t, same_stored s1 t ∧ ids_canonical t.2) reload_process ps)
    with s1 as [[_ Hd] Hc]; [..|done].
  - intros p Hin. apply reload_process_canonical; [done|]. intros i Hi. by apply Hp.
  - split; [done|]. intros id j Hj. pose proof (remove_all_law s.2) as E.
    unfold s1 in Hj. cbn [snd] in Hj. rewrite E in Hj. by rewrite lookup_empty in Hj.
Qed.

(** A job of a canonical set is found under its key. *)
Lemma canonical_job (w : A * (W * C)) id j :
  ids_canonical w → ap_jobs w !! id = Some j → is_Some (parse_job_id id) →
  proper (j_key j) ∧ id = id_of (j_key j).
Proof.
  intros Hc Hj [k Hk]. destruct (Hc _ _ Hj) as [Hx|(k' & Hk' & -> & ->)]; [congruence|done].
Qed.

(** C7: The cadence is complete and tight.  A reconcile that returns, of a running scheduler
    that owns processes, leaves a job for every owned process and every interval at
    which an enabled rule of the effective profile of some equipment of the process
    wants to run (however its overlays combine); and every analysis job it leaves is of
    an owned process and is asked for by an enabled rule of a stored document of that
    process.  Nobody writes documents during the reconcile; the names of the owned
    processes are proper and no stored interval is negative. *)
Theorem owned_rules_scheduled settings ps (s s' : St) b :
  alone docs others → s_owned_processes s.1 = Some ps → ps ≠ [] →
  s_paused s.1 = false → s_running s.1 = true → ids_canonical s.2 →
  (∀ p, p ∈ ps → id_process p) → (∀ p i, asked_by (stored s) p i → (0 ≤ i)%Z) →
  reconcile settings s = (s', Ok b) →
  (∀ p m e sc s1 l now eff r, p ∈ ps → docs sc.1 = stored s →
    collect_scope_docs (C := C) others p m e sc = (s1, Ok l) →
    fold_profiles now l (mkScope p m e) = Ok eff → r ∈ p_rules eff → r_enabled r = true →
    ∃ j, ap_jobs s'.2 !! job_id p (r_interval_minutes r) = Some j
    ∧ j_key j = (p, r_interval_minutes r)) ∧
  (∀ id j, ap_jobs s'.2 !! id = Some j → is_Some (parse_job_id id) →
    (j_key j).1 ∈ ps ∧ asked_by (stored s) (j_key j).1 (j_key j).2).
Proof.
  intros Hal Ho Hne Hp Hr Hcan Hps Hnn Hrec.
  destruct (reconcile_wanted settings ps s s' b Hal Ho Hne Hp Hr Hcan) as (_ & Hc & Hw);
    [by intros k [? ?]; split; [apply Hps|eapply Hnn]|done|]. split.
  - intros p m e sc s2 l now eff r Hin Hds Hcol Hf Hru He.
    assert (asked_by (stored s) p (r_interval_minutes r)) as Ha
      by (rewrite <-Hds; by eapply (active_rule_asked docs others)).
    set (k := (p, r_interval_minutes r)).
    assert (proper k) as Hk by (split; [by apply Hps|by eapply Hnn]).
    destruct (proj2 (Hw k Hk)) as [j Hj]; [done|]. exists j. split; [done|].
    destruct (canonical_job _ _ _ Hc Hj) as [Hkj Hid]; [rewrite parse_id_of by done; eauto|].
    symmetry. by apply id_of_inj.
  - intros id j Hj Hid. destruct (canonical_job _ _ _ Hc Hj Hid) as [Hk ->].
    apply Hw; [done|eauto].
Qed.
End Cadence.

(** ** Witness: the database of [Repository.ex_db] behind an empty job store *)
#[local] Existing Instance set_iter_id.
#[local] Instance ex_cache : TTLCache (MapCache MonitorProfile) MonitorProfile :=
  map_cache_ops 300.
#[local] Instance ex_jobs : Backend MemSched := mem_backend (λ _, []).
#[local] Instance ex_jobs_laws : BackendLaws MemSched := mem_backend_laws (λ _, []).
#[local] Instance ex_eqps : EqpCollection MemDb := {
  eqp_distinct_process f w := (w, Ok []);
  eqp_count f w := (w, Ok 0);
  eqp_find f w := (w, Ok []);
}.

Definition ex_state : Sched * (MemSched * (MemDb * MapCache MonitorProfile)) :=
  (mkSched [] false true (Some ["ETCH"]) false [] [], (mkMemSched ∅ 0 true, ex_repo)).
Definition ex_reconcile :=
  reconcile (Backend0 := repo_backend (A := MemSched) (W := MemDb) (C := MapCache MonitorProfile) id)
    ex_settings ex_state.

Lemma ex_asked p i : asked_by (md_docs ex_db) p i → i = 5%Z.
Proof.
  intros (d & r & Hd & _ & Hr & _ & <-).
  assert (Forall (λ d, Forall (λ r, r_interval_minutes r = 5%Z) (default [] (d_rules d)))
    (md_docs ex_db)) as Hall by (repeat constructor).
  rewrite Forall_forall in Hall. specialize (Hall d Hd). rewrite Forall_forall in Hall. auto.
Qed.

(** The rule [b], which the equipment's overlay enables over a disabled base, gets its job. *)
Lemma owned_rules_scheduled_witness :
  ∃ s' b, ex_reconcile = (s', Ok b) ∧
  ∃ j, ms_jobs s'.2.1 !! "analysis-ETCH-5m" = Some j ∧ j_key j = ("ETCH", 5%Z).
Proof.
  assert (∃ s' b, ex_reconcile = (s', Ok b)) as (s' & b & Hr)
    by (eexists _, _; vm_compute; reflexivity).
  exists s', b. split; [exact Hr|].
  assert (ex_rule "b" true ∈ p_rules ex_folded) as Hb
    by (apply (bool_decide_unpack _); vm_compute; exact I).
  assert (alone md_docs id) as Hal by (intros w; reflexivity).
  assert (ids_canonical (Backend0 := repo_backend (A := MemSched) (W := MemDb)
    (C := MapCache MonitorProfile) id) ex_state.2) as Hcan by (intros id j Hj; done).
  refine (proj1 (owned_rules_scheduled (A := MemSched) id md_docs ex_settings ["ETCH"] ex_state
    s' b Hal eq_refl ltac:(discriminate) eq_refl eq_refl Hcan _ _ Hr)
    "ETCH" "M1" "E1" ex_repo ex_repo ex_collected 0%Z ex_folded (ex_rule "b" true)
    ltac:(left) eq_refl _ _ Hb eq_refl).
  - intros p ->%list_elem_of_singleton. by split.
  - intros p i ->%ex_asked. discriminate.
  - vm_compute. reflexivity.
  - vm_compute. reflexivity.
Defined.
