(* ===== verification/Lock.v ===== *)
(** * The two-tier analysis lock ([src/distributed/lock.py])

    Instances and their tasks call [ZKAnalysisLock.acquire]; what the asyncio lock,
    the executor thread and ZooKeeper do to them is a step relation.  The lock node
    of a process is ephemeral: it disappears with its owner's session. *)
From stdpp Require Import base list strings gmap fin_maps relations.
From Stdlib Require Import Lia.
From S2P Require Import Prelude.

(** An instance and one of its tasks. *)
Notation Caller := (nat * nat)%type.

(** Where a call [acquire(process)] of a task is. *)
Inductive Phase : Type :=
| WaitLocal (process : string)
(** holds the asyncio lock, the executor thread is in [kazoo_lock.acquire] *)
| WaitZK (process : string)
(** in the body of the context manager; the session the lock was taken in *)
| Critical (process : string) (session : nat).

(** How a call ends before its body. *)
Inductive AcquireError : Set := LockAcquisitionTimeout | AcquireRaised.

Record LockState := mkLockState {
  l_phase : gmap Caller Phase;
  (** [_asyncio_locks]: the holders *)
  l_local : gmap (nat * string) nat;
  (** the owner of the lock node of each process *)
  l_zk : gmap string Caller;
  (** contenders left by cancelled calls: their thread is still in [acquire] *)
  l_orphans : list (Caller * string);
  (** the number of sessions each instance has lost *)
  l_session : nat → nat;
}.

Definition Lock_init : LockState := mkLockState ∅ ∅ ∅ [] (λ _, 0).

Definition call_acquire (c : Caller) (p : string) (s : LockState) : LockState :=
  mkLockState (<[c := WaitLocal p]> (l_phase s)) (l_local s) (l_zk s) (l_orphans s) (l_session s).

(** [async with self._get_asyncio_lock(process)] *)
Definition take_local (c : Caller) (p : string) (s : LockState) : LockState :=
  mkLockState (<[c := WaitZK p]> (l_phase s)) (<[(c.1, p) := c.2]> (l_local s)) (l_zk s)
    (l_orphans s) (l_session s).

(** [kazoo_lock.acquire] returns true. *)
Definition take_zk (c : Caller) (p : string) (s : LockState) : LockState :=
  mkLockState (<[c := Critical p (l_session s c.1)]> (l_phase s)) (l_local s)
    (<[p := c]> (l_zk s)) (l_orphans s) (l_session s).

(** The call is over, and the asyncio lock released. *)
Definition leave (c : Caller) (p : string) (s : LockState) : LockState :=
  mkLockState (delete c (l_phase s)) (delete (c.1, p) (l_local s)) (l_zk s) (l_orphans s)
    (l_session s).

Definition add_orphan (c : Caller) (p : string) (s : LockState) : LockState :=
  mkLockState (l_phase s) (l_local s) (l_zk s) ((c, p) :: l_orphans s) (l_session s).

(** [kazoo_lock.release]: the node, if it is still this call's. *)
Definition release_zk (c : Caller) (p : string) (s : LockState) : LockState :=
  mkLockState (l_phase s) (l_local s)
    (if decide (l_zk s !! p = Some c) then delete p (l_zk s) else l_zk s)
    (l_orphans s) (l_session s).

(** The session of instance [i] expires: ZooKeeper removes its ephemeral nodes. *)
Definition expire (i : nat) (s : LockState) : LockState :=
  mkLockState (l_phase s) (l_local s) (filter (λ kv, kv.2.1 ≠ i) (l_zk s))
    (filter (λ o, o.1.1 ≠ i) (l_orphans s))
    (λ j, if decide (j = i) then S (l_session s j) else l_session s j).

(** The result a caller sees, with the step that gives it. *)
Inductive lock_step : LockState → option (Caller * (AcquireError + unit)) → LockState → Prop :=
| step_call c p s :
    l_phase s !! c = None → lock_step s None (call_acquire c p s)
| step_local c p s :
    l_phase s !! c = Some (WaitLocal p) → l_local s !! (c.1, p) = None →
    lock_step s None (take_local c p s)
| step_zk c p s :
    l_phase s !! c = Some (WaitZK p) → l_zk s !! p = None →
    lock_step s None (take_zk c p s)
(** not acquired in [timeout_sec], or [acquire] raises *)
| step_fail e c p s :
    l_phase s !! c = Some (WaitZK p) → lock_step s (Some (c, inl e)) (leave c p s)
(** cancelled while waiting for the asyncio lock *)
| step_cancel_local c p s :
    l_phase s !! c = Some (WaitLocal p) →
    lock_step s (Some (c, inl AcquireRaised))
      (mkLockState (delete c (l_phase s)) (l_local s) (l_zk s) (l_orphans s) (l_session s))
(** cancelled while the thread is in [acquire]: nobody will release *)
| step_cancel c p s :
    l_phase s !! c = Some (WaitZK p) →
    lock_step s (Some (c, inl AcquireRaised)) (add_orphan c p (leave c p s))
| step_orphan c p s :
    (c, p) ∈ l_orphans s → l_zk s !! p = None →
    lock_step s None
      (mkLockState (l_phase s) (l_local s) (<[p := c]> (l_zk s)) (l_orphans s) (l_session s))
(** the body is over: [release] works *)
| step_release c p n s :
    l_phase s !! c = Some (Critical p n) →
    lock_step s (Some (c, inr tt)) (leave c p (release_zk c p s))
(** ... or raises, which is swallowed *)
| step_release_failed c p n s :
    l_phase s !! c = Some (Critical p n) →
    lock_step s (Some (c, inr tt)) (leave c p s)
| step_expire i s : lock_step s None (expire i s).

Definition lock_reachable : LockState → Prop :=
  rtc (λ s s', ∃ r, lock_step s r s') Lock_init.

(** [NoOpZKLock.acquire]: the body just runs. *)
Definition noop_acquire {S E A} (process : string) (body : SE S E A) : SE S E A := body.

(** ** Invariant *)
Definition holds_local (ph : Phase) (p : string) : Prop :=
  match ph with
  | WaitLocal _ => False
  | WaitZK q | Critical q _ => q = p
  end.

Record lock_inv (s : LockState) : Prop := {
  inv_local : ∀ c ph p, l_phase s !! c = Some ph → holds_local ph p →
    l_local s !! (c.1, p) = Some c.2;
  inv_session : ∀ c p n, l_phase s !! c = Some (Critical p n) → n ≤ l_session s c.1;
  inv_zk : ∀ c p n, l_phase s !! c = Some (Critical p n) → n = l_session s c.1 →
    l_zk s !! p = Some c;
}.

Lemma lock_inv_init : lock_inv Lock_init.
Proof. split; simpl; intros c x p Hc || intros c p n Hc; by rewrite lookup_empty in Hc. Qed.

(** Two calls of one instance never hold the same asyncio lock. *)
Lemma local_unique s c c' ph ph' p :
  lock_inv s → l_phase s !! c = Some ph → l_phase s !! c' = Some ph' →
  holds_local ph p → holds_local ph' p → c.1 = c'.1 → c = c'.
Proof.
  intros Hs Hc Hc' Hp Hp' E. pose proof (inv_local s Hs c ph p Hc Hp) as H1.
  pose proof (inv_local s Hs c' ph' p Hc' Hp') as H2. rewrite E in H1.
  destruct c, c'; simpl in *. congruence.
Qed.

(** A call that leaves frees its own lock only. *)
Lemma inv_leave c ph p s :
  lock_inv s → l_phase s !! c = Some ph → holds_local ph p → lock_inv (leave c p s).
Proof.
  intros Hs Hc Hp. split; simpl.
  - intros c' ph' p' [Hne Hc']%lookup_delete_Some Hp'.
    rewrite lookup_delete_ne; [by eapply Hs|]. intros [= E1 E2]. subst p'.
    apply Hne. by eapply local_unique.
  - intros c' p' n [_ Hc']%lookup_delete_Some. by eapply Hs.
  - intros c' p' n [_ Hc']%lookup_delete_Some. by eapply Hs.
Qed.

Lemma lock_inv_step s r s' : lock_step s r s' → lock_inv s → lock_inv s'.
Proof.
  intros Hstep Hs. destruct Hstep.
  - (* call *)
    split; simpl; intros c0; intros * [[<- Hp]|[_ Hc]]%lookup_insert_Some;
      try (by subst || done); by eapply Hs.
  - (* asyncio lock *)
    split; simpl; intros c0; intros *; rewrite lookup_insert_Some.
    + intros [[<- <-]|[Hne Hc]] Hp; [rewrite <-Hp; apply lookup_insert_eq|].
      destruct (decide ((c.1, p) = (c0.1, p0))) as [[= E1 <-]|Hd].
      * pose proof (inv_local s Hs _ _ _ Hc Hp) as Hl. rewrite <-E1 in Hl. congruence.
      * rewrite lookup_insert_ne by done. by eapply Hs.
    + intros [[_ ?]|[_ Hc]]; [done|]. by eapply Hs.
    + intros [[_ ?]|[_ Hc]]; [done|]. by eapply Hs.
  - (* lock node *)
    split; simpl; intros c0; intros *; rewrite lookup_insert_Some.
    + intros [[<- <-]|[Hne Hc]] Hp; [|by eapply Hs]. by eapply (inv_local s Hs c (WaitZK p)).
    + intros [[<- [= <- <-]]|[_ Hc]]; [done|]. by eapply Hs.
    + intros [[<- [= <- <-]]|[Hne Hc]] Hn; [apply lookup_insert_eq|].
      pose proof (inv_zk s Hs _ _ _ Hc Hn) as Hz.
      rewrite lookup_insert_ne; [done|]. congruence.
  - by eapply inv_leave.
  - split; simpl; intros c0; intros * [_ Hc]%lookup_delete_Some; by eapply Hs.
  - assert (lock_inv (leave c p s)) as [? ? ?] by (by eapply inv_leave). by split.
  - split; simpl; [apply Hs|apply Hs|]. intros c0 p0 n Hc Hn.
    pose proof (inv_zk s Hs _ _ _ Hc Hn) as Hz. rewrite lookup_insert_ne; [done|]. congruence.
  - assert (lock_inv (leave c p s)) as [Hl He Hz] by (by eapply inv_leave).
    split; simpl; [exact Hl|exact He|]. intros c0 p0 n0 Hc0 Hn.
    pose proof (Hz _ _ _ Hc0 Hn) as Hx. simpl in Hx. case_decide as Hd; [|done].
    rewrite lookup_delete_ne; [done|]. intros <-. rewrite Hx in Hd. injection Hd as ->.
    simpl in Hc0. by rewrite lookup_delete_eq in Hc0.
  - by eapply inv_leave.
  - split; simpl.
    + apply Hs.
    + intros c p n Hc. pose proof (inv_session s Hs _ _ _ Hc). case_decide; lia.
    + intros c p n Hc Hn. pose proof (inv_session s Hs _ _ _ Hc). case_decide as Hd; [lia|].
      apply map_lookup_filter_Some. split; [by eapply Hs|done].
Qed.

Lemma reachable_inv s : lock_reachable s → lock_inv s.
Proof.
  intros Hr. unfold lock_reachable in Hr. pose proof lock_inv_init as H0.
  induction Hr as [|s1 s2 s3 [r Hstep] _ IH]; [done|]. eauto using lock_inv_step.
Qed.

(** ** Properties *)

(** Mutual exclusion: two calls that are in their bodies for one process are of
    different instances, and at least one of them has lost the session in which it
    took the lock; so without session loss there is at most one. *)
Theorem lock_mutual_exclusion s c c' p n n' :
  lock_reachable s → l_phase s !! c = Some (Critical p n) →
  l_phase s !! c' = Some (Critical p n') → c ≠ c' →
  c.1 ≠ c'.1 ∧ (n < l_session s c.1 ∨ n' < l_session s c'.1).
Proof.
  intros Hs%reachable_inv Hc Hc' Hne. split.
  - intros E. apply Hne. by eapply (local_unique s c c' _ _ p).
  - pose proof (inv_session s Hs _ _ _ Hc). pose proof (inv_session s Hs _ _ _ Hc').
    destruct (decide (n = l_session s c.1)) as [En|]; [|lia].
    destruct (decide (n' = l_session s c'.1)) as [En'|]; [|lia].
    pose proof (inv_zk s Hs _ _ _ Hc En) as Hz. pose proof (inv_zk s Hs _ _ _ Hc' En'). congruence.
Qed.

(** Two instances in the body for one process, the first after a session loss. *)
Definition ex_steps (l : list (LockState → LockState)) : LockState :=
  foldl (λ s f, f s) Lock_init l.

Definition ex_overlap : LockState :=
  ex_steps [call_acquire (1, 0) "ETCH"; take_local (1, 0) "ETCH"; take_zk (1, 0) "ETCH";
            expire 1;
            call_acquire (2, 0) "ETCH"; take_local (2, 0) "ETCH"; take_zk (2, 0) "ETCH"].

Lemma ex_overlap_reachable : lock_reachable ex_overlap.
Proof.
  unfold lock_reachable, ex_overlap, ex_steps. simpl.
  eapply rtc_l; [eexists; apply (step_call (1, 0) "ETCH"); reflexivity|].
  eapply rtc_l; [eexists; apply (step_local (1, 0) "ETCH"); reflexivity|].
  eapply rtc_l; [eexists; apply (step_zk (1, 0) "ETCH"); reflexivity|].
  eapply rtc_l; [eexists; apply (step_expire 1)|].
  eapply rtc_l; [eexists; apply (step_call (2, 0) "ETCH"); reflexivity|].
  eapply rtc_l; [eexists; apply (step_local (2, 0) "ETCH"); reflexivity|].
  eapply rtc_l; [eexists; apply (step_zk (2, 0) "ETCH"); reflexivity|].
  apply rtc_refl.
Qed.

Lemma lock_mutual_exclusion_witness :
  l_phase ex_overlap !! (1, 0) = Some (Critical "ETCH" 0) ∧
  l_phase ex_overlap !! (2, 0) = Some (Critical "ETCH" 0) ∧
  (0 < l_session ex_overlap 1 ∨ 0 < l_session ex_overlap 2).
Proof.
  split; [reflexivity|]. split; [reflexivity|].
  apply (lock_mutual_exclusion ex_overlap (1, 0) (2, 0) "ETCH" 0 0);
    [apply ex_overlap_reachable|reflexivity|reflexivity|discriminate].
Defined.
