(* ===== verification/Analyses.v ===== *)
(** * Concurrent analyses ([AnalysisEngine.run_analysis] of [src/analyzer/engine.py])

    [async with self._deps.zk_lock.acquire(process), self._es_semaphore:] around the tick:
    an analysis first holds the two-tier lock of its process ([Lock.v]) and then one of
    the slots of its instance's semaphore, and gives them back in the other order.  What
    happens inside of the tick is [Engine.v]. *)
From stdpp Require Import base list strings gmap relations.
From Stdlib Require Import Lia.
From S2P Require Import Prelude Lock.

(** [asyncio.Semaphore(3)] *)
Definition _es_semaphore : nat := 3.

(** The lock, and the tasks that have passed the semaphore. *)
Record Analyses := mkAnalyses { an_lock : LockState; an_active : list Caller }.

Definition Analyses_init : Analyses := mkAnalyses Lock_init [].

Definition active_of (i : nat) (s : Analyses) : list Caller :=
  filter (λ c, c.1 = i) (an_active s).

Inductive run_step : Analyses → Analyses → Prop :=
(** anything the lock does, except to a task inside of the [async with] *)
| run_lock s r l :
    lock_step (an_lock s) r l →
    (∀ c, c ∈ an_active s → l_phase l !! c = l_phase (an_lock s) !! c) →
    run_step s (mkAnalyses l (an_active s))
(** [await self._es_semaphore.acquire()] returns *)
| run_enter s c p n :
    l_phase (an_lock s) !! c = Some (Critical p n) → c ∉ an_active s →
    length (active_of c.1 s) < _es_semaphore →
    run_step s (mkAnalyses (an_lock s) (c :: an_active s))
(** the tick returned, raised or was cancelled *)
| run_exit s c l1 l2 :
    an_active s = l1 ++ c :: l2 →
    run_step s (mkAnalyses (an_lock s) (l1 ++ l2)).

Definition run_reachable : Analyses → Prop := rtc run_step Analyses_init.

(** A tick of [c] for process [p] is running, under a lock of its [n]-th session. *)
Definition analyses (s : Analyses) (c : Caller) (p : string) (n : nat) : Prop :=
  c ∈ an_active s ∧ l_phase (an_lock s) !! c = Some (Critical p n).

(** ** Invariant *)
Record run_inv (s : Analyses) : Prop := {
  run_lock_reachable : lock_reachable (an_lock s);
  run_NoDup : NoDup (an_active s);
  run_holds : ∀ c, c ∈ an_active s → ∃ p n, l_phase (an_lock s) !! c = Some (Critical p n);
  run_bound : ∀ i, length (active_of i s) ≤ _es_semaphore;
}.

Lemma run_inv_init : run_inv Analyses_init.
Proof.
  split; simpl; [apply rtc_refl|apply NoDup_nil_2|by intros c ?%elem_of_nil|].
  intros i. unfold active_of. simpl. lia.
Qed.

Lemma run_inv_step s s' : run_step s s' → run_inv s → run_inv s'.
Proof.
  intros Hstep [Hl Hnd Hh Hb]. destruct Hstep as [s r l Hr Hkeep|s c p n Hc Hn Hlt|s c l1 l2 E].
  - split; simpl; [eapply rtc_r; [exact Hl|eauto]|done| |apply Hb].
    intros c Hc. rewrite (Hkeep c Hc). by apply Hh.
  - split; simpl; [done|by apply NoDup_cons| |].
    + intros c' [->|Hc']%elem_of_cons; [eauto|by apply Hh].
    + intros i. unfold active_of in *. simpl. rewrite filter_cons.
      case_decide as Hi; [subst i; simpl; lia|apply Hb].
  - rewrite E in Hnd. split; simpl.
    + done.
    + apply NoDup_app in Hnd as (H1 & H2 & [_ H3]%NoDup_cons). apply NoDup_app.
      split_and!; [done| |done]. intros x Hx Hx'. by apply (H2 x Hx); right.
    + intros c' Hc'. apply Hh. rewrite E. set_solver.
    + intros i. specialize (Hb i). unfold active_of in *. rewrite E in Hb. simpl in *.
      rewrite filter_app, length_app in *. rewrite filter_cons in Hb.
      case_decide; simpl in Hb; lia.
Qed.

Lemma run_reachable_inv s : run_reachable s → run_inv s.
Proof.
  intros Hr. unfold run_reachable in Hr. pose proof run_inv_init as H0.
  induction Hr; eauto using run_inv_step.
Qed.

(** ** Property *)

(** C8: Whatever tasks and instances do, an instance runs at most three analyses at a time,
    and two analyses of one process are of different instances, at least one of which
    has lost the ZooKeeper session in which it took the lock: without session loss a
    process is analysed by one task only. *)
Theorem analyses_exclusive s :
  run_reachable s →
  (∀ i, length (active_of i s) ≤ 3) ∧
  ∀ c c' p n n', analyses s c p n → analyses s c' p n' → c ≠ c' →
    c.1 ≠ c'.1 ∧ (n < l_session (an_lock s) c.1 ∨ n' < l_session (an_lock s) c'.1).
Proof.
  intros [Hl _ _ Hb]%run_reachable_inv. split; [exact Hb|].
  intros c c' p n n' [_ Hc] [_ Hc'] Hne. by eapply lock_mutual_exclusion.
Qed.

(** Instance 1 loses its session during its tick, and instance 2 starts one. *)
Definition ex_analyses : Analyses := mkAnalyses ex_overlap [(2, 0); (1, 0)].

Lemma run_lock_steps l l' s :
  an_active s = [] → an_lock s = l → rtc (λ l l', ∃ r, lock_step l r l') l l' →
  rtc run_step s (mkAnalyses l' []).
Proof.
  intros Ha Hl Hr. revert s Ha Hl. induction Hr as [l|l1 l2 l3 [r Hs] _ IH]; intros [lk ac] Ha Hl;
    simpl in *; subst; [apply rtc_refl|].
  eapply rtc_l; [by apply (run_lock _ r l2); [done|]; intros c ?%elem_of_nil|]. by apply IH.
Qed.

Lemma ex_analyses_reachable : run_reachable ex_analyses.
Proof.
  unfold run_reachable, ex_analyses.
  etrans; [by apply (run_lock_steps Lock_init ex_overlap), ex_overlap_reachable|].
  eapply rtc_l; [by apply (run_enter _ (1, 0) "ETCH" 0); [|apply not_elem_of_nil|unfold _es_semaphore; simpl; lia]|].
  eapply rtc_l; [|apply rtc_refl].
  apply (run_enter (mkAnalyses ex_overlap [(1, 0)]) (2, 0) "ETCH" 0); [done| |unfold _es_semaphore; simpl; lia].
  simpl. by intros [=]%list_elem_of_singleton.
Qed.

Lemma analyses_exclusive_witness :
  length (active_of 1 ex_analyses) = 1 ∧ analyses ex_analyses (1, 0) "ETCH" 0 ∧
  analyses ex_analyses (2, 0) "ETCH" 0 ∧
  (0 < l_session (an_lock ex_analyses) 1 ∨ 0 < l_session (an_lock ex_analyses) 2).
Proof.
  assert (analyses ex_analyses (1, 0) "ETCH" 0) as H1 by (split; [right; left|reflexivity]).
  assert (analyses ex_analyses (2, 0) "ETCH" 0) as H2 by (split; [left|reflexivity]).
  split; [reflexivity|]. split; [exact H1|]. split; [exact H2|].
  apply (proj2 (analyses_exclusive ex_analyses ex_analyses_reachable) (1, 0) (2, 0) "ETCH" 0 0 H1 H2).
  discriminate.
Defined.
