(* ===== verification/LeaderElection.v ===== *)
(** * Leader election with a persistent epoch ([src/distributed/leader_election.py])

    Every instance runs kazoo's [Election] in a thread of its own; whoever holds the
    election lock is in [_on_become_leader_sync].  The lock is ephemeral: when the
    holder's session is lost another instance can be elected, while the old one
    still has its flag until [restart_after_loss].  [step lossy] is the step
    relation; [lossy] says whether a session may be lost in the middle of the
    callback, between reading the epoch node and writing it. *)
From stdpp Require Import base list gmap relations sorting.
From Stdlib Require Import ZArith Lia.
From S2P Require Import Prelude.

Inductive EPhase : Type :=
| NotRunning
(** in [election.run], contending *)
| Contending
(** in the callback, before [kazoo.get] *)
| Elected
(** after it, with the epoch read *)
| GotEpoch (current : Z)
(** in [_stop_event.wait()] *)
| Leading.

Record LeaderElection := mkElection {
  e_phase : EPhase;
  _is_leader : bool;
  _epoch : Z;
  _stopped : bool;
}.

Definition Election_init : LeaderElection := mkElection NotRunning false 0 false.

Record Cluster := mkCluster {
  (** the data of the epoch node; [None] is the empty node of [ensure_path] *)
  epoch_node : option Z;
  (** who holds the election lock *)
  elected : option nat;
  instances : gmap nat LeaderElection;
  (** the [on_acquired] callbacks made, the newest first *)
  acquired : list (nat * Z);
}.

Definition Cluster_init : Cluster := mkCluster None None ∅ [].

Definition get_instance (i : nat) (c : Cluster) : LeaderElection :=
  default Election_init (instances c !! i).

Definition set_instance (i : nat) (e : LeaderElection) (c : Cluster) : Cluster :=
  mkCluster (epoch_node c) (elected c) (<[i := e]> (instances c)) (acquired c).

Definition set_phase (ph : EPhase) (e : LeaderElection) : LeaderElection :=
  mkElection ph (_is_leader e) (_epoch e) (_stopped e).

Definition release (i : nat) (c : Cluster) : Cluster :=
  mkCluster (epoch_node c) (if decide (elected c = Some i) then None else elected c)
    (instances c) (acquired c).

(** [_start_election_run] *)
Definition _start_election_run (i : nat) (c : Cluster) : Cluster :=
  set_instance i (set_phase Contending (get_instance i c)) c.

(** [current = int(data.decode()) if data else 0] *)
Definition read_epoch (i : nat) (c : Cluster) : Cluster :=
  set_instance i (set_phase (GotEpoch (default 0%Z (epoch_node c))) (get_instance i c)) c.

(** Persist the next epoch, take the flag, call the callbacks. *)
Definition write_epoch (i : nat) (current : Z) (c : Cluster) : Cluster :=
  let new_epoch := (current + 1)%Z in
  mkCluster (Some new_epoch) (elected c)
    (<[i := mkElection Leading true new_epoch (_stopped (get_instance i c))]> (instances c))
    ((i, new_epoch) :: acquired c).

(** The [finally] of the callback, and [election.run] returning. *)
Definition end_callback (i : nat) (c : Cluster) : Cluster :=
  release i (set_instance i
    (mkElection NotRunning false (_epoch (get_instance i c)) (_stopped (get_instance i c))) c).

(** [restart_after_loss]: the old callback is woken and ends, the flag is cleared,
    and a new election starts. *)
Definition restart_after_loss (i : nat) (c : Cluster) : Cluster :=
  if _stopped (get_instance i c) then c else _start_election_run i (end_callback i c).

Definition stop (i : nat) (c : Cluster) : Cluster :=
  let c := end_callback i c in
  set_instance i (mkElection NotRunning false (_epoch (get_instance i c)) true) c.

Definition in_callback (e : LeaderElection) : bool :=
  match e_phase e with Elected | GotEpoch _ => true | _ => false end.

Inductive step (lossy : bool) : Cluster → Cluster → Prop :=
| step_start i c : e_phase (get_instance i c) = NotRunning →
    step lossy c (_start_election_run i c)
| step_elect i c : e_phase (get_instance i c) = Contending → elected c = None →
    step lossy c (mkCluster (epoch_node c) (Some i)
      (<[i := set_phase Elected (get_instance i c)]> (instances c)) (acquired c))
| step_read i c : e_phase (get_instance i c) = Elected → step lossy c (read_epoch i c)
| step_write i cur c : e_phase (get_instance i c) = GotEpoch cur →
    step lossy c (write_epoch i cur c)
(** the callback raises, or is woken *)
| step_end i c : e_phase (get_instance i c) ≠ Contending → step lossy c (end_callback i c)
| step_session_lost i c : lossy || negb (in_callback (get_instance i c)) = true →
    step lossy c (release i c)
| step_restart i c : step lossy c (restart_after_loss i c)
| step_stop i c : step lossy c (stop i c).

Definition reachable (lossy : bool) : Cluster → Prop := rtc (step lossy) Cluster_init.

(** ** Lemmas *)
Lemma get_set_instance i j e c :
  get_instance i (set_instance j e c) = if decide (i = j) then e else get_instance i c.
Proof.
  unfold get_instance, set_instance. simpl. case_decide; subst.
  - by rewrite lookup_insert_eq.
  - by rewrite lookup_insert_ne.
Qed.

Lemma get_release i j c : get_instance i (release j c) = get_instance i c.
Proof. done. Qed.

(** What [step] leaves of a write: it is made, or the epoch node and the callbacks are as
    before, who has just read the node has read what is there, and nobody is a new leader. *)
Lemma step_cases lossy c c' :
  step lossy c c' →
  (∃ i cur, e_phase (get_instance i c) = GotEpoch cur ∧ c' = write_epoch i cur c) ∨
  (epoch_node c' = epoch_node c ∧ acquired c' = acquired c ∧ ∀ i,
     (∀ cur, e_phase (get_instance i c') = GotEpoch cur →
        e_phase (get_instance i c) = GotEpoch cur ∨ cur = default 0%Z (epoch_node c)) ∧
     (_is_leader (get_instance i c') = true →
        _is_leader (get_instance i c) = true ∧ _epoch (get_instance i c') = _epoch (get_instance i c))).
Proof.
  assert (∀ i e cl, (∀ j, get_instance j cl = if decide (j = i) then e else get_instance j c) →
    (∀ cur, e_phase e = GotEpoch cur → cur = default 0%Z (epoch_node c)) →
    (_is_leader e = true → _is_leader (get_instance i c) = true ∧ _epoch e = _epoch (get_instance i c)) →
    ∀ j, (∀ cur, e_phase (get_instance j cl) = GotEpoch cur →
            e_phase (get_instance j c) = GotEpoch cur ∨ cur = default 0%Z (epoch_node c)) ∧
         (_is_leader (get_instance j cl) = true → _is_leader (get_instance j c) = true ∧
            _epoch (get_instance j cl) = _epoch (get_instance j c))) as Hone.
  { intros i e cl Hcl Hp Hl j. rewrite Hcl. case_decide; subst; auto. }
  assert (∀ i e j, get_instance j (set_instance i e c) = if decide (j = i) then e else get_instance j c)
    as Hset by (intros; apply get_set_instance).
  assert (∀ i j, get_instance j (end_callback i c) = if decide (j = i)
    then mkElection NotRunning false (_epoch (get_instance i c)) (_stopped (get_instance i c))
    else get_instance j c) as Hend by (intros; apply (get_set_instance j i)).
  destruct 1 as [i c Hp|i c Hp He|i c Hp|i cur c Hp|i c Hp|i c Hl|i c|i c].
  - right. split; [done|split; [done|]]. eapply Hone; [apply Hset|by intros|by auto].
  - right. split; [done|split; [done|]]. eapply Hone; [apply Hset|by intros|by auto].
  - right. split; [done|split; [done|]]. eapply Hone; [apply Hset|by intros ? [= <-]|by auto].
  - left. eauto.
  - right. split; [done|split; [done|]]. eapply Hone; [apply Hend|by intros|by intros].
  - right. auto.
  - right. unfold restart_after_loss. case_match; [by auto|]. split; [done|split; [done|]].
    eapply (Hone i). { intros j. unfold _start_election_run. rewrite get_set_instance, !Hend.
      case_decide; [|done]. rewrite decide_True by done. reflexivity. } all: done.
  - right. split; [done|split; [done|]]. eapply (Hone i).
    { intros j. unfold stop. rewrite get_set_instance, !Hend. case_decide; [|done].
      rewrite decide_True by done. reflexivity. } all: done.
Qed.

(** ** Writes that find the node as it was read *)

(** If the step is the write of an instance that read [cur], the node still holds
    [cur]: what a [set] with the version of the [get] would check. *)
Definition as_read (c c' : Cluster) : Prop :=
  ∀ i cur, e_phase (get_instance i c) = GotEpoch cur → c' = write_epoch i cur c →
    cur = default 0%Z (epoch_node c).

Definition reachable_as_read : Cluster → Prop :=
  rtc (λ c c', step true c c' ∧ as_read c c') Cluster_init.

Record epochs_ordered (c : Cluster) : Prop := {
  ord_node : (0 ≤ default 0 (epoch_node c))%Z;
  ord_read : ∀ i cur, e_phase (get_instance i c) = GotEpoch cur →
    (0 ≤ cur ≤ default 0 (epoch_node c))%Z;
  ord_acquired : StronglySorted (λ a b, b.2 < a.2)%Z (acquired c);
  ord_newest : ∀ a, a ∈ acquired c → (a.2 ≤ default 0 (epoch_node c))%Z;
  ord_last : (0 < default 0 (epoch_node c))%Z → ∃ i, (i, default 0%Z (epoch_node c)) ∈ acquired c;
  ord_leader : ∀ i, _is_leader (get_instance i c) = true →
    (i, _epoch (get_instance i c)) ∈ acquired c;
}.

Lemma get_write_epoch i j cur c :
  get_instance j (write_epoch i cur c) = if decide (j = i)
    then mkElection Leading true (cur + 1) (_stopped (get_instance i c)) else get_instance j c.
Proof. apply (get_set_instance j i). Qed.

Lemma ordered_step c c' :
  step true c c' → as_read c c' → epochs_ordered c → epochs_ordered c'.
Proof.
  intros Hstep Hread [H0 H1 H2 H3 H4 H5].
  apply step_cases in Hstep as [(i & cur & Hp & ->)|(Hn & Ha & Hi)].
  - rewrite (Hread i cur Hp eq_refl) in *. set (n := default 0%Z (epoch_node c)) in *.
    split.
    + simpl. lia.
    + intros j cur'. rewrite get_write_epoch. case_decide; [done|]. intros Hj%H1. simpl. lia.
    + simpl. constructor; [done|]. apply Forall_forall. intros a Hin%H3. simpl. lia.
    + simpl. intros a [->|Hin%H3]%elem_of_cons; simpl; lia.
    + intros _. exists i. simpl. left.
    + intros j. rewrite get_write_epoch. simpl.
      case_decide; [subst; left|]. intros Hj. right. by apply H5.
  - split; rewrite ?Hn, ?Ha; [done| |done..|].
    + intros i cur Hp. destruct (proj1 (Hi i) cur Hp) as [Hp'| ->]; [by eapply H1|lia].
    + intros i Hl. destruct (proj2 (Hi i) Hl) as [Hl' ->]. by apply H5.
Qed.

Lemma ordered_reachable c : reachable_as_read c → epochs_ordered c.
Proof.
  assert (epochs_ordered Cluster_init) as H0.
  { split; simpl; try (intros i; unfold get_instance; simpl; by rewrite lookup_empty).
    - done.
    - constructor.
    - intros a Ha. by apply not_elem_of_nil in Ha.
    - lia. }
  unfold reachable_as_read. revert H0. generalize Cluster_init. intros c0 H0 Hr.
  induction Hr as [|c1 c2 c3 [Hs Hr] _ IH]; [done|]. eauto using ordered_step.
Qed.

(** An epoch names one acquisition. *)
Lemma ordered_inj c a b :
  epochs_ordered c → a ∈ acquired c → b ∈ acquired c → a.2 = b.2 → a = b.
Proof.
  intros Hc. pose proof (ord_acquired c Hc) as Hs. induction Hs as [|x l Hl IH Hx].
  - by intros ?%not_elem_of_nil.
  - rewrite Forall_forall in Hx.
    intros [->|Ha]%elem_of_cons [->|Hb]%elem_of_cons E; [done| | |by apply IH].
    + apply Hx in Hb. lia.
    + apply Hx in Ha. lia.
Qed.

(** ** Without a loss inside the callback every write is one *)
Record callback_inv (c : Cluster) : Prop := {
  inv_callback : ∀ i, in_callback (get_instance i c) = true → elected c = Some i;
  inv_got : ∀ i cur, e_phase (get_instance i c) = GotEpoch cur →
    cur = default 0%Z (epoch_node c);
}.

(** Changing one instance to one outside the callback. *)
Lemma inv_set_instance i e c :
  callback_inv c → in_callback e = false → callback_inv (set_instance i e c).
Proof.
  intros [H1 H2] He. split.
  - intros j. rewrite get_set_instance. case_decide; [congruence|]. apply H1.
  - intros j cur. rewrite get_set_instance. case_decide; [|apply H2].
    unfold in_callback in He. by destruct (e_phase e).
Qed.

Lemma inv_release i c :
  callback_inv c → in_callback (get_instance i c) = false → callback_inv (release i c).
Proof.
  intros [H1 H2] Hi. split; [|done]. intros j Hj. rewrite get_release in Hj.
  simpl. pose proof (H1 j Hj) as E. rewrite decide_False; [done|]. congruence.
Qed.

Lemma inv_end i c : callback_inv c → callback_inv (end_callback i c).
Proof.
  intros Hc. apply inv_release; [by apply inv_set_instance|].
  rewrite get_set_instance. by rewrite decide_True.
Qed.

Lemma callback_inv_step c c' : step false c c' → callback_inv c → callback_inv c'.
Proof.
  intros Hstep Hc. destruct Hstep as [i c Hp|i c Hp He|i c Hp|i cur c Hp|i c Hp|i c Hl|i c|i c].
  - by apply inv_set_instance.
  - destruct Hc as [H1 H2].
    assert (∀ j, get_instance j (mkCluster (epoch_node c) (Some i)
      (<[i:=set_phase Elected (get_instance i c)]> (instances c)) (acquired c)) =
      if decide (j = i) then set_phase Elected (get_instance i c) else get_instance j c)
      as Hget by (intros; apply (get_set_instance j i)).
    split; intros j *; rewrite Hget; case_decide; subst; [done| |done|apply H2].
    intros Hj%H1. congruence.
  - destruct Hc as [H1 H2]. split; intros j *; unfold read_epoch; rewrite get_set_instance;
      case_decide; subst; [|apply H1|by intros [= <-]|apply H2].
    intros _. apply H1. unfold in_callback. by rewrite Hp.
  - destruct Hc as [H1 H2].
    assert (elected c = Some i) as Hi by (apply H1; unfold in_callback; by rewrite Hp).
    split; intros j *; rewrite get_write_epoch; case_decide; try done; [apply H1|].
    intros E. exfalso. assert (elected c = Some j) by (apply H1; unfold in_callback; by rewrite E).
    congruence.
  - by apply inv_end.
  - apply inv_release; [done|]. simpl in Hl. by apply negb_true_iff in Hl.
  - unfold restart_after_loss. case_match; [done|]. apply inv_set_instance; [by apply inv_end|done].
  - apply inv_set_instance; [by apply inv_end|done].
Qed.

Lemma step_lossy c c' : step false c c' → step true c c'.
Proof. destruct 1; by constructor. Qed.

Lemma lossless_as_read c : reachable false c → reachable_as_read c.
Proof.
  unfold reachable, reachable_as_read. assert (callback_inv Cluster_init) as H0
    by (split; intros i; unfold get_instance; simpl; by rewrite lookup_empty).
  revert H0. generalize Cluster_init. intros c0 H0 Hr.
  induction Hr as [|c1 c2 c3 Hs _ IH]; [apply rtc_refl|]. eapply rtc_l; [|by eauto using callback_inv_step].
  split; [by apply step_lossy|]. intros i cur Hp _. by apply (inv_got c1 H0 i).
Qed.

(** ** Properties *)

(** C25: The epochs handed to the callbacks strictly increase, and two instances that both
    have the leader flag (an old leader before its restart, and its successor) have
    different epochs, in every run whose writes find the epoch node as they read it.
    Every run in which no session is lost between that read and the write is one.  The
    code does not check it: after a write that finds another value the epochs no longer
    increase. *)
Theorem epochs_strictly_increase :
  (∀ c, reachable_as_read c →
     StronglySorted (λ a b, b.2 < a.2)%Z (acquired c) ∧
     ∀ i j, _is_leader (get_instance i c) = true → _is_leader (get_instance j c) = true →
       i ≠ j → _epoch (get_instance i c) ≠ _epoch (get_instance j c)) ∧
  (∀ c, reachable false c → reachable_as_read c) ∧
  (∀ c c', reachable_as_read c → step true c c' → ¬ as_read c c' →
     ¬ StronglySorted (λ a b, b.2 < a.2)%Z (acquired c')).
Proof.
  split; [|split; [exact lossless_as_read|]].
  - intros c Hc%ordered_reachable. split; [apply Hc|]. intros i j Hi%Hc Hj%Hc Hne E.
    by eapply Hne, (f_equal fst (ordered_inj c _ _ Hc Hi Hj E)).
  - intros c c' Hc%ordered_reachable Hs Hstale Hsort.
    apply step_cases in Hs as [(i & cur & Hp & ->)|(_ & Ha & _)].
    + assert (cur ≠ default 0%Z (epoch_node c)) as Hne.
      { intros ->. apply Hstale. intros j cur' _ E. injection E. lia. }
      pose proof (ord_read c Hc i cur Hp). destruct (ord_last c Hc) as [j Hj]; [lia|].
      apply StronglySorted_inv in Hsort as [_ Hsort]. rewrite Forall_forall in Hsort.
      apply Hsort in Hj. simpl in Hj. lia.
    + apply Hstale. intros i cur _ ->. apply (f_equal length) in Ha. simpl in Ha. lia.
Qed.

(** Instance 1 leads, loses its session, and instance 2 is elected. *)
Definition ex_stale : Cluster :=
  let c := _start_election_run 2 (_start_election_run 1 Cluster_init) in
  let c := mkCluster None (Some 1) (<[1 := set_phase Elected (get_instance 1 c)]> (instances c)) [] in
  let c := write_epoch 1 0 (read_epoch 1 c) in
  let c := release 1 c in
  let c := mkCluster (epoch_node c) (Some 2)
             (<[2 := set_phase Elected (get_instance 2 c)]> (instances c)) (acquired c) in
  write_epoch 2 1 (read_epoch 2 c).

Lemma epochs_strictly_increase_witness :
  _is_leader (get_instance 1 ex_stale) = true ∧ _is_leader (get_instance 2 ex_stale) = true ∧
  _epoch (get_instance 1 ex_stale) ≠ _epoch (get_instance 2 ex_stale).
Proof.
  split; [reflexivity|]. split; [reflexivity|].
  apply (proj1 epochs_strictly_increase ex_stale); [|reflexivity|reflexivity|done].
  apply epochs_strictly_increase.
  eapply rtc_l; [by apply (step_start false 1)|].
  eapply rtc_l; [by apply (step_start false 2)|].
  eapply rtc_l; [by apply (step_elect false 1)|].
  eapply rtc_l; [by apply (step_read false 1)|].
  eapply rtc_l; [by apply (step_write false 1 0)|].
  eapply rtc_l; [by apply (step_session_lost false 1)|].
  eapply rtc_l; [by apply (step_elect false 2)|].
  eapply rtc_l; [by apply (step_read false 2)|].
  eapply rtc_l; [by apply (step_write false 2 1)|].
  apply rtc_refl.
Defined.

(** The epoch node is written without checking its version: if instance 1 loses its
    session after reading the epoch and writes in its next session, two instances
    lead with the same epoch. *)
Example unversioned_epoch_race :
  ∃ c, reachable true c ∧ acquired c = [(1, 1%Z); (2, 1%Z)] ∧
       _is_leader (get_instance 1 c) = true ∧ _is_leader (get_instance 2 c) = true.
Proof.
  eexists. split.
  - eapply rtc_l; [by apply (step_start true 1)|].
    eapply rtc_l; [by apply (step_start true 2)|].
    eapply rtc_l; [by apply (step_elect true 1)|].
    eapply rtc_l; [by apply (step_read true 1)|].
    eapply rtc_l; [by apply (step_session_lost true 1)|].
    eapply rtc_l; [by apply (step_elect true 2)|].
    eapply rtc_l; [by apply (step_read true 2)|].
    eapply rtc_l; [by apply (step_write true 2 0)|].
    eapply rtc_l; [by apply (step_write true 1 0)|].
    apply rtc_refl.
  - by split_and!.
Qed.
