(* ===== verification/Cooldown.v ===== *)
(** * AlertCooldownManager: Redis with a local fallback ([src/cache/cooldown.py])

    Redis is the class [Redis] with the documented behaviour of its commands as laws,
    the local cache is [Cache.TTLCache].  A method is a function on the pair of Redis
    and the local cache in which a call may raise ([SE]). *)
From stdpp Require Import base list strings gmap.
From Stdlib Require Import ZArith Lia.
From S2P Require Import Prelude Cache.
Local Open Scope se_scope.

(** [RedisUnavailable] is one of the two classes of [_REDIS_UNAVAILABLE]. *)
Inductive RedisExc : Type := RedisUnavailable | RedisResponseError.

Class Redis (W : Type) := {
  redis_exists : string → SE W RedisExc bool;
  redis_setex : string → Z → SE W RedisExc unit;
  redis_delete : string → SE W RedisExc unit;
  (** a pipeline of [EXISTS] *)
  redis_exists_all : list string → SE W RedisExc (list bool);
  (** the clock, in seconds *)
  clock : W → Z;
}.

(** [expiry w]: the keys, with the time they expire at. *)
Class RedisLaws (W : Type) `{Redis W} (expiry : W → gmap string Z) := {
  exists_law k w w' b :
    redis_exists k w = (w', Ok b) →
    w' = w ∧ b = match expiry w !! k with Some t => bool_decide (clock w < t)%Z | None => false end;
  setex_law k ttl w w' :
    redis_setex k ttl w = (w', Ok tt) →
    (0 < ttl)%Z ∧ clock w' = clock w ∧ expiry w' = <[k := (clock w + ttl)%Z]> (expiry w);
  (** an expire time that is not positive is an error *)
  setex_invalid k ttl w :
    (ttl ≤ 0)%Z → ∃ e, redis_setex k ttl w = (w, Err e);
  setex_clock k ttl w : clock (redis_setex k ttl w).1 = clock w;
  exists_all_law ks w w' bs :
    redis_exists_all ks w = (w', Ok bs) →
    w' = w ∧ bs = (λ k, match expiry w !! k with
                        | Some t => bool_decide (clock w < t)%Z | None => false end) <$> ks;
}.

(** The identity of a cooldown. *)
Record Check := mkCheck
  { ck_process : string; ck_eqp_id : string; ck_proc : string; ck_notify : string;
    ck_severity : string }.
#[export] Instance Check_eq_dec : EqDecision Check.
Proof. solve_decision. Defined.

Definition COOLDOWN_LOCAL_CACHE_MAX_TTL_SEC : Z := 3600.

Section Cooldown.
Context {W L : Type} `{!Redis W, !TTLCache L Z}.
(** [settings.debug_read_only], and the key prefix of the Redis client *)
Context (debug_read_only : bool) (key_prefix : string).

Definition CM (A : Type) : Type := SE (W * L) RedisExc A.

Definition key_parts (c : Check) : list string :=
  [key_prefix; "cooldown"; ck_process c; ck_eqp_id c; ck_proc c; ck_notify c; ck_severity c].

Definition _make_key (c : Check) : string := join_colon (key_parts c).

(** [key in self._local] *)
Definition in_local (key : string) : CM bool := λ s,
  (s, Ok (bool_decide (is_Some (cache_get (clock s.1) key s.2)))).

Definition redis {A} (op : SE W RedisExc A) : CM A := λ s,
  let '(w', r) := op s.1 in ((w', s.2), r).

(** [try: m  except _REDIS_UNAVAILABLE: h] *)
Definition or_unavailable {A} (m h : CM A) : CM A :=
  se_catch m (λ e, match e with
                   | RedisUnavailable => h
                   | RedisResponseError => se_raise e
                   end).

Definition is_cooling_down (c : Check) : CM bool :=
  let key := _make_key c in
  if debug_read_only then in_local key
  else or_unavailable (redis (redis_exists key)) (in_local key).

Definition set_cooldown (c : Check) (cooldown_minutes : Z) : CM unit :=
  let key := _make_key c in
  let ttl_sec := (cooldown_minutes * 60)%Z in
  se_modify (λ s, (s.1, cache_set (clock s.1) key 1%Z s.2)) ;;;
  if debug_read_only then se_ret tt
  else or_unavailable (redis (redis_setex key ttl_sec)) (se_ret tt).

Definition clear_cooldown (c : Check) : CM unit :=
  let key := _make_key c in
  se_modify (λ s, (s.1, cache_pop key s.2)) ;;;
  if debug_read_only then se_ret tt
  else or_unavailable (redis (redis_delete key)) (se_ret tt).

(** [{c: (self._make_key(c) in self._local) for c in checks}] *)
Definition all_local (checks : list Check) : CM (list (Check * bool)) := λ s,
  (s, Ok (ODict.of_list
    ((λ c, (c, bool_decide (is_Some (cache_get (clock s.1) (_make_key c) s.2)))) <$> checks))).

Definition is_cooling_down_batch (checks : list Check) : CM (list (Check * bool)) :=
  if debug_read_only then all_local checks
  else
    or_unavailable
      (results <- redis (redis_exists_all (_make_key <$> checks)) ;;
       se_ret (ODict.of_list (zip checks results)))
      (all_local checks).

(** ** Properties *)
Context (expiry : W → gmap string Z) `{!RedisLaws W expiry}.
Context (entries : L → gmap string (Z * Z))
  `{!TTLCacheLaws L Z COOLDOWN_LOCAL_CACHE_MAX_TTL_SEC entries}.

Definition redis_live (w : W) (key : string) : bool :=
  match expiry w !! key with Some t => bool_decide (clock w < t)%Z | None => false end.

Definition local_live (w : W) (l : L) (key : string) : bool :=
  match entries l !! key with
  | Some (_, t) => bool_decide (clock w < t + COOLDOWN_LOCAL_CACHE_MAX_TTL_SEC)%Z
  | None => false
  end.

Lemma local_answer w l key :
  bool_decide (is_Some (cache_get (clock w) key l)) = local_live w l key.
Proof.
  unfold local_live. rewrite cache_get_spec.
  destruct (entries l !! key) as [[v t]|]; [|done].
  by destruct (bool_decide (clock w < _)%Z).
Qed.

Lemma in_local_live key (s : W * L) : in_local key s = (s, Ok (local_live s.1 s.2 key)).
Proof. unfold in_local. by rewrite local_answer. Qed.

(** The identity whose parts but the last hold no colon. *)
Definition colon_free_check (c : Check) : Prop :=
  colon_free (ck_process c) = true ∧ colon_free (ck_eqp_id c) = true ∧
  colon_free (ck_proc c) = true ∧ colon_free (ck_notify c) = true.

Lemma make_key_inj c c' :
  colon_free key_prefix = true → colon_free_check c → colon_free_check c' →
  _make_key c = _make_key c' → c = c'.
Proof.
  intros Hp Hc Hc' E. unfold _make_key in E.
  assert (∀ x, colon_free_check x →
    Forall (λ s, colon_free s = true) (removelast (key_parts x))) as Hall
    by (intros x (?&?&?&?); simpl; auto 10).
  pose proof (join_colon_inj (key_parts c) (key_parts c') eq_refl (Hall c Hc) (Hall c' Hc') E).
  destruct c, c'; naive_solver.
Qed.

(** Whatever happens to Redis, after [set_cooldown] of a positive number of minutes
    the local cache has the key, so a check that cannot reach Redis suppresses the
    alert for an hour, whatever the minutes; a check that reaches Redis suppresses
    it for exactly the minutes, provided the write reached Redis as well.  Other
    colon-free identities are not affected. *)
Theorem set_cooldown_suppresses c minutes (s : W * L) :
  (0 < minutes)%Z → debug_read_only = false →
  let '(s', r) := set_cooldown c minutes s in
  let key := _make_key c in
  entries s'.2 !! key = Some (1%Z, clock s.1) ∧ clock s'.1 = clock s.1 ∧
  (∀ w l, entries l = entries s'.2 →
    local_live w l key = bool_decide (clock w < clock s.1 + 3600)%Z) ∧
  ((redis_setex key (minutes * 60) s.1).2 = Ok tt →
    ∀ w, expiry w = expiry s'.1 →
      redis_live w key = bool_decide (clock w < clock s.1 + minutes * 60)%Z ∧
      ∀ c', colon_free key_prefix = true → colon_free_check c → colon_free_check c' →
            c' ≠ c → expiry s'.1 !! _make_key c' = expiry s.1 !! _make_key c').
Proof.
  intros Hm Hd. unfold set_cooldown, se_bind, se_modify. simpl. rewrite Hd.
  unfold or_unavailable, se_catch, redis. simpl.
  set (key := _make_key c). set (l := cache_set _ _ _ _).
  assert (entries l !! key = Some (1%Z, clock s.1)) as Hl by apply entries_set_eq.
  destruct (redis_setex key (minutes * 60) s.1) as [w' r] eqn:E.
  assert (clock w' = clock s.1) as Hw'
    by (rewrite <-(setex_clock key (minutes * 60) s.1), E; done).
  assert (∀ w k, entries k = entries l →
    local_live w k key = bool_decide (clock w < clock s.1 + 3600)%Z) as Hlocal.
  { intros w k Hk. unfold local_live. by rewrite Hk, Hl. }
  destruct r as [[]|[]]; simpl; split_and!; try done.
  intros _ w Hw. apply setex_law in E as (_ & _ & Hexp). unfold redis_live.
  rewrite Hw, Hexp, lookup_insert_eq. split; [done|].
  intros c' Hp Hc Hc' Hne. rewrite lookup_insert_ne; [done|].
  intros Ek. apply Hne. symmetry. by apply make_key_inj.
Qed.

(** The batch gives every identity the answer of one source: the one the single
    check has.  In debug mode and when the pipeline cannot reach Redis that is the
    local cache, and otherwise Redis. *)
Theorem batch_agrees checks c (s s' : W * L) d :
  is_cooling_down_batch checks s = (s', Ok d) → c ∈ checks →
  ODict.get c d = Some
    (if debug_read_only || negb (isOk (redis_exists_all (_make_key <$> checks) s.1).2)
     then local_live s'.1 s'.2 (_make_key c)
     else redis_live s.1 (_make_key c)) ∧
  (∀ s1 b, is_cooling_down c s = (s1, Ok b) →
    b = if debug_read_only || negb (isOk (redis_exists (_make_key c) s.1).2)
        then local_live s1.1 s1.2 (_make_key c)
        else redis_live s.1 (_make_key c)).
Proof.
  intros Hb Hc. split.
  - unfold is_cooling_down_batch, or_unavailable, se_catch, all_local in Hb.
    destruct debug_read_only; simpl.
    { injection Hb as <- <-. rewrite ODict.get_of_fun by done. by rewrite local_answer. }
    unfold se_bind, redis in Hb.
    destruct (redis_exists_all _ s.1) as [w' [bs|[]]] eqn:E; simpl in *.
    + injection Hb as <- <-. apply exists_all_law in E as [_ ->].
      assert (∀ (f : Check → bool) l, zip l (f <$> l) = (λ c, (c, f c)) <$> l) as Hzip
        by (intros f l; induction l as [|x l IH]; [done|]; csimpl; by rewrite IH).
      rewrite <-list_fmap_compose, Hzip. by rewrite ODict.get_of_fun.
    + injection Hb as <- <-. rewrite ODict.get_of_fun by done. by rewrite local_answer.
    + done.
  - intros s1 b Hs. unfold is_cooling_down, or_unavailable, se_catch in Hs.
    destruct debug_read_only; simpl; [by rewrite in_local_live in Hs; injection Hs as <- <-|].
    unfold redis in Hs. destruct (redis_exists _ s.1) as [w' [b'|[]]] eqn:E; simpl in *.
    + injection Hs as <- <-. by apply exists_law in E as [_ ->].
    + rewrite in_local_live in Hs. by injection Hs as <- <-.
    + done.
Qed.

(** A cooldown of zero or negative minutes is an error of Redis that
    [set_cooldown] does not catch, when Redis answers: it raises, with the local
    entry already written. *)
Theorem nonpositive_cooldown_raises c minutes (s : W * L) :
  (minutes ≤ 0)%Z → debug_read_only = false →
  (redis_setex (_make_key c) (minutes * 60) s.1).2 ≠ Err RedisUnavailable →
  let '(s', r) := set_cooldown c minutes s in
  r = Err RedisResponseError ∧ s'.1 = s.1 ∧
  entries s'.2 !! _make_key c = Some (1%Z, clock s.1).
Proof.
  intros Hm Hd Hu. unfold set_cooldown, se_bind, se_modify. simpl. rewrite Hd.
  unfold or_unavailable, se_catch, redis. simpl.
  destruct (setex_invalid (_make_key c) (minutes * 60) s.1) as [e E]; [lia|].
  rewrite E in *. destruct e; [done|]. simpl. split_and!; [done|done|apply entries_set_eq].
Qed.
End Cooldown.

(** ** Redis in memory *)
Record MemRedis := mkRedis { mr_expiry : gmap string Z; mr_clock : Z; mr_up : bool }.

Definition mr_exists (k : string) (w : MemRedis) : bool :=
  match mr_expiry w !! k with Some t => bool_decide (mr_clock w < t)%Z | None => false end.

Definition when_up {A} (w' : MemRedis) (a : A) (w : MemRedis) : MemRedis * res RedisExc A :=
  if mr_up w then (w', Ok a) else (w, Err RedisUnavailable).

#[export] Instance mem_redis : Redis MemRedis := {
  redis_exists k w := when_up w (mr_exists k w) w;
  redis_setex k ttl w :=
    if decide (0 < ttl)%Z then
      when_up (mkRedis (<[k := (mr_clock w + ttl)%Z]> (mr_expiry w)) (mr_clock w) true) tt w
    else (w, Err (if mr_up w then RedisResponseError else RedisUnavailable));
  redis_delete k w := when_up (mkRedis (delete k (mr_expiry w)) (mr_clock w) true) tt w;
  redis_exists_all ks w := when_up w ((λ k, mr_exists k w) <$> ks) w;
  clock := mr_clock;
}.

#[export] Instance mem_redis_laws : RedisLaws MemRedis mr_expiry.
Proof.
  split; simpl; unfold when_up, mr_exists.
  - intros k w w' b. destruct (mr_up w); [by intros [= <- <-]|done].
  - intros k ttl w w'. case_decide; [|done]. destruct (mr_up w); [by intros [= <-]|done].
  - intros k ttl w Ht. rewrite decide_False by lia. eauto.
  - intros k ttl w. case_decide; [|done]. by destruct (mr_up w).
  - intros ks w w' bs. destruct (mr_up w); [by intros [= <- <-]|done].
Qed.

#[local] Instance ex_local : TTLCache (MapCache Z) Z := map_cache_ops 3600.
#[local] Instance ex_local_laws : TTLCacheLaws (MapCache Z) Z 3600 map_cache :=
  map_cache_laws 3600.

Definition ex_check : Check := mkCheck "ETCH" "E1" "@system" "default" "CRITICAL".
Definition ex_state (up : bool) : MemRedis * MapCache Z := (mkRedis ∅ 1000 up, cache_empty).

(** A cooldown of one minute still suppresses after 59 minutes when Redis is down. *)
Lemma set_cooldown_suppresses_witness :
  let s' := (set_cooldown false "rms" ex_check 1 (ex_state true)).1 in
  local_live map_cache (mkRedis ∅ 4540 false) s'.2 (_make_key "rms" ex_check) = true ∧
  redis_live mr_expiry (mkRedis (mr_expiry s'.1) 1060 true) (_make_key "rms" ex_check) = false.
Proof.
  pose proof (set_cooldown_suppresses false "rms" mr_expiry map_cache ex_check 1
    (ex_state true) ltac:(lia) eq_refl) as Hx.
  assert ((redis_setex (_make_key "rms" ex_check) (1 * 60) (ex_state true).1).2 = Ok tt) as Hset
    by (vm_compute; reflexivity).
  destruct (set_cooldown _ _ _ _ _) as [s' r]. destruct Hx as (_ & _ & Hl & Hr).
  split; simpl.
  - by rewrite (Hl (mkRedis ∅ 4540 false) s'.2 eq_refl).
  - by destruct (Hr Hset (mkRedis (mr_expiry s'.1) 1060 true) eq_refl) as [-> _].
Defined.

Lemma batch_agrees_witness :
  let s := (set_cooldown false "rms" ex_check 1 (ex_state true)).1 in
  let d := [(ex_check, true)] in
  is_cooling_down_batch false "rms" [ex_check] s = (s, Ok d) ∧
  ODict.get ex_check d = Some (redis_live mr_expiry s.1 (_make_key "rms" ex_check)).
Proof.
  intros s d. assert (is_cooling_down_batch false "rms" [ex_check] s = (s, Ok d)) as Hb
    by (vm_compute; reflexivity).
  split; [exact Hb|].
  exact (proj1 (batch_agrees false "rms" mr_expiry map_cache [ex_check] ex_check s s d Hb
    ltac:(left))).
Defined.

Lemma nonpositive_cooldown_raises_witness :
  (set_cooldown false "rms" ex_check 0 (ex_state true)).2 = Err RedisResponseError.
Proof.
  assert ((redis_setex (_make_key "rms" ex_check) (0 * 60) (ex_state true).1).2
          ≠ Err RedisUnavailable) as Hup by (vm_compute; discriminate).
  pose proof (nonpositive_cooldown_raises false "rms" mr_expiry map_cache ex_check 0
    (ex_state true) ltac:(lia) eq_refl Hup) as Hx.
  destruct (set_cooldown _ _ _ _ _) as [s' r]. apply Hx.
Defined.
