(* ===== verification/AlertBuilder.v ===== *)
(** * Building the alert of a group of breaches ([src/analyzer/alert_builder.py],
    [src/alert/models.py])

    [datetime] values are UTC microseconds.  Rounding for display goes through the
    decimal text of a number and back, and raises where the tenths do not fit the 28
    digits of the decimal context. *)
From stdpp Require Import base list strings.
From Stdlib Require Import ZArith Lia Ascii.
From Stdlib Require String.
From S2P Require Import Prelude PyNum PyStr PyFloat PyTime FactCatalog Models Renderer Threshold.
From S2P Require Import Repository Cooldown.

(** ** Rounding for display *)

(** [decimal.InvalidOperation] *)
Inductive DecimalError : Type := InvalidOperation.

(** [Decimal(str(x))] of [m * 2^e], not negative: digits and their power of ten.  An int
    is exact.  A float with an integer value is displayed the same from its shortest
    digits as from its value (they differ from [2^53] on, and read back as the float). *)
Definition decimal_of (m e : Z) : Z * Z :=
  if bool_decide (0 ≤ e)%Z then ((m * 2 ^ e)%Z, 0%Z) else default (exact_digits m e) (shortest m e).

(** The tenths of [c * 10^j], half up. *)
Definition tenths (c j : Z) : Z :=
  if bool_decide (-1 ≤ j)%Z then (c * 10 ^ (j + 1))%Z
  else let p := (10 ^ (- 1 - j))%Z in ((2 * c + p) / (2 * p))%Z.

Definition _round_display (value : option num) : res DecimalError (option num) :=
  match value with
  | None => Ok None
  | Some (Fin m e) =>
      let '(c, j) := decimal_of (Z.abs m) e in
      if bool_decide (10 ^ 28 ≤ tenths c j)%Z then Err InvalidOperation
      else Ok (Some (round_dec (bool_decide (m < 0 ∨ m = 0 ∧ e < 0)%Z) (tenths c j) (-1)))
  | Some NaN => Ok (Some NaN)
  | Some PosInf | Some NegInf => Err InvalidOperation
  end.

(** ** The request *)
Record EmailAlertRequest := mkRequest
  { er_hostname : string; er_ip : string; er_app : string; er_process : string;
    er_eqp_model : string; er_line : string; er_code : string; er_subcode : string;
    er_variables : list (string * string);
    er_rendered_body : option string; er_title : option string;
    er_email_category : option string; er_display_id : option string }.

(** A JSON member: a string, or the object of strings of [variables]. *)
Inductive Member : Type := MStr (s : string) | MObj (o : list (string * string)).

Definition optional (k : string) (v : option string) : list (string * Member) :=
  match v with Some s => [(k, MStr s)] | None => [] end.

Definition to_payload (self : EmailAlertRequest) : list (string * Member) :=
  [("hostname", MStr (er_hostname self)); ("ip", MStr (er_ip self)); ("app", MStr (er_app self));
   ("process", MStr (er_process self)); ("model", MStr (er_eqp_model self));
   ("line", MStr (er_line self)); ("code", MStr (er_code self));
   ("subcode", MStr (er_subcode self)); ("variables", MObj (er_variables self))]
  ++ optional "renderedBody" (er_rendered_body self)
  ++ optional "title" (er_title self)
  ++ optional "emailCategory" (er_email_category self)
  ++ optional "displayId" (er_display_id self).

(** ** Keys and routing *)

(** [a or b] on strings. *)
Definition or_str (a : option string) (b : string) : string :=
  match a with
  | Some s => if decide (s = "") then b else s
  | None => b
  end.

Definition make_cooldown_key (process : string) (breach : ThresholdBreach)
    (notify_name : string) (group_value : option string) : Check :=
  mkCheck process (or_str group_value (tb_eqp_id breach)) (tb_proc breach) notify_name
    (severity_str (tb_severity breach)).

Definition resolve_group_value (group_by : GroupBy) (breach : ThresholdBreach)
    (eqp_info : option EqpInfo) (process : string) : string :=
  match group_by with
  | gb_model => default "" (eqp_info ≫= ei_eqpModel)
  | gb_process => process
  | gb_eqp => tb_eqp_id breach
  end.

Definition build_email_category (process : string) (group_by : GroupBy) (eqp_model : string)
    (email_group : option string) : option string :=
  match email_group with
  | None => None
  | Some g =>
      if decide (g = "") then None
      else
        let model_token := if decide (group_by = gb_process) then "ALL" else eqp_model in
        Some ("EMAIL-" +:+ process +:+ "-" +:+ model_token +:+ "-" +:+ g)
  end.

Definition resolve_code_subcode (notify : NotifyChannel) (breach : ThresholdBreach)
  : string * string :=
  (n_email_code notify,
   or_str (n_email_subcode notify)
     (upper (tb_category breach) +:+ "_" +:+ severity_str (tb_severity breach))).

(** ** Time *)

(** [_fmt_timestamp]: Asia/Seoul is nine hours ahead of UTC. *)
Definition _fmt_timestamp (ts : option Z) : option string :=
  match ts with
  | None => None
  | Some us =>
      let minutes := (us / 60000000 + 540)%Z in
      let '(y, m, d) := civil_from_days (minutes / 1440) in
      let mins := (minutes mod 1440)%Z in
      Some (str_Z y +:+ "-" +:+ pad2 m +:+ "-" +:+ pad2 d +:+ " " +:+ pad2 (mins / 60)
            +:+ ":" +:+ pad2 (mins mod 60) +:+ " KST")
  end.

(** ** Building *)
Record AlertSettings := mkAlertSettings
  { email_app_name : string; grafana_base_url : string; grafana_dashboard_uid : string;
    rms_custom_body_enabled : bool; rms_erb_row_limit : nat; rms_body_byte_cap : nat }.

(** A row of the template collection: a column may be missing or null. *)
Record Template := mkTemplate { t_html : option string; t_title : option string }.

Definition tval_num (x : option num) : TVal :=
  match x with Some x => TNum x | None => TNone end.

Definition tval_value (v : Value) : TVal :=
  match v with VNum x => TNum x | VStr s => TStr s end.

Definition tval_str (s : option string) : TVal :=
  match s with Some s => TStr s | None => TNone end.

(** [str(x)] *)
Definition py_str (v : TVal) : string :=
  match v with TNone => "None" | TStr s => s | TInt z => str_Z z | TNum x => float_repr x end.

Definition group_by_str (g : GroupBy) : string :=
  match g with gb_eqp => "eqp" | gb_model => "model" | gb_process => "process" end.

Definition field (f : EqpInfo → option string) (info : option EqpInfo) : string :=
  default "" (info ≫= f).

Definition _build_scalars (breach : ThresholdBreach) (eqp_info : EqpInfo) (process : string)
    (notify : NotifyChannel) (window_minutes : Z) (affected_equipment : option (list string))
    (timestamp : option Z) (code subcode category grafana_url : string)
  : res DecimalError ValueMap :=
  current ← _round_display (tb_current_value breach);
  Ok [("@Severity", TStr (severity_str (tb_severity breach)));
   ("@Category", TStr category);
   ("@Fact", TStr (tb_fact breach));
   ("@CurrentValue", tval_num current);
   ("@Threshold", tval_value (tb_threshold_value breach));
   ("@Operator", TStr (op_str (tb_op breach)));
   ("@WindowMin", TInt window_minutes);
   ("@Timestamp", tval_str (_fmt_timestamp timestamp));
   ("@Process", TStr process);
   ("@GroupBy", TStr (group_by_str (n_group_by notify)));
   ("@GroupValue", TStr (resolve_group_value (n_group_by notify) breach (Some eqp_info) process));
   ("@AffectedCount", match affected_equipment with
                      | Some l => TInt (Z.of_nat (length l)) | None => TNone end);
   ("@AffectedEquipment", match affected_equipment with
                          | Some (_ :: _ as l) => TStr (join ", " l) | _ => TNone end);
   ("@GrafanaUrl", TStr grafana_url);
   ("@Hostname", TStr (tb_eqp_id breach));
   ("@Model", TStr (field ei_eqpModel (Some eqp_info)));
   ("@Line", TStr (field ei_line (Some eqp_info)));
   ("@IP", TStr (field ei_ipAddr (Some eqp_info)));
   ("@CODE", TStr (if decide (subcode = "") then code else code +:+ "-" +:+ subcode))].

(** The row of one breach. *)
Definition row_of (eqp_lookup : list (string * EqpInfo)) (m : ThresholdBreach)
  : res DecimalError ValueMap :=
  let info := ODict.get (tb_eqp_id m) eqp_lookup in
  current ← _round_display (tb_current_value m);
  Ok [("@Row.EqpId", TStr (tb_eqp_id m));
   ("@Row.CurrentValue", tval_num current);
   ("@Row.Threshold", tval_value (tb_threshold_value m));
   ("@Row.Severity", TStr (severity_str (tb_severity m)));
   ("@Row.Fact", TStr (tb_fact m));
   ("@Row.Category", TStr (upper (tb_category m)));
   ("@Row.Operator", TStr (op_str (tb_op m)));
   ("@Row.Model", TStr (field ei_eqpModel info));
   ("@Row.Line", TStr (field ei_line info));
   ("@Row.IP", TStr (field ei_ipAddr info));
   ("@Row.Proc", TStr (tb_proc m))].

(** [members] is never empty here when it is given. *)
Definition _build_rows (breach : ThresholdBreach) (members : list ThresholdBreach)
    (eqp_lookup : list (string * EqpInfo)) : res DecimalError (list ValueMap) :=
  let breaches := if decide (members = []) then [breach] else members in
  rows ← mapM (row_of eqp_lookup) breaches; Ok (order_rows rows).

Definition _DEFAULT_OVERFLOW : string :=
  "<tr><td colspan=" +:+ dq +:+ "99" +:+ dq +:+ ">외 @RemainingCount대 더 있습니다…</td></tr>".

(** The renderer raises nothing on string columns, so the fallback of the [except]
    branch is not reached. *)
Definition _render_custom_body (template : option Template) (scalars : ValueMap)
    (rows : list ValueMap) (settings : AlertSettings) : string * string :=
  let html_template := or_str (template ≫= t_html) DEFAULT_BODY in
  let title_template := default "" (template ≫= t_title) in
  (render_body html_template scalars rows (Some (rms_erb_row_limit settings))
     _DEFAULT_OVERFLOW (Some (rms_body_byte_cap settings)),
   render_title title_template scalars).

Definition build_alert_request (breach : ThresholdBreach) (eqp_info : EqpInfo)
    (process : string) (settings : AlertSettings) (notify : NotifyChannel)
    (window_minutes : Z) (affected_equipment : option (list string))
    (members : list ThresholdBreach) (eqp_lookup : list (string * EqpInfo))
    (timestamp : option Z) (template : option Template)
    (email_category display_id : option string) : res DecimalError EmailAlertRequest :=
  let category := upper (tb_category breach) in
  let '(code, subcode) := resolve_code_subcode notify breach in
  let grafana_url :=
    if decide (grafana_base_url settings = "" ∨ grafana_dashboard_uid settings = "") then ""
    else grafana_base_url settings +:+ "/d/" +:+ grafana_dashboard_uid settings
         +:+ "?var-eqpId=" +:+ tb_eqp_id breach +:+ "&var-process=" +:+ process in
  current ← _round_display (tb_current_value breach);
  let variables :=
    [("Severity", severity_str (tb_severity breach)); ("Category", category);
     ("MetricName", tb_fact breach); ("CurrentValue", py_str (tval_num current));
     ("Threshold", py_str (tval_value (tb_threshold_value breach)));
     ("WindowMin", str_Z window_minutes); ("GrafanaUrl", grafana_url)]
    ++ match affected_equipment with
       | Some l => [("AffectedEquipment", join ", " l);
                    ("AffectedCount", str_Z (Z.of_nat (length l)))]
       | None => []
       end in
  rendered ←
    (if rms_custom_body_enabled settings then
       scalars ← _build_scalars breach eqp_info process notify window_minutes
         affected_equipment timestamp code subcode category grafana_url;
       rows ← _build_rows breach members eqp_lookup;
       Ok (Some (_render_custom_body template scalars rows settings))
     else Ok None);
  Ok (mkRequest (tb_eqp_id breach) (field ei_ipAddr (Some eqp_info)) (email_app_name settings)
        process (field ei_eqpModel (Some eqp_info)) (field ei_line (Some eqp_info)) code subcode
        variables (fst <$> rendered) (snd <$> rendered) email_category display_id).

(** The alert is about the equipment of its breach. *)
Lemma build_alert_hostname breach info process settings notify window affected members lookup
    ts template category display alert :
  build_alert_request breach info process settings notify window affected members lookup ts
    template category display = Ok alert →
  er_hostname alert = tb_eqp_id breach.
Proof.
  unfold build_alert_request. destruct (resolve_code_subcode _ _) as [code subcode].
  destruct (_round_display _) as [current|]; [|done]. simpl.
  destruct (rms_custom_body_enabled settings); [|by intros [= <-]].
  destruct (_build_scalars _ _ _ _ _ _ _ _ _ _ _) as [scalars|]; [|done]. simpl.
  destruct (_build_rows _ _ _) as [rows|]; [|done]. by intros [= <-].
Qed.

Example fmt_timestamp_example :
  _fmt_timestamp (Some 1781484300000000%Z) = Some "2026-06-15 09:45 KST".
Proof. vm_compute. reflexivity. Qed.

Example round_display_examples :
  (_round_display (Some (round_dec false 9534 (-2))) = Ok (Some (round_dec false 953 (-1))))
  ∧ _round_display (Some (round_dec false 9535 (-2))) = Ok (Some (round_dec false 954 (-1)))
  ∧ _round_display (Some (round_dec false 8896 (-2))) = Ok (Some (Fin 89 0))
  ∧ py_str (TNum (round_dec false 890 (-1))) = "89.0"
  ∧ _round_display (Some (round_dec true 4 (-2))) = Ok (Some (num_opp (Fin 0 0)))
  ∧ _round_display (Some (round_dec false 1 27)) = Err InvalidOperation
  ∧ _round_display (Some (num_of_Z (10 ^ 27 - 1))) = Ok (Some (round_dec false 1 27)).
Proof. vm_compute. done. Qed.

(** ** The values of a mail and its markup *)

(** Only the Grafana link of the scalars is shown as a URL. *)
Lemma scalars_marks breach info process notify window affected ts code subcode category
    grafana_url scalars c t :
  _build_scalars breach info process notify window affected ts code subcode category grafana_url
    = Ok scalars →
  url_marks c scalars t
  = if decide (t = "@GrafanaUrl") then count c (_escape_url (TStr grafana_url)) else 0.
Proof.
  unfold _build_scalars. destruct (_round_display _) as [x|]; [|done]. intros [= <-].
  unfold url_marks. destruct (decide (t = "@GrafanaUrl")) as [->|Ht]; [reflexivity|].
  destruct (ODict.get t TOKEN_CONTEXT) as [[]|] eqn:E; [done| |done]. by apply url_token in E.
Qed.

Lemma row_marks lookup m row i c t :
  row_of lookup m = Ok row → url_marks c (ODict.set "@Row.Index" (TInt i) row) t = 0.
Proof.
  unfold row_of. destruct (_round_display _) as [x|]; [|done]. intros [= <-].
  unfold url_marks. destruct (ODict.get t TOKEN_CONTEXT) as [[]|] eqn:E; [done| |done].
  apply url_token in E as ->. reflexivity.
Qed.

(** How often the template shows the link. *)
Definition links (s : string) : nat := length (filter (.= "@GrafanaUrl") (tokens s)).

Lemma sum_links (n : nat) l :
  sum_list ((λ t, if decide (t = "@GrafanaUrl") then n else 0) <$> l)
  = length (filter (.= "@GrafanaUrl") l) * n.
Proof.
  induction l as [|t l IH]; [done|]. csimpl. rewrite filter_cons, IH. case_decide; simpl; lia.
Qed.

(** C34: The values of an alert and the markup of its template.  Filling in a row of the
    repeat block leaves the number of double quotes, single quotes and angle brackets as
    it is, whatever the equipment's fields hold.  So does filling in the values of the
    mail, with one exception: every [@GrafanaUrl] brings the single quotes and angle
    brackets of the link (never a double quote), which has the equipment's id as it is. *)
Theorem values_keep_markup breach info process notify window affected ts code subcode category
    grafana_url scalars lookup m row c :
  markup c →
  _build_scalars breach info process notify window affected ts code subcode category grafana_url
    = Ok scalars →
  row_of lookup m = Ok row →
  (∀ inner i, count c (expand_row inner i row) = count c inner) ∧
  (∀ s, count c (_substitute s scalars false)
        = count c s + if decide (c = dquote) then 0
                      else links s * count c (_escape_url (TStr grafana_url))).
Proof.
  intros Hc Hs Hr. split.
  - intros inner i. unfold expand_row. rewrite substitute_marks by done.
    assert (∀ t, url_marks c (ODict.set "@Row.Index" (TInt (Z.of_nat (S i))) row) t = 0) as Hm
      by (intros t; by eapply row_marks).
    induction (tokens inner) as [|t l IH]; csimpl; [lia|]. rewrite Hm. exact IH.
  - intros s. rewrite substitute_marks by done.
    erewrite list_fmap_ext by (intros; eapply scalars_marks, Hs).
    rewrite sum_links. unfold links. case_decide as Hd; [|done]. subst.
    by rewrite escape_url_dquote, Nat.mul_0_r.
Qed.

Definition ex_info : EqpInfo :=
  mkEqpInfo "E'1" (Some "M1") "ETCH" None (Some "<b>") (Some "L1") None 1 1.
Definition ex_breach : ThresholdBreach :=
  mkBreach "E'1" "@system" "r" "disk.max" "disk" OP_GE (Some (num_of_Z 97)) (VNum (num_of_Z 95))
    CRITICAL.
Definition ex_scalars : ValueMap :=
  match _build_scalars ex_breach ex_info "ETCH" (mkNotify 30 "RM" None gb_eqp None) 15 None None
          "RM" "" "DISK" "https://grafana/d/x?var-eqpId=E'1" with
  | Ok scalars => scalars | Err _ => [] end.
Definition ex_row : ValueMap :=
  match row_of [("E'1", ex_info)] ex_breach with Ok row => row | Err _ => [] end.

(** The quote of the equipment's id is escaped everywhere but in the link. *)
Lemma values_keep_markup_witness :
  count "'" (expand_row "<i title='@Row.EqpId'>@Row.IP</i>" 0 ex_row) = 2 ∧
  _substitute "<a href='@GrafanaUrl'>@Hostname</a>" ex_scalars false
    = "<a href='https://grafana/d/x?var-eqpId=E'1'>E&#x27;1</a>" ∧
  count "'" (_substitute "<a href='@GrafanaUrl'>@Hostname</a>" ex_scalars false) = 3.
Proof.
  assert (markup "'") as Hc by (do 3 right; reflexivity).
  destruct (values_keep_markup ex_breach ex_info "ETCH" (mkNotify 30 "RM" None gb_eqp None) 15 None
    None "RM" "" "DISK" "https://grafana/d/x?var-eqpId=E'1" ex_scalars [("E'1", ex_info)] ex_breach
    ex_row "'" Hc) as [Hrow Hscal]; [vm_compute; reflexivity..|].
  split; [rewrite Hrow; reflexivity|]. split; [vm_compute; reflexivity|].
  rewrite Hscal. vm_compute. reflexivity.
Defined.
