(* ===== verification/EmailClient.v ===== *)
(** * EmailAlertClient: the mail endpoint and the outbox ([src/alert/email_client.py])

    The HTTP client is the class [Http]: its calls return or raise one of the
    exceptions the code tells apart.  [HttpxOther] stands for every other exception of
    the client (a broken connection while reading, a protocol error, ...).  A method
    is a function on the pair of the network and the client object ([SE]). *)
From stdpp Require Import base list strings.
From Stdlib Require Import ZArith Lia Ascii.
From S2P Require Import Prelude PyNum PyStr Json FactCatalog Models Renderer Threshold.
From S2P Require Import Repository Cooldown AlertBuilder.
Local Open Scope se_scope.

Inductive SendExc : Type :=
| TimeoutException (msg : string)
| ConnectError (msg : string)
| HTTPStatusError (status : Z) (body : string)
| InvalidResponse (msg : string)  (** [ValueError] or [KeyError] *)
| HttpxOther (msg : string).

Class Http (W Resp : Type) := {
  http_post : string → list (string * Member) → SE W SendExc Resp;
  http_head : string → SE W SendExc Resp;
  http_aclose : SE W SendExc unit;
  raise_for_status : Resp → res SendExc unit;
  resp_json : Resp → res SendExc json;
  (** [time.time()], in microseconds *)
  time_now : W → Z;
  (** [f"{x}"] of a JSON value *)
  json_text : json → string;
}.

Record OutboxRecord := mkOutbox
  { ob_ts : Z; ob_reason : string; ob_detail : string; ob_payload : list (string * Member) }.

(** [self]: whether the HTTP client is there, and the bounded deque, oldest first. *)
Record EmailAlertClient := mkClient { ec_connected : bool; ec_outbox : list OutboxRecord }.

Definition _OUTBOX_MAXLEN : nat := 1000.
Definition _SUCCESS_RESULT : string := "success".

(** [deque(maxlen=n).append(x)] drops from the other end. *)
Definition deque_append {A} (n : nat) (x : A) (l : list A) : list A :=
  drop (length (l ++ [x]) - n) (l ++ [x]).

(** [s[:n]] *)
Definition slice (n : nat) (s : string) : string := of_chars (take n (chars s)).

Section EmailClient.
Context {W Resp : Type} `{!Http W Resp}.
(** [settings.debug_read_only], [settings.email_api_url] *)
Context (debug_read_only : bool) (_api_url : string).

Inductive ClientError : Type := Raised (e : SendExc) | StartupHealthCheckFailed.

Definition EM (A : Type) : Type := SE (W * EmailAlertClient) ClientError A.

(** [await op] *)
Definition http {A} (op : SE W SendExc A) : SE (W * EmailAlertClient) SendExc A := λ s,
  let '(w', r) := op s.1 in ((w', s.2), r).

(** What is read of a response. *)
Definition of_res {S A} (r : res SendExc A) : SE S SendExc A := λ s, (s, r).

Definition lift {A} (m : SE (W * EmailAlertClient) SendExc A) : EM A := λ s,
  let '(s', r) := m s in
  (s', match r with Ok a => Ok a | Err e => Err (Raised e) end).

Definition set_connected (b : bool) : EM unit :=
  se_modify (λ s, (s.1, mkClient b (ec_outbox s.2))).

(** A JSON object's member, the empty string when there is none or no object. *)
Definition member (k : string) (data : json) : json :=
  match data with JObj o => default (JStr "") (ODict.get k o) | _ => JStr "" end.

Definition is_success (data : json) : bool :=
  match member "result" data with
  | JStr s => bool_decide (lower s = _SUCCESS_RESULT)
  | _ => false
  end.

Definition _record_outbox_failure (request : EmailAlertRequest) (reason detail : string)
  : EM unit :=
  if debug_read_only then se_ret tt
  else se_modify (λ s, (s.1, mkClient (ec_connected s.2)
    (deque_append _OUTBOX_MAXLEN
       (mkOutbox (time_now s.1) reason (slice 500 detail) (to_payload request))
       (ec_outbox s.2)))).

(** [try: resp = ...; resp.raise_for_status(); data = resp.json()] *)
Definition post_and_read (request : EmailAlertRequest)
  : SE (W * EmailAlertClient) SendExc json :=
  resp <- http (http_post _api_url (to_payload request)) ;;
  of_res (raise_for_status resp) ;;;
  of_res (resp_json resp).

Definition send_alert (request : EmailAlertRequest) : EM bool :=
  if debug_read_only then se_ret true
  else
    connected <- se_gets (λ s, ec_connected s.2) ;;
    if negb connected then
      _record_outbox_failure request "not_connected" "" ;;; se_ret false
    else
      let failed reason detail :=
        _record_outbox_failure request reason detail ;;; se_ret None in
      data <- se_catch (lift (data <- post_and_read request ;; se_ret (Some data)))
        (λ e, match e with
              | Raised (TimeoutException m) => failed "timeout" m
              | Raised (ConnectError m) => failed "connect_error" m
              | Raised (HTTPStatusError status body) =>
                  failed "http_error"
                    ("status=" +:+ str_Z status +:+ " body=" +:+ slice 200 body)
              | Raised (InvalidResponse m) => failed "invalid_response" m
              | e => se_raise e
              end) ;;
      match data with
      | None => se_ret false
      | Some data =>
          if is_success data then se_ret true
          else
            _record_outbox_failure request "app_failure"
              ("result=" +:+ json_text (member "result" data)
               +:+ " message=" +:+ json_text (member "message" data)) ;;;
            se_ret false
      end.

Definition health_check : EM bool :=
  connected <- se_gets (λ s, ec_connected s.2) ;;
  if negb connected then se_ret false
  else se_catch (lift (http_ret <- http (http_head _api_url) ;; se_ret true))
         (λ _, se_ret false).

Definition connect : EM unit :=
  set_connected true ;;;
  if debug_read_only then se_ret tt
  else
    healthy <- health_check ;;
    if negb healthy then se_raise StartupHealthCheckFailed else se_ret tt.

(** [try: aclose  except: log  finally: self._http_client = None] *)
Definition close : EM unit :=
  connected <- se_gets (λ s, ec_connected s.2) ;;
  if negb connected then se_ret tt
  else
    se_catch (lift (http http_aclose)) (λ _, se_ret tt) ;;;
    set_connected false.

Definition get_outbox_snapshot (self : EmailAlertClient) : list OutboxRecord := ec_outbox self.

Definition outbox_max_size : nat := _OUTBOX_MAXLEN.

(** ** Properties *)

(** The last [n] elements. *)
Definition last_n {A} (n : nat) (l : list A) : list A := drop (length l - n) l.

(** The endpoint answered with success. *)
Definition accepted (s : W * EmailAlertClient) (request : EmailAlertRequest) : Prop :=
  ∃ data, (post_and_read request s).2 = Ok data ∧ is_success data = true.

(** The exceptions [send_alert] lets through. *)
Definition uncaught (s : W * EmailAlertClient) (request : EmailAlertRequest) : Prop :=
  ∃ m, (post_and_read request s).2 = Err (HttpxOther m).

Lemma post_and_read_client request s s' r :
  post_and_read request s = (s', r) → s'.2 = s.2.
Proof.
  unfold post_and_read, se_bind, http, of_res.
  destruct (http_post _ _ s.1) as [w [resp|e]]; [|by intros [= <- _]].
  destruct (raise_for_status resp); by intros [= <- _].
Qed.

(** C33: In debug mode [send_alert] answers true and touches nothing.  Otherwise it
    answers true exactly when the client is connected and the endpoint's JSON result
    is success in any case of letters, and then the outbox is as before; it raises
    exactly on an exception that is neither a timeout, a connect error, an HTTP
    status nor an unreadable body, and then nothing is recorded either; in every
    other case it answers false and exactly one record, with this very payload, joins
    the outbox, which holds the newest thousand. *)
Theorem send_alert_spec request (s : W * EmailAlertClient) :
  let '(s', r) := send_alert request s in
  if debug_read_only then s' = s ∧ r = Ok true
  else
    ec_connected s'.2 = ec_connected s.2 ∧
    (r = Ok true ↔ ec_connected s.2 = true ∧ accepted s request) ∧
    ((∃ e, r = Err e) ↔ ec_connected s.2 = true ∧ uncaught s request) ∧
    match r with
    | Ok false =>
        ∃ rec, ob_payload rec = to_payload request
        ∧ ec_outbox s'.2 = last_n _OUTBOX_MAXLEN (ec_outbox s.2 ++ [rec])
    | _ => ec_outbox s'.2 = ec_outbox s.2
    end.
Proof.
  unfold send_alert, accepted, uncaught, _record_outbox_failure.
  destruct debug_read_only eqn:Ed; [done|].
  unfold se_bind at 1, se_gets at 1. destruct (ec_connected s.2) eqn:Ec.
  2: { simpl. split_and!; try done; try (split; [by intros ?|by intros []]).
       - split; [by intros [e He]|by intros []].
       - eexists. split; [|reflexivity]. done. }
  cbn [negb]. unfold se_bind at 1, se_catch, lift. unfold se_bind at 1.
  destruct (post_and_read request s) as [s1 [data|e]] eqn:Ep;
    pose proof (post_and_read_client _ _ _ _ Ep) as Hc; cbn [snd se_ret].
  - destruct (is_success data) eqn:Es; simpl; rewrite Hc, ?Ec; split_and!; try done; eauto.
    + naive_solver.
    + naive_solver.
    + split; [by intros ?|]. intros (_ & d & [= <-] & Hd). congruence.
    + naive_solver.
    + eexists. split; [|reflexivity]. done.
  - destruct e; simpl; rewrite Hc, ?Ec; split_and!; try done;
      try (eexists; split; [|reflexivity]; done); naive_solver.
Qed.

End EmailClient.

(** ** An endpoint that answers from a script *)
Record ScriptHttp := mkScript { sh_answers : list (res SendExc json); sh_clock : Z }.

#[export] Instance script_http : Http ScriptHttp json := {
  http_post url payload w :=
    match sh_answers w with
    | a :: rest => (mkScript rest (sh_clock w + 1), a)
    | [] => (w, Err (ConnectError "refused"))
    end;
  http_head url w := (w, Ok JNull);
  http_aclose w := (w, Ok tt);
  raise_for_status _ := Ok tt;
  resp_json d := Ok d;
  time_now := sh_clock;
  json_text d := match d with JStr s => s | _ => "" end;
}.

Definition ex_request : EmailAlertRequest :=
  mkRequest "E1" "10.0.0.1" "RMS" "ETCH" "M1" "L1" "RESOURCE_MONITOR" "DISK_CRITICAL" []
    None None None None.

(** A success in another case of letters, a failure, an exception of the body. *)
Example send_alert_example :
  let send s := send_alert false "http://akka/EmailNotify" ex_request s in
  let s0 := (mkScript [Ok (JObj [("result", JStr "SUCCESS")]);
                       Ok (JObj [("result", JStr "Fail")]);
                       Err (HttpxOther "ReadError")] 0, mkClient true []) in
  let '(s1, r1) := send s0 in let '(s2, r2) := send s1 in let '(s3, r3) := send s2 in
  r1 = Ok true ∧ r2 = Ok false ∧ r3 = Err (Raised (HttpxOther "ReadError"))
  ∧ ec_outbox s1.2 = [] ∧ ob_reason <$> ec_outbox s2.2 = ["app_failure"]
  ∧ ec_outbox s3.2 = ec_outbox s2.2.
Proof. vm_compute. repeat split. Qed.
