(* ===== verification/EsQuery.v ===== *)
(** * Elasticsearch queries and their answers ([src/es/queries.py],
    [src/analyzer/es_parser.py], [src/analyzer/metric_resolver.py])

    Query bodies and responses are JSON values.  The keys of a terms aggregation over
    a keyword field are strings; a response with other keys, or with a list or an
    object where a value is expected, is outside of the model and reads as an error. *)
From stdpp Require Import base list sets strings.
From Stdlib Require Import ZArith Lia Ascii.
From S2P Require Import Prelude PyNum PyStr PyTime Json FactCatalog Models.

(** ** Query builder *)
Definition TS_FIELD : string := "EARS_TIMESTAMP".
Definition VALUE_FIELD : string := "EARS_VALUE".
Definition CATEGORY_FIELD : string := "EARS_CATEGORY".
Definition METRIC_FIELD : string := "EARS_METRIC".
Definition PROC_FIELD : string := "EARS_PROCNAME".
Definition EQP_FIELD : string := "EARS_EQPID".

Definition jnum (x : option num) : json := match x with Some x => JFloat x | None => JNull end.

Definition _TERMS_AGG_SIZE : Z := 30000.
Definition _METRIC_TERMS_SIZE : Z := 1000.
Definition _PROC_TERMS_SIZE : Z := 1000.

(** The sub-aggregation of a fact; [None] for the strategies of later phases. *)
Definition fact_sub_agg (fact : Fact) : option json :=
  let ftype := f_type fact in
  match agg_strategy ftype with
  | STAT =>
      name ← STAT_AGG_NAME ftype;
      Some (JObj [(name, JObj [("field", JStr VALUE_FIELD)])])
  | PERCENTILES =>
      pct ← PERCENTILE_OF_FACT ftype;
      Some (JObj [("percentiles",
        JObj [("field", JStr VALUE_FIELD); ("percents", JArr [JInt pct])])])
  | TOP_HITS =>
      Some (JObj [("top_hits",
        JObj [("size", JInt 1);
              ("sort", JArr [JObj [(TS_FIELD, JObj [("order", JStr "desc")])]]);
              ("_source", JArr [JStr VALUE_FIELD])])])
  | FILTER_RANGE =>
      let rng := if decide (f_direction fact = Some above)
                 then JObj [("gte", jnum (f_over fact))]
                 else JObj [("lte", jnum (f_over fact))] in
      Some (JObj [("filter", JObj [("range", JObj [(VALUE_FIELD, rng)])])])
  | _ => None
  end.

Definition build_fact_sub_aggs (facts : list Fact) : list (string * json) :=
  foldl (λ sub fact,
    match fact_sub_agg fact with
    | Some agg => ODict.set (value (f_type fact)) agg sub
    | None => sub
    end) [] facts.

(** The days whose indices the window is searched in. *)
Definition index_days (time_range_minutes now : Z) : list Z :=
  let start := minus_minutes now time_range_minutes in
  if decide (day_of start = day_of now) then [day_of now] else [day_of start; day_of now].

Definition index_name (process : string) (day : Z) : string :=
  lower process +:+ "_all-" +:+ date_str "." day.

Definition index_range (process : string) (time_range_minutes now : Z) : string :=
  join "," (index_name process <$> index_days time_range_minutes now).

(** [None]: the [OverflowError] of a window that begins before the year 1. *)
Definition resolve_index_range (process : string) (time_range_minutes now : Z) : option string :=
  _ ← sub_minutes now time_range_minutes;
  Some (index_range process time_range_minutes now).

Lemma resolve_index_range_Some process window now index :
  resolve_index_range process window now = Some index → index = index_range process window now.
Proof. unfold resolve_index_range. destruct (sub_minutes now window); [by intros [= <-]|done]. Qed.

(** Asked for the window whose indices were just resolved, so it does not overflow. *)
Definition build_time_range_filter (now window_minutes : Z) : json :=
  JObj [("range", JObj [(TS_FIELD, JObj
    [("gte", JStr (isoformat (minus_minutes now window_minutes)));
     ("lte", JStr (isoformat now)); ("format", JStr "strict_date_optional_time")])])].

Section QueryBuilder.
(** [settings.es_keyword_suffix] *)
Context (es_keyword_suffix : string).

Definition keyword_field (base : string) : string := base +:+ es_keyword_suffix.

Definition _cat_field : string := keyword_field CATEGORY_FIELD.
Definition _metric_field : string := keyword_field METRIC_FIELD.
Definition _proc_field : string := keyword_field PROC_FIELD.
Definition _eqp_field : string := keyword_field EQP_FIELD.

(** A terms aggregation [name] around [aggs]. *)
Definition terms_agg (name field : string) (size : Z) (aggs : list (string * json))
  : list (string * json) :=
  [(name, JObj [("terms", JObj [("field", JStr field); ("size", JInt size)]);
                ("aggs", JObj aggs)])].

Definition term (field v : string) : json := JObj [("term", JObj [(field, JStr v)])].
Definition terms (field : string) (vs : list string) : json :=
  JObj [("terms", JObj [(field, JArr (JStr <$> vs))])].

Definition build_metric_aggregation_query (now window_minutes : Z) (category : string)
    (metrics : list string) (proc : string) (facts : list Fact) (expand_instance : bool)
    (eqp_ids : list string) : json :=
  let leaf := build_fact_sub_aggs facts in
  let inner := if expand_instance
               then terms_agg "by_metric" _metric_field _METRIC_TERMS_SIZE leaf else leaf in
  let inner := if decide (proc = "*")
               then terms_agg "by_proc" _proc_field _PROC_TERMS_SIZE inner else inner in
  let filters :=
    [build_time_range_filter now window_minutes; term _cat_field category]
    ++ (if decide (metrics = []) then [] else [terms _metric_field metrics])
    ++ (if decide (proc = "*") then [] else [term _proc_field proc])
    ++ (if decide (eqp_ids = []) then [] else [terms _eqp_field eqp_ids]) in
  JObj [("size", JInt 0);
        ("query", JObj [("bool", JObj [("filter", JArr filters)])]);
        ("aggs", JObj (terms_agg "by_eqp" _eqp_field _TERMS_AGG_SIZE inner))].
End QueryBuilder.

(** ** Parser *)

(** A JSON scalar as a metric value; a [bool] is an [int]. *)
Definition to_value (x : json) : res ShapeError (option Value) :=
  match x with
  | JNull => Ok None
  | JInt z => Ok (Some (VNum (num_of_Z z)))
  | JFloat x => Ok (Some (VNum x))
  | JBool b => Ok (Some (VNum (num_of_Z (if b then 1 else 0))))
  | JStr s => Ok (Some (VStr s))
  | _ => Err TypeErr
  end.

(** [hits[0]] of a non-empty [hits], [None] when [not hits]. *)
Definition first_hit (hits : json) : res ShapeError (option json) :=
  match hits with
  | JArr [] | JObj [] | JStr "" | JNull | JBool false => Ok None
  | JArr (h :: _) => Ok (Some h)
  | JObj _ => Err (KeyError "0")
  | JStr (String c _) => Ok (Some (JStr (String c "")))
  | JInt z => if decide (z = 0%Z) then Ok None else Err TypeErr
  | JFloat x => if num_eqb x (num_of_Z 0) then Ok None else Err TypeErr
  | JBool true => Err TypeErr
  end.

Definition percentile_keys (pct : Z) : list string :=
  [str_Z pct +:+ ".0"; str_Z pct +:+ ".0"; str_Z pct].

Fixpoint first_key (keys : list string) (values : json) : res ShapeError json :=
  match keys with
  | [] => Ok JNull
  | key :: keys =>
      b ← jin key values;
      if (b : bool) then jindex key values else first_key keys values
  end.

Definition _read_fact (bucket : json) (fact : Fact) : res ShapeError json :=
  sub ← jget (value (f_type fact)) JNull bucket;
  match sub with
  | JNull => Ok JNull
  | _ =>
      match agg_strategy (f_type fact) with
      | STAT => jget "value" JNull sub
      | FILTER_RANGE => jget "doc_count" JNull sub
      | PERCENTILES =>
          values ← jget "values" (JObj []) sub;
          match PERCENTILE_OF_FACT (f_type fact) with
          | Some pct => first_key (percentile_keys pct) values
          | None => Err (KeyError (value (f_type fact)))
          end
      | TOP_HITS =>
          hits ← jget "hits" (JObj []) sub;
          hits ← jget "hits" (JArr []) hits;
          hit ← first_hit hits;
          match hit with
          | None => Ok JNull
          | Some h => source ← jget "_source" (JObj []) h; jget VALUE_FIELD JNull source
          end
      | _ => Ok JNull
      end
  end.

(** The values of the facts of one target, one per metric instance. *)
Notation FactValues := (list (string * list (option Value))).
Notation Target := (string * string)%type.

Definition append_fact (inst : json) (d : FactValues) (fact : Fact)
  : res ShapeError FactValues :=
  x ← _read_fact inst fact;
  v ← to_value x;
  let name := value (f_type fact) in
  Ok (ODict.set name (default [] (ODict.get name d) ++ [v]) d).

Definition fact_values (facts : list Fact) (inst_buckets : list json)
  : res ShapeError FactValues :=
  fold_res (λ d inst, fold_res (append_fact inst) facts d) inst_buckets
    (ODict.of_list ((λ f, (value (f_type f), [])) <$> facts)).

Definition key_of (bucket : json) : res ShapeError string :=
  k ← jindex "key" bucket;
  match k with JStr s => Ok s | _ => Err TypeErr end.

(** [x.get("buckets", [])] *)
Definition buckets_of (x : json) : res ShapeError (list json) :=
  l ← jget "buckets" (JArr []) x; jiter l.

Definition parse_proc_bucket (facts : list Fact) (expand_instance : bool) (eqp : string)
    (result : list (Target * FactValues)) (proc_bucket : json)
  : res ShapeError (list (Target * FactValues)) :=
  pkey ← key_of proc_bucket;
  grouped ← (if expand_instance then jin "by_metric" proc_bucket else Ok false);
  inst_buckets ← (if (grouped : bool) then jindex "by_metric" proc_bucket ≫= buckets_of
                  else Ok [proc_bucket]);
  vals ← fact_values facts inst_buckets;
  Ok (ODict.set (eqp, pkey) vals result).

Definition parse_eqp_bucket (facts : list Fact) (proc : string) (expand_instance : bool)
    (result : list (Target * FactValues)) (eqp_bucket : json)
  : res ShapeError (list (Target * FactValues)) :=
  eqp ← key_of eqp_bucket;
  grouped ← jin "by_proc" eqp_bucket;
  proc_buckets ← (if (grouped : bool) then jindex "by_proc" eqp_bucket ≫= buckets_of
                  else b ← jupdate "key" (JStr proc) eqp_bucket; Ok [b]);
  fold_res (parse_proc_bucket facts expand_instance eqp) proc_buckets result.

Definition parse_metric_aggregation (response : json) (facts : list Fact) (proc : string)
    (expand_instance : bool) : res ShapeError (list (Target * FactValues)) :=
  aggs ← jget "aggregations" (JObj []) response;
  by_eqp ← jget "by_eqp" (JObj []) aggs;
  buckets ← buckets_of by_eqp;
  fold_res (parse_eqp_bucket facts proc expand_instance) buckets [].

(** ** Metric patterns: [fnmatch.fnmatch] on a POSIX system *)

(** The items of a bracket expression, from left to right: a range or a character. *)
Fixpoint in_class (fuel : nat) (items : list ascii) (c : ascii) : bool :=
  match fuel with
  | O => false
  | S fuel =>
      match items with
      | [] => false
      | lo :: dash :: hi :: rest =>
          if decide (dash = "-"%char) then
            (bool_decide (nat_of_ascii lo ≤ nat_of_ascii c ≤ nat_of_ascii hi)
             || in_class fuel rest c)
          else bool_decide (c = lo) || in_class fuel (dash :: hi :: rest) c
      | x :: rest => bool_decide (c = x) || in_class fuel rest c
      end
  end.

Definition class_matches (stuff : list ascii) (c : ascii) : bool :=
  match stuff with
  | b :: items =>
      if decide (b = "!"%char) then negb (in_class (length items) items c)
      else in_class (length stuff) stuff c
  | [] => false
  end.

(** The text of a bracket expression up to its closing bracket, and what follows. *)
Fixpoint to_bracket (l : list ascii) : option (list ascii * list ascii) :=
  match l with
  | [] => None
  | c :: l' => if decide (c = "]"%char) then Some ([], l')
               else prod_map (cons c) id <$> to_bracket l'
  end.

(** A [!] and a [\]] that come first do not close it. *)
Definition bracket_of (l : list ascii) : option (list ascii * list ascii) :=
  let '(bang, l1) := match l with
                     | c :: l' => if decide (c = "!"%char) then ([c], l') else ([], l)
                     | [] => ([], l) end in
  let '(first, l2) := match l1 with
                      | c :: l' => if decide (c = "]"%char) then ([c], l') else ([], l1)
                      | [] => ([], l1) end in
  prod_map (app (bang ++ first)) id <$> to_bracket l2.

(** The match of a text with a pattern; every call drops a character of either, so
    their lengths are fuel enough. *)
Fixpoint fnmatch_fuel (fuel : nat) (name pat : list ascii) : bool :=
  match fuel with
  | O => false
  | S fuel =>
      match pat with
      | [] => bool_decide (name = [])
      | p :: pat' =>
          if decide (p = "*"%char) then
            fnmatch_fuel fuel name pat'
            || match name with [] => false | _ :: name' => fnmatch_fuel fuel name' pat end
          else
            match name with
            | [] => false
            | c :: name' =>
                if decide (p = "?"%char) then fnmatch_fuel fuel name' pat'
                else if decide (p = "["%char) then
                  match bracket_of pat' with
                  | Some (stuff, rest) => class_matches stuff c && fnmatch_fuel fuel name' rest
                  | None => bool_decide (c = p) && fnmatch_fuel fuel name' pat'
                  end
                else bool_decide (c = p) && fnmatch_fuel fuel name' pat'
            end
      end
  end.

Definition fnmatch (name pat : string) : bool :=
  fnmatch_fuel (S (byte_len name + byte_len pat)) (chars name) (chars pat).

Definition resolve_metric_patterns (patterns available_metrics : list string)
  : list (string * list string) :=
  ODict.of_list ((λ pattern,
    (pattern, filter (λ m, fnmatch m pattern = true) available_metrics)) <$> patterns).

Example fnmatch_examples :
  (λ p, fnmatch "C:_used_pct" p) <$> ["*_used_pct"; "[A-D]:*"; "[!D]:*pct"; "?:_free*"; "[C"; "c*"]
  = [true; true; true; false; false; false].
Proof. vm_compute. reflexivity. Qed.

(** ** Properties *)

(** C32: The indices of a window hold the rows of every instant of it exactly when it
    touches at most two days of the UTC calendar, as every window of up to a day
    does; of a longer window the days between the first and the last are left out,
    and the rows of those days are not seen.  A window that begins before the year 1
    raises. *)
Theorem index_range_covers process window now :
  (0 ≤ window)%Z →
  let start := minus_minutes now window in
  let searched := index_name process <$> index_days window now in
  resolve_index_range process window now =
    (if decide (MIN_DATETIME ≤ start ≤ MAX_DATETIME)%Z then Some (join "," searched) else None) ∧
  ((∀ u, (start ≤ u ≤ now)%Z → day_of u ∈ index_days window now)
   ↔ (day_of now ≤ day_of start + 1)%Z) ∧
  ((window ≤ 1440)%Z → ∀ u, (start ≤ u ≤ now)%Z → index_name process (day_of u) ∈ searched) ∧
  (∀ d, (day_of start < d < day_of now)%Z →
     d ∉ index_days window now ∧ ∃ u, (start ≤ u ≤ now)%Z ∧ day_of u = d).
Proof.
  intros Hw start searched.
  assert (start ≤ now)%Z as Hle by (unfold start, minus_minutes, US_PER_MINUTE; lia).
  pose proof (day_of_mono _ _ Hle) as Hd.
  assert (∀ d, d ∈ index_days window now ↔ d = day_of start ∨ d = day_of now) as Hin.
  { intros d. unfold index_days. fold start. case_decide as E; [rewrite E|]; set_solver. }
  assert ((∀ u, (start ≤ u ≤ now)%Z → day_of u ∈ index_days window now)
          ↔ (day_of now ≤ day_of start + 1)%Z) as Hcov.
  { split.
    - intros Hall. destruct (decide (day_of now ≤ day_of start + 1)%Z); [done|].
      destruct (day_between start now (day_of start + 1)) as (u & Hu & Eu); [done|lia|].
      apply Hall, Hin in Hu. lia.
    - intros Hnow u [H1%day_of_mono H2%day_of_mono]. apply Hin. lia. }
  split_and!; [|done| |].
  { unfold resolve_index_range, sub_minutes. fold start. by destruct (decide _). }
  - intros Hday u Hu. apply list_elem_of_fmap_2. apply Hcov; [|done].
    unfold start, day_of, minus_minutes, US_PER_MINUTE, US_PER_DAY.
    pose proof (Z.div_le_mono now (now - window * 60000000 + 86400000000) 86400000000
      ltac:(lia) ltac:(lia)) as Hm.
    rewrite <-(Z.div_add _ 1) by lia. by rewrite Z.mul_1_l.
  - intros d Hb. rewrite Hin. split; [lia|]. apply day_between; [done|lia].
Qed.

Lemma index_range_covers_witness :
  resolve_index_range "ETCH" 15 1781484300000000 = Some "etch_all-2026.06.15"
  ∧ day_of 1781395200000000 ∉ index_days 2880 1781484300000000.
Proof.
  destruct (index_range_covers "ETCH" 15 1781484300000000 ltac:(lia)) as [-> _].
  destruct (index_range_covers "ETCH" 2880 1781484300000000 ltac:(lia)) as (_ & _ & _ & Hd).
  split; [vm_compute; reflexivity|]. apply Hd. vm_compute. done.
Defined.

(** ** The targets of an answer *)

(** The keys of the equipment buckets of a response. *)
Definition eqp_keys (response : json) : list string :=
  match (aggs ← jget "aggregations" (JObj []) response;
         by_eqp ← jget "by_eqp" (JObj []) aggs;
         buckets_of by_eqp) with
  | Ok buckets => omap (λ b, match key_of b with Ok k => Some k | Err _ => None end) buckets
  | Err _ => []
  end.

Lemma fold_res_inv {E A B} (f : B → A → res E B) (P : B → Prop) l b b' :
  P b → (∀ x c c', x ∈ l → P c → f c x = Ok c' → P c') → fold_res f l b = Ok b' → P b'.
Proof.
  revert b. induction l as [|x l IH]; intros b Hb Hf; simpl; [by intros [= <-]|].
  destruct (f b x) as [c|] eqn:Ef; simpl; [|done]. apply IH.
  - by eapply Hf; [left| |].
  - intros y c1 c2 Hy. apply Hf. by right.
Qed.

Lemma parse_targets response facts proc expand t :
  parse_metric_aggregation response facts proc expand = Ok t →
  ∀ tg, tg ∈ t.*1 → tg.1 ∈ eqp_keys response.
Proof.
  unfold parse_metric_aggregation, eqp_keys.
  destruct (jget "aggregations" _ response) as [aggs|]; simpl; [|done].
  destruct (jget "by_eqp" _ aggs) as [by_eqp|]; simpl; [|done].
  destruct (buckets_of by_eqp) as [buckets|]; simpl; [|done].
  apply (fold_res_inv _ (λ r, ∀ tg, tg ∈ r.*1 → tg.1 ∈ omap _ buckets)); [set_solver|].
  intros b r r' Hb Hr. unfold parse_eqp_bucket.
  destruct (key_of b) as [eqp|] eqn:Ek; simpl; [|done].
  destruct (jin _ b) as [g|]; simpl; [|done].
  destruct (if g then _ else _) as [pbs|]; simpl; [|done].
  apply (fold_res_inv _ (λ r, ∀ tg, tg ∈ r.*1 → tg.1 ∈ omap _ buckets)); [done|].
  intros pb c c' _ Hc. unfold parse_proc_bucket.
  destruct (key_of pb) as [pkey|]; simpl; [|done].
  destruct (if expand then _ else _) as [g'|]; simpl; [|done].
  destruct (if g' then _ else _) as [insts|]; simpl; [|done].
  destruct (fact_values facts insts) as [vals|]; simpl; [|done]. intros [= <-] tg.
  rewrite ODict.elem_of_set_keys. intros [->|Htg]; [|by apply Hc].
  apply list_elem_of_omap. exists b. by rewrite Ek.
Qed.
