(* ===== verification/EsClient.v ===== *)
(** * ESClient: the Elasticsearch client and its lookup caches ([src/es/client.py])

    [AsyncElasticsearch] is the class [EsApi]; a lookup is a function on the pair of the
    cluster and the client object.  [EsState] has the four caches of the object, over
    two implementations of [Cache.TTLCache]. *)
From stdpp Require Import base list strings gmap.
From Stdlib Require Import ZArith Lia.
From S2P Require Import Prelude PyNum PyStr Json Cache FactCatalog Models EsQuery.
Local Open Scope se_scope.

Inductive EsExc : Type := NotFoundError | EsError (msg : string) | KeyError (key : string).

Class EsApi (W : Type) := {
  es_search_api : string → json → SE W EsExc json;
  es_get_mapping : string → SE W EsExc json;
  es_ping : SE W EsExc bool;
  es_api_close : SE W EsExc unit;
  (** the timer of the caches, in seconds, and the world when it is read next *)
  es_timer : W → Z;
  es_later : W → W;
}.

Definition _INTROSPECT_POSITIVE_TTL : Z := 600.
Definition _INTROSPECT_NEGATIVE_TTL : Z := 300.
Definition _METRIC_NAMES_TERMS_SIZE : Z := 1000.

Section ESClient.
(** [CT]: the cache of field types, [CL]: of metric names, [CB]: of negative marks *)
Context {W CT CL CB : Type}.
Context `{!EsApi W, !TTLCache CT string, !TTLCache CL (list string), !TTLCache CB bool}.
Context (es_keyword_suffix : string).

Record EsState := mkEs
  { es_connected : bool; _field_types : CT; _introspect_negative : CB;
    _metric_names_positive : CL; _metric_names_negative : CB }.

Definition ES (A : Type) : Type := SE (W * EsState) EsExc A.

Definition es_init : EsState := mkEs false cache_empty cache_empty cache_empty cache_empty.

Definition with_connected (b : bool) (c : EsState) : EsState :=
  mkEs b (_field_types c) (_introspect_negative c) (_metric_names_positive c)
    (_metric_names_negative c).
Definition with_field_type (now : Z) (k v : string) (c : EsState) : EsState :=
  mkEs (es_connected c) (cache_set now k v (_field_types c)) (_introspect_negative c)
    (_metric_names_positive c) (_metric_names_negative c).
Definition with_no_field (now : Z) (k : string) (c : EsState) : EsState :=
  mkEs (es_connected c) (_field_types c) (cache_set now k true (_introspect_negative c))
    (_metric_names_positive c) (_metric_names_negative c).
Definition with_names (now : Z) (k : string) (l : list string) (c : EsState) : EsState :=
  mkEs (es_connected c) (_field_types c) (_introspect_negative c)
    (cache_set now k l (_metric_names_positive c)) (_metric_names_negative c).
Definition with_no_names (now : Z) (k : string) (c : EsState) : EsState :=
  mkEs (es_connected c) (_field_types c) (_introspect_negative c)
    (_metric_names_positive c) (cache_set now k true (_metric_names_negative c)).

Definition es_call {A} (op : SE W EsExc A) : ES A := λ s,
  let '(w', r) := op s.1 in ((w', s.2), r).

(** A change of the object that reads the timer of the moment. *)
Definition es_modify (f : Z → EsState → EsState) : ES unit :=
  se_modify (λ s, (s.1, f (es_timer s.1) s.2)).

(** A lookup in a cache reads the timer anew. *)
Definition timed {A} (f : Z → EsState → A) : ES A := λ s,
  let w := es_later s.1 in ((w, s.2), Ok (f (es_timer w) s.2)).

(** [if key in cache: ... cache[key]]: two readings, and a [KeyError] when the entry
    expires between them. *)
Definition cached {V} (key : string) (get : Z → EsState → option V) : ES (option V) :=
  found <- timed get ;;
  if decide (is_Some found) then
    value <- timed get ;;
    match value with Some v => se_ret (Some v) | None => se_raise (KeyError key) end
  else se_ret None.

(** [self.client]: a [RuntimeError] before [connect]. *)
Definition client : ES unit :=
  c <- se_gets (λ s, es_connected s.2) ;;
  if (c : bool) then se_ret tt
  else se_raise (EsError "ESClient.connect() must be called first").

(** Reading a response of another shape raises. *)
Definition read {A} (r : res ShapeError A) : ES A := λ s,
  (s, match r with Ok a => Ok a | Err _ => Err (EsError "shape") end).

Definition ping : ES bool :=
  c <- se_gets (λ s, es_connected s.2) ;;
  if negb c then se_ret false
  else se_catch (es_call es_ping) (λ _, se_ret false).

Definition connect : ES unit :=
  es_modify (λ _, with_connected true) ;;;
  ok <- ping ;;
  if negb ok then se_raise (EsError "es_startup_ping_failed") else se_ret tt.

Definition close : ES unit :=
  c <- se_gets (λ s, es_connected s.2) ;;
  if negb c then se_ret tt
  else
    se_catch (es_call es_api_close) (λ _, se_ret tt) ;;;
    es_modify (λ _, with_connected false).

(** [props[field].get("type", "text")] of the first index that has the field. *)
Fixpoint first_field_type (indices : list json) (field : string)
  : res ShapeError (option string) :=
  match indices with
  | [] => Ok None
  | idx_data :: rest =>
      mappings ← jget "mappings" (JObj []) idx_data;
      props ← jget "properties" (JObj []) mappings;
      found ← jin field props;
      if (found : bool) then
        p ← jindex field props;
        t ← jget "type" (JStr "text") p;
        match t with JStr t => Ok (Some t) | _ => Err TypeErr end
      else first_field_type rest field
  end.

Definition json_values (x : json) : res ShapeError (list json) :=
  match x with JObj o => Ok o.*2 | _ => Err AttributeError end.

(** The two caches come first; a failure of any kind of the request, and a field nowhere
    mapped, is remembered as unknown. *)
Definition introspect_field_type (index_pattern field : string) : ES string :=
  let cache_key := index_pattern +:+ ":" +:+ field in
  pos <- cached cache_key (λ now c, cache_get now cache_key (_field_types c)) ;;
  match pos with
  | Some t => se_ret t
  | None =>
      neg <- timed (λ now c, cache_get now cache_key (_introspect_negative c)) ;;
      if decide (is_Some neg) then se_ret "unknown"
      else
        found <- se_catch
          (client ;;;
           mapping <- es_call (es_get_mapping index_pattern) ;;
           t <- read (indices ← json_values mapping; first_field_type indices field) ;;
           match t with
           | Some t => es_modify (λ now, with_field_type now cache_key t) ;;; se_ret (Some t)
           | None => se_ret None
           end)
          (λ _, se_ret None) ;;
        match found with
        | Some t => se_ret t
        | None => es_modify (λ now, with_no_field now cache_key) ;;; se_ret "unknown"
        end
  end.

Definition metric_names_query (category proc : string) : json :=
  let filters := term (keyword_field es_keyword_suffix CATEGORY_FIELD) category ::
    (if decide (proc = "*") then []
     else [term (keyword_field es_keyword_suffix PROC_FIELD) proc]) in
  JObj [("size", JInt 0);
        ("query", JObj [("bool", JObj [("filter", JArr filters)])]);
        ("aggs", JObj [("metrics", JObj [("terms",
           JObj [("field", JStr (keyword_field es_keyword_suffix METRIC_FIELD));
                 ("size", JInt _METRIC_NAMES_TERMS_SIZE)])])])].

(** [sorted(b["key"] for b in buckets)] *)
Definition names_of (resp : json) : res ShapeError (list string) :=
  aggs ← jget "aggregations" (JObj []) resp;
  metrics ← jget "metrics" (JObj []) aggs;
  buckets ← buckets_of metrics;
  keys ← mapM key_of buckets;
  Ok (sort_by str_leb keys).

Definition names_key (index_pattern category proc : string) : string :=
  index_pattern +:+ ":" +:+ category +:+ ":" +:+ proc.

(** The search of a cache miss; [None] for a failure of any kind. *)
Definition search_names (index_pattern category proc : string) : ES (option (list string)) :=
  se_catch
    (client ;;;
     resp <- es_call (es_search_api index_pattern (metric_names_query category proc)) ;;
     result <- read (names_of resp) ;;
     es_modify (λ now, with_names now (names_key index_pattern category proc) result) ;;;
     se_ret (Some result))
    (λ _, se_ret None).

Definition get_metric_names (index_pattern category proc : string) : ES (list string) :=
  let cache_key := names_key index_pattern category proc in
  pos <- cached cache_key (λ now c, cache_get now cache_key (_metric_names_positive c)) ;;
  match pos with
  | Some l => se_ret l
  | None =>
      neg <- timed (λ now c, cache_get now cache_key (_metric_names_negative c)) ;;
      if decide (is_Some neg) then se_ret []
      else
        found <- search_names index_pattern category proc ;;
        match found with
        | Some result => se_ret result
        | None => es_modify (λ now, with_no_names now cache_key) ;;; se_ret []
        end
  end.

(** ** Properties *)
Context (types : CT → gmap string (string * Z)) (names : CL → gmap string (list string * Z))
  (marks : CB → gmap string (bool * Z)).
Context `{!TTLCacheLaws CL (list string) _INTROSPECT_POSITIVE_TTL names,
          !TTLCacheLaws CB bool _INTROSPECT_NEGATIVE_TTL marks}.
(** The timer does not go back. *)
Context (later_timer : ∀ w, (es_timer w ≤ es_timer (es_later w))%Z).

(** What the cluster answers to a search for the names. *)
Definition names_answer (index_pattern category proc : string) (w : W)
  : option (list string) :=
  match (es_search_api index_pattern (metric_names_query category proc) w).2 with
  | Ok resp => match names_of resp with Ok l => Some l | Err _ => None end
  | Err _ => None
  end.

Lemma search_names_spec ip cat pr (s : W * EsState) :
  es_connected s.2 = true →
  let '(s', r) := search_names ip cat pr s in
  r = Ok (names_answer ip cat pr s.1) ∧
  s'.1 = (es_search_api ip (metric_names_query cat pr) s.1).1 ∧
  s'.2 = match names_answer ip cat pr s.1 with
         | Some l => with_names (es_timer s'.1) (names_key ip cat pr) l s.2
         | None => s.2
         end.
Proof.
  intros Hc. unfold search_names, names_answer, se_catch, client, es_call, read, es_modify.
  unfold se_bind, se_gets, se_modify, se_ret. rewrite Hc. simpl.
  destruct (es_search_api _ _ s.1) as [w [resp|e]]; simpl; [|done].
  by destruct (names_of resp).
Qed.

(** The part of [get_metric_names] after the caches, as a function of what they hold. *)
Lemma get_metric_names_eq ip cat pr (s : W * EsState) :
  get_metric_names ip cat pr s =
  let key := names_key ip cat pr in
  let w1 := es_later s.1 in
  let w2 := es_later w1 in
  match cache_get (es_timer w1) key (_metric_names_positive s.2),
        cache_get (es_timer w2) key (_metric_names_positive s.2),
        cache_get (es_timer w2) key (_metric_names_negative s.2) with
  | Some _, Some l, _ => ((w2, s.2), Ok l)
  | Some _, None, _ => ((w2, s.2), Err (KeyError key))
  | None, _, Some _ => ((w2, s.2), Ok [])
  | None, _, None =>
      (found <- search_names ip cat pr ;;
       match found with
       | Some result => se_ret result
       | None => es_modify (λ now, with_no_names now key) ;;; se_ret []
       end) (w2, s.2)
  end.
Proof.
  unfold get_metric_names, cached, timed, se_bind, se_ret, se_raise. cbn [fst snd].
  destruct (cache_get _ _ (_metric_names_positive _)) as [l|]; cbn [fst snd].
  - rewrite decide_True by eauto. cbn [fst snd]. by destruct (cache_get _ _ _).
  - rewrite decide_False by (by intros []). cbn [fst snd].
    destruct (cache_get _ _ (_metric_names_negative _)) as [b|]; cbn [fst snd].
    + by rewrite decide_True by eauto.
    + by rewrite decide_False by (by intros []).
Qed.

(** An entry that has expired stays so. *)
Lemma cache_get_expired {C V} `{!TTLCache C V} ttl entries `{!TTLCacheLaws C V ttl entries}
    now now' k (c : C) :
  cache_get now k c = None → (now ≤ now')%Z → cache_get now' k c = None.
Proof.
  rewrite !cache_get_spec. intros Hn Hle. destruct (entries c !! k) as [[v t]|]; [|done].
  repeat case_bool_decide; try done. lia.
Qed.

Lemma cache_get_fresh {C V} `{!TTLCache C V} ttl entries `{!TTLCacheLaws C V ttl entries}
    now now' k v (c : C) :
  (now' < now + ttl)%Z → cache_get now' k (cache_set now k v c) = Some v.
Proof. intros Ht. rewrite cache_get_spec, entries_set_eq. by rewrite bool_decide_true. Qed.

(** C31: What a connected [get_metric_names] answers.  It looks into its caches, with two
    readings of the timer.  It raises in one case only, a [KeyError]: an entry is found
    and has expired when it is read.  A live entry answers without a search.  Otherwise it
    searches, and answers the names of the cluster, or none when anything fails; from then
    on the same call gives the same answer without a search, as long as its readings are
    less than ten minutes after the write of a success, and five of a failure. *)
Theorem get_metric_names_spec ip cat pr (s : W * EsState) :
  es_connected s.2 = true →
  let '(s', r) := get_metric_names ip cat pr s in
  let key := names_key ip cat pr in
  let w1 := es_later s.1 in
  let w2 := es_later w1 in
  match cache_get (es_timer w1) key (_metric_names_positive s.2),
        cache_get (es_timer w2) key (_metric_names_positive s.2),
        cache_get (es_timer w2) key (_metric_names_negative s.2) with
  | Some _, Some l, _ => r = Ok l ∧ s' = (w2, s.2)
  | Some _, None, _ => r = Err (KeyError key) ∧ s' = (w2, s.2)
  | None, _, Some _ => r = Ok [] ∧ s' = (w2, s.2)
  | None, _, None =>
      let ans := names_answer ip cat pr w2 in
      r = Ok (default [] ans) ∧ s'.1 = (es_search_api ip (metric_names_query cat pr) w2).1 ∧
      ∀ w, (es_timer w1 ≤ es_timer w)%Z →
        (es_timer (es_later (es_later w)) <
          es_timer s'.1 + if decide (is_Some ans) then 600 else 300)%Z →
        get_metric_names ip cat pr (w, s'.2) = ((es_later (es_later w), s'.2), r)
  end.
Proof.
  intros Hc. rewrite get_metric_names_eq. cbv zeta.
  set (w1 := es_later s.1). set (w2 := es_later w1). set (key := names_key ip cat pr).
  destruct (cache_get (es_timer w1) key (_metric_names_positive s.2)) as [l|] eqn:Ep;
    [by destruct (cache_get (es_timer w2) key (_metric_names_positive s.2))|].
  destruct (cache_get (es_timer w2) key (_metric_names_negative s.2)) as [b|] eqn:En; [done|].
  pose proof (search_names_spec ip cat pr (w2, s.2) Hc) as Hs. unfold se_bind at 1.
  destruct (search_names ip cat pr (w2, s.2)) as [s1 r1]. destruct Hs as (-> & Hw & Hs2). simpl in *.
  destruct (names_answer ip cat pr w2) as [l|]; unfold es_modify, se_modify, se_bind, se_ret; simpl;
    (split; [done|]); (split; [done|]); intros w Hle Hlt; rewrite get_metric_names_eq; cbn [fst snd];
    rewrite Hs2; cbn [_metric_names_positive _metric_names_negative with_names with_no_names];
    fold key; pose proof (later_timer w); pose proof (later_timer (es_later w)).
  - by rewrite !(cache_get_fresh _INTROSPECT_POSITIVE_TTL names)
      by (unfold _INTROSPECT_POSITIVE_TTL; lia).
  - rewrite (cache_get_expired _INTROSPECT_POSITIVE_TTL names (es_timer w1)) by (done || lia).
    by rewrite (cache_get_fresh _INTROSPECT_NEGATIVE_TTL marks).
Qed.
End ESClient.

(** ** A cluster with fixed answers *)
Record FixedEs := mkFixedEs { fe_answer : res EsExc json; fe_timer : Z }.
#[export] Instance fixed_es : EsApi FixedEs := {
  es_search_api index body w := (w, fe_answer w);
  es_get_mapping index w := (w, fe_answer w);
  es_ping w := (w, Ok true);
  es_api_close w := (w, Ok tt);
  es_timer := fe_timer;
  es_later w := mkFixedEs (fe_answer w) (fe_timer w + 1);
}.

#[local] Instance ex_types : TTLCache (MapCache string) string := map_cache_ops 600.
#[local] Instance ex_names : TTLCache (MapCache (list string)) (list string) := map_cache_ops 600.
#[local] Instance ex_marks : TTLCache (MapCache bool) bool := map_cache_ops 300.
#[local] Instance ex_names_laws :
  TTLCacheLaws (MapCache (list string)) (list string) 600 map_cache := map_cache_laws 600.
#[local] Instance ex_marks_laws : TTLCacheLaws (MapCache bool) bool 300 map_cache :=
  map_cache_laws 300.

Definition ex_bucket (name : string) : json := JObj [("key", JStr name); ("doc_count", JInt 3)].
Definition ex_names_response : json :=
  JObj [("aggregations", JObj [("metrics", JObj [("buckets",
    JArr [ex_bucket "D:_used_pct"; ex_bucket "C:_used_pct"])])])].
Definition ex_es (r : res EsExc json) :
  FixedEs * @EsState (MapCache string) (MapCache (list string)) (MapCache bool) :=
  (mkFixedEs r 1000, with_connected true es_init).

(** The names of the answer, still given by a cluster that is down until the last reading
    within ten minutes of it. *)
Lemma get_metric_names_spec_witness :
  let '(s', r) := get_metric_names ".keyword" "etch_all-2026.06.15" "disk" "@system"
                    (ex_es (Ok ex_names_response)) in
  r = Ok ["C:_used_pct"; "D:_used_pct"] ∧
  (get_metric_names ".keyword" "etch_all-2026.06.15" "disk" "@system"
    (mkFixedEs (Err NotFoundError) 1599, s'.2)).2 = r.
Proof.
  assert (∀ w : FixedEs, (es_timer w ≤ es_timer (es_later w))%Z) as Hlater by (intros w; simpl; lia).
  pose proof (get_metric_names_spec ".keyword" map_cache map_cache Hlater "etch_all-2026.06.15" "disk"
    "@system" (ex_es (Ok ex_names_response)) eq_refl) as Hx.
  assert (es_timer (get_metric_names ".keyword" "etch_all-2026.06.15" "disk" "@system"
    (ex_es (Ok ex_names_response))).1.1 = 1002%Z) as Ht by (vm_compute; reflexivity).
  destruct (get_metric_names _ _ _ _ _) as [s' r]. destruct Hx as (-> & _ & Hagain).
  split; [vm_compute; reflexivity|].
  rewrite (Hagain (mkFixedEs (Err NotFoundError) 1599)); [reflexivity|vm_compute; discriminate|].
  change (es_timer s'.1 = 1002%Z) in Ht. rewrite Ht. vm_compute. reflexivity.
Defined.

(** One second later the entry is found, and has expired when it is read. *)
Example expires_between_readings :
  let s' := (get_metric_names ".keyword" "etch_all-2026.06.15" "disk" "@system"
               (ex_es (Ok ex_names_response))).1 in
  (get_metric_names ".keyword" "etch_all-2026.06.15" "disk" "@system"
    (mkFixedEs (Ok ex_names_response) 1600, s'.2)).2
  = Err (KeyError "etch_all-2026.06.15:disk:@system").
Proof. vm_compute. reflexivity. Qed.
