(* ===== verification/Engine.v ===== *)
(** * AnalysisEngine: one tick of a process and an interval ([src/analyzer/engine.py])

    What the engine is given ([deps]) is the class [Deps]; the laws its clients prove
    about and what implements it are stated with it.  A method is a function on the
    state of the dependencies and a log of what the engine did: the mails it tried,
    their answers, the cooldowns it set and the counters it moved. *)
From stdpp Require Import base list sets strings.
From Stdlib Require Import ZArith Lia.
From S2P Require Import Prelude PyNum PyStr PyTime Json FactCatalog Models Renderer Threshold.
From S2P Require Import Repository Cooldown AlertBuilder EsQuery.
Local Open Scope se_scope.

Inductive EngineError : Type :=
| CallFailed (name : string)  (** an exception of a dependency *)
| MissingKey (k : string)
| BadResponse (e : ShapeError)
| EvalFailed (e : EvalError)
| OverflowError
| BadDecimal (e : DecimalError).

Class Deps (W : Type) := {
  get_equipment : string → SE W EngineError (list EqpInfo);
  resolve : string → string → string → SE W EngineError (option MonitorProfile);
  metric_names : string → string → string → SE W EngineError (list string);
  es_search : string → json → SE W EngineError json;
  cooling_batch : list Check → SE W EngineError (list (Check * bool));
  cooldown_set : Check → Z → SE W EngineError unit;
  template_of : TemplateKey → SE W EngineError (option Template);
  send_mail : EmailAlertRequest → SE W EngineError bool;
  (** [datetime.now(UTC)], in microseconds *)
  utc_now : W → Z;
}.

Inductive Event : Type :=
| EvResolved (eqp_id : string) (profile : MonitorProfile)
| EvBreach (fact : string) (severity : Severity)
| EvSuppressed (fact : string) (severity : Severity)
| EvMail (key : Check) (alert : EmailAlertRequest)
| EvAnswer (key : Check) (sent : bool)
| EvCooldown (key : Check) (minutes : Z)
| EvSent (code subcode : string)
| EvSearched.  (** a search was answered *)

Record _Pending := mkPending
  { pd_breach : ThresholdBreach; pd_notify_name : string; pd_channel : NotifyChannel;
    pd_window_minutes : Z }.

Notation Target := (string * string)%type.
Notation FactValues := (list (string * list (option Value))).

Section Engine.
Context {W : Type} `{!Deps W, !SetIter}.
Context (settings : AlertSettings) (es_keyword_suffix : string).
(** [pydantic]'s reading of a string as a float, and the digest of the canonical
    text of a signature payload *)
Context (pydantic_float : string → option num).
Context (digest : bool * list Measure * list Rule * list (string * NotifyChannel) → string).

Definition EN (A : Type) : Type := SE (W * list Event) EngineError A.

(** [await self._deps.op(...)] *)
Definition dep {A} (op : SE W EngineError A) : EN A := λ s,
  let '(w', r) := op s.1 in ((w', s.2), r).

Definition emit (e : Event) : EN unit := se_modify (λ s, (s.1, s.2 ++ [e])).

Definition lift_res {A} (r : res EngineError A) : EN A := λ s, (s, r).

(** [for x in l: acc = body(acc, x)] *)
Fixpoint fold_se {A B} (body : B → A → EN B) (l : list A) (acc : B) : EN B :=
  match l with
  | [] => se_ret acc
  | x :: l' => acc' <- body acc x ;; fold_se body l' acc'
  end.

Fixpoint iter_se {A} (body : A → EN unit) (l : list A) : EN unit :=
  match l with
  | [] => se_ret tt
  | x :: l' => body x ;;; iter_se body l'
  end.

Definition effective_signature (p : MonitorProfile) : string := digest (signature_payload p).

(** ** Measures *)
Definition shape {A} (r : res ShapeError A) : res EngineError A :=
  match r with Ok a => Ok a | Err e => Err (BadResponse e) end.

Definition _compute_measure (process : string) (now : Z) (measure : Measure)
    (eqp_ids : list string) : EN (list (Target * FactValues)) :=
  let impl_facts := filter (λ f, is_implemented (f_type f) = true) (m_facts measure) in
  if decide (impl_facts = []) then se_ret []
  else
    index <- lift_res (match resolve_index_range process (m_window_minutes measure) now with
                       | Some index => Ok index
                       | None => Err OverflowError
                       end) ;;
    let expand := bool_decide (m_expand measure = instance) in
    metrics <- (if expand then
                  names <- dep (metric_names index (m_category measure) (m_proc measure)) ;;
                  se_ret (default []
                    (ODict.get (m_metric measure)
                       (resolve_metric_patterns [m_metric measure] names)))
                else se_ret [m_metric measure]) ;;
    if decide (metrics = []) then se_ret []
    else
      resp <- dep (es_search index
        (build_metric_aggregation_query es_keyword_suffix now (m_window_minutes measure)
           (m_category measure) metrics (m_proc measure) impl_facts expand eqp_ids)) ;;
      emit EvSearched ;;;
      lift_res (shape (parse_metric_aggregation resp impl_facts (m_proc measure) expand)).

(** ** Rules *)
Definition mids (conds : list Condition) : list string :=
  iter_set (remove_dups ((λ c, fact_mid (c_fact c)) <$> conds)).

Notation Results := (list (string * list (Target * FactValues))).

Definition facts_by_ref (results : Results) (rule : Rule) (target : Target) : FactValues :=
  ODict.of_list ((λ cond,
    (c_fact cond,
     default [] (ODict.get (fact_ftype (c_fact cond))
       (default [] (ODict.get target
         (default [] (ODict.get (fact_mid (c_fact cond)) results))))))) <$> r_when rule).

Definition targets_of (results : Results) (rule : Rule) : list Target :=
  iter_set (remove_dups
    (mjoin ((λ mid, (default [] (ODict.get mid results)).*1) <$> mids (r_when rule)))).

(** One rule on one target. *)
Definition evaluate_target (profile : MonitorProfile) (results : Results) (rule : Rule)
    (target : Target) : res EngineError (option _Pending) :=
  let category := ODict.of_list ((λ m, (m_id m, m_category m)) <$> p_measures profile) in
  match evaluate_rule pydantic_float rule (facts_by_ref results rule target)
          target.1 target.2 category with
  | Err e => Err (EvalFailed e)
  | Ok None => Ok None
  | Ok (Some breach) =>
      match ODict.get (r_notify rule) (p_notify profile) with
      | None => Ok None
      | Some channel =>
          let trigger_mid := fact_mid (tb_fact breach) in
          match ODict.get trigger_mid (measures_by_id (p_measures profile)) with
          | None => Err (MissingKey trigger_mid)
          | Some m =>
              Ok (Some (mkPending breach (r_notify rule) channel (m_window_minutes m)))
          end
      end
  end.

Definition evaluate_rule_targets (profile : MonitorProfile) (results : Results)
    (pending : list _Pending) (rule : Rule) : res EngineError (list _Pending) :=
  fold_res (λ pending target,
    o ← evaluate_target profile results rule target;
    Ok (pending ++ option_list o)) (targets_of results rule) pending.

Definition _evaluate_bucket (process : string) (now : Z) (profile : MonitorProfile)
    (rules : list Rule) (eqp_ids : list string)
    (acc : list _Pending * list string) : EN (list _Pending * list string) :=
  let mbi := measures_by_id (p_measures profile) in
  results <- fold_se (λ results mid,
      match ODict.get mid mbi with
      | None => se_ret results
      | Some measure =>
          r <- _compute_measure process now measure eqp_ids ;;
          se_ret (ODict.set mid r results)
      end) (mids (mjoin (r_when <$> rules))) [] ;;
  pending <- lift_res (fold_res (evaluate_rule_targets profile results) rules acc.1) ;;
  se_ret (pending, acc.2 ++ (r_id <$> rules)).

(** ** Dispatch *)
Definition group_value_of (process : string) (eqp_lookup : list (string * EqpInfo))
    (p : _Pending) : string :=
  resolve_group_value (n_group_by (pd_channel p)) (pd_breach p)
    (ODict.get (tb_eqp_id (pd_breach p)) eqp_lookup) process.

Definition key_of_pending (process : string) (eqp_lookup : list (string * EqpInfo))
    (p : _Pending) : Check :=
  make_cooldown_key process (pd_breach p) (pd_notify_name p)
    (Some (group_value_of process eqp_lookup p)).

(** The pending breaches of equipment in the lookup. *)
Definition known (eqp_lookup : list (string * EqpInfo)) (pending : list _Pending)
  : list _Pending :=
  filter (λ p, is_Some (ODict.get (tb_eqp_id (pd_breach p)) eqp_lookup)) pending.

Definition pending_groups (process : string) (eqp_lookup : list (string * EqpInfo))
    (pending : list _Pending) : list (Check * list _Pending) :=
  ODict.group (key_of_pending process eqp_lookup) (known eqp_lookup pending).

Definition group_values (process : string) (eqp_lookup : list (string * EqpInfo))
    (pending : list _Pending) : list (Check * string) :=
  ODict.of_list ((λ p, (key_of_pending process eqp_lookup p,
                        group_value_of process eqp_lookup p)) <$> known eqp_lookup pending).

Definition breaching (members : list _Pending) : list string :=
  sort_by str_leb (remove_dups ((λ m, tb_eqp_id (pd_breach m)) <$> members)).

Definition decimal {A} (r : res DecimalError A) : res EngineError A :=
  match r with Ok a => Ok a | Err e => Err (BadDecimal e) end.

(** The mail, and the cooldown once it is accepted. *)
Definition send_group (key : Check) (cooldown_minutes : Z) (alert : EmailAlertRequest)
  : EN unit :=
  emit (EvMail key alert) ;;;
  sent <- dep (send_mail alert) ;;
  emit (EvAnswer key sent) ;;;
  if (sent : bool) then
    emit (EvCooldown key cooldown_minutes) ;;;
    dep (cooldown_set key cooldown_minutes) ;;;
    emit (EvSent (er_code alert) (er_subcode alert))
  else se_ret tt.

(** The mail of a group that does not cool down. *)
Definition mail_group (process : string) (eqp_lookup : list (string * EqpInfo)) (now : Z)
    (group_value : string) (key : Check) (members : list _Pending) : EN unit :=
  match members, breaching members with
  | m0 :: _, rep_eqp :: _ =>
      let channel := pd_channel m0 in
      match list_find (λ m, tb_eqp_id (pd_breach m) = rep_eqp) members,
            ODict.get rep_eqp eqp_lookup with
      | Some (_, rep), Some eqp_info =>
          let grouped := bool_decide (n_group_by channel ≠ gb_eqp) in
          let affected := if grouped then Some (breaching members) else None in
          let email_category := build_email_category process (n_group_by channel)
            (default "" (ei_eqpModel eqp_info)) (n_email_group channel) in
          let display_id := if grouped then Some group_value else None in
          template <-
            (if rms_custom_body_enabled settings then
               let '(code, subcode) := resolve_code_subcode channel (pd_breach rep) in
               dep (template_of (mkTemplateKey (email_app_name settings) process
                      (default "" (ei_eqpModel eqp_info)) code subcode))
             else se_ret None) ;;
          alert <- lift_res (decimal (build_alert_request (pd_breach rep) eqp_info process
            settings channel (pd_window_minutes rep) affected (pd_breach <$> members) eqp_lookup
            (Some now) template email_category display_id)) ;;
          send_group key (n_cooldown_minutes channel) alert
      | _, _ => se_raise (MissingKey rep_eqp)
      end
  | _, _ => se_ret tt
  end.

Definition is_cooling (cooling : list (Check * bool)) (key : Check) : bool :=
  default false (ODict.get key cooling).

Definition dispatch_group (process : string) (eqp_lookup : list (string * EqpInfo))
    (now : Z) (values : list (Check * string)) (cooling : list (Check * bool))
    (group : Check * list _Pending) : EN unit :=
  let '(key, members) := group in
  if is_cooling cooling key then
    iter_se (λ m, emit (EvSuppressed (tb_fact (pd_breach m)) (tb_severity (pd_breach m))))
      members
  else mail_group process eqp_lookup now (default "" (ODict.get key values)) key members.

Definition _dispatch (process : string) (pending : list _Pending)
    (eqp_lookup : list (string * EqpInfo)) (now : Z) : EN unit :=
  let groups := pending_groups process eqp_lookup pending in
  if decide (groups = []) then se_ret tt
  else
    cooling <- dep (cooling_batch groups.*1) ;;
    iter_se (dispatch_group process eqp_lookup now
               (group_values process eqp_lookup pending) cooling) groups.

(** ** The tick *)
Notation Buckets := (list (string * (MonitorProfile * list string))).

(** [buckets.setdefault(sig, {profile, []})["eqp_ids"].append(eqp_id)] *)
Definition bucket_add (buckets : Buckets) (sig : string) (profile : MonitorProfile)
    (eqp_id : string) : Buckets :=
  let '(p, ids) := default (profile, []) (ODict.get sig buckets) in
  ODict.set sig (p, ids ++ [eqp_id]) buckets.

Definition resolve_into (process : string) (buckets : Buckets) (doc : EqpInfo) : EN Buckets :=
  profile <- dep (resolve process (default "*" (ei_eqpModel doc)) (ei_eqpId doc)) ;;
  match profile with
  | None => se_ret buckets
  | Some profile =>
      emit (EvResolved (ei_eqpId doc) profile) ;;;
      if p_enabled profile then
        se_ret (bucket_add buckets (effective_signature profile) profile (ei_eqpId doc))
      else se_ret buckets
  end.

Definition rules_of_tick (interval_minutes : Z) (profile : MonitorProfile) : list Rule :=
  filter (λ r, r_interval_minutes r = interval_minutes ∧ r_enabled r = true) (p_rules profile).

Definition evaluate_buckets (process : string) (interval_minutes now : Z) (buckets : Buckets)
  : EN (list _Pending * list string) :=
  fold_se (λ acc (bucket : string * (MonitorProfile * list string)),
    let '(profile, eqp_ids) := bucket.2 in
    let rules := rules_of_tick interval_minutes profile in
    if decide (rules = []) then se_ret acc
    else _evaluate_bucket process now profile rules eqp_ids acc) buckets ([], []).

Definition _do_analysis (process : string) (interval_minutes : Z) : EN AnalysisResult :=
  now <- se_gets (λ s, utc_now s.1) ;;
  equipment <- dep (get_equipment process) ;;
  let eqp_lookup := ODict.of_list ((λ d, (ei_eqpId d, d)) <$> equipment) in
  if decide (equipment = []) then se_ret (mkResult process [] [] 0 now)
  else
    buckets <- fold_se (resolve_into process) equipment [] ;;
    acc <- evaluate_buckets process interval_minutes now buckets ;;
    let '(pending, rule_ids) := acc in
    iter_se (λ p, emit (EvBreach (tb_fact (pd_breach p)) (tb_severity (pd_breach p)))) pending ;;;
    (if decide (pending = []) then se_ret tt
     else _dispatch process pending eqp_lookup now) ;;;
    se_ret (mkResult process (sort_by str_leb (remove_dups rule_ids)) (pd_breach <$> pending)
              (length equipment) now).
End Engine.

(** ** What a dispatch does *)
Definition mails (tr : list Event) : list Check :=
  omap (λ e, match e with EvMail k _ => Some k | _ => None end) tr.

Lemma mails_app tr tr' : mails (tr ++ tr') = mails tr ++ mails tr'.
Proof. apply omap_app. Qed.

(** The events of a list of groups belong together: a cooldown is set for exactly the
    keys whose mail was accepted, for the minutes of the group's first member, and
    the mail of a group names its least equipment. *)
Record trace_ok (gs : list (Check * list _Pending)) (tr : list Event) : Prop := {
  tr_answer k : EvAnswer k true ∈ tr ↔ ∃ m, EvCooldown k m ∈ tr;
  tr_cooldown k m : EvCooldown k m ∈ tr →
    ∃ p ms, (k, p :: ms) ∈ gs ∧ m = n_cooldown_minutes (pd_channel p);
  tr_mail k a : EvMail k a ∈ tr →
    ∃ ms, (k, ms) ∈ gs ∧ er_hostname a ∈ (λ m, tb_eqp_id (pd_breach m)) <$> ms
    ∧ ∀ m, m ∈ ms → str_leb (er_hostname a) (tb_eqp_id (pd_breach m)) = true;
}.

Lemma trace_ok_nil gs : trace_ok gs [].
Proof. split; set_solver. Qed.

Lemma trace_ok_app gs gs' tr tr' :
  trace_ok gs tr → trace_ok gs' tr' → trace_ok (gs ++ gs') (tr ++ tr').
Proof.
  intros [Ha Hc Hm] [Ha' Hc' Hm']. split.
  - intros k. rewrite elem_of_app, Ha, Ha'. setoid_rewrite elem_of_app. naive_solver.
  - intros k m [(p & ms & ? & ?)%Hc|(p & ms & ? & ?)%Hc']%elem_of_app;
      exists p, ms; rewrite elem_of_app; auto.
  - intros k a [(ms & ? & ?)%Hm|(ms & ? & ?)%Hm']%elem_of_app;
      exists ms; rewrite elem_of_app; auto.
Qed.

Lemma breaching_least members x l :
  breaching members = x :: l →
  x ∈ (λ m, tb_eqp_id (pd_breach m)) <$> members
  ∧ ∀ m, m ∈ members → str_leb x (tb_eqp_id (pd_breach m)) = true.
Proof.
  unfold breaching. intros Hb. set (ids := (λ m, tb_eqp_id (pd_breach m)) <$> members) in *.
  assert (∀ y, y ∈ x :: l ↔ y ∈ ids) as Hin
    by (intros y; rewrite <-Hb, elem_of_sort_by; apply elem_of_remove_dups).
  split; [apply Hin; left|]. intros m Hm.
  assert (tb_eqp_id (pd_breach m) ∈ x :: l) as Hy
    by (apply Hin; by apply (list_elem_of_fmap_2 (λ m, tb_eqp_id (pd_breach m)))).
  pose proof (sort_by_StronglySorted str_leb str_leb_total str_leb_trans (remove_dups ids)) as Hs.
  rewrite Hb in Hs. inversion_clear Hs as [|? ? _ Hle].
  apply elem_of_cons in Hy as [->|Hy]; [|by eapply Forall_forall in Hle].
  by destruct (str_leb_total x x).
Qed.

(** ** Invariants of the dependencies *)
(** A call keeps an invariant of the state of the dependencies. *)
Definition stable {W A} (inv : W → Prop) (op : SE W EngineError A) : Prop :=
  ∀ w, inv w → inv (op w).1.

(** Every call of a tick keeps [inv], a resolution as long as it is [asks]ed for the
    equipment the repository gives. *)
Class DepsInv (W : Type) `{!Deps W} (inv : W → Prop) (asks : string → string → string → Prop) := {
  get_equipment_inv process : stable inv (get_equipment process);
  get_equipment_asks process w w' l d :
    inv w → get_equipment process w = (w', Ok l) → d ∈ l →
    asks process (default "*" (ei_eqpModel d)) (ei_eqpId d);
  resolve_inv process m e : asks process m e → stable inv (resolve process m e);
  metric_names_inv index c p : stable inv (metric_names index c p);
  es_search_inv index body : stable inv (es_search index body);
  cooling_batch_inv keys : stable inv (cooling_batch keys);
  cooldown_set_inv key minutes : stable inv (cooldown_set key minutes);
  template_of_inv k : stable inv (template_of k);
  send_mail_inv alert : stable inv (send_mail alert);
}.

Create HintDb deps_inv.
#[export] Hint Resolve get_equipment_inv resolve_inv metric_names_inv es_search_inv
  cooling_batch_inv cooldown_set_inv template_of_inv send_mail_inv : deps_inv.

(** The invariant that says nothing. *)
Lemma no_inv {W} `{!Deps W} : DepsInv W (λ _, True) (λ _ _ _, True).
Proof. by split. Qed.

Section Traces.
Context {W : Type} `{!Deps W, !SetIter}.
Context (inv : W → Prop) (asks : string → string → string → Prop) `{!DepsInv W inv asks}.
Context (settings : AlertSettings).

(** [logs m R]: from a state with the invariant, [m] keeps it and extends the log by a
    trace that [R] relates to its result. *)
Definition logs {A} (m : EN A) (R : list Event → res EngineError A → Prop) : Prop :=
  ∀ (s s' : W * list Event) r, inv s.1 → m s = (s', r) →
    inv s'.1 ∧ ∃ tr, s'.2 = s.2 ++ tr ∧ R tr r.

Lemma logs_ret {A} (a : A) (R : list Event → res EngineError A → Prop) :
  R [] (Ok a) → logs (se_ret a) R.
Proof. intros HR s s' r Hi [= <- <-]. split; [done|]. exists []. by rewrite app_nil_r. Qed.

Lemma logs_raise {A} e (R : list Event → res EngineError A → Prop) :
  R [] (Err e) → logs (se_raise e) R.
Proof. intros HR s s' r Hi [= <- <-]. split; [done|]. exists []. by rewrite app_nil_r. Qed.

Lemma logs_lift {A} (x : res EngineError A) (R : list Event → res EngineError A → Prop) :
  R [] x → logs (lift_res x) R.
Proof. intros HR s s' r Hi [= <- <-]. split; [done|]. exists []. by rewrite app_nil_r. Qed.

Lemma logs_dep {A} (op : SE W EngineError A) (R : list Event → res EngineError A → Prop) :
  stable inv op → (∀ r, R [] r) → logs (dep op) R.
Proof.
  intros Hop HR s s' r Hi. unfold dep. specialize (Hop s.1 Hi).
  destruct (op s.1) as [w r']. intros [= <- <-]. split; [done|].
  exists []. by rewrite app_nil_r.
Qed.

Lemma logs_emit e (R : list Event → res EngineError unit → Prop) :
  R [e] (Ok tt) → logs (emit e) R.
Proof. intros HR s s' r Hi [= <- <-]. split; [done|]. by exists [e]. Qed.

Lemma logs_bind {A B} (m : EN A) (f : A → EN B) Q (R : list Event → res EngineError B → Prop) :
  logs m Q → (∀ e tr, Q tr (Err e) → R tr (Err e)) →
  (∀ a tr, Q tr (Ok a) → logs (f a) (λ tr' r, R (tr ++ tr') r)) → logs (se_bind m f) R.
Proof.
  intros Hm Herr Hf s s' r Hi [(e & Hs & ->)|(s1 & a & Hs & Hr)]%se_bind_inv.
  - destruct (Hm _ _ _ Hi Hs) as (? & tr & ? & ?). eauto.
  - destruct (Hm _ _ _ Hi Hs) as (Hi1 & tr & E1 & HQ).
    destruct (Hf a tr HQ _ _ _ Hi1 Hr) as (Hi2 & tr' & E2 & HR).
    split; [done|]. exists (tr ++ tr'). by rewrite E2, E1, app_assoc.
Qed.

Lemma logs_weaken {A} (m : EN A) (Q R : list Event → res EngineError A → Prop) :
  logs m Q → (∀ tr r, Q tr r → R tr r) → logs m R.
Proof. intros Hm HQ s s' r Hi Hs. destruct (Hm _ _ _ Hi Hs) as (? & tr & ? & ?). eauto 6. Qed.

Lemma logs_dep_bind {A B} (op : SE W EngineError A) (f : A → EN B)
    (R : list Event → res EngineError B → Prop) :
  stable inv op → (∀ e, R [] (Err e)) → (∀ a, logs (f a) R) → logs (se_bind (dep op) f) R.
Proof.
  intros Hop Herr Hf. eapply (logs_bind _ _ (λ tr _, tr = [])); [by apply logs_dep|by intros ?? ->|].
  by intros a ? ->.
Qed.

Lemma logs_emit_bind {B} e (f : unit → EN B) (R : list Event → res EngineError B → Prop) :
  logs (f tt) (λ tr r, R (e :: tr) r) → logs (se_bind (emit e) f) R.
Proof.
  intros Hf. eapply (logs_bind _ _ (λ tr r, tr = [e] ∧ r = Ok tt)); [by apply logs_emit|naive_solver|].
  by intros [] ? [-> _].
Qed.

(** A loop whose bodies' traces join up. *)
Lemma logs_iter {A} (body : A → EN unit) (R : list A → list Event → res EngineError unit → Prop) l :
  R [] [] (Ok tt) →
  (∀ x l', x :: l' `suffix_of` l → logs (body x) (λ tr r,
     match r with
     | Err e => R (x :: l') tr (Err e)
     | Ok _ => ∀ tr' r', R l' tr' r' → R (x :: l') (tr ++ tr') r'
     end)) →
  logs (iter_se body l) (R l).
Proof.
  intros Hnil. induction l as [|x l IH]; intros Hb; [apply logs_ret, Hnil|].
  eapply logs_bind; [apply (Hb x l); done|done|]. simpl. intros [] tr HQ.
  eapply logs_weaken; [apply IH; intros y l' Hs; apply Hb; by apply suffix_cons_r|]. auto.
Qed.

(** Every event is one of [P]. *)
Definition emits (P : Event → Prop) {A} (m : EN A) : Prop := logs m (λ tr _, Forall P tr).

Section Emits.
Context (P : Event → Prop).

Lemma emits_bind {A B} (m : EN A) (f : A → EN B) :
  emits P m → (∀ a, emits P (f a)) → emits P (se_bind m f).
Proof.
  intros Hm Hf. eapply logs_bind; [exact Hm|done|]. intros a tr Htr.
  eapply logs_weaken; [apply Hf|]. intros tr' r Htr'. by apply Forall_app.
Qed.

Lemma emits_ret {A} (a : A) : emits P (se_ret a).
Proof. by apply logs_ret. Qed.
Lemma emits_raise {A} e : emits P (se_raise (A := A) e).
Proof. by apply logs_raise. Qed.
Lemma emits_lift {A} (r : res EngineError A) : emits P (lift_res r).
Proof. by apply logs_lift. Qed.
Lemma emits_dep {A} (op : SE W EngineError A) : stable inv op → emits P (dep op).
Proof. intros Hop. by apply logs_dep. Qed.
Lemma emits_emit e : P e → emits P (emit e).
Proof. intros He. apply logs_emit. by constructor. Qed.

Lemma emits_iter {A} (body : A → EN unit) l :
  (∀ x, emits P (body x)) → emits P (iter_se body l).
Proof.
  intros Hb. induction l as [|x l IH]; simpl; [apply emits_ret|]. by apply emits_bind.
Qed.

Lemma emits_fold {A B} (body : B → A → EN B) l acc :
  (∀ a x, emits P (body a x)) → emits P (fold_se body l acc).
Proof.
  intros Hb. revert acc. induction l as [|x l IH]; intros acc; simpl; [apply emits_ret|].
  by apply emits_bind.
Qed.
End Emits.

(** ** One group *)
Definition group_ok (eqp_lookup : list (string * EqpInfo)) (g : Check * list _Pending) : Prop :=
  g.2 ≠ [] ∧ Forall (λ p, is_Some (ODict.get (tb_eqp_id (pd_breach p)) eqp_lookup)) g.2.

Lemma list_find_is_Some {A} (P : A → Prop) `{!∀ x, Decision (P x)} l x :
  x ∈ l → P x → ∃ i y, list_find P l = Some (i, y) ∧ y ∈ l ∧ P y.
Proof.
  intros Hx HP. destruct (list_find P l) as [[i y]|] eqn:E.
  - exists i, y. apply list_find_Some in E as (Hi & ? & _). split; [done|].
    split; [by eapply list_elem_of_lookup_2|done].
  - apply list_find_None in E. rewrite Forall_forall in E. by destruct (E x Hx).
Qed.

(** A mail not answered, refused, accepted without its cooldown, or accepted. *)
Lemma send_group_logs key minutes alert :
  logs (send_group key minutes alert) (λ tr r,
    tr = [EvMail key alert] ∧ isOk r = false
    ∨ tr = [EvMail key alert; EvAnswer key false]
    ∨ tr = [EvMail key alert; EvAnswer key true; EvCooldown key minutes] ∧ isOk r = false
    ∨ tr = [EvMail key alert; EvAnswer key true; EvCooldown key minutes;
            EvSent (er_code alert) (er_subcode alert)]).
Proof.
  unfold send_group. apply logs_emit_bind, logs_dep_bind; [eauto with deps_inv|auto|]. intros sent.
  apply logs_emit_bind. destruct sent; [|apply logs_ret; auto].
  apply logs_emit_bind, logs_dep_bind; [eauto with deps_inv|auto 10|]. intros _. apply logs_emit. auto 10.
Qed.

Lemma trace_ok_group key m0 ms alert tr :
  er_hostname alert ∈ (λ m, tb_eqp_id (pd_breach m)) <$> m0 :: ms →
  (∀ m, m ∈ m0 :: ms → str_leb (er_hostname alert) (tb_eqp_id (pd_breach m)) = true) →
  (∀ k a, EvMail k a ∈ tr → k = key ∧ a = alert) →
  (∀ k m, EvCooldown k m ∈ tr → k = key ∧ m = n_cooldown_minutes (pd_channel m0)) →
  (∀ k, EvAnswer k true ∈ tr ↔ ∃ m, EvCooldown k m ∈ tr) →
  trace_ok [(key, m0 :: ms)] tr.
Proof.
  intros Hin Hle Hm Hc Ha. split; [done| |].
  - intros k m [-> ->]%Hc. exists m0, ms. split; [left|done].
  - intros k a [-> ->]%Hm. exists (m0 :: ms). split; [left|done].
Qed.

Lemma decimal_Ok {A} (r : res DecimalError A) a : decimal r = Ok a → r = Ok a.
Proof. destruct r; [by intros [= ->]|done]. Qed.

Lemma mail_group_logs process eqp_lookup now value key members :
  group_ok eqp_lookup (key, members) →
  logs (mail_group settings process eqp_lookup now value key members) (λ tr r,
    trace_ok [(key, members)] tr ∧
    (mails tr = [key] ∨ mails tr = [] ∧ isOk r = false)).
Proof.
  intros [Hne Hk]. unfold mail_group. simpl in *. destruct members as [|m0 ms]; [done|].
  destruct (breaching (m0 :: ms)) as [|rep_eqp rest] eqn:Eb.
  { exfalso. assert (tb_eqp_id (pd_breach m0) ∈ breaching (m0 :: ms)) as Hin
      by (apply elem_of_sort_by, elem_of_remove_dups; left).
    rewrite Eb in Hin. by apply elem_of_nil in Hin. }
  pose proof (breaching_least _ _ _ Eb) as [Hin Hleast].
  apply list_elem_of_fmap in Hin as (m & -> & Hm).
  destruct (list_find_is_Some (λ x, tb_eqp_id (pd_breach x) = tb_eqp_id (pd_breach m))
    (m0 :: ms) m Hm eq_refl) as (i & rep & -> & Hrep & Erep).
  rewrite Forall_forall in Hk. destruct (Hk m Hm) as [info ->].
  eapply (logs_bind _ _ (λ tr _, tr = [])).
  { destruct (rms_custom_body_enabled settings); [|by apply logs_ret].
    apply logs_dep; [eauto with deps_inv|done]. }
  { intros e tr ->. split; [apply trace_ok_nil|auto]. }
  intros template tr ->. cbv zeta.
  eapply (logs_bind _ _ (λ tr r, tr = [] ∧ ∀ alert, r = Ok alert →
    er_hostname alert = tb_eqp_id (pd_breach m))).
  { apply logs_lift. split; [done|]. intros alert Ha.
    rewrite <-Erep. eapply build_alert_hostname. by apply decimal_Ok. }
  { intros e tr [-> _]. split; [apply trace_ok_nil|auto]. }
  intros alert tr [-> Ha]. specialize (Ha alert eq_refl).
  eapply logs_weaken; [apply send_group_logs|]. intros tr r Htr. simpl. split.
  - apply (trace_ok_group key m0 ms alert).
    + rewrite Ha. by apply (list_elem_of_fmap_2 (λ m, tb_eqp_id (pd_breach m))).
    + by rewrite Ha.
    + naive_solver set_solver.
    + naive_solver set_solver.
    + naive_solver set_solver.
  - naive_solver.
Qed.

(** ** All groups *)
Definition not_cooling (d : list (Check * bool)) (keys : list Check) : list Check :=
  filter (λ k, is_cooling d k = false) keys.

(** The mails of a trace are those of the groups that do not cool down, in order, up to
    where an exception stopped the loop. *)
Definition mails_follow (d : list (Check * bool)) (gs : list (Check * list _Pending))
    (tr : list Event) (r : res EngineError unit) : Prop :=
  mails tr `prefix_of` not_cooling d gs.*1 ∧ (r = Ok tt → mails tr = not_cooling d gs.*1).

Definition dispatched (d : list (Check * bool)) (gs : list (Check * list _Pending))
    (tr : list Event) (r : res EngineError unit) : Prop :=
  trace_ok gs tr ∧ mails_follow d gs tr r.

Lemma dispatched_cons d g gs tr tr' r :
  trace_ok [g] tr → mails tr = not_cooling d [g.1] → dispatched d gs tr' r →
  dispatched d (g :: gs) (tr ++ tr') r.
Proof.
  intros Hg Hm [Ht [Hp Heq]]. split; [by apply (trace_ok_app [g])|].
  unfold mails_follow, not_cooling in *. rewrite mails_app, Hm, fmap_cons.
  change (g.1 :: gs.*1) with ([g.1] ++ gs.*1). rewrite filter_app. split; [by apply prefix_app|].
  intros E. by rewrite Heq.
Qed.

Lemma suppress_logs key members :
  logs (iter_se (λ m, emit (EvSuppressed (tb_fact (pd_breach m)) (tb_severity (pd_breach m))))
          members) (λ tr r, trace_ok [(key, members)] tr ∧ mails tr = [] ∧ r = Ok tt).
Proof.
  eapply logs_weaken.
  - apply (logs_iter _ (λ l tr r, Forall (λ e, ∃ f s, e = EvSuppressed f s) tr ∧ r = Ok tt));
      [done|]. intros m l' _. apply logs_emit. intros tr r [Hf ->]. split; [|done].
    constructor; eauto.
  - intros tr r [Hf ->]. rewrite Forall_forall in Hf. split; [|split; [|done]].
    + split; naive_solver.
    + unfold mails. apply elem_of_nil_inv. intros k Hk.
      apply list_elem_of_omap in Hk as (e & (f & sv & ->)%Hf & Hk). done.
Qed.

Lemma dispatch_group_logs process eqp_lookup now values d g :
  group_ok eqp_lookup g →
  logs (dispatch_group settings process eqp_lookup now values d g) (λ tr r,
    trace_ok [g] tr ∧
    (mails tr = not_cooling d [g.1] ∨ mails tr = [] ∧ isOk r = false)).
Proof.
  intros Hg. destruct g as [key members]. unfold dispatch_group, not_cooling. simpl.
  destruct (is_cooling d key) eqn:Ec.
  - eapply logs_weaken; [apply (suppress_logs key)|]. intros tr r (? & -> & _).
    rewrite filter_cons_False by (by rewrite Ec). rewrite filter_nil. auto.
  - eapply logs_weaken; [by apply mail_group_logs|]. intros tr r [? Hm].
    rewrite filter_cons_True, filter_nil by done. auto.
Qed.

Lemma dispatch_groups_logs process eqp_lookup now values d gs :
  Forall (group_ok eqp_lookup) gs →
  logs (iter_se (dispatch_group settings process eqp_lookup now values d) gs)
    (dispatched d gs).
Proof.
  intros Hgs. apply (logs_iter _ (dispatched d)).
  { split; [apply trace_ok_nil|]. split; [apply prefix_nil|done]. }
  intros g gs' Hsuf. eapply logs_weaken; [apply dispatch_group_logs|].
  { destruct Hsuf as [k ->]. apply Forall_app in Hgs as [_ Hgs]. by inversion Hgs. }
  intros tr [[]|e] [Ht Hm].
  - intros tr' r' Hd. apply dispatched_cons; [done| |done]. by destruct Hm as [|[]].
  - split; [|split; [|done]].
    + rewrite <-(app_nil_r tr). apply (trace_ok_app [g]); [done|apply trace_ok_nil].
    + unfold not_cooling. rewrite fmap_cons. change (g.1 :: gs'.*1) with ([g.1] ++ gs'.*1).
      rewrite filter_app. destruct Hm as [->|[-> _]]; [by apply prefix_app_r|apply prefix_nil].
Qed.

Lemma pending_groups_ok process eqp_lookup pending :
  Forall (group_ok eqp_lookup) (pending_groups process eqp_lookup pending).
Proof.
  apply Forall_forall. intros [k ms] [-> Hne]%ODict.elem_of_group. split; [done|].
  apply Forall_forall. intros p [_ [Hp _]%list_elem_of_filter]%list_elem_of_filter. done.
Qed.

(** ** The breaches of a tick *)
Context (es_keyword_suffix : string) (pydantic_float : string → option num).
Context (digest : bool * list Measure * list Rule * list (string * NotifyChannel) → string).

Lemma logs_dep_post {A} (op : SE W EngineError A) (P : A → Prop) :
  stable inv op → (∀ w w' a, inv w → op w = (w', Ok a) → P a) →
  logs (dep op) (λ tr r, tr = [] ∧ ∀ a, r = Ok a → P a).
Proof.
  intros Hop HP s s' r Hi. unfold dep. specialize (Hop s.1 Hi).
  destruct (op s.1) as [w r'] eqn:E. intros [= <- <-]. split; [done|].
  exists []. rewrite app_nil_r. split; [done|]. split; [done|]. intros a ->. eauto.
Qed.

(** An invariant of a loop on the trace so far and the accumulator. *)
Lemma logs_fold {A B} (body : B → A → EN B) (I : list Event → B → Prop) l tr0 acc :
  I tr0 acc →
  (∀ x acc tr, x ∈ l → I tr acc → logs (body acc x) (λ tr' r, ∀ b, r = Ok b → I (tr ++ tr') b)) →
  logs (fold_se body l acc) (λ tr' r, ∀ b, r = Ok b → I (tr0 ++ tr') b).
Proof.
  revert tr0 acc. induction l as [|x l IH]; intros tr0 acc Hacc Hb; simpl.
  - apply logs_ret. intros b [= <-]. by rewrite app_nil_r.
  - eapply logs_bind; [apply Hb; [left|done]|done|]. intros acc' tr Hacc'.
    eapply logs_weaken; [apply (IH (tr0 ++ tr)); [by apply Hacc'|]|].
    + intros y a tr1 Hy. apply Hb. by right.
    + simpl. intros tr' r. by rewrite app_assoc.
Qed.

(** Documented behaviour of the cluster: the filter on the equipment field restricts the
    buckets of the aggregation on that field. *)
Hypothesis es_asked : ∀ index now window category metrics proc facts expand ids w w' resp,
  inv w → ids ≠ [] →
  es_search index (build_metric_aggregation_query es_keyword_suffix now window category metrics
    proc facts expand ids) w = (w', Ok resp) →
  ∀ k, k ∈ eqp_keys resp → k ∈ ids.
(** A profile the repository can give for an equipment: its channels are a dict, and the
    digest tells the payloads of such profiles apart. *)
Definition resolved (process model eqp : string) (p : MonitorProfile) : Prop :=
  asks process model eqp ∧ ∃ w w', inv w ∧ resolve process model eqp w = (w', Ok (Some p)).
Definition resolvable (p : MonitorProfile) : Prop :=
  ∃ process model eqp, resolved process model eqp p.
Hypothesis resolve_dict : ∀ p, resolvable p → NoDup (p_notify p).*1.
Hypothesis digest_inj : ∀ p q, resolvable p → resolvable q →
  digest (signature_payload p) = digest (signature_payload q) →
  signature_payload p = signature_payload q.

Lemma compute_measure_asked process now m ids :
  ids ≠ [] →
  logs (_compute_measure es_keyword_suffix process now m ids) (λ tr r,
    ∀ t, r = Ok t → ∀ tg, tg ∈ t.*1 → tg.1 ∈ ids).
Proof.
  intros Hids. unfold _compute_measure. case_decide; [apply logs_ret; set_solver|].
  eapply (logs_bind _ _ (λ _ _, True)); [by apply logs_lift|done|]. intros index tr0 _.
  eapply (logs_bind _ _ (λ _ _, True)); [|done|].
  { case_match; [|by apply logs_ret]. apply logs_dep_bind; [eauto with deps_inv|done|].
    intros. by apply logs_ret. }
  intros metrics tr _. case_decide; [apply logs_ret; set_solver|].
  eapply logs_bind;
    [apply (logs_dep_post _ (λ resp, ∀ k, k ∈ eqp_keys resp → k ∈ ids)); [eauto with deps_inv|]|done|].
  { intros w w' resp Hi. by apply es_asked. }
  intros resp tr' [_ Hresp]. apply logs_emit_bind, logs_lift. intros t Ht. unfold shape in Ht.
  destruct (parse_metric_aggregation _ _ _ _) as [t'|] eqn:Ep; simplify_eq.
  intros tg Htg. eapply Hresp; [done|]. by eapply parse_targets.
Qed.

Lemma elem_of_targets results rule tg :
  tg ∈ targets_of results rule →
  ∃ mid t, ODict.get mid results = Some t ∧ tg ∈ t.*1.
Proof.
  unfold targets_of. rewrite elem_of_iter_set, elem_of_remove_dups, list_elem_of_join.
  intros (l & Htg & (mid & -> & _)%list_elem_of_fmap).
  destruct (ODict.get mid results) as [t|] eqn:E; simpl in Htg; [eauto|set_solver].
Qed.

(** A breach of a rule of profile [p] on equipment of [ids]. *)
Definition breach_of (interval : Z) (p : MonitorProfile) (ids : list string)
    (b : ThresholdBreach) : Prop :=
  tb_eqp_id b ∈ ids ∧
  ∃ rule channel, rule ∈ rules_of_tick interval p ∧ tb_rule_id b = r_id rule
  ∧ tb_severity b = r_severity rule ∧ ODict.get (r_notify rule) (p_notify p) = Some channel.

Lemma evaluate_target_breach interval p ids results rule tg pd :
  rule ∈ rules_of_tick interval p → tg.1 ∈ ids →
  evaluate_target pydantic_float p results rule tg = Ok (Some pd) →
  breach_of interval p ids (pd_breach pd).
Proof.
  intros Hr Htg. unfold evaluate_target.
  destruct (evaluate_rule _ _ _ _ _ _) as [[b|]|] eqn:Ee; [|done|done].
  destruct (ODict.get _ (p_notify p)) as [ch|] eqn:Ec; [|done].
  destruct (ODict.get _ (measures_by_id _)); [|done]. intros [= <-].
  apply evaluate_rule_ids in Ee as (He & _ & Hid & Hsev).
  unfold breach_of. simpl. rewrite He. eauto 10.
Qed.

Lemma evaluate_rules_breaches interval p ids results rules pending pending' :
  (∀ mid t, ODict.get mid results = Some t → ∀ tg, tg ∈ t.*1 → tg.1 ∈ ids) →
  (∀ r, r ∈ rules → r ∈ rules_of_tick interval p) →
  fold_res (evaluate_rule_targets pydantic_float p results) rules pending = Ok pending' →
  ∀ pd, pd ∈ pending' → pd ∈ pending ∨ breach_of interval p ids (pd_breach pd).
Proof.
  intros Hres Hrules.
  apply (fold_res_inv _ (λ l, ∀ pd, pd ∈ l → pd ∈ pending ∨ breach_of interval p ids (pd_breach pd)));
    [auto|].
  intros rule l l' Hr Hl. unfold evaluate_rule_targets.
  apply (fold_res_inv _ (λ l, ∀ pd, pd ∈ l → pd ∈ pending ∨ breach_of interval p ids (pd_breach pd)));
    [done|].
  intros tg c c' (mid & t & Ht & Htg)%elem_of_targets Hc.
  destruct (evaluate_target _ _ _ _ _) as [o|] eqn:Ee; simpl; [|done]. intros [= <-] pd.
  rewrite elem_of_app. intros [Hpd|Hpd]; [by apply Hc|]. right. destruct o as [pd'|]; [|set_solver].
  apply list_elem_of_singleton in Hpd as ->. eapply evaluate_target_breach; eauto.
Qed.

(** The profile resolved in this tick for the equipment of a breach has the rule. *)
Definition breach_sound (process : string) (interval : Z) (tr : list Event)
    (b : ThresholdBreach) : Prop :=
  ∃ q model rule channel, EvResolved (tb_eqp_id b) q ∈ tr
  ∧ resolved process model (tb_eqp_id b) q ∧ p_enabled q = true
  ∧ rule ∈ rules_of_tick interval q ∧ tb_rule_id b = r_id rule
  ∧ tb_severity b = r_severity rule ∧ ODict.get (r_notify rule) (p_notify q) = Some channel.

(** The bucket of a signature: its equipment resolved to profiles of that signature. *)
Definition bucket_ok (process : string) (tr : list Event)
    (b : string * (MonitorProfile * list string)) : Prop :=
  b.2.2 ≠ [] ∧ effective_signature digest b.2.1 = b.1 ∧ resolvable b.2.1
  ∧ ∀ e, e ∈ b.2.2 → ∃ q model, EvResolved e q ∈ tr ∧ p_enabled q = true
      ∧ effective_signature digest q = b.1 ∧ resolved process model e q.

Lemma bucket_ok_mono process tr tr' b : bucket_ok process tr b → bucket_ok process (tr ++ tr') b.
Proof. intros (? & ? & ? & He). split_and!; [done..|]. clear -He. set_solver. Qed.

(** Profiles of one signature have the same rules and channels. *)
Lemma same_signature p q interval rule :
  effective_signature digest p = effective_signature digest q →
  resolvable p → resolvable q →
  (rule ∈ rules_of_tick interval p → rule ∈ rules_of_tick interval q)
  ∧ ∀ k, ODict.get k (p_notify p) = ODict.get k (p_notify q).
Proof.
  intros Hd Hp Hq. apply digest_inj in Hd as [= _ _ Hr Hn]; [|done..].
  apply resolve_dict in Hp, Hq. split.
  - unfold rules_of_tick. rewrite !list_elem_of_filter.
    by rewrite <-(elem_of_sort_by (str_key_leb r_id) rule), Hr, elem_of_sort_by.
  - assert (p_notify p ≡ₚ p_notify q) as Hpq
      by (by rewrite <-(sorted_items_perm (p_notify p)), Hn, sorted_items_perm).
    intros k. apply option_eq. intros v.
    by rewrite <-!ODict.elem_of_iff_get, Hpq by done.
Qed.

Lemma breach_of_sound process interval tr b p ids br :
  bucket_ok process tr (b, (p, ids)) → breach_of interval p ids br →
  breach_sound process interval tr br.
Proof.
  intros (_ & Hsig & Hp & Hids) [Hin (rule & ch & Hr & Hid & Hsev & Hch)].
  destruct (Hids _ Hin) as (q & model & Hq & Hen & Hsq & Hdq). simpl in *.
  destruct (same_signature p q interval rule) as [Hrules Hget];
    [by rewrite Hsig|done|by exists process, model, (tb_eqp_id br)|].
  exists q, model, rule, ch. rewrite <-Hget. auto 10.
Qed.

Lemma bucket_add_ok process model tr buckets p e :
  (∀ b, b ∈ buckets → bucket_ok process tr b) → NoDup buckets.*1 → resolved process model e p →
  p_enabled p = true → EvResolved e p ∈ tr →
  (∀ b, b ∈ bucket_add buckets (effective_signature digest p) p e → bucket_ok process tr b)
  ∧ NoDup (bucket_add buckets (effective_signature digest p) p e).*1.
Proof.
  intros Hb Hnd Hp Hen Hev. unfold bucket_add. set (sig := effective_signature digest p).
  destruct (default _ _) as [p0 ids] eqn:Ed. split; [|by apply ODict.set_NoDup].
  intros [k [p1 ids1]]. rewrite ODict.elem_of_iff_get by (by apply ODict.set_NoDup).
  rewrite ODict.get_set. case_decide as Ek.
  2: { intros Hg. apply Hb. by apply ODict.get_Some_elem_of. }
  subst k. intros [= <- <-]. unfold bucket_ok. cbn [fst snd].
  assert (resolvable p) as Hres by (by exists process, model, e).
  assert ((p0, ids) = (p, []) ∨ bucket_ok process tr (sig, (p0, ids))) as [Ed'|(Hne & ? & ? & Hids)].
  { destruct (ODict.get sig buckets) as [[p2 ids2]|] eqn:Eg; simpl in Ed; injection Ed as <- <-.
    - right. by apply Hb, ODict.get_Some_elem_of.
    - by left. }
  - injection Ed' as -> ->. split_and!; [done..|]. intros x ->%list_elem_of_singleton. eauto 10.
  - split_and!; [by destruct ids|done..|]. intros x [?| ->%list_elem_of_singleton]%elem_of_app;
      [by apply Hids|]. eauto 10.
Qed.

Lemma resolve_all_logs process equipment :
  (∀ d, d ∈ equipment → asks process (default "*" (ei_eqpModel d)) (ei_eqpId d)) →
  logs (fold_se (resolve_into digest process) equipment []) (λ tr r,
    ∀ buckets, r = Ok buckets → (∀ b, b ∈ buckets → bucket_ok process tr b) ∧ NoDup buckets.*1).
Proof.
  clear es_asked es_keyword_suffix pydantic_float.
  intros Hasks.
  apply (logs_fold _ (λ tr buckets,
    (∀ b, b ∈ buckets → bucket_ok process tr b) ∧ NoDup buckets.*1) _ []).
  { split; [set_solver|apply NoDup_nil_2]. }
  intros doc buckets tr Hdoc [Hb Hnd]. unfold resolve_into. specialize (Hasks doc Hdoc).
  eapply logs_bind; [apply (logs_dep_post _ (λ o, ∀ p, o = Some p →
    resolved process (default "*" (ei_eqpModel doc)) (ei_eqpId doc) p)); [eauto with deps_inv|]|done|].
  { intros w w' o Hi Hw p ->. split; [done|]. by repeat eexists. }
  intros o ? [-> Ho]. destruct o as [p|]; simpl.
  2: { apply logs_ret. intros b [= <-]. by rewrite app_nil_r. }
  assert (∀ b, b ∈ buckets → bucket_ok process (tr ++ [EvResolved (ei_eqpId doc) p]) b) as Hb'
    by auto using bucket_ok_mono.
  apply logs_emit_bind. destruct (p_enabled p) eqn:Ep; apply logs_ret; intros b [= <-]; [|done].
  eapply bucket_add_ok; [done|done|by eapply Ho|done|]. apply elem_of_app. right. left.
Qed.

Lemma evaluate_bucket_logs process interval now p ids acc :
  ids ≠ [] →
  logs (_evaluate_bucket es_keyword_suffix pydantic_float process now p
          (rules_of_tick interval p) ids acc) (λ tr r,
    ∀ acc', r = Ok acc' →
    ∀ pd, pd ∈ acc'.1 → pd ∈ acc.1 ∨ breach_of interval p ids (pd_breach pd)).
Proof.
  intros Hids. unfold _evaluate_bucket.
  eapply logs_bind; [|done|].
  - apply (logs_fold _ (λ _ (results : list (string * list (Target * FactValues))),
      ∀ mid t, ODict.get mid results = Some t → ∀ tg, tg ∈ t.*1 → tg.1 ∈ ids) _ []); [done|].
    intros mid results tr _ Hres. destruct (ODict.get mid _) as [m|].
    2: { apply logs_ret. by intros b [= <-]. }
    eapply logs_bind; [by apply (compute_measure_asked process now m ids)|done|].
    intros t tr' Ht. apply logs_ret. intros b [= <-] mid' t'. rewrite ODict.get_set.
    case_decide; [intros [= <-]; by apply Ht|apply Hres].
  - intros results tr Hres. eapply (logs_bind _ _ (λ _ r, ∀ l, r = Ok l →
      ∀ pd, pd ∈ l → pd ∈ acc.1 ∨ breach_of interval p ids (pd_breach pd))); [|done|].
    + apply logs_lift. intros l. apply evaluate_rules_breaches; [by apply Hres|done].
    + intros l tr' Hl. apply logs_ret. intros acc' [= <-]. by apply Hl.
Qed.

Lemma evaluate_buckets_logs process interval now tr buckets :
  (∀ b, b ∈ buckets → bucket_ok process tr b) →
  logs (evaluate_buckets es_keyword_suffix pydantic_float process interval now buckets) (λ _ r,
    ∀ acc, r = Ok acc → ∀ pd, pd ∈ acc.1 → breach_sound process interval tr (pd_breach pd)).
Proof.
  intros Hb. unfold evaluate_buckets.
  apply (logs_fold _ (λ _ acc, ∀ pd, pd ∈ acc.1 → breach_sound process interval tr (pd_breach pd)) _ []);
    [set_solver|].
  intros [sig [p ids]] acc tr1 Hin Hacc. simpl.
  case_decide; [by apply logs_ret; intros b [= <-]|].
  eapply logs_weaken; [apply (evaluate_bucket_logs process interval); by apply (Hb _ Hin)|].
  intros tr' r Hr acc' Hacc' pd [Hpd|Hpd]%(Hr acc' Hacc'); [by apply Hacc|].
  by eapply breach_of_sound; [apply Hb|].
Qed.

Lemma breach_sound_mono process interval tr tr' b :
  breach_sound process interval tr b → breach_sound process interval (tr ++ tr') b.
Proof.
  intros (q & model & rule & ch & Hq & ?). exists q, model, rule, ch. rewrite elem_of_app. auto.
Qed.

Lemma dispatch_logs process pending eqp_lookup now :
  logs (_dispatch settings process pending eqp_lookup now) (λ _ _, True).
Proof.
  unfold _dispatch. case_decide; [by apply logs_ret|].
  apply logs_dep_bind; [eauto with deps_inv|done|]. intros d.
  eapply logs_weaken; [apply dispatch_groups_logs, pending_groups_ok|done].
Qed.

Lemma do_analysis_logs process interval :
  logs (_do_analysis settings es_keyword_suffix pydantic_float digest process interval)
    (λ tr r, ∀ res, r = Ok res → ∀ b, b ∈ ar_breaches res → breach_sound process interval tr b).
Proof.
  unfold _do_analysis.
  eapply (logs_bind _ _ (λ tr _, tr = [])); [|done|].
  { intros s s' r Hi [= <- <-]. split; [done|]. exists []. by rewrite app_nil_r. }
  intros now ? ->.
  eapply logs_bind; [apply (logs_dep_post _ (λ l, ∀ d, d ∈ l →
    asks process (default "*" (ei_eqpModel d)) (ei_eqpId d))); [eauto with deps_inv|]|done|].
  { intros w w' l Hi Hl d. by eapply get_equipment_asks. }
  intros equipment ? [-> Hasks]. cbv zeta. simpl.
  case_decide; [apply logs_ret; intros res [= <-]; set_solver|].
  eapply logs_bind; [by apply resolve_all_logs, Hasks|done|]. intros buckets tr Hb.
  destruct (Hb buckets eq_refl) as [Hok _].
  eapply logs_bind; [by apply (evaluate_buckets_logs process interval now tr)|done|].
  intros [pending ids] tr1 Hpd.
  eapply (logs_bind _ _ (λ _ _, True)); [|done|].
  { by apply (logs_iter _ (λ _ _ _, True)); [done|]; intros; apply logs_emit. }
  intros [] tr2 _. eapply (logs_bind _ _ (λ _ _, True)); [|done|].
  { case_decide; [by apply logs_ret|]. apply dispatch_logs. }
  intros [] tr3 _. apply logs_ret. intros res [= <-] b (pd & -> & Hin)%list_elem_of_fmap.
  simpl. apply breach_sound_mono. by apply (Hpd (pending, ids)).
Qed.
End Traces.

(** The steps of an operation, down to its calls and events. *)
Ltac emit_parts :=
  repeat first
    [ apply emits_ret | apply emits_raise | apply emits_lift | (apply emits_emit; done)
    | (apply emits_dep; by eauto with deps_inv)
    | (apply emits_bind; [|intros ?]) | (apply emits_iter; intros ?) | (apply emits_fold; intros ? ?)
    | case_match ].

Section Properties.
Context {W : Type} `{!Deps W, !SetIter}.
Context (settings : AlertSettings).
#[local] Existing Instance no_inv.

(** C26: [_dispatch] sends at most one mail per cooldown key: the keys of the pending
    breaches of known equipment, each once, in the order they first occur.  The keys
    mailed are those that the cooldown manager does not report, in that order, all of
    them when it returns and a first part of them when an exception stops it.  The
    mail of a key is about the least equipment of its breaches, and a cooldown is
    set for exactly the keys whose mail was accepted, for the minutes of the channel
    of the first breach. *)
Theorem dispatch_one_mail_per_key process pending eqp_lookup now (s : W * list Event) :
  let key := key_of_pending process eqp_lookup in
  let groups := pending_groups process eqp_lookup pending in
  NoDup groups.*1 ∧ (∀ k, k ∈ groups.*1 ↔ ∃ p, p ∈ known eqp_lookup pending ∧ key p = k) ∧
  (∀ k ms, (k, ms) ∈ groups → ms = filter (λ p, key p = k) (known eqp_lookup pending)) ∧
  let '(s', r) := _dispatch settings process pending eqp_lookup now s in
  ∃ tr, s'.2 = s.2 ++ tr ∧
  match (cooling_batch groups.*1 s.1).2 with
  | Ok d => trace_ok groups tr ∧ mails_follow d groups tr r
  | Err _ => tr = []
  end.
Proof.
  intros key groups. split_and!.
  - unfold groups, pending_groups. apply ODict.group_NoDup.
  - unfold groups, pending_groups. intros k. apply ODict.elem_of_group_keys.
  - by intros k ms [-> _]%ODict.elem_of_group.
  - unfold _dispatch. fold groups. case_decide as Eg.
    { exists []. rewrite app_nil_r. split; [done|]. destruct (cooling_batch _ _).2; [|done].
      rewrite Eg. split; [apply trace_ok_nil|]. by split; [apply prefix_nil|]. }
    unfold se_bind, dep. destruct (cooling_batch groups.*1 s.1) as [w [d|e]]; simpl.
    2: { exists []. by rewrite app_nil_r. }
    destruct (iter_se _ groups _) as [s' r] eqn:E.
    by apply (dispatch_groups_logs (λ _, True) (λ _ _ _, True) settings process eqp_lookup now
                _ d groups (pending_groups_ok _ _ _)) in E as [_ E].
Qed.

Context (inv : W → Prop) (asks : string → string → string → Prop) `{!DepsInv W inv asks}.
Context (es_keyword_suffix : string) (pydantic_float : string → option num).
Context (digest : bool * list Measure * list Rule * list (string * NotifyChannel) → string).

(** Every breach that a tick returns comes from a rule of the profile that was
    resolved in this very tick for the equipment of the breach (not only for the
    first equipment of its bucket): the profile and the rule are enabled, the rule
    has the interval of the tick and gives the severity, and its channel is
    defined. *)
Theorem do_analysis_sound process interval (s s' : W * list Event) result :
  (∀ index now window category metrics proc facts expand ids w w' resp,
    inv w → ids ≠ [] →
    es_search index (build_metric_aggregation_query es_keyword_suffix now window category metrics
      proc facts expand ids) w = (w', Ok resp) →
    ∀ k, k ∈ eqp_keys resp → k ∈ ids) →
  (∀ p, resolvable inv asks p → NoDup (p_notify p).*1) →
  (∀ p q, resolvable inv asks p → resolvable inv asks q →
    digest (signature_payload p) = digest (signature_payload q) →
    signature_payload p = signature_payload q) →
  inv s.1 →
  _do_analysis settings es_keyword_suffix pydantic_float digest process interval s
    = (s', Ok result) →
  ∃ tr, s'.2 = s.2 ++ tr ∧
  ∀ b, b ∈ ar_breaches result → breach_sound inv asks process interval tr b.
Proof.
  intros Hes Hdict Hinj Hi Hs.
  destruct (do_analysis_logs inv asks settings es_keyword_suffix pydantic_float digest
    Hes Hdict Hinj process interval _ _ _ Hi Hs) as (_ & tr & ? & Hr). eauto.
Qed.
End Properties.

(** ** Dependencies in memory *)
Definition ex_disk_max : Measure :=
  Measure_with ex_measure [GK_eqpId] scalar [mkFact MAX None None None None].
Definition ex_live (b : bool) : MonitorProfile :=
  ex_doc (mkScope "ETCH" "*" "*") true [ex_disk_max] [ex_rule "a" true; ex_rule "b" b].

Record MemDeps := mkMemDeps
  { md_equipment : list EqpInfo; md_buckets : list (string * json); md_cooling : list Check;
    md_mails : nat; md_up : bool }.

(** The equipment that the last filter of a query asks for. *)
Definition asked_of (filters : list json) : list string :=
  match last filters with
  | Some (JObj [(_, JObj [(_, JArr l)])]) =>
      omap (λ x, match x with JStr s => Some s | _ => None end) l
  | _ => []
  end.

Definition asked (body : json) : list string :=
  match (query ← jget "query" JNull body; b ← jget "bool" JNull query; jget "filter" JNull b) with
  | Ok (JArr filters) => asked_of filters
  | _ => []
  end.

#[export] Instance mem_deps : Deps MemDeps := {
  get_equipment process w := (w, Ok (md_equipment w));
  resolve process model eqp w := (w, Ok (Some (ex_live (bool_decide (eqp = "E3")))));
  metric_names index category proc w := (w, Ok []);
  es_search index body w :=
    (w, Ok (JObj [("aggregations", JObj [("by_eqp", JObj [("buckets", JArr
       ((λ b : string * json, JObj [("key", JStr b.1); ("max", JObj [("value", b.2)])])
        <$> filter (λ b, b.1 ∈ asked body) (md_buckets w)))])])]));
  cooling_batch keys w :=
    (w, Ok ((λ k, (k, bool_decide (k ∈ md_cooling w))) <$> keys));
  cooldown_set key minutes w :=
    (mkMemDeps (md_equipment w) (md_buckets w) (key :: md_cooling w)
       (md_mails w) (md_up w), Ok tt);
  template_of k w := (w, Ok None);
  send_mail alert w :=
    (mkMemDeps (md_equipment w) (md_buckets w) (md_cooling w)
       (S (md_mails w)) (md_up w), Ok (md_up w));
  utc_now w := 1781484300000000%Z;
}.

Lemma asked_query suffix now window category metrics proc facts expand ids :
  ids ≠ [] →
  asked (build_metric_aggregation_query suffix now window category metrics proc facts expand ids)
  = ids.
Proof.
  intros Hne. unfold build_metric_aggregation_query.
  assert (∀ a l b, asked (JObj [("size", a); ("query", JObj [("bool", JObj [("filter", JArr l)])]);
    ("aggs", b)]) = asked_of l) as -> by reflexivity.
  rewrite (decide_False (P := ids = [])) by done. unfold asked_of. rewrite !last_app. simpl.
  clear Hne. induction ids as [|i ids IH]; [done|]. csimpl. by rewrite IH.
Qed.

Lemma mem_keys (bs : list (string * json)) :
  eqp_keys (JObj [("aggregations", JObj [("by_eqp", JObj [("buckets", JArr
    ((λ b : string * json, JObj [("key", JStr b.1); ("max", JObj [("value", b.2)])]) <$> bs))])])]) = bs.*1.
Proof.
  assert (∀ l, eqp_keys (JObj [("aggregations", JObj [("by_eqp", JObj [("buckets", JArr l)])])])
    = omap (λ b, match key_of b with Ok k => Some k | Err _ => None end) l) as ->
    by reflexivity.
  induction bs as [|b bs IH]; [done|]. csimpl. by rewrite IH.
Qed.

Lemma mem_asked index now window category metrics proc facts expand ids (w w' : MemDeps) resp :
  ids ≠ [] →
  es_search index (build_metric_aggregation_query "" now window category metrics
    proc facts expand ids) w = (w', Ok resp) →
  ∀ k, k ∈ eqp_keys resp → k ∈ ids.
Proof.
  intros Hne [= _ <-] k. rewrite mem_keys, asked_query by done.
  intros (b & -> & [Hb _]%list_elem_of_filter)%list_elem_of_fmap. done.
Qed.

Definition ex_eqp (id : string) : EqpInfo :=
  mkEqpInfo id (Some "M1") "ETCH" None (Some "10.0.0.1") (Some "L1") None 1 1.
Definition ex_settings : AlertSettings := mkAlertSettings "RMS" "" "" false 100 60000.
Definition ex_deps : MemDeps :=
  mkMemDeps [ex_eqp "E1"; ex_eqp "E2"; ex_eqp "E3"]
    [("E1", JInt 40); ("E2", JInt 97); ("E3", JInt 99); ("E9", JInt 99)] [] 0 true.
Definition ex_digest (x : bool * list Measure * list Rule * list (string * NotifyChannel))
  : string :=
  if decide (x = signature_payload (ex_live true)) then "5f1a" else "c07e".
Definition ex_tick (deps : MemDeps) :=
  @_do_analysis MemDeps mem_deps set_iter_id ex_settings "" (λ _, None) ex_digest
    "ETCH" 5 (deps, []).

Notation ex_asks := (λ _ _ _ : string, True).
Lemma ex_resolvable p : resolvable (λ _ : MemDeps, True) ex_asks p → ∃ b, p = ex_live b.
Proof. intros (process & model & eqp & _ & w & w' & _ & [= _ <-]). eauto. Qed.

(** The equipment of the two profiles breaches the common rule, and [E3] its own one; each
    gets one mail and one cooldown, and the next tick suppresses them. *)
Example tick_example :
  let '(s1, r1) := ex_tick ex_deps in
  let '(s2, r2) := ex_tick s1.1 in
  mails s1.2 = [mkCheck "ETCH" "E2" "*" "default" "CRITICAL";
                mkCheck "ETCH" "E3" "*" "default" "CRITICAL"]
  ∧ md_mails s1.1 = 2 ∧ md_cooling s1.1 = reverse (mails s1.2)
  ∧ mails s2.2 = [] ∧ md_mails s2.1 = 2 ∧ isOk r2 = true
  ∧ match r1 with
    | Ok res => (λ b, (tb_eqp_id b, tb_rule_id b)) <$> ar_breaches res
                = [("E2", "a"); ("E3", "a"); ("E3", "b")]
    | Err _ => False
    end.
Proof. vm_compute. repeat split. Qed.

Lemma do_analysis_sound_witness :
  ∃ s' result, ex_tick ex_deps = (s', Ok result) ∧ length (ar_breaches result) = 3
  ∧ ∃ tr, s'.2 = tr ∧
    ∀ b, b ∈ ar_breaches result → breach_sound (λ _, True) ex_asks "ETCH" 5 tr b.
Proof.
  assert (∃ s' result, ex_tick ex_deps = (s', Ok result)
          ∧ length (ar_breaches result) = 3) as (s' & result & Hs & Hl)
    by (eexists _, _; split; [vm_compute; reflexivity|reflexivity]).
  exists s', result. split; [exact Hs|]. split; [exact Hl|].
  refine (@do_analysis_sound MemDeps mem_deps set_iter_id ex_settings (λ _, True) ex_asks
    no_inv "" (λ _, None) ex_digest "ETCH" 5 (ex_deps, []) s' result _ _ _ I Hs).
  - intros index now window category metrics proc facts expand ids w w' resp _. apply mem_asked.
  - intros p [b ->]%ex_resolvable. repeat constructor. intros []%elem_of_nil.
  - intros p q [b ->]%ex_resolvable [b' ->]%ex_resolvable.
    destruct b, b'; (done || (intros Hd; vm_compute in Hd; discriminate Hd)).
Defined.
