(* ===== verification/Bucketing.v ===== *)
(** * Bucketing is an optimisation ([src/analyzer/engine.py])

    A tick groups the equipment by the signature of its profile and evaluates every group
    with one profile and one search per measure.  What it should find is what evaluating
    each piece of equipment alone, with its own profile and its own readings, finds
    ([alone]).  The theorem at the end says that the breaches of a tick are exactly these,
    for a cluster whose documents do not change during the tick. *)
From stdpp Require Import base list sets strings.
From Stdlib Require Import ZArith Lia.
From S2P Require Import Prelude PyNum PyStr PyTime Json FactCatalog Models Renderer Threshold.
From S2P Require Import Repository Cooldown AlertBuilder EsQuery Engine.
Local Open Scope se_scope.

(** ** Dicts of lists of pairs *)

(** The entry of a target in the results of a measure. *)
Definition look {V} (results : list (string * list (Target * V))) (mid : string) (tg : Target)
  : option V :=
  ODict.get tg (default [] (ODict.get mid results)).

(** A dict made from a list does not depend on its order when the keys are unique. *)
Lemma dict_perm {A V} (key : A → string) (v : A → V) l l' k :
  l ≡ₚ l' → NoDup (key <$> l) →
  ODict.get k (ODict.of_list ((λ x, (key x, v x)) <$> l))
  = ODict.get k (ODict.of_list ((λ x, (key x, v x)) <$> l')).
Proof.
  intros Hp Hnd. assert (NoDup (key <$> l')) as Hnd' by (by rewrite <-Hp).
  assert (∀ l : list A, ((λ x, (key x, v x)) <$> l).*1 = key <$> l) as Hk
    by (intros m; by rewrite <-list_fmap_compose).
  rewrite !ODict.of_list_id by (by rewrite Hk). apply option_eq. intros x.
  rewrite <-!ODict.elem_of_iff_get by (by rewrite Hk). by rewrite Hp.
Qed.

Lemma get_fmap {A B} (f : string → A → B) (d : list (string * A)) k :
  ODict.get k ((λ '(i, x), (i, f i x)) <$> d) = f k <$> ODict.get k d.
Proof.
  induction d as [|[i x] d IH]; [done|]. csimpl. case_decide as Hk; [by subst|done].
Qed.

(** ** The buckets of an answer *)
Notation Facts := (list (Target * list (string * list (option Value)))).

Definition answer_buckets (response : json) : res ShapeError (list json) :=
  aggs ← jget "aggregations" (JObj []) response;
  by_eqp ← jget "by_eqp" (JObj []) aggs;
  buckets_of by_eqp.

(** What one bucket contributes. *)
Definition facts_of_bucket (facts : list Fact) (proc : string) (expand : bool) (bucket : json)
  : Facts :=
  match parse_eqp_bucket facts proc expand [] bucket with Ok t => t | Err _ => [] end.

Lemma fold_res_set {E A K V} `{!EqDecision K} f (g : A → res E (K * V)) l (d : list (K * V)) :
  (∀ d x, f d x = (kv ← g x; Ok (ODict.set kv.1 kv.2 d))) →
  fold_res f l d = (kvs ← mapM g l; Ok (ODict.set_all kvs d)).
Proof.
  intros Hf. revert d. induction l as [|x l IH]; intros d; [done|]. simpl. rewrite Hf.
  destruct (g x) as [kv|e]; [|done]. simpl. rewrite IH. by destruct (mapM g l).
Qed.

(** A bucket sets entries of its own equipment only, whatever the results so far. *)
Lemma parse_bucket_entries facts proc expand b e :
  key_of b = Ok e →
  ∃ entries : res ShapeError Facts,
    (∀ r, parse_eqp_bucket facts proc expand r b = (kvs ← entries; Ok (ODict.set_all kvs r))) ∧
    ∀ kvs, entries = Ok kvs → Forall (λ kv, kv.1.1 = e) kvs.
Proof.
  intros Hk.
  set (entry pb := (pkey ← key_of pb;
    grouped ← (if expand then jin "by_metric" pb else Ok false);
    insts ← (if (grouped : bool) then jindex "by_metric" pb ≫= buckets_of else Ok [pb]);
    vals ← fact_values facts insts; Ok ((e, pkey), vals)) : res ShapeError (Target * _)).
  exists (grouped ← jin "by_proc" b;
    pbs ← (if (grouped : bool) then jindex "by_proc" b ≫= buckets_of
           else b ← jupdate "key" (JStr proc) b; Ok [b]);
    mapM entry pbs). split.
  - intros r. unfold parse_eqp_bucket. rewrite Hk. simpl.
    destruct (jin "by_proc" b) as [g|]; simpl; [|done].
    destruct (if g then _ else _) as [pbs|]; simpl; [|done].
    apply fold_res_set. intros d pb. unfold entry, parse_proc_bucket.
    destruct (key_of pb) as [pkey|]; simpl; [|done].
    destruct (if expand then _ else _) as [g'|]; simpl; [|done].
    destruct (if g' then _ else _) as [insts|]; simpl; [|done].
    by destruct (fact_values facts insts).
  - intros kvs. destruct (jin "by_proc" b) as [g|]; simpl; [|done].
    destruct (if g then _ else _) as [pbs|]; simpl; [|done]. intros H%mapM_Ok_Forall2.
    eapply Forall2_Forall_r; [exact H|]. apply Forall_true. intros pb kv. unfold entry.
    destruct (key_of pb) as [pkey|]; simpl; [|done].
    destruct (if expand then _ else _) as [g'|]; simpl; [|done].
    destruct (if g' then _ else _) as [insts|]; simpl; [|done].
    destruct (fact_values facts insts); simpl; [|done]. by intros [= <-].
Qed.

Lemma get_set_all_other {e : string} (kvs r : Facts) tg :
  Forall (λ kv, kv.1.1 = e) kvs → tg.1 ≠ e → ODict.get tg (ODict.set_all kvs r) = ODict.get tg r.
Proof.
  intros Hk Hne. rewrite ODict.get_set_all. destruct (last _) as [kv|] eqn:El; [|done].
  apply last_Some_elem_of, list_elem_of_filter in El as [<- Hin].
  rewrite Forall_forall in Hk. by destruct Hne; apply Hk.
Qed.

Lemma get_set_all_own (kvs r : Facts) tg :
  ODict.get tg r = None → ODict.get tg (ODict.set_all kvs r) = ODict.get tg (ODict.set_all kvs []).
Proof. intros Hr. rewrite !ODict.get_set_all. by destruct (last _). Qed.

Lemma facts_of_bucket_own facts proc expand b e tg :
  key_of b = Ok e → tg ∈ (facts_of_bucket facts proc expand b).*1 → tg.1 = e.
Proof.
  intros Hk. destruct (parse_bucket_entries facts proc expand b e Hk) as (entries & Hp & Hkeys).
  unfold facts_of_bucket. rewrite Hp. destruct entries as [kvs|]; simpl; [|set_solver].
  rewrite ODict.elem_of_set_all_keys. intros [(kv & -> & Hin)%list_elem_of_fmap|Hin]; [|set_solver].
  specialize (Hkeys kvs eq_refl). rewrite Forall_forall in Hkeys. by apply Hkeys.
Qed.

(** The facts of a target are those of the bucket of its equipment. *)
Lemma parse_buckets facts proc expand bs r t tg :
  Forall (λ b, ∃ e, key_of b = Ok e) bs → NoDup (key_of <$> bs) →
  fold_res (parse_eqp_bucket facts proc expand) bs r = Ok t →
  (∀ b, b ∈ bs → key_of b = Ok tg.1 → ODict.get tg r = None →
     ODict.get tg t = ODict.get tg (facts_of_bucket facts proc expand b)) ∧
  ((∀ b, b ∈ bs → key_of b ≠ Ok tg.1) → ODict.get tg t = ODict.get tg r).
Proof.
  revert r. induction bs as [|b bs IH]; intros r.
  { intros _ _ [= <-]. split; [set_solver|done]. }
  intros [[e He] Hbs]%Forall_cons [Hnin Hnd]%NoDup_cons. cbn [fold_res].
  destruct (parse_bucket_entries facts proc expand b e He) as (entries & Hp & Hkeys). rewrite Hp.
  destruct entries as [kvs|] eqn:Ee; simpl; [|done]. intros Ht.
  destruct (IH _ Hbs Hnd Ht) as [Hin Hout]. specialize (Hkeys kvs eq_refl). split.
  - intros b' [->|Hb']%elem_of_cons Hk Hr.
    + rewrite Hout; [|intros b' Hb' Hk'; apply Hnin; rewrite Hk, <-Hk'; by apply list_elem_of_fmap_2].
      unfold facts_of_bucket. rewrite Hp. simpl. by apply get_set_all_own.
    + apply Hin; [done|done|]. rewrite (get_set_all_other (e := e)); [done..|]. intros Htg.
      apply Hnin. rewrite He, <-Htg, <-Hk. by apply list_elem_of_fmap_2.
  - intros Hno. rewrite Hout; [|intros b' Hb'; apply Hno; by right].
    apply (get_set_all_other (e := e)); [done|]. intros Htg. apply (Hno b); [left|]. by rewrite He, Htg.
Qed.

(** ** The reference *)
Section Reference.
Context `{!SetIter} (pydantic_float : string → option num).
(** What the cluster holds: the metric names of an index, category and process; and, for
    the parameters of a search, the bucket of an equipment in its answer, if it has rows. *)
Context (names : string → string → string → list string).
Context (rows : string → Z → Z → string → list string → string → list Fact → bool → string →
  option json).
Context (process : string) (now : Z).

(** The names a measure asks for. *)
Definition metrics_of (m : Measure) : list string :=
  if bool_decide (m_expand m = instance) then
    default [] (ODict.get (m_metric m)
      (resolve_metric_patterns [m_metric m]
         (names (index_range process (m_window_minutes m) now) (m_category m) (m_proc m))))
  else [m_metric m].

(** The facts of a measure on the equipment [e]. *)
Definition reading (e : string) (m : Measure) : Facts :=
  let impl_facts := filter (λ f, is_implemented (f_type f) = true) (m_facts m) in
  let expand := bool_decide (m_expand m = instance) in
  if decide (impl_facts = [] ∨ metrics_of m = []) then []
  else
    match rows (index_range process (m_window_minutes m) now) now (m_window_minutes m)
            (m_category m) (metrics_of m) (m_proc m) impl_facts expand e with
    | Some b => facts_of_bucket impl_facts (m_proc m) expand b
    | None => []
    end.

Definition readings (e : string) (p : MonitorProfile) : list (string * Facts) :=
  (λ '(i, m), (i, reading e m)) <$> measures_by_id (p_measures p).

(** What a rule finds on the targets of a list. *)
Definition found_on (p : MonitorProfile) (results : list (string * Facts)) (rule : Rule)
    (tg : Target) : list _Pending :=
  match evaluate_target pydantic_float p results rule tg with
  | Ok o => option_list o
  | Err _ => []
  end.

(** The equipment [e] alone, with the profile [p]. *)
Definition alone (interval : Z) (e : string) (p : MonitorProfile) : list _Pending :=
  if p_enabled p then
    rule ← rules_of_tick interval p;
    tg ← targets_of (readings e p) rule;
    found_on p (readings e p) rule tg
  else [].
End Reference.

(** ** What an evaluation depends on *)
Section Ext.
Context `{!SetIter} (pydantic_float : string → option num).
Notation Results := (list (string * list (Target * list (string * list (option Value))))).

Lemma facts_by_ref_ext (results results' : Results) rule tg :
  (∀ mid, mid ∈ mids (r_when rule) → look results mid tg = look results' mid tg) →
  facts_by_ref results rule tg = facts_by_ref results' rule tg.
Proof.
  intros Hl. unfold facts_by_ref. f_equal. apply list_fmap_ext. intros i cond Hc. simpl.
  do 3 f_equal. unfold look in Hl. rewrite Hl; [done|]. unfold mids.
  rewrite elem_of_iter_set, elem_of_remove_dups. apply list_elem_of_fmap. exists cond.
  split; [done|by eapply list_elem_of_lookup_2].
Qed.

Lemma elem_of_targets_look (results : Results) rule tg :
  tg ∈ targets_of results rule ↔ ∃ mid, mid ∈ mids (r_when rule) ∧ is_Some (look results mid tg).
Proof.
  unfold targets_of, look. rewrite elem_of_iter_set, elem_of_remove_dups, list_elem_of_join.
  assert (∀ (d : list (Target * list (string * list (option Value)))),
    tg ∈ d.*1 ↔ is_Some (ODict.get tg d)) as Hk.
  { intros d. rewrite <-not_eq_None_Some, ODict.get_None. destruct (decide (tg ∈ d.*1)); tauto. }
  split.
  - intros (l & Htg & (mid & -> & Hm)%list_elem_of_fmap). exists mid. by rewrite <-Hk.
  - intros (mid & Hm & Hs). eexists. rewrite <-Hk in Hs. split; [exact Hs|].
    by apply (list_elem_of_fmap_2 (λ mid, (default [] (ODict.get mid results)).*1)).
Qed.

Lemma evaluate_rule_category rule facts eqp proc cat cat' :
  (∀ k, ODict.get k cat = ODict.get k cat') →
  evaluate_rule pydantic_float rule facts eqp proc cat
  = evaluate_rule pydantic_float rule facts eqp proc cat'.
Proof.
  intros Hc. unfold evaluate_rule. destruct (mapM _ _) as [results|e]; [|done]. simpl.
  destruct (combined _ _); [|done]. destruct (trigger_of results) as [[[cond x] rep]|]; [|done].
  by rewrite Hc.
Qed.

(** Profiles that agree on their measures and channels as dicts. *)
Lemma evaluate_target_ext p q (results results' : Results) rule tg :
  p_measures p ≡ₚ p_measures q → NoDup (m_id <$> p_measures p) →
  (∀ k, ODict.get k (p_notify p) = ODict.get k (p_notify q)) →
  (∀ mid, mid ∈ mids (r_when rule) → look results mid tg = look results' mid tg) →
  evaluate_target pydantic_float p results rule tg = evaluate_target pydantic_float q results' rule tg.
Proof.
  intros Hm Hnd Hn Hl. unfold evaluate_target. rewrite (facts_by_ref_ext _ results') by done.
  rewrite (evaluate_rule_category rule _ _ _ _
    (ODict.of_list ((λ m, (m_id m, m_category m)) <$> p_measures q)))
    by (intros k; by apply (dict_perm m_id m_category)).
  destruct (evaluate_rule _ _ _ _ _ _) as [[b|]|e]; [|done|done].
  rewrite Hn. destruct (ODict.get _ (p_notify q)); [|done].
  unfold measures_by_id. by rewrite (dict_perm m_id (λ m, m) _ _ _ Hm Hnd).
Qed.

(** A fold that adds to a list what [F] says of every element. *)
Lemma fold_res_adds {E A B} (f : list B → A → res E (list B)) (F : A → B → Prop) l acc out :
  (∀ x acc acc', x ∈ l → f acc x = Ok acc' → ∀ y, y ∈ acc' ↔ y ∈ acc ∨ F x y) →
  fold_res f l acc = Ok out → ∀ y, y ∈ out ↔ y ∈ acc ∨ ∃ x, x ∈ l ∧ F x y.
Proof.
  revert acc. induction l as [|x l IH]; intros acc Hf; simpl.
  - intros [= <-] y. set_solver.
  - destruct (f acc x) as [acc'|] eqn:Ex; [|done]. simpl. intros Hout y.
    rewrite (IH acc' (λ z a a' Hz, Hf z a a' (list_elem_of_further _ _ _ Hz)) Hout).
    rewrite (Hf x acc acc' (list_elem_of_here _ _) Ex).
    setoid_rewrite elem_of_cons. naive_solver.
Qed.

(** What the rules of a bucket add. *)
Lemma evaluate_rules_adds p (results : Results) rules acc out :
  fold_res (evaluate_rule_targets pydantic_float p results) rules acc = Ok out →
  ∀ pd, pd ∈ out ↔ pd ∈ acc ∨ ∃ rule, rule ∈ rules ∧ ∃ tg, tg ∈ targets_of results rule ∧
    pd ∈ found_on pydantic_float p results rule tg.
Proof.
  apply (fold_res_adds _ (λ rule pd, ∃ tg, tg ∈ targets_of results rule ∧
    pd ∈ found_on pydantic_float p results rule tg)).
  intros rule acc1 acc2 _. unfold evaluate_rule_targets.
  apply (fold_res_adds _ (λ tg pd, pd ∈ found_on pydantic_float p results rule tg)).
  intros tg c c' _. unfold found_on.
  destruct (evaluate_target _ _ _ _ _) as [o|e]; [|done]. simpl. intros [= <-] pd. apply elem_of_app.
Qed.
End Ext.

(** ** A cluster whose documents do not change *)

(** Documented behaviour of Elasticsearch, on documents that stay as they are: an answer
    about metric names is always the same, and the answer to a search for some equipment
    has one bucket for each that has rows, as many as the aggregation has room for; what is
    in a bucket depends on the rows of its equipment only. *)
Class SteadyCluster (W : Type) `{!Deps W} (inv : W → Prop) (es_keyword_suffix : string)
    (names : string → string → string → list string)
    (rows : string → Z → Z → string → list string → string → list Fact → bool → string →
       option json) := {
  names_law index c p w w' l : inv w → metric_names index c p w = (w', Ok l) → l = names index c p;
  rows_key index now window c metrics proc facts expand e b :
    rows index now window c metrics proc facts expand e = Some b → key_of b = Ok e;
  rows_law index now window c metrics proc facts expand ids w w' resp bs :
    inv w → ids ≠ [] → (Z.of_nat (length (remove_dups ids)) ≤ _TERMS_AGG_SIZE)%Z →
    es_search index (build_metric_aggregation_query es_keyword_suffix now window c metrics proc
      facts expand ids) w = (w', Ok resp) →
    answer_buckets resp = Ok bs →
    bs ≡ₚ omap (rows index now window c metrics proc facts expand) (remove_dups ids);
}.

(** ** The tick *)
Section Tick.
Context {W : Type} `{!Deps W, !SetIter}.
Context (inv : W → Prop) (asks : string → string → string → Prop) `{!DepsInv W inv asks}.
Context (settings : AlertSettings).
Context (es_keyword_suffix : string) (pydantic_float : string → option num).
Context (digest : bool * list Measure * list Rule * list (string * NotifyChannel) → string).
Context (names : string → string → string → list string).
Context (rows : string → Z → Z → string → list string → string → list Fact → bool → string →
  option json).
Context `{!SteadyCluster W inv es_keyword_suffix names rows}.
Notation Results := (list (string * Facts)).

(** What pydantic guarantees of a profile, and that the digest tells signatures apart. *)
Hypothesis resolve_dict : ∀ p, resolvable inv asks p →
  NoDup (p_notify p).*1 ∧ NoDup (m_id <$> p_measures p).
Hypothesis digest_inj : ∀ p q, resolvable inv asks p → resolvable inv asks q →
  digest (signature_payload p) = digest (signature_payload q) →
  signature_payload p = signature_payload q.

Notation reading := (reading names rows).
Notation readings := (readings names rows).
Notation logs := (logs inv).
Notation sig := (effective_signature digest).

Definition fits (ids : list string) : Prop :=
  ids ≠ [] ∧ (Z.of_nat (length (remove_dups ids)) ≤ _TERMS_AGG_SIZE)%Z.

(** The answer to a search, read. *)
Lemma answer_reads process now m ids w w' resp t tg :
  let impl_facts := filter (λ f, is_implemented (f_type f) = true) (m_facts m) in
  let expand := bool_decide (m_expand m = instance) in
  let metrics := metrics_of names process now m in
  fits ids → inv w → impl_facts ≠ [] → metrics ≠ [] →
  es_search (index_range process (m_window_minutes m) now)
    (build_metric_aggregation_query es_keyword_suffix now (m_window_minutes m) (m_category m)
       metrics (m_proc m) impl_facts expand ids) w = (w', Ok resp) →
  parse_metric_aggregation resp impl_facts (m_proc m) expand = Ok t →
  ODict.get tg t = if decide (tg.1 ∈ ids) then ODict.get tg (reading process now tg.1 m) else None.
Proof.
  intros impl_facts expand metrics [Hids Hfit] Hi Hf Hm Hs Hp.
  unfold parse_metric_aggregation in Hp.
  destruct (answer_buckets resp) as [bs|] eqn:Ea; unfold answer_buckets in Ea; cycle 1.
  { destruct (jget "aggregations" _ resp) as [aggs|]; simpl in *; [|done].
    destruct (jget "by_eqp" _ aggs) as [by_eqp|]; simpl in *; [|done]. by rewrite Ea in Hp. }
  assert (fold_res (parse_eqp_bucket impl_facts (m_proc m) expand) bs [] = Ok t) as Hfold.
  { destruct (jget "aggregations" _ resp) as [aggs|]; simpl in *; [|done].
    destruct (jget "by_eqp" _ aggs) as [by_eqp|]; simpl in *; [|done]. by rewrite Ea in Hp. }
  clear Hp. eapply rows_law in Hs as Hbs; [|done..|exact Ea].
  set (row := rows _ _ _ _ _ _ _ _) in Hbs.
  assert (∀ e b, row e = Some b → key_of b = Ok e) as Hkey by (intros e b; apply rows_key).
  assert (∀ b, b ∈ bs ↔ ∃ e, e ∈ ids ∧ row e = Some b) as Hin.
  { intros b. rewrite Hbs, list_elem_of_omap. by setoid_rewrite elem_of_remove_dups. }
  destruct (parse_buckets impl_facts (m_proc m) expand bs [] t tg) as [Hown Hnone]; [|  |done|].
  - apply Forall_forall. intros b (e & _ & Hb)%Hin. eauto.
  - rewrite Hbs. pose proof (NoDup_remove_dups ids) as Hnd. revert Hnd.
    generalize (remove_dups ids) as l. induction l as [|e l IH]; [constructor|].
    intros [Hni Hnd]%NoDup_cons. csimpl. destruct (row e) as [b|] eqn:Er; [|auto]. csimpl.
    constructor; [|auto]. intros (b' & Hk & (e' & He' & Hb')%list_elem_of_omap)%list_elem_of_fmap.
    rewrite (Hkey _ _ Er), (Hkey _ _ Hb') in Hk. by simplify_eq.
  - unfold Bucketing.reading. fold impl_facts expand metrics.
    rewrite (decide_False (P := impl_facts = [] ∨ _)) by tauto.
    case_decide as Htg; cycle 1.
    { apply Hnone. intros b (e & He & Hb)%Hin Hk. rewrite (Hkey _ _ Hb) in Hk. congruence. }
    fold row. destruct (row tg.1) as [b|] eqn:Er.
    + apply Hown; [apply Hin; eauto|auto|done].
    + apply Hnone. intros b (e & He & Hb)%Hin Hk. rewrite (Hkey _ _ Hb) in Hk. congruence.
Qed.

Lemma compute_measure_reads process now m ids :
  fits ids →
  logs (_compute_measure es_keyword_suffix process now m ids) (λ _ r,
    ∀ t, r = Ok t → ∀ tg, ODict.get tg t =
      if decide (tg.1 ∈ ids) then ODict.get tg (reading process now tg.1 m) else None).
Proof.
  intros Hfit. unfold _compute_measure.
  assert (∀ tg, filter (λ f, is_implemented (f_type f) = true) (m_facts m) = [] ∨
    metrics_of names process now m = [] →
    None = if decide (tg.1 ∈ ids) then ODict.get tg (reading process now tg.1 m) else None) as Hnil.
  { intros tg Hor. unfold Bucketing.reading. rewrite (decide_True (P := _ ∨ _)) by done.
    by case_decide. }
  destruct (decide (_ = [])) as [Hf|Hf]; [apply logs_ret; intros t [= <-] tg; auto|].
  eapply (logs_bind _ _ _ (λ _ r, ∀ index, r = Ok index →
    index = index_range process (m_window_minutes m) now)); [|done|].
  { apply logs_lift. destruct (resolve_index_range _ _ _) as [index|] eqn:Er; [|done].
    intros ? [= <-]. by apply resolve_index_range_Some in Er. }
  intros index tr0 Hindex. rewrite (Hindex index eq_refl). clear Hindex.
  eapply (logs_bind _ _ _ (λ _ r, ∀ l, r = Ok l → l = metrics_of names process now m)); [|done|].
  { unfold metrics_of. case_match; [|by apply logs_ret; intros l [= <-]].
    eapply logs_bind; [apply (logs_dep_post inv _ (λ l, l = names
      (index_range process (m_window_minutes m) now) (m_category m) (m_proc m)));
      [eauto with deps_inv|]|done|].
    - intros w w' l Hi. by apply names_law.
    - intros l tr [_ Hl]. apply logs_ret. intros l' [= <-]. by rewrite (Hl l eq_refl). }
  intros metrics tr Hm. rewrite (Hm metrics eq_refl). clear Hm.
  destruct (decide (_ = [])) as [Hm|Hm]; [apply logs_ret; intros t [= <-] tg; auto|].
  intros s s' r Hi. unfold se_bind, dep.
  pose proof (es_search_inv (W := W) (inv := inv) (asks := asks)
    (index_range process (m_window_minutes m) now)
    (build_metric_aggregation_query es_keyword_suffix now (m_window_minutes m) (m_category m)
       (metrics_of names process now m) (m_proc m)
       (filter (λ f, is_implemented (f_type f) = true) (m_facts m))
       (bool_decide (m_expand m = instance)) ids) s.1 Hi) as Hinv.
  destruct (es_search _ _ s.1) as [w [resp|e]] eqn:Es; intros [= <- <-]; (split; [done|]); cycle 1.
  { exists []. by rewrite app_nil_r. }
  exists [EvSearched]. split; [done|].
  unfold shape. intros t. destruct (parse_metric_aggregation _ _ _ _) as [t'|] eqn:Ep; [|done].
  intros [= <-] tg. exact (answer_reads process now m ids _ _ _ _ tg Hfit Hi Hf Hm Es Ep).
Qed.

(** What the equipment of a bucket has of the readings. *)
Definition bucket_reading process now p (ids : list string) mid (tg : Target) :=
  if decide (tg.1 ∈ ids) then look (readings process now tg.1 p) mid tg else None.

Lemma look_readings process now e p mid tg :
  look (readings process now e p) mid tg =
  ODict.get tg (default [] (reading process now e <$> ODict.get mid (measures_by_id (p_measures p)))).
Proof. unfold look, Bucketing.readings. by rewrite (get_fmap (λ _, reading process now e)). Qed.

Lemma measures_read process now p ids l (acc : Results) :
  fits ids →
  (∀ mid, ODict.get mid (measures_by_id (p_measures p)) = None → ODict.get mid acc = None) →
  logs (fold_se (λ results mid,
      match ODict.get mid (measures_by_id (p_measures p)) with
      | None => se_ret results
      | Some measure =>
          r <- _compute_measure es_keyword_suffix process now measure ids ;;
          se_ret (ODict.set mid r results)
      end) l acc) (λ _ r, ∀ results, r = Ok results → ∀ mid tg,
        mid ∈ l ∨ look acc mid tg = bucket_reading process now p ids mid tg →
        look results mid tg = bucket_reading process now p ids mid tg).
Proof.
  intros Hids. revert acc. induction l as [|x l IH]; intros acc Hacc; cbn [fold_se].
  { apply logs_ret. intros results [= <-] mid tg [Hin|Hl]; [by apply elem_of_nil in Hin|done]. }
  destruct (ODict.get x _) as [m|] eqn:Ex; cycle 1.
  - eapply (logs_bind _ _ _ (λ tr r, r = Ok acc)); [by apply logs_ret|done|]. intros ? tr [= ->].
    eapply logs_weaken; [by apply IH|]. simpl. intros tr' r Hr results E mid tg Hor.
    apply (Hr results E). destruct Hor as [[->|Hin]%elem_of_cons|]; [|by left|by right]. right.
    unfold look at 1. rewrite Hacc by done. unfold bucket_reading. rewrite look_readings, Ex.
    by case_decide.
  - eapply (logs_bind _ _ _ (λ _ r, ∀ acc', r = Ok acc' → ∃ t, acc' = ODict.set x t acc ∧
      ∀ tg, ODict.get tg t = bucket_reading process now p ids x tg)); [|done|].
    { eapply logs_bind; [by apply (compute_measure_reads process now m ids)|done|].
      intros t tr Ht. apply logs_ret. intros acc' [= <-]. exists t. split; [done|]. intros tg.
      rewrite (Ht t eq_refl). unfold bucket_reading. by rewrite look_readings, Ex. }
    intros acc' tr Hr. destruct (Hr acc' eq_refl) as (t & -> & Ht). clear Hr.
    eapply logs_weaken; [apply IH|].
    + intros mid Hm. rewrite ODict.get_set_ne; [by apply Hacc|]. intros ->. by rewrite Hm in Ex.
    + simpl. intros tr' r Hr results E mid tg Hor. apply (Hr results E). unfold look at 1.
      destruct (decide (mid = x)) as [->|Hne].
      * right. rewrite ODict.get_set_eq. apply Ht.
      * rewrite ODict.get_set_ne by done. destruct Hor as [[->|]%elem_of_cons|]; [done|auto..].
Qed.

(** What a bucket adds to the pending breaches: what its rules find on its equipment. *)
Definition bucket_finds process now interval p (ids : list string) (pd : _Pending) : Prop :=
  ∃ rule, rule ∈ rules_of_tick interval p ∧
  ∃ tg, tg.1 ∈ ids ∧ tg ∈ targets_of (readings process now tg.1 p) rule ∧
    pd ∈ found_on pydantic_float p (readings process now tg.1 p) rule tg.

Lemma bucket_adds process now interval p ids acc :
  fits ids → NoDup (m_id <$> p_measures p) →
  logs (_evaluate_bucket es_keyword_suffix pydantic_float process now p
          (rules_of_tick interval p) ids acc) (λ _ r,
    ∀ acc', r = Ok acc' → ∀ pd, pd ∈ acc'.1 ↔ pd ∈ acc.1 ∨ bucket_finds process now interval p ids pd).
Proof.
  intros Hids Hnd. unfold _evaluate_bucket.
  eapply logs_bind; [by apply (measures_read process now p ids)|done|].
  intros results tr Hres. specialize (Hres results eq_refl).
  assert (∀ rule tg mid, rule ∈ rules_of_tick interval p → mid ∈ mids (r_when rule) →
    look results mid tg = bucket_reading process now p ids mid tg) as Hlook.
  { intros rule tg mid Hr Hm. apply Hres. left. unfold mids in *.
    rewrite elem_of_iter_set, elem_of_remove_dups in Hm |- *.
    apply list_elem_of_fmap in Hm as (cond & -> & Hc). apply list_elem_of_fmap. exists cond.
    split; [done|]. apply list_elem_of_join. exists (r_when rule). split; [done|].
    by apply list_elem_of_fmap_2. }
  eapply (logs_bind _ _ _ (λ _ r, ∀ l, r = Ok l → ∀ pd, pd ∈ l ↔
    pd ∈ acc.1 ∨ bucket_finds process now interval p ids pd)); [|done|].
  2: { intros l tr' Hl. apply logs_ret. intros acc' [= <-]. apply (Hl l eq_refl). }
  apply logs_lift. intros l Hl pd. rewrite (evaluate_rules_adds _ _ _ _ _ _ Hl pd). f_equiv.
  unfold bucket_finds. clear Hl.
  split; intros (rule & Hr & tg & H1 & H2).
  - apply elem_of_targets_look in H1 as (mid & Hm & Hs). rewrite (Hlook rule) in Hs by done.
    assert (tg.1 ∈ ids) as Htg by (unfold bucket_reading in Hs; case_decide; [done|by destruct Hs]).
    exists rule. split; [done|]. exists tg. split_and!; [done| |].
    + apply elem_of_targets_look. exists mid. split; [done|]. unfold bucket_reading in Hs.
      by rewrite decide_True in Hs.
    + unfold found_on in *. erewrite evaluate_target_ext; [exact H2|done..|].
      intros mid' Hm'. rewrite (Hlook rule) by done. unfold bucket_reading. by rewrite decide_True.
  - destruct H2 as (Ht & Hpd). exists rule. split; [done|].
    apply elem_of_targets_look in Ht as (mid & Hm & Hs). exists tg. split.
    + apply elem_of_targets_look. exists mid. split; [done|]. rewrite (Hlook rule) by done.
      unfold bucket_reading. by rewrite decide_True.
    + unfold found_on in *. erewrite evaluate_target_ext; [exact Hpd|done..|].
      intros mid' Hm'. rewrite (Hlook rule) by done. unfold bucket_reading. by rewrite decide_True.
Qed.

(** *** The buckets *)
Lemma logs_and {A} (m : EN A) (Q R : list Event → res EngineError A → Prop) :
  logs m Q → logs m R → logs m (λ tr r, Q tr r ∧ R tr r).
Proof.
  intros HQ HR s s' r Hi Hs. destruct (HQ _ _ _ Hi Hs) as (? & tr & E & ?).
  destruct (HR _ _ _ Hi Hs) as (_ & tr' & E' & ?). split; [done|]. exists tr.
  rewrite E in E'. apply app_inv_head in E' as ->. auto.
Qed.

Lemma get_bucket_add buckets k p e x :
  ODict.get x (bucket_add buckets k p e) =
  if decide (x = k)
  then Some ((default (p, []) (ODict.get k buckets)).1, (default (p, []) (ODict.get k buckets)).2 ++ [e])
  else ODict.get x buckets.
Proof. unfold bucket_add. destruct (default _ _) as [p0 ids]. apply ODict.get_set. Qed.

(** Every enabled equipment is in the bucket of its signature, and a bucket has nothing
    but equipment of the list. *)
Definition filed (equipment : list EqpInfo) (tr : list Event)
    (buckets : list (string * (MonitorProfile * list string))) : Prop :=
  (∀ k p ids, ODict.get k buckets = Some (p, ids) → ids ⊆ ei_eqpId <$> equipment) ∧
  (∀ e q, EvResolved e q ∈ tr → p_enabled q = true →
     ∃ p ids, ODict.get (sig q) buckets = Some (p, ids) ∧ e ∈ ids).

Lemma filed_add equipment tr buckets d q :
  d ∈ equipment → filed equipment tr buckets →
  filed equipment (tr ++ [EvResolved (ei_eqpId d) q]) (bucket_add buckets (sig q) q (ei_eqpId d)).
Proof.
  intros Hd [Hsub Hin]. split.
  - intros k p ids. rewrite get_bucket_add. case_decide; [|apply Hsub]. intros [= <- <-] e.
    rewrite elem_of_app. intros [He| ->%list_elem_of_singleton]; [|by apply list_elem_of_fmap_2].
    destruct (ODict.get (sig q) buckets) as [[p0 ids0]|] eqn:E; [by eapply Hsub|].
    by apply elem_of_nil in He.
  - intros e q' [Hev|[= -> ->]%list_elem_of_singleton]%elem_of_app Hen.
    + destruct (Hin e q' Hev Hen) as (p & ids & Hg & He). rewrite get_bucket_add.
      case_decide as Hs; [|eauto]. rewrite <-Hs, Hg. simpl. repeat eexists. set_solver.
    + rewrite get_bucket_add, decide_True by done. repeat eexists. set_solver.
Qed.

Lemma resolve_files process equipment :
  (∀ d, d ∈ equipment → asks process (default "*" (ei_eqpModel d)) (ei_eqpId d)) →
  logs (fold_se (resolve_into digest process) equipment [])
    (λ tr r, ∀ buckets, r = Ok buckets → filed equipment tr buckets).
Proof.
  intros Hasks. apply (logs_fold _ _ (filed equipment) _ []).
  { split; [done|]. intros e q Hin. by apply elem_of_nil in Hin. }
  intros d buckets tr Hd Hb. unfold resolve_into. specialize (Hasks d Hd).
  eapply logs_bind; [apply (logs_dep_post inv _ (λ _, True)); [eauto with deps_inv|done]|done|].
  intros [q|] ? [-> _]; [|by apply logs_ret; intros b [= <-]; rewrite app_nil_r].
  apply logs_emit_bind. destruct (p_enabled q) eqn:Eq; apply logs_ret; intros b [= <-]; simpl.
  - by apply filed_add.
  - destruct Hb as [Hsub Hin]. split; [done|].
    intros e q' [Hev|[= -> ->]%list_elem_of_singleton]%elem_of_app; [by apply Hin|congruence].
Qed.

Lemma filed_fits equipment tr buckets k p ids :
  (Z.of_nat (length equipment) ≤ _TERMS_AGG_SIZE)%Z → filed equipment tr buckets →
  ODict.get k buckets = Some (p, ids) → ids ≠ [] → fits ids.
Proof.
  intros Hle [Hsub _] Hg Hne. split; [done|]. apply Hsub in Hg.
  assert (length (remove_dups ids) ≤ length (ei_eqpId <$> equipment)) as Hl.
  { apply submseteq_length, NoDup_submseteq; [apply NoDup_remove_dups|].
    intros e. rewrite elem_of_remove_dups. apply Hg. }
  rewrite length_fmap in Hl. lia.
Qed.

(** *** The whole tick *)
Lemma logs_fold_adds {A B X} (body : B → A → EN B) (out : B → list X) (F : A → X → Prop) l acc :
  (∀ x a, x ∈ l → logs (body a x) (λ _ r, ∀ b, r = Ok b →
     ∀ y, y ∈ out b ↔ y ∈ out a ∨ F x y)) →
  logs (fold_se body l acc) (λ _ r, ∀ b, r = Ok b →
     ∀ y, y ∈ out b ↔ y ∈ out acc ∨ ∃ x, x ∈ l ∧ F x y).
Proof.
  revert acc. induction l as [|x l IH]; intros acc Hb; cbn [fold_se].
  - apply logs_ret. intros b [= <-] y. set_solver.
  - eapply logs_bind; [apply Hb; left|done|]. intros acc' tr Ha. specialize (Ha acc' eq_refl).
    eapply logs_weaken; [apply IH; intros z a Hz; apply Hb; by right|]. simpl.
    intros tr' r Hr b E y. rewrite (Hr b E), Ha. setoid_rewrite elem_of_cons. naive_solver.
Qed.

Lemma buckets_find process now interval buckets :
  (∀ k p ids, (k, (p, ids)) ∈ buckets → fits ids ∧ NoDup (m_id <$> p_measures p)) →
  logs (evaluate_buckets es_keyword_suffix pydantic_float process interval now buckets) (λ _ r,
    ∀ acc, r = Ok acc → ∀ pd, pd ∈ acc.1 ↔
      ∃ k p ids, (k, (p, ids)) ∈ buckets ∧ bucket_finds process now interval p ids pd).
Proof.
  intros Hb. unfold evaluate_buckets.
  eapply logs_weaken; [apply (logs_fold_adds _ fst
    (λ b pd, bucket_finds process now interval b.2.1 b.2.2 pd))|].
  - intros [k [p ids]] acc [Hfit Hnd]%Hb. simpl. case_decide as Hr.
    + apply logs_ret. intros b [= <-] pd. unfold bucket_finds. rewrite Hr. set_solver.
    + by apply bucket_adds.
  - simpl. intros _ r Hr acc E pd. rewrite (Hr acc E). split.
    + intros [?|([k [p ids]] & Hin & Hf)]; [set_solver|eauto 6].
    + intros (k & p & ids & Hin & Hf). right. by exists (k, (p, ids)).
Qed.

(** Nothing but the resolution logs that a profile was resolved. *)
Definition is_resolution (e : Event) : bool :=
  match e with EvResolved _ _ => true | _ => false end.
Notation mute := (emits inv (λ e, is_resolution e = false)).

Lemma evaluate_buckets_mute process interval now buckets :
  mute (evaluate_buckets es_keyword_suffix pydantic_float process interval now buckets).
Proof.
  unfold evaluate_buckets, _evaluate_bucket, _compute_measure. emit_parts.
Qed.

Lemma dispatch_mute process pending eqp_lookup now :
  mute (_dispatch settings process pending eqp_lookup now).
Proof.
  unfold _dispatch, dispatch_group, mail_group, send_group. emit_parts.
Qed.

(** The targets of the readings of an equipment are its own. *)
Lemma targets_own process now e p rule tg :
  tg ∈ targets_of (readings process now e p) rule → tg.1 = e.
Proof.
  intros (mid & _ & Hs)%elem_of_targets_look. rewrite look_readings in Hs.
  destruct (ODict.get mid _) as [m|]; simpl in Hs; [|by destruct Hs].
  unfold Bucketing.reading in Hs. case_decide; [by destruct Hs|].
  destruct (rows _ _ _ _ _ _ _ _ e) as [b|] eqn:Er; [|by destruct Hs].
  apply rows_key in Er. destruct Hs as [v Hv%ODict.get_Some_elem_of].
  eapply facts_of_bucket_own; [exact Er|]. by apply (list_elem_of_fmap_2 fst) in Hv.
Qed.

Lemma elem_of_alone process now interval e p pd :
  pd ∈ alone pydantic_float names rows process now interval e p ↔
  p_enabled p = true ∧ ∃ rule, rule ∈ rules_of_tick interval p ∧
  ∃ tg, tg.1 = e ∧ tg ∈ targets_of (readings process now tg.1 p) rule ∧
    pd ∈ found_on pydantic_float p (readings process now tg.1 p) rule tg.
Proof.
  unfold alone. destruct (p_enabled p); [|set_solver].
  rewrite list_elem_of_bind. setoid_rewrite list_elem_of_bind. split.
  - intros (rule & (tg & Hpd & Ht) & Hr). split; [done|]. exists rule. split; [done|].
    exists tg. pose proof (targets_own _ _ _ _ _ _ Ht) as Hown. by rewrite Hown.
  - intros (_ & rule & Hr & tg & <- & Ht & Hpd). eauto 10.
Qed.

(** Profiles of one signature find the same on the same target. *)
Lemma same_signature_finds process now interval p q rule tg pd :
  resolvable inv asks p → resolvable inv asks q → sig p = sig q →
  rule ∈ rules_of_tick interval p → tg ∈ targets_of (readings process now tg.1 p) rule →
  pd ∈ found_on pydantic_float p (readings process now tg.1 p) rule tg →
  rule ∈ rules_of_tick interval q ∧ tg ∈ targets_of (readings process now tg.1 q) rule ∧
  pd ∈ found_on pydantic_float q (readings process now tg.1 q) rule tg.
Proof.
  intros Hp Hq Hs Hr Ht Hpd. pose proof (proj2 (resolve_dict _ Hp)) as Hnd.
  destruct (same_signature inv asks digest (λ p Hp, proj1 (resolve_dict p Hp)) digest_inj p q interval
    rule Hs Hp Hq) as [Hrules Hget].
  assert (p_measures p ≡ₚ p_measures q) as Hm.
  { apply digest_inj in Hs as [= _ Hm _ _]; [|done..].
    by rewrite <-(sort_by_perm (str_key_leb m_id)), Hm, sort_by_perm. }
  assert (∀ mid, look (readings process now tg.1 p) mid tg = look (readings process now tg.1 q) mid tg) as Hl.
  { intros mid. rewrite !look_readings. unfold measures_by_id.
    by rewrite (dict_perm m_id (λ m, m) _ _ _ Hm Hnd). }
  split_and!; [auto| |].
  - apply elem_of_targets_look. apply elem_of_targets_look in Ht as (mid & ? & ?).
    exists mid. by rewrite <-Hl.
  - unfold found_on in *. by erewrite <-evaluate_target_ext.
Qed.

(** The buckets and the equipment alone. *)
Lemma buckets_alone process now interval tr buckets equipment pd :
  (∀ b, b ∈ buckets → bucket_ok inv asks digest process tr b) → NoDup buckets.*1 →
  filed equipment tr buckets → 
  (∀ e q, EvResolved e q ∈ tr → resolvable inv asks q) →
  (∃ k p ids, (k, (p, ids)) ∈ buckets ∧ bucket_finds process now interval p ids pd) ↔
  ∃ e q, EvResolved e q ∈ tr ∧ pd ∈ alone pydantic_float names rows process now interval e q.
Proof.
  intros Hok Hnd [_ Hin] Hres. split.
  - intros (k & p & ids & Hb & rule & Hr & tg & Htg & Ht & Hpd).
    destruct (Hok _ Hb) as (_ & Hk & Hp & He). simpl in *.
    destruct (He _ Htg) as (q & model & Hev & Hen & Hsq & Hq). exists tg.1, q. split; [done|].
    rewrite elem_of_alone. split; [done|]. exists rule.
    destruct (same_signature_finds process now interval p q rule tg pd) as (? & ? & ?); eauto; congruence.
  - intros (e & q & Hev & (Hen & rule & Hr & tg & <- & Ht & Hpd)%elem_of_alone).
    destruct (Hin _ _ Hev Hen) as (p & ids & Hg & He). apply ODict.get_Some_elem_of in Hg as Hb.
    exists (sig q), p, ids. split; [done|]. exists rule.
    destruct (Hok _ Hb) as (_ & Hk & Hp & _). simpl in *.
    destruct (same_signature_finds process now interval q p rule tg pd) as (? & ? & ?); eauto.
Qed.

(** The profile of an equipment of the list. *)
Definition profile_of process (equipment : list EqpInfo) (e : string) (q : MonitorProfile) : Prop :=
  ∃ d, d ∈ equipment ∧ ei_eqpId d = e
    ∧ resolved inv asks process (default "*" (ei_eqpModel d)) e q.
(** The repository has nothing for an equipment. *)
Definition unresolved process (d : EqpInfo) : Prop :=
  ∃ w w', inv w ∧ asks process (default "*" (ei_eqpModel d)) (ei_eqpId d)
    ∧ resolve process (default "*" (ei_eqpModel d)) (ei_eqpId d) w = (w', Ok None).

(** Every equipment is resolved, or the repository has nothing for it. *)
Definition covered process (equipment : list EqpInfo) (tr : list Event) (d : EqpInfo) : Prop :=
  (∃ q, EvResolved (ei_eqpId d) q ∈ tr) ∨ unresolved process d.

Lemma resolve_one process d buckets :
  asks process (default "*" (ei_eqpModel d)) (ei_eqpId d) →
  logs (resolve_into digest process buckets d) (λ tr r, ∀ b, r = Ok b →
    tr = [] ∧ unresolved process d
    ∨ ∃ q, tr = [EvResolved (ei_eqpId d) q]
        ∧ resolved inv asks process (default "*" (ei_eqpModel d)) (ei_eqpId d) q).
Proof.
  intros Hask. unfold resolve_into.
  eapply logs_bind; [apply (logs_dep_post inv _ (λ o, ∃ w w', inv w ∧
    resolve process (default "*" (ei_eqpModel d)) (ei_eqpId d) w = (w', Ok o)));
    [eauto with deps_inv|]|done|].
  { intros w w' o Hi Hw. eauto. }
  intros [q|] ? [-> Ho]; destruct (Ho _ eq_refl) as (w & w' & Hi & Hr).
  - apply logs_emit_bind. destruct (p_enabled q); apply logs_ret; intros b _; right; exists q;
      (split; [done|]); split; eauto.
  - apply logs_ret. intros b _. left. split; [done|]. exists w, w'. done.
Qed.

Lemma resolve_covers process equipment :
  (∀ d, d ∈ equipment → asks process (default "*" (ei_eqpModel d)) (ei_eqpId d)) →
  logs (fold_se (resolve_into digest process) equipment []) (λ tr r, ∀ buckets, r = Ok buckets →
    (∀ e q, EvResolved e q ∈ tr → profile_of process equipment e q)
    ∧ ∀ d, d ∈ equipment → covered process equipment tr d).
Proof.
  intros Hasks.
  assert (∀ l buckets, (∀ d, d ∈ l → d ∈ equipment) →
    logs (fold_se (resolve_into digest process) l buckets) (λ tr r, ∀ b, r = Ok b →
      (∀ e q, EvResolved e q ∈ tr → profile_of process equipment e q)
      ∧ ∀ d, d ∈ l → covered process equipment tr d)) as Hl; [|by apply Hl].
  induction l as [|d l IH]; intros buckets Hin; cbn [fold_se].
  { apply logs_ret. intros b _. split; [intros e q Hev|intros d Hd]; by apply elem_of_nil in Hev || apply elem_of_nil in Hd. }
  assert (d ∈ equipment) as Hd by (apply Hin; left).
  eapply logs_bind; [by apply resolve_one, Hasks|done|]. intros acc tr Hone.
  specialize (Hone acc eq_refl).
  eapply logs_weaken; [apply IH; intros d' Hd'; apply Hin; by right|]. simpl.
  intros tr' r Hr b Hb. destruct (Hr b Hb) as [Hev Hcov]. split.
  - intros e q [Hq|Hq]%elem_of_app; [|by apply Hev].
    destruct Hone as [[-> _]|(q' & -> & Hres)]; [by apply elem_of_nil in Hq|].
    apply list_elem_of_singleton in Hq as [= -> ->]. by exists d.
  - intros d' [->|Hd']%elem_of_cons.
    + destruct Hone as [[_ Hu]|(q & -> & _)]; [by right|]. left. exists q. set_solver.
    + destruct (Hcov d' Hd') as [[q Hq]|]; [|by right]. left. exists q. apply elem_of_app. by right.
Qed.

(** Grouping the equipment by the signature of its profile changes nothing: every
    equipment is resolved, or has no profile, and the breaches of a tick are exactly
    those that evaluating every resolved equipment alone finds, with its own profile and
    its own readings, for any number of equipment that the aggregation has room for
    (30000) and a cluster whose documents do not change during the tick. *)
Theorem tick_matches_alone process interval (s s' : W * list Event) result :
  inv s.1 →
  (∀ w w' l, inv w → get_equipment process w = (w', Ok l) →
    (Z.of_nat (length l) ≤ _TERMS_AGG_SIZE)%Z) →
  _do_analysis settings es_keyword_suffix pydantic_float digest process interval s
    = (s', Ok result) →
  ∃ tr equipment, s'.2 = s.2 ++ tr ∧ (get_equipment process s.1).2 = Ok equipment ∧
  (∀ d, d ∈ equipment → covered process equipment tr d) ∧
  (∀ e p, EvResolved e p ∈ tr → profile_of process equipment e p) ∧
  ∀ b, b ∈ ar_breaches result ↔
    ∃ e p, EvResolved e p ∈ tr ∧
      b ∈ pd_breach <$> alone pydantic_float names rows process (utc_now s.1) interval e p.
Proof.
  intros Hi Hsize Hs. unfold _do_analysis in Hs.
  apply se_bind_Ok in Hs as (s0 & now & [= <- <-] & Hs).
  apply se_bind_Ok in Hs as (s1 & equipment & He & Hs). unfold dep in He.
  pose proof (get_equipment_inv (inv := inv) (asks := asks) process s.1 Hi) as Hi1.
  destruct (get_equipment process s.1) as [w1 l] eqn:Eg. injection He as <- ->.
  assert (∀ d, d ∈ equipment → asks process (default "*" (ei_eqpModel d)) (ei_eqpId d)) as Hasks
    by (intros d Hd; exact (get_equipment_asks (inv := inv) process _ _ _ d Hi Eg Hd)).
  apply Hsize in Eg as Hle; [|done]. cbn [fst snd] in *.
  case_decide as Hne.
  { injection Hs as <- <-. exists [], equipment. rewrite app_nil_r, Hne. simpl.
    split_and!; [done|done|..]; set_solver. }
  apply se_bind_Ok in Hs as (s2 & buckets & Hb & Hs).
  eapply (logs_and _ _ _ (resolve_all_logs inv asks digest
    (λ p Hp, proj1 (resolve_dict p Hp)) digest_inj process equipment Hasks) (logs_and _ _ _ (resolve_files process equipment Hasks)
    (resolve_covers process equipment Hasks))) in Hb as (Hi2 & tr1 & E1 & Hb1 & Hfile & Hcov);
    [|done].
  destruct (Hb1 buckets eq_refl) as [Hok Hnd]. specialize (Hfile buckets eq_refl).
  destruct (Hcov buckets eq_refl) as [Hprof Hall]. clear Hb1 Hcov.
  assert (∀ e q, EvResolved e q ∈ tr1 → resolvable inv asks q) as Hres.
  { intros e q (d & _ & <- & Hq)%Hprof. by exists process, (default "*" (ei_eqpModel d)), (ei_eqpId d). }
  assert (∀ k p ids, (k, (p, ids)) ∈ buckets → fits ids ∧ NoDup (m_id <$> p_measures p)) as Hfits.
  { intros k p ids Hin. destruct (Hok _ Hin) as (Hids & _ & Hp & _). simpl in *.
    split; [|by apply resolve_dict]. eapply filed_fits; [exact Hle|exact Hfile| |done].
    by apply ODict.elem_of_get. }
  apply se_bind_Ok in Hs as (s3 & [pending ids] & Ha & Hs).
  eapply (logs_and _ _ _ (evaluate_buckets_mute _ _ _ _) (buckets_find process (utc_now s.1) interval
    buckets Hfits)) in Ha as (Hi3 & tr2 & E2 & Hm2 & Hfind); [|done].
  assert (mute (iter_se (λ p, emit (EvBreach (tb_fact (pd_breach p)) (tb_severity (pd_breach p))))
    pending)) as Hmute by (apply emits_iter; intros p; by apply emits_emit).
  apply se_bind_Ok in Hs as (s4 & [] & Hbr & Hs).
  apply Hmute in Hbr as (Hi4 & tr3 & E3 & Hm3); [|done].
  apply se_bind_Ok in Hs as (s5 & [] & Hd & [= <- <-]).
  assert (mute (if decide (pending = []) then se_ret tt
    else _dispatch settings process pending (ODict.of_list ((λ d, (ei_eqpId d, d)) <$> equipment))
           (utc_now s.1))) as Hmd by (case_decide; [apply emits_ret|apply dispatch_mute]).
  apply Hmd in Hd as (_ & tr4 & E4 & Hm4); [|done].
  exists (tr1 ++ tr2 ++ tr3 ++ tr4), equipment. cbn [snd] in E1.
  split; [by rewrite E4, E3, E2, E1, !app_assoc|]. split; [done|].
  assert (∀ e q, EvResolved e q ∈ tr1 ++ tr2 ++ tr3 ++ tr4 ↔ EvResolved e q ∈ tr1) as Hev.
  { intros e q. rewrite Forall_forall in Hm2, Hm3, Hm4. rewrite !elem_of_app.
    split; [|by left]. intros [?|[?%Hm2|[?%Hm3|?%Hm4]]]; done. }
  split; [intros d [[q Hq]|]%Hall; [left; exists q; by apply Hev|by right]|].
  split; [by intros e q ?%Hev%Hprof|].
  intros b. cbn [ar_breaches]. rewrite list_elem_of_fmap. setoid_rewrite Hev.
  setoid_rewrite list_elem_of_fmap.
  setoid_rewrite (Hfind (pending, ids) eq_refl).
  setoid_rewrite (buckets_alone process (utc_now s.1) interval tr1 buckets equipment); [|done..].
  naive_solver.
Qed.
End Tick.

(** ** A cluster in memory *)
Definition ex_steady (w : MemDeps) : Prop :=
  md_buckets w = md_buckets ex_deps ∧ md_equipment w = md_equipment ex_deps.

#[export] Instance ex_steady_inv : DepsInv MemDeps ex_steady (λ _ _ _, True).
Proof. split; repeat intros ?; done. Qed.

Definition ex_row (b : string * json) : json :=
  JObj [("key", JStr b.1); ("max", JObj [("value", b.2)])].

Definition ex_rows (index : string) (now window : Z) (c : string) (metrics : list string)
    (proc : string) (facts : list Fact) (expand : bool) (e : string) : option json :=
  (λ v, ex_row (e, v)) <$> ODict.get e (md_buckets ex_deps).

Lemma rows_filter (d : list (string * json)) ids :
  NoDup d.*1 →
  ex_row <$> filter (λ b, b.1 ∈ ids) d
  ≡ₚ omap (λ e, (λ v, ex_row (e, v)) <$> ODict.get e d) (remove_dups ids).
Proof.
  intros Hnd. assert (∀ b b', ex_row b = ex_row b' → b = b') as Hinj
    by (intros [] [] [= -> ->]; done).
  apply NoDup_Permutation.
  - apply NoDup_fmap_2_strong; [by intros; apply Hinj|]. apply NoDup_filter.
    by apply (NoDup_fmap_1 fst).
  - pose proof (NoDup_remove_dups ids) as Hids. revert Hids. generalize (remove_dups ids) as l.
    induction l as [|e l IH]; [constructor|]. intros [Hni Hl]%NoDup_cons. csimpl.
    destruct (ODict.get e d) as [v|]; simpl; [|auto]. constructor; [|auto].
    intros (e' & He' & Hv)%list_elem_of_omap. destruct (ODict.get e' d); simpl in Hv; [|done].
    by injection Hv as ->.
  - intros x. rewrite list_elem_of_fmap, list_elem_of_omap.
    setoid_rewrite elem_of_remove_dups. split.
    + intros ([e v] & -> & [He Hin]%list_elem_of_filter). exists e. split; [done|].
      by rewrite (ODict.elem_of_get e v).
    + intros (e & He & Hx). destruct (ODict.get e d) as [v|] eqn:Eg; [|done]. injection Hx as <-.
      exists (e, v). split; [done|]. apply list_elem_of_filter. split; [done|].
      by apply ODict.get_Some_elem_of.
Qed.

#[export] Instance ex_cluster : SteadyCluster MemDeps ex_steady "" (λ _ _ _, []) ex_rows.
Proof.
  split.
  - by intros index c p w w' l _ [= _ <-].
  - intros index now window c metrics proc facts expand e b. unfold ex_rows.
    destruct (ODict.get e _); [|done]. by intros [= <-].
  - intros index now window c metrics proc facts expand ids w w' resp bs Hw Hne _ [= _ <-].
    rewrite asked_query by done. intros [= <-]. rewrite (proj1 Hw).
    apply rows_filter. vm_compute. repeat constructor; set_solver.
Qed.

(** The two profiles of the example tick: the equipment [E2] and [E3] breach the common
    rule, [E3] its own one, and alone they do the same. *)
Lemma tick_matches_alone_witness :
  ∃ s' result, ex_tick ex_deps = (s', Ok result) ∧ length (ar_breaches result) = 3 ∧
  ∃ tr, s'.2 = tr ∧ ∀ b, b ∈ ar_breaches result ↔
    ∃ e p, EvResolved e p ∈ tr ∧
      b ∈ pd_breach <$> @alone set_iter_id (λ _, None) (λ _ _ _, []) ex_rows "ETCH"
            (utc_now ex_deps) 5 e p.
Proof.
  assert (∃ s' result, ex_tick ex_deps = (s', Ok result)
          ∧ length (ar_breaches result) = 3) as (s' & result & Hs & Hl)
    by (eexists _, _; split; [vm_compute; reflexivity|reflexivity]).
  exists s', result. split; [exact Hs|]. split; [exact Hl|].
  assert (∀ p, resolvable ex_steady (λ _ _ _, True) p → ∃ b, p = ex_live b) as Hlive
    by (intros p (process & model & eqp & _ & w & w' & _ & [= _ <-]); eauto).
  edestruct (@tick_matches_alone MemDeps mem_deps set_iter_id ex_steady (λ _ _ _, True) ex_steady_inv
    ex_settings "" (λ _, None) ex_digest (λ _ _ _, []) ex_rows ex_cluster) with (5 := Hs)
    as (tr & equipment & E & _ & _ & _ & Hb); [| | | |exists tr; exact (conj E Hb)].
  - intros p [b ->]%Hlive. clear. split; repeat constructor; set_solver.
  - intros p q [b ->]%Hlive [b' ->]%Hlive.
    destruct b, b'; (done || (intros Hd; vm_compute in Hd; discriminate Hd)).
  - by split.
  - intros w w' l [_ Hw] [= _ <-]. by rewrite Hw.
Defined.
