(* ===== verification/Ticks.v ===== *)
(** * Ticks and cooldowns: what spaces the mails of successive ticks
    ([src/analyzer/engine.py], [src/cache/cooldown.py])

    [CooldownService] is what the engine's dependencies promise about cooldowns: time
    moves on, nothing but time ends a running cooldown, a set cooldown lasts for its
    minutes, and the batch check sees the running ones.  The theorems here are proved
    against this interface; [System.v] shows that the real components implement it. *)
From stdpp Require Import base list sets strings.
From Stdlib Require Import ZArith Lia.
From S2P Require Import Prelude PyNum PyStr Json FactCatalog Models Renderer Threshold.
From S2P Require Import Repository Cooldown AlertBuilder EsQuery Engine.
Local Open Scope se_scope.

(** [ident key]: the name a cooldown is stored under; [held i t w]: the cooldown of that
    name is stored and runs until [t] or later; [usable w]: the store can be reached. *)
Class CooldownService (W : Type) := {
  ident : Check → string;
  now : W → Z;
  held : string → Z → W → Prop;
  usable : W → Prop;
}.

(** Until [t] there is a cooldown, or [t] has passed. *)
Definition spans {W} `{!CooldownService W} (i : string) (t : Z) (w : W) : Prop :=
  (t ≤ now w)%Z ∨ held i t w.

(** Time passes and nobody takes a cooldown away. *)
Definition quiet {W} `{!CooldownService W} (w w' : W) : Prop :=
  (now w ≤ now w')%Z ∧ (usable w → usable w') ∧ ∀ i t, spans i t w → spans i t w'.

#[export] Instance quiet_preorder {W} `{!CooldownService W} : PreOrder (quiet (W := W)).
Proof.
  unfold quiet. split; [by intros w; split_and!|].
  intros w1 w2 w3 (? & ? & ?) (? & ? & ?). split_and!; [by etrans|auto..].
Qed.

Class CooldownServiceLaws (W : Type) `{!Deps W, !CooldownService W} := {
  held_mono i t t' w : (t ≤ t')%Z → held i t' w → held i t w;
  get_equipment_quiet p w : quiet w (get_equipment p w).1;
  resolve_quiet p m e w : quiet w (resolve p m e w).1;
  metric_names_quiet x c p w : quiet w (metric_names x c p w).1;
  es_search_quiet x b w : quiet w (es_search x b w).1;
  template_of_quiet k w : quiet w (template_of k w).1;
  send_mail_quiet a w : quiet w (send_mail a w).1;
  cooling_batch_quiet ks w : quiet w (cooling_batch ks w).1;
  cooling_batch_sees ks w w' d k t :
    usable w → cooling_batch ks w = (w', Ok d) → k ∈ ks → spans (ident k) t w →
    is_cooling d k = true ∨ (t ≤ now w')%Z;
  cooldown_set_time k m w :
    let w' := (cooldown_set k m w).1 in (now w ≤ now w')%Z ∧ (usable w → usable w');
  cooldown_set_holds k m w :
    usable w → (0 < m)%Z → spans (ident k) (now w + 60 * m) (cooldown_set k m w).1;
  cooldown_set_frame k m w i t :
    usable w → i ≠ ident k → spans i t w → spans i t (cooldown_set k m w).1;
}.

(** The events of other kinds say nothing about mails and cooldowns. *)
Definition silent (e : Event) : Prop :=
  match e with EvMail _ _ | EvCooldown _ _ => False | _ => True end.

Lemma mails_silent tr : Forall silent tr → mails tr = [].
Proof. induction 1 as [|[] tr ? _ IH]; try done; exact IH. Qed.

Section Calm.
Context {W : Type} `{!Deps W, !CooldownService W, !CooldownServiceLaws W}.

Lemma spans_mono i t t' (w : W) : (t ≤ t')%Z → spans i t' w → spans i t w.
Proof. intros Ht [?|?]; [left; lia|right; by eapply held_mono]. Qed.

(** ** Calm steps of a tick *)
Definition calm {A} (m : EN (W := W) A) : Prop := ∀ s s' r,
  m s = (s', r) → quiet s.1 s'.1 ∧ ∃ tr, s'.2 = s.2 ++ tr ∧ Forall silent tr.

Lemma calm_pure {A} (m : EN A) : (∀ s, (m s).1 = s) → calm m.
Proof.
  intros Hm s s' r E. specialize (Hm s). rewrite E in Hm. simpl in Hm. subst s'.
  split; [done|]. exists []. by rewrite app_nil_r.
Qed.

Lemma calm_dep {A} (op : SE W EngineError A) : (∀ w, quiet w (op w).1) → calm (dep op).
Proof.
  intros Hop s s' r. unfold dep. specialize (Hop s.1). destruct (op s.1) as [w' r'].
  intros [= <- <-]. split; [done|]. exists []. by rewrite app_nil_r.
Qed.

Lemma calm_emit e : silent e → calm (emit e).
Proof. intros He s s' r [= <- <-]. split; [done|]. exists [e]. by repeat constructor. Qed.

Lemma calm_bind {A B} (m : EN A) (f : A → EN B) :
  calm m → (∀ a, calm (f a)) → calm (se_bind m f).
Proof.
  intros Hm Hf s s' r [(e & Hs & ->)|(s1 & a & Hs & Hr)]%se_bind_inv; [by eapply Hm|].
  destruct (Hm _ _ _ Hs) as (Hq & tr & E & Ht), (Hf _ _ _ _ Hr) as (Hq' & tr' & E' & Ht').
  split; [by etrans|]. exists (tr ++ tr'). rewrite E', E, app_assoc.
  split; [done|by apply Forall_app].
Qed.

Lemma calm_iter {A} (body : A → EN unit) l : (∀ x, calm (body x)) → calm (iter_se body l).
Proof. intros Hb. induction l; simpl; [by apply calm_pure|by apply calm_bind]. Qed.

Lemma calm_fold {A B} (body : B → A → EN B) l acc :
  (∀ b x, calm (body b x)) → calm (fold_se body l acc).
Proof.
  intros Hb. revert acc. induction l; intros acc; simpl; [by apply calm_pure|by apply calm_bind].
Qed.

End Calm.

Ltac calm_parts := repeat first
  [ apply calm_bind; [|intros ?]
  | apply calm_fold; intros ? ?
  | apply calm_iter; intros ?
  | apply calm_emit; exact I
  | apply calm_dep; intros ?; first
      [ apply get_equipment_quiet | apply resolve_quiet | apply metric_names_quiet
      | apply es_search_quiet | apply template_of_quiet ]
  | case_match | case_decide
  | by apply calm_pure ].

Section Ticks.
Context {W : Type} `{!Deps W, !CooldownService W, !CooldownServiceLaws W}.
Context `{!SetIter}.
Context (settings : AlertSettings) (es_keyword_suffix : string).
Context (pydantic_float : string → option num).
Context (digest : bool * list Measure * list Rule * list (string * NotifyChannel) → string).

Lemma resolve_into_calm process buckets doc : calm (resolve_into digest process buckets doc).
Proof. unfold resolve_into. calm_parts. Qed.

Lemma compute_measure_calm process t m ids :
  calm (_compute_measure es_keyword_suffix process t m ids).
Proof. unfold _compute_measure. calm_parts. Qed.

Lemma evaluate_buckets_calm process interval t buckets :
  calm (evaluate_buckets es_keyword_suffix pydantic_float process interval t buckets).
Proof.
  unfold evaluate_buckets, _evaluate_bucket. calm_parts. apply compute_measure_calm.
Qed.

(** ** Invariants of the dispatch *)
(** [steady P]: a calm step keeps [P]. *)
Definition steady (P : W * list Event → Prop) : Prop := ∀ s w' tr,
  P s → quiet s.1 w' → Forall silent tr → P (w', s.2 ++ tr).

Definition leads {A} (P Q : W * list Event → Prop) (m : EN (W := W) A) : Prop := ∀ s s' r,
  P s → m s = (s', r) → Q s'.
Notation keeps P := (leads P P).

Lemma keeps_calm {A} P (m : EN A) : steady P → calm m → keeps P m.
Proof.
  intros HP Hm s [w' l'] r Hs E. destruct (Hm _ _ _ E) as (Hq & tr & El & Ht).
  simpl in *. subst l'. by apply HP.
Qed.

Lemma leads_bind {A B} (P R Q : W * list Event → Prop) (m : EN A) (f : A → EN B) :
  leads P R m → (∀ s, R s → Q s) → (∀ a, leads R Q (f a)) → leads P Q (se_bind m f).
Proof.
  intros Hm HQ Hf s s' r HP [(e & Hs & ->)|(s1 & a & Hs & Hr)]%se_bind_inv.
  - by eapply HQ, Hm.
  - by eapply Hf; [eapply Hm|].
Qed.

Lemma keeps_bind {A B} P (m : EN A) (f : A → EN B) :
  keeps P m → (∀ a, keeps P (f a)) → keeps P (se_bind m f).
Proof. intros. by apply (leads_bind P P P). Qed.

Lemma keeps_iter {A} P (body : A → EN unit) l :
  steady P → (∀ x, x ∈ l → keeps P (body x)) → keeps P (iter_se body l).
Proof.
  intros HP Hb. induction l as [|x l IH]; simpl; [by apply keeps_calm, calm_pure|].
  apply keeps_bind; [apply Hb; left|]. intros _. apply IH. intros y Hy. apply Hb. by right.
Qed.

(** A dispatch keeps what its calm steps and its mails keep. *)
Lemma mail_group_keeps P process eqp_lookup t v key members :
  steady P → (∀ m a, keeps P (send_group key m a)) →
  keeps P (mail_group settings process eqp_lookup t v key members).
Proof.
  intros HP Hsend. unfold mail_group.
  destruct members as [|m0 ms]; [by apply keeps_calm, calm_pure|].
  destruct (breaching _) as [|rep_eqp l]; [by apply keeps_calm, calm_pure|].
  destruct (list_find _ _) as [[i rep]|]; [|by apply keeps_calm, calm_pure].
  destruct (ODict.get _ _) as [e|]; [|by apply keeps_calm, calm_pure].
  cbv zeta. do 2 (apply keeps_bind; [apply keeps_calm; [done|]; calm_parts|intros ?]). apply Hsend.
Qed.

Lemma dispatch_group_keeps P process eqp_lookup t values d g :
  steady P → (is_cooling d g.1 = false → ∀ m a, keeps P (send_group g.1 m a)) →
  keeps P (dispatch_group settings process eqp_lookup t values d g).
Proof.
  intros HP Hsend. destruct g as [key members]. simpl in *. unfold dispatch_group.
  destruct (is_cooling d key); [by apply keeps_calm; [done|]; calm_parts|].
  apply mail_group_keeps; auto.
Qed.

Section Dispatch.
(** [P] holds up to the batch check, [Pd keys d] after it has answered [d]. *)
Context (P Q : W * list Event → Prop) (Pd : list Check → list (Check * bool) → W * list Event → Prop).
Context (P_steady : steady P) (Pd_steady : ∀ keys d, steady (Pd keys d)).
Context (P_Q : ∀ s, P s → Q s) (Pd_Q : ∀ keys d s, Pd keys d s → Q s).
Context (batch : ∀ keys s w' d,
  P s → cooling_batch keys s.1 = (w', Ok d) → Pd keys d (w', s.2)).
Context (send : ∀ keys d key m a,
  key ∈ keys → is_cooling d key = false → keeps (Pd keys d) (send_group key m a)).

Lemma dispatch_leads process pending eqp_lookup t :
  leads P Q (_dispatch settings process pending eqp_lookup t).
Proof.
  intros s s' r Hs. unfold _dispatch.
  set (groups := pending_groups _ _ _). case_decide; [intros [= <- _]; auto|].
  intros [(e & Hc & ->)|(s1 & d & Hc & Hr)]%se_bind_inv; unfold dep in Hc;
    destruct (cooling_batch groups.*1 s.1) as [w' [d'|]] eqn:Eb; simplify_eq.
  - apply P_Q. rewrite <-(app_nil_r s.2). apply P_steady; [done| |done].
    rewrite <-(f_equal fst Eb : _ = w'). apply cooling_batch_quiet.
  - apply (Pd_Q groups.*1 d). refine (keeps_iter _ _ _ _ _ _ _ _ _ Hr); [done| |by apply batch].
    intros g Hg. apply dispatch_group_keeps; [done|]. intros. apply send; [|done].
    by apply (list_elem_of_fmap_2 fst).
Qed.

Lemma tick_leads process interval :
  leads P Q (_do_analysis settings es_keyword_suffix pydantic_float digest process interval).
Proof.
  assert (∀ A (m : EN A), calm m → leads P P m) as Hcalm by (intros; by apply keeps_calm).
  unfold _do_analysis. eapply leads_bind; [by apply Hcalm, calm_pure|done|]. intros t.
  eapply leads_bind; [apply Hcalm; calm_parts|done|]. intros equipment. cbv zeta.
  case_decide; [intros s s' r Hs [= <- _]; auto|].
  eapply leads_bind; [apply Hcalm; calm_parts; apply resolve_into_calm|done|]. intros buckets.
  eapply leads_bind; [apply Hcalm, evaluate_buckets_calm|done|]. intros [pending rule_ids].
  eapply leads_bind; [apply Hcalm; calm_parts|done|]. intros _.
  eapply (leads_bind P Q Q); [case_decide|done|].
  - intros s s' r Hs [= <- _]. auto.
  - apply dispatch_leads.
  - by intros _ s s' r Hs [= <- _].
Qed.
End Dispatch.

(** ** One mail *)
(** What sending a group does: the mail, and, when it is accepted, the cooldown. *)
Lemma send_group_does key m a s s' r :
  send_group key m a s = (s', r) →
  ∃ w1 tr, quiet s.1 w1 ∧ Forall silent tr ∧
  (s' = (w1, s.2 ++ EvMail key a :: tr) ∨
   s' = ((cooldown_set key m w1).1, s.2 ++ EvMail key a :: EvCooldown key m :: tr) ∨
   s' = ((cooldown_set key m w1).1,
         s.2 ++ EvMail key a :: EvAnswer key true :: EvCooldown key m :: tr)).
Proof.
  unfold send_group, se_bind, emit, se_modify, dep. simpl.
  pose proof (send_mail_quiet a s.1) as Hq.
  destruct (send_mail a s.1) as [w1 [[]|e]]; simpl in *; intros E; exists w1.
  - destruct (cooldown_set key m w1) as [w2 [[]|e]]; simpl in E; injection E as <- <-;
      [exists [EvSent (er_code a) (er_subcode a)]|exists []]; split_and!; try done;
      try (by repeat constructor); right; right; by rewrite <-!app_assoc.
  - injection E as <- <-. exists [EvAnswer key false]. split_and!; [done|by repeat constructor|].
    left. by rewrite <-!app_assoc.
  - injection E as <- <-. exists []. auto.
Qed.

(** ** The tick that sets a cooldown *)
Definition cooling_since (t0 : Z) (s : W * list Event) : Prop :=
  usable s.1 ∧ (t0 ≤ now s.1)%Z ∧
  ∀ k m, EvCooldown k m ∈ s.2 → (0 < m)%Z →
    k ∈ mails s.2 ∧ (NoDup (ident <$> mails s.2) → spans (ident k) (t0 + 60 * m) s.1).

Lemma silent_mails l tr : Forall silent tr → mails (l ++ tr) = mails l.
Proof. intros Ht. by rewrite mails_app, (mails_silent tr Ht), app_nil_r. Qed.

Lemma silent_cooldown l tr k m :
  Forall silent tr → EvCooldown k m ∈ l ++ tr → EvCooldown k m ∈ l.
Proof.
  intros Ht [?|Hk]%elem_of_app; [done|]. rewrite Forall_forall in Ht. by destruct (Ht _ Hk).
Qed.

Lemma cooling_since_steady t0 : steady (cooling_since t0).
Proof.
  intros s w' tr (Hu & Ht & Hc) (Hn & Hu' & Hs) Htr. simpl. split_and!; [auto|simpl; lia|].
  simpl. intros k m Hk%silent_cooldown Hm; [|done]. rewrite silent_mails by done.
  destruct (Hc k m Hk Hm). auto.
Qed.

Lemma cooling_since_send t0 key m a : keeps (cooling_since t0) (send_group key m a).
Proof.
  intros s s' r (Hu & Ht & Hc) (w1 & tr & (Hn & Hu' & Hs) & Htr & Hs')%send_group_does.
  assert (∀ tr', mails (s.2 ++ EvMail key a :: tr') = mails s.2 ++ key :: mails tr') as Hmails
    by (intros; apply mails_app).
  destruct Hs' as [->|Hset].
  { split_and!; simpl; [auto|lia|]. intros k m'. rewrite Hmails, (mails_silent tr) by done.
    intros [Hk|Hk]%elem_of_app Hm'.
    - destruct (Hc k m' Hk Hm') as [? Hsp]. split; [apply elem_of_app; auto|].
      rewrite fmap_app. intros [? _]%NoDup_app. auto.
    - apply elem_of_cons in Hk as [|Hk]; [done|]. rewrite Forall_forall in Htr.
      by destruct (Htr _ Hk). }
  assert (∃ tr', s' = ((cooldown_set key m w1).1, s.2 ++ EvMail key a :: tr') ∧
    mails tr' = [] ∧ ∀ k m', EvCooldown k m' ∈ tr' → k = key ∧ m' = m) as (tr' & -> & Htr' & Hk').
  { rewrite Forall_forall in Htr. destruct Hset as [->| ->]; eexists; (split; [done|]);
      (split; [apply (mails_silent tr); by apply Forall_forall|]); intros k m' Hk;
      rewrite !elem_of_cons in Hk; destruct_or?; simplify_eq; try done; by destruct (Htr _ Hk). }
  pose proof (cooldown_set_time key m w1) as [Htime Huse].
  split_and!; simpl; [auto|lia|]. intros k m'. rewrite Hmails, Htr'.
  intros [Hk|Hk]%elem_of_app Hm'.
  - destruct (Hc k m' Hk Hm') as [Hin Hsp]. split; [apply elem_of_app; auto|].
    rewrite fmap_app. intros (Hnd & Hdis & _)%NoDup_app.
    apply cooldown_set_frame; [auto| |auto]. intros E. apply (Hdis (ident k)).
    + by apply list_elem_of_fmap_2.
    + rewrite E. left.
  - apply elem_of_cons in Hk as [|[-> ->]%Hk']; [done|]. split; [set_solver|]. intros _.
    apply (spans_mono _ _ (now w1 + 60 * m)); [lia|]. apply cooldown_set_holds; auto.
Qed.

(** ** The tick that would mail again *)
Definition no_mail_before (i : string) (t : Z) (s : W * list Event) : Prop :=
  usable s.1 ∧ spans i t s.1 ∧ (i ∈ ident <$> mails s.2 → (t ≤ now s.1)%Z).

Definition answered (i : string) (t : Z) (keys : list Check) (d : list (Check * bool))
    (s : W * list Event) : Prop :=
  no_mail_before i t s ∧
  ∀ key, key ∈ keys → ident key = i → is_cooling d key = true ∨ (t ≤ now s.1)%Z.

Lemma no_mail_before_steady i t : steady (no_mail_before i t).
Proof.
  intros s w' tr (Hu & Hsp & Hm) (Hn & Hu' & Hs) Htr. split_and!; simpl; [auto..|].
  rewrite silent_mails by done. intros ?%Hm. lia.
Qed.

Lemma answered_steady i t keys d : steady (answered i t keys d).
Proof.
  intros s w' tr [Hb Hk] Hq Htr. split; [by apply no_mail_before_steady|].
  destruct Hq as (Hn & _). intros key Hin Hi. destruct (Hk key Hin Hi); [auto|]. right. simpl. lia.
Qed.

Lemma answered_batch i t keys s w' d :
  no_mail_before i t s → cooling_batch keys s.1 = (w', Ok d) → answered i t keys d (w', s.2).
Proof.
  intros Hb Ec. pose proof (cooling_batch_quiet keys s.1) as Hq. rewrite Ec in Hq. split.
  - rewrite <-(app_nil_r s.2). by apply no_mail_before_steady.
  - destruct Hb as (Hu & Hsp & _). intros key Hin <-. by eapply cooling_batch_sees.
Qed.

Lemma answered_send i t keys d key m a :
  key ∈ keys → is_cooling d key = false → keeps (answered i t keys d) (send_group key m a).
Proof.
  intros Hkey Hd s s' r [(Hu & Hsp & Hm) Hk]
    (w1 & tr & (Hn & Hu' & Hs) & Htr & Hs')%send_group_does.
  assert (ident key = i → t ≤ now s.1)%Z as Hover
    by (intros Hi; destruct (Hk key Hkey Hi); [congruence|done]).
  assert (∀ w2 tr', (now w1 ≤ now w2)%Z → (usable w1 → usable w2) →
    (ident key ≠ i → spans i t w1 → spans i t w2) → mails tr' = [] →
    answered i t keys d (w2, s.2 ++ EvMail key a :: tr')) as Hdone.
  { intros w2 tr' Hn2 Hu2 Hs2 Htr'. split; [split_and!|]; simpl.
    - auto.
    - destruct (decide (ident key = i)) as [Hi|Hi]; [left; specialize (Hover Hi); lia|auto].
    - change (EvMail key a :: tr') with ([EvMail key a] ++ tr').
      rewrite !mails_app, Htr'. simpl. rewrite fmap_app.
      intros [Hin|Hi%list_elem_of_singleton]%elem_of_app.
      + specialize (Hm Hin). lia.
      + specialize (Hover (eq_sym Hi)). lia.
    - intros key' Hin Hi. destruct (Hk key' Hin Hi); [auto|]. right. lia. }
  pose proof (cooldown_set_time key m w1) as [Htime Huse].
  destruct Hs' as [->|[->| ->]]; apply Hdone; try done;
    try (by apply (mails_silent tr)); intros; (by apply cooldown_set_frame; auto) || auto.
Qed.

Notation tick := (_do_analysis settings es_keyword_suffix pydantic_float digest).

(** After a tick, every cooldown it set runs for its minutes from its start, unless two of
    its mails have the same cooldown name. *)
Lemma tick_sets_cooldowns process interval (w w' : W) tr r k m :
  tick process interval (w, []) = ((w', tr), r) →
  usable w → EvCooldown k m ∈ tr → (0 < m)%Z → NoDup (ident <$> mails tr) →
  usable w' ∧ spans (ident k) (now w + 60 * m) w'.
Proof.
  intros Ht Hu Hk Hm Hnd.
  pose proof (tick_leads (cooling_since (now w)) (cooling_since (now w))
    (λ _ _, cooling_since (now w)) (cooling_since_steady _) (λ _ _, cooling_since_steady _)
    (λ _ H, H) (λ _ _ _ H, H)) as Hl.
  edestruct Hl as (Hu' & _ & Hc); [| | |exact Ht|].
  - intros keys s w1 d Hs Ec. rewrite <-(app_nil_r s.2). apply cooling_since_steady; [done| |done].
    pose proof (cooling_batch_quiet keys s.1) as Hq. by rewrite Ec in Hq.
  - intros. apply cooling_since_send.
  - split_and!; simpl; [done|lia|]. intros ? ? []%elem_of_nil.
  - split; [done|]. by apply (Hc k m).
Qed.

(** A tick sends no mail of a name whose cooldown is running. *)
Lemma tick_respects_cooldowns process interval (w w' : W) tr r i t :
  tick process interval (w, []) = ((w', tr), r) →
  usable w → spans i t w → i ∈ ident <$> mails tr → (t ≤ now w')%Z.
Proof.
  intros Ht Hu Hsp Hi.
  pose proof (tick_leads (no_mail_before i t) (no_mail_before i t) (answered i t)
    (no_mail_before_steady i t) (answered_steady i t) (λ _ H, H) (λ _ _ _ H, proj1 H)
    (answered_batch i t) (answered_send i t) process interval (w, []) (w', tr) r) as Hl.
  apply Hl; [|done|done]. split_and!; simpl; [done..|]. by intros ?%elem_of_nil.
Qed.

(** Two ticks that mail the same cooldown name are its minutes apart. *)
Lemma ticks_apart process1 process2 interval1 interval2 (w1 w1' w2 w2' : W) tr1 tr2 r1 r2 k k' m :
  tick process1 interval1 (w1, []) = ((w1', tr1), r1) →
  tick process2 interval2 (w2, []) = ((w2', tr2), r2) →
  quiet w1' w2 → usable w1 → NoDup (ident <$> mails tr1) →
  EvCooldown k m ∈ tr1 → (0 < m)%Z → k' ∈ mails tr2 → ident k' = ident k →
  (now w1 + 60 * m ≤ now w2')%Z.
Proof.
  intros H1 H2 (Hn & Hu & Hs) Hu1 Hnd Hk Hm Hk' Hi.
  destruct (tick_sets_cooldowns _ _ _ _ _ _ _ _ H1 Hu1 Hk Hm Hnd) as [Hu' Hsp].
  eapply (tick_respects_cooldowns _ _ _ _ _ _ (ident k)); [exact H2|auto|auto|].
  rewrite <-Hi. by apply list_elem_of_fmap_2.
Qed.
End Ticks.

(** ** The mails of a tick are of different keys *)
Section Mails.
Context {W : Type} `{!Deps W, !SetIter}.
Context (settings : AlertSettings) (es_keyword_suffix : string).
Context (pydantic_float : string → option num).
Context (digest : bool * list Measure * list Rule * list (string * NotifyChannel) → string).

(** A service that promises nothing: every call is quiet. *)
#[local] Instance no_service : CooldownService W :=
  {| ident _ := ""; now _ := 0%Z; held _ _ _ := False; usable _ := False |}.
#[local] Instance no_service_laws : CooldownServiceLaws W.
Proof. split; unfold quiet, spans; simpl; (done || intuition lia). Qed.

Notation logs := (logs (λ _ : W, True)).
#[local] Existing Instance no_inv.

Lemma calm_logs {A} (m : EN (W := W) A) : calm m → logs m (λ tr _, mails tr = []).
Proof.
  intros Hm s s' r _ E. destruct (Hm _ _ _ E) as (_ & tr & El & Ht).
  split; [done|]. eauto using mails_silent.
Qed.

Lemma dispatch_mails process pending eqp_lookup t :
  logs (_dispatch settings process pending eqp_lookup t) (λ tr _, NoDup (mails tr)).
Proof.
  unfold _dispatch. case_decide; [by apply logs_ret, NoDup_nil_2|].
  apply logs_dep_bind; [done|intros; apply NoDup_nil_2|]. intros d.
  eapply logs_weaken; [apply (dispatch_groups_logs _ (λ _ _ _, True)), pending_groups_ok|].
  intros tr r [_ [[l Hl] _]].
  assert (NoDup (not_cooling d (pending_groups process eqp_lookup pending).*1)) as Hnd
    by apply NoDup_filter, ODict.group_NoDup.
  rewrite Hl in Hnd. by apply NoDup_app in Hnd as [? _].
Qed.

Lemma tick_mails_NoDup process interval :
  logs (_do_analysis settings es_keyword_suffix pydantic_float digest process interval)
    (λ tr _, NoDup (mails tr)).
Proof.
  assert (∀ A B (m : EN A) (f : A → EN B), calm m →
    (∀ a, logs (f a) (λ tr _, NoDup (mails tr))) →
    logs (se_bind m f) (λ tr _, NoDup (mails tr))) as Hbind.
  { intros A B m f Hm Hf. eapply logs_bind; [by apply calm_logs| |].
    - simpl. intros _ tr ->. apply NoDup_nil_2.
    - simpl. intros a tr Htr. eapply logs_weaken; [apply Hf|]. intros tr' r Hr.
      rewrite mails_app, Htr. exact Hr. }
  unfold _do_analysis. apply Hbind; [by apply calm_pure|]. intros t.
  apply Hbind; [calm_parts|]. intros equipment. cbv zeta.
  case_decide; [apply logs_ret, NoDup_nil_2|].
  apply Hbind; [calm_parts; apply resolve_into_calm|]. intros buckets.
  apply Hbind; [apply evaluate_buckets_calm|]. intros [pending rule_ids].
  apply Hbind; [calm_parts|]. intros _.
  eapply (logs_bind _ _ _ (λ tr _, NoDup (mails tr))); [case_decide| |].
  - apply logs_ret, NoDup_nil_2.
  - apply dispatch_mails.
  - done.
  - simpl. intros _ tr Htr. apply logs_ret. by rewrite app_nil_r.
Qed.
End Mails.
