(* ===== verification/System.v ===== *)
(** * The components of one pod together ([src/main.py], [src/startup/scheduler_init.py],
    [src/analyzer/engine.py])

    [SchedulerDeps] hands the engine the profile repository, the equipment and template
    repositories, the Elasticsearch client, the cooldown manager and the mail client.
    [pod_deps] is that wiring: the engine's interface [Engine.Deps] implemented by the
    operations of the components, over the outside world and the objects of the pod.
    [others] is what everybody else does to the outside world during a call. *)
From stdpp Require Import base list sets strings gmap.
From Stdlib Require Import ZArith Lia.
From S2P Require Import Prelude PyNum PyStr Json FactCatalog Models Renderer Threshold Cache.
From S2P Require Import Repository Cooldown AlertBuilder EmailClient EsQuery EsClient Engine Ticks.
Local Open Scope se_scope.

(** ** How an operation moves the world *)
Definition moves {W X E A} (R : W → W → Prop) (m : SE (W * X) E A) : Prop :=
  ∀ s, R s.1 (m s).1.1.

Section Moves.
Context {W X E : Type} (R : W → W → Prop) `{!PreOrder R}.

Lemma moves_pure {A} (m : SE (W * X) E A) : (∀ s, (m s).1.1 = s.1) → moves R m.
Proof. intros Hm s. by rewrite Hm. Qed.

Lemma moves_bind {A B} (m : SE (W * X) E A) (f : A → SE (W * X) E B) :
  moves R m → (∀ a, moves R (f a)) → moves R (se_bind m f).
Proof.
  intros Hm Hf s. unfold se_bind. specialize (Hm s). destruct (m s) as [s1 [a|e]]; simpl in *.
  - etrans; [exact Hm|apply Hf].
  - done.
Qed.

Lemma moves_catch {A} (m : SE (W * X) E A) (h : E → SE (W * X) E A) :
  moves R m → (∀ e, moves R (h e)) → moves R (se_catch m h).
Proof.
  intros Hm Hh s. unfold se_catch. specialize (Hm s). destruct (m s) as [s1 [a|e]]; simpl in *.
  - done.
  - etrans; [exact Hm|apply Hh].
Qed.
End Moves.

Ltac moves_parts := repeat first
  [ eapply moves_bind; [apply _| |intros ?] | eapply moves_catch; [apply _| |intros ?]
  | case_match | case_decide | eapply moves_pure; [apply _|done] ].

Section Pod.
Context {W C L CT CL CB Resp : Type}.
Context `{!Collection W, !EqpCollection W, !TemplateCollection W Template, !EsApi W, !Redis W}.
Context `{!Http W Resp, !TTLCache C MonitorProfile, !TTLCache L Z, !TTLCache CT string}.
Context `{!TTLCache CL (list string), !TTLCache CB bool, !SetIter}.
(** [settings.debug_read_only], [redis_key_prefix], [email_api_url] *)
Context (debug_read_only : bool) (key_prefix api_url es_keyword_suffix : string).
Context (others : W → W).

(** The objects of the pod: the resolve cache, the Elasticsearch client, the local
    cooldowns and the mail client. *)
Record Pod := mkPod
  { p_cache : C; p_es : EsState (CT := CT) (CL := CL) (CB := CB); p_local : L;
    p_mail : EmailAlertClient }.

Definition put_cache (x : C) (p : Pod) : Pod := mkPod x (p_es p) (p_local p) (p_mail p).
Definition put_es (x : EsState) (p : Pod) : Pod := mkPod (p_cache p) x (p_local p) (p_mail p).
Definition put_local (x : L) (p : Pod) : Pod := mkPod (p_cache p) (p_es p) x (p_mail p).
Definition put_mail (x : EmailAlertClient) (p : Pod) : Pod :=
  mkPod (p_cache p) (p_es p) (p_local p) x.

(** [await component.op(...)]: the others act meanwhile, an exception goes through. *)
Definition on {X E A} (name : string) (get : Pod → X) (put : X → Pod → Pod)
    (op : SE (W * X) E A) : SE (W * Pod) EngineError A := λ s,
  let '((w', x'), r) := op (s.1, get s.2) in
  ((others w', put x' s.2), match r with Ok a => Ok a | Err _ => Err (CallFailed name) end).

(** A component without an object of its own. *)
Definition on_world {E A} (name : string) (op : SE W E A) : SE (W * Pod) EngineError A :=
  on name (λ _, tt) (λ _ p, p) (λ s, let '(w', r) := op s.1 in ((w', tt), r)).

#[local] Instance pod_deps : Deps (W * Pod) := {
  get_equipment process := on_world "eqp_info_repo" (get_active_equipment_by_process process);
  resolve process model eqp :=
    on "profile_repo" p_cache put_cache
      (pr <- resolve_profile others process model eqp ;; se_ret pr.1);
  metric_names index category proc :=
    on "es" p_es put_es (get_metric_names es_keyword_suffix index category proc);
  es_search index body :=
    on "es" p_es put_es (client ;;; es_call (es_search_api index body));
  cooling_batch checks :=
    on "cooldown_mgr" p_local put_local
      (is_cooling_down_batch debug_read_only key_prefix checks);
  cooldown_set key minutes :=
    on "cooldown_mgr" p_local put_local
      (set_cooldown debug_read_only key_prefix key minutes);
  template_of k := on_world "template_repo" (find_template k);
  send_mail alert := on "email_client" p_mail put_mail (send_alert debug_read_only api_url alert);
  utc_now s := utcnow s.1;
}.
End Pod.

(** ** What is assumed of the outside world *)
(** Time passes, a reachable Redis stays reachable, and a stored key stays until its time
    (it may be stored again for longer). *)
Record benign {W} `{!Redis W} (expiry : W → gmap string Z) (up : W → Prop) (w w' : W) : Prop := {
  benign_clock : (clock w ≤ clock w')%Z;
  benign_up : up w → up w';
  benign_keys i e : expiry w !! i = Some e →
    (e ≤ clock w')%Z ∨ ∃ e', expiry w' !! i = Some e' ∧ (e ≤ e')%Z;
}.

#[export] Instance benign_preorder {W} `{!Redis W} expiry up : PreOrder (benign (W := W) expiry up).
Proof.
  split; [split; [lia|done|eauto 6 with lia]|].
  intros w1 w2 w3 [Hc Hu Hk] [Hc' Hu' Hk']. split; [lia|auto|].
  intros i e [|(e' & [?|(e'' & ? & ?)]%Hk' & ?)]%Hk; [left; lia..|]. right. eauto with lia.
Qed.

(** A relation of the worlds before and after that the calls of the other services, and
    the others, respect. *)
Class Traffic (W Resp : Type) `{!Collection W, !EqpCollection W, !TemplateCollection W Template,
    !EsApi W, !Redis W, !Http W Resp} (others : W → W) (R : W → W → Prop) := {
  traffic_preorder :: PreOrder R;
  others_moves w : R w (others w);
  find_moves q w : R w (find q w).1;
  eqp_find_moves f w : R w (eqp_find f w).1;
  template_doc_moves k w : R w (find_template_doc k w).1;
  es_api_moves x b w : R w (es_search_api x b w).1;
  http_moves u p w : R w (http_post u p w).1;
  exists_all_moves ks w : R w (redis_exists_all ks w).1;
  es_later_moves w : R w (es_later w);
}.

(** The keys of Redis are left to time, and a reachable Redis answers. *)
Class Network (W Resp : Type) `{!Collection W, !EqpCollection W, !TemplateCollection W Template,
    !EsApi W, !Redis W, !Http W Resp} (expiry : W → gmap string Z) (up : W → Prop)
    (others : W → W) := {
  network_traffic :: Traffic W Resp others (benign expiry up);
  exists_all_up ks w : up w → isOk (redis_exists_all ks w).2 = true;
  setex_up k t w : up w → (0 < t)%Z → (redis_setex k t w).2 = Ok tt;
  setex_stays_up k t w : up w → up (redis_setex k t w).1;
}.

(** Every operation of the components moves the world along such a relation. *)
Section Traffic.
Context {W C L CT CL CB Resp : Type}.
Context `{!Collection W, !EqpCollection W, !TemplateCollection W Template, !EsApi W, !Redis W}.
Context `{!Http W Resp, !TTLCache C MonitorProfile, !TTLCache L Z, !TTLCache CT string}.
Context `{!TTLCache CL (list string), !TTLCache CB bool, !SetIter}.
Context (debug_read_only : bool) (key_prefix api_url es_keyword_suffix : string) (others : W → W).
Context (R : W → W → Prop) `{!Traffic W Resp others R}.

Lemma resolve_moves {X} (f : _ → X) pr m e :
  moves R (x <- resolve_profile (C := C) others pr m e ;; se_ret (f x)).
Proof.
  assert (∀ A (g : MongoExc → RepoError) (op : SE W MongoExc A), (∀ w, R w (op w).1) →
    moves R (call (C := C) others g op)) as Hcall.
  { intros A g op Hop [w c]. unfold call. simpl. specialize (Hop w). destruct (op w) as [w' r].
    simpl in *. etrans; [exact Hop|apply others_moves]. }
  unfold resolve_profile, resolve_uncached, collect_scope_docs.
  moves_parts. apply Hcall. intros. apply find_moves.
Qed.

Lemma es_call_moves {A} (op : SE W EsExc A) :
  (∀ w, R w (op w).1) → moves R (es_call (CT := CT) (CL := CL) (CB := CB) op).
Proof.
  intros Hop [w c]. unfold es_call. simpl. specialize (Hop w). by destruct (op w) as [w' r].
Qed.

Lemma es_search_moves x b :
  moves R (client (CT := CT) (CL := CL) (CB := CB) ;;; es_call (es_search_api x b)).
Proof. unfold client. moves_parts. apply es_call_moves. intros. apply es_api_moves. Qed.

Lemma timed_moves {A} (f : Z → _ → A) : moves R (timed (CT := CT) (CL := CL) (CB := CB) f).
Proof. intros [w c]. apply es_later_moves. Qed.

Lemma metric_names_moves x c p :
  moves R (get_metric_names (CT := CT) (CL := CL) (CB := CB) es_keyword_suffix x c p).
Proof.
  unfold get_metric_names, cached, search_names, client. moves_parts; try apply timed_moves.
  apply es_call_moves. intros. apply es_api_moves.
Qed.

Lemma eqp_active_moves p (w : W) : R w (get_active_equipment_by_process p w).1.
Proof.
  unfold get_active_equipment_by_process, eqp_call.
  pose proof (eqp_find_moves (Some p) w) as Hb. by destruct (eqp_find _ w).
Qed.

Lemma template_moves k (w : W) : R w (find_template (T := Template) k w).1.
Proof.
  unfold find_template. generalize (_fallback_queries k). intros qs. revert w.
  induction qs as [|q qs IH]; intros w; [done|]. simpl. unfold se_bind, eqp_call.
  pose proof (template_doc_moves q w) as Hq. destruct (find_template_doc q w) as [w1 [[d|]|e]];
    simpl in *; [done| |done]. by etrans; [exact Hq|].
Qed.

Lemma lift_moves {A} (m : SE (W * EmailAlertClient) SendExc A) : moves R m → moves R (lift m).
Proof. intros Hm s. unfold lift. specialize (Hm s). by destruct (m s). Qed.

Lemma send_alert_moves a : moves R (send_alert debug_read_only api_url a).
Proof.
  unfold send_alert, _record_outbox_failure. moves_parts.
  apply lift_moves. unfold post_and_read. moves_parts. intros [w c]. unfold http. simpl.
  pose proof (http_moves api_url (to_payload a) w) as Hp. by destruct (http_post _ _ w).
Qed.

Lemma batch_moves ks : moves R (is_cooling_down_batch (L := L) debug_read_only key_prefix ks).
Proof.
  unfold is_cooling_down_batch, or_unavailable. moves_parts. intros [w l]. unfold redis. simpl.
  pose proof (exists_all_moves (_make_key key_prefix <$> ks) w) as Hp.
  by destruct (redis_exists_all _ w).
Qed.

Lemma set_cooldown_moves k m :
  (∀ k t w, R w (redis_setex k t w).1) →
  moves R (set_cooldown (L := L) debug_read_only key_prefix k m).
Proof.
  intros Hset. unfold set_cooldown, or_unavailable. moves_parts. intros [w l]. unfold redis. simpl.
  pose proof (Hset (_make_key key_prefix k) (m * 60)%Z w) as Hp. by destruct (redis_setex _ _ w).
Qed.
End Traffic.

Section Service.
Context {W C L CT CL CB Resp : Type}.
Context `{!Collection W, !EqpCollection W, !TemplateCollection W Template, !EsApi W, !Redis W}.
Context `{!Http W Resp, !TTLCache C MonitorProfile, !TTLCache L Z, !TTLCache CT string}.
Context `{!TTLCache CL (list string), !TTLCache CB bool, !SetIter}.
Context (key_prefix api_url es_keyword_suffix : string) (others : W → W).
Context (expiry : W → gmap string Z) (up : W → Prop).
Context `{!RedisLaws W expiry, !Network W Resp expiry up others}.
Context (local_entries : L → gmap string (Z * Z))
  `{!TTLCacheLaws L Z COOLDOWN_LOCAL_CACHE_MAX_TTL_SEC local_entries}.

Notation Pod := (Pod (C := C) (L := L) (CT := CT) (CL := CL) (CB := CB)).
#[local] Instance the_deps : Deps (W * Pod) :=
  pod_deps false key_prefix api_url es_keyword_suffix others.

(** The cooldown service of the pod is its Redis. *)
#[export] Instance pod_service : CooldownService (W * Pod) := {
  ident := _make_key key_prefix;
  now s := clock s.1;
  held i t s := ∃ e, expiry s.1 !! i = Some e ∧ (t ≤ e)%Z;
  usable s := up s.1;
}.

Notation R := (benign expiry up).

Lemma benign_quiet (w w' : W) (p p' : Pod) : R w w' → quiet (w, p) (w', p').
Proof.
  intros [Hc Hu Hk]. split_and!; [done|done|]. intros i t [?|(e & He & ?)]; [left; simpl in *; lia|].
  destruct (Hk i e He) as [?|(e' & ? & ?)]; [left; simpl; lia|]. right. exists e'. simpl in *.
  split; [done|lia].
Qed.

Lemma on_quiet {X E A} name get put (op : SE (W * X) E A) (s : W * Pod) :
  moves R op → quiet s (on others name get put op s).1.
Proof.
  intros Hop. destruct s as [w p]. unfold on. specialize (Hop (w, get p)).
  cbn [fst snd] in *. destruct (op (w, get p)) as [[w' x'] r]. cbn [fst snd] in *.
  apply benign_quiet. etrans; [exact Hop|apply others_moves].
Qed.

Lemma on_world_quiet {E A} name (op : SE W E A) (s : W * Pod) :
  (∀ w, R w (op w).1) → quiet s (on_world others name op s).1.
Proof.
  intros Hop. apply on_quiet. intros [w x]. simpl. specialize (Hop w). by destruct (op w).
Qed.

(** A batch asks Redis when Redis can be reached. *)
Lemma batch_sees ks (w : W) (l : L) s' d k :
  up w → is_cooling_down_batch false key_prefix ks (w, l) = (s', Ok d) → k ∈ ks →
  is_cooling d k = redis_live expiry w (_make_key key_prefix k).
Proof.
  intros Hu Hb Hk. destruct (batch_agrees false key_prefix expiry local_entries ks k _ _ _ Hb Hk)
    as [Hd _]. simpl in Hd.
  rewrite (exists_all_up (_make_key key_prefix <$> ks) w Hu) in Hd. unfold is_cooling.
  by rewrite Hd.
Qed.

(** [SETEX] stores the key, or nothing when the minutes are not positive. *)
Lemma setex_cases i t (w : W) :
  up w → clock (redis_setex i t w).1 = clock w ∧
  expiry (redis_setex i t w).1 = (if decide (0 < t)%Z then <[i := (clock w + t)%Z]> (expiry w) else expiry w).
Proof.
  intros Hu. split; [apply setex_clock|]. case_decide as Ht.
  - pose proof (setex_up i t w Hu Ht) as Hok. destruct (redis_setex i t w) as [w' r] eqn:E.
    simpl in *. subst r. by apply setex_law in E as (_ & _ & ->).
  - destruct (setex_invalid i t w) as [e ->]; [lia|done].
Qed.

Lemma set_cooldown_world k m (w : W) (l : L) :
  (set_cooldown false key_prefix k m (w, l)).1.1
    = (redis_setex (_make_key key_prefix k) (m * 60) w).1.
Proof.
  unfold set_cooldown, se_bind, se_modify, or_unavailable, se_catch, redis. simpl.
  by destruct (redis_setex _ _ w) as [w' [[]|[]]].
Qed.

Lemma set_spans k m (w w' : W) (p p' : Pod) i t :
  up w → R (redis_setex (_make_key key_prefix k) (m * 60) w).1 w' →
  (i = _make_key key_prefix k → (0 < m)%Z ∧ (t ≤ clock w + m * 60)%Z) →
  spans i t (w, p) ∨ i = _make_key key_prefix k → spans i t (w', p').
Proof.
  intros Hu HR Hi Hs. destruct (setex_cases (_make_key key_prefix k) (m * 60) w Hu) as [Hc He].
  eapply (benign_quiet _ w' p p' HR). destruct (decide (i = _make_key key_prefix k)) as [->|Hne].
  - destruct (Hi eq_refl) as [Hm Ht]. right. simpl. rewrite He, decide_True by lia.
    rewrite lookup_insert_eq. eauto.
  - destruct Hs as [[Hs|(e & Hl & Ht)]|]; [left; simpl in *; lia| |done]. right. exists e.
    simpl in *. split; [|done]. rewrite He. case_decide; [|done]. by rewrite lookup_insert_ne.
Qed.

#[export] Instance pod_service_laws : CooldownServiceLaws (W * Pod).
Proof.
  assert (∀ k m (s : W * Pod),
    ∃ x, (cooldown_set k m s).1
      = (others (redis_setex (_make_key key_prefix k) (m * 60) s.1).1, put_local x s.2)) as Hset.
  { intros k m [w p]. simpl. unfold on. simpl. pose proof (set_cooldown_world k m w (p_local p)).
    destruct (set_cooldown _ _ _ _ _) as [[w' x] r]. simpl in *. subst w'. eauto. }
  split.
  - intros i t t' w Ht (e & He & ?). exists e. split; [done|lia].
  - intros. apply on_world_quiet. intros. apply (eqp_active_moves others R).
  - intros. apply on_quiet. eapply resolve_moves, _.
  - intros. apply on_quiet. eapply metric_names_moves, _.
  - intros. apply on_quiet. eapply es_search_moves, _.
  - intros. apply on_world_quiet. intros. apply (template_moves others R).
  - intros. apply on_quiet. eapply send_alert_moves, _.
  - intros. apply on_quiet. eapply batch_moves, _.
  - intros ks [w p] s' d k t Hu Eb Hk Hs. change (on others "cooldown_mgr" p_local put_local
      (is_cooling_down_batch false key_prefix ks) (w, p) = (s', Ok d)) in Eb.
    unfold on in Eb. cbn [fst snd] in Eb. simpl in Hu.
    pose proof (batch_moves false key_prefix others R ks (w, p_local p)) as Hm.
    destruct (is_cooling_down_batch _ _ _ _) as [[w' l'] r] eqn:E. simpl in Hm.
    destruct r as [d'|]; [|done]. injection Eb as <- <-. rewrite (batch_sees ks w (p_local p) _ d' k Hu E Hk).
    destruct Hm as [Hc _ _], (others_moves (R := R) w') as [Hc' _ _]. simpl.
    destruct Hs as [Ht|(e & He & Ht)]; simpl in *; [right; lia|].
    unfold redis_live. rewrite He. case_bool_decide; [by left|]. right. lia.
  - intros k m s. destruct (Hset k m s) as [x ->]. simpl.
    destruct (others_moves (R := R) (redis_setex (_make_key key_prefix k) (m * 60) s.1).1) as [Hc Hu _].
    rewrite setex_clock in Hc. split; [done|]. intros. by apply Hu, setex_stays_up.
  - intros k m [w p] Hu Hm. destruct (Hset k m (w, p)) as [x ->]. simpl in *.
    eapply (set_spans k m w _ p); [done|apply others_moves| |by right]. simpl. intros _. split; [done|lia].
  - intros k m [w p] i t Hu Hi Hs. destruct (Hset k m (w, p)) as [x ->]. simpl in *.
    eapply (set_spans k m w _ p); [done|apply others_moves|done|by left].
Qed.
End Service.

(** ** Where the rules of a tick come from *)
Section Stored.
Context {W C L CT CL CB Resp : Type}.
Context `{!Collection W, !EqpCollection W, !TemplateCollection W Template, !EsApi W, !Redis W}.
Context `{!Http W Resp, !TTLCache C MonitorProfile, !TTLCache L Z, !TTLCache CT string}.
Context `{!TTLCache CL (list string), !TTLCache CB bool, !SetIter}.
Context (debug_read_only : bool) (key_prefix api_url es_keyword_suffix : string).
Context (others : W → W) (docs : W → list Doc) (eqps : W → list EqpInfo).
Context `{!CollectionLaws W docs, !EqpCollectionLaws W eqps}.
Context (ttl : Z) (entries : C → gmap string (MonitorProfile * Z))
  `{!TTLCacheLaws C MonitorProfile ttl entries}.
(** The names of the plant hold no colon. *)
Context (names_ok : ∀ w d, d ∈ eqps w →
  colon_free (ei_process d) = true ∧ colon_free (default "*" (ei_eqpModel d)) = true).

Notation Pod := (Pod (C := C) (L := L) (CT := CT) (CL := CL) (CB := CB)).
#[local] Instance stored_deps : Deps (W * Pod) :=
  pod_deps debug_read_only key_prefix api_url es_keyword_suffix others.

(** An active equipment of a process, with its model. *)
Definition plant (process model eqp : string) : Prop :=
  ∃ w d, d ∈ eqps w ∧ _ACTIVE_FILTER d ∧ ei_process d = process
  ∧ default "*" (ei_eqpModel d) = model ∧ ei_eqpId d = eqp.

(** The profile was folded from the documents collected for the equipment, until [t]. *)
Definition made_at (t : Z) (process model eqp : string) (eff : MonitorProfile) : Prop :=
  ∃ (s s1 : W * C) l now, collect_scope_docs others process model eqp s = (s1, Ok l)
  ∧ timer s1.1 = t ∧ l ≠ [] ∧ fold_profiles now l (mkScope process model eqp) = Ok eff.
Definition made (process model eqp : string) (eff : MonitorProfile) : Prop :=
  ∃ t, made_at t process model eqp eff.

(** Every cached profile was made for the equipment of its key, when it was cached. *)
Definition cache_made (c : C) : Prop := ∀ key eff t, entries c !! key = Some (eff, t) →
  ∃ p m e, colon_free p = true ∧ colon_free m = true ∧ key = cache_key p m e ∧ made_at t p m e eff.

Lemma collect_cache p m e (s : W * C) : (collect_scope_docs others p m e s).1.2 = s.2.
Proof.
  unfold collect_scope_docs, se_bind, call, se_gets, of_res.
  destruct (find _ s.1) as [w' [ds|err]]; [|done]. simpl. by destruct (mapM _ ds).
Qed.

(** A profile that is given was made now, or less than [ttl] seconds ago. *)
Lemma resolve_made p m e (s s' : W * C) r :
  colon_free p = true → colon_free m = true → cache_made s.2 →
  resolve_profile others p m e s = (s', r) →
  cache_made s'.2 ∧ ∀ eff log, r = Ok (Some eff, log) →
    ∃ t, made_at t p m e eff ∧ ((timer s.1 < t + ttl)%Z ∨ t = timer s'.1).
Proof.
  intros Hp Hm Hc. unfold resolve_profile, se_bind at 1, se_gets at 1.
  rewrite cache_get_spec.
  assert (∀ s' r, resolve_uncached others p m e s = (s', r) →
    cache_made s'.2 ∧ ∀ eff log, r = Ok (Some eff, log) → made_at (timer s'.1) p m e eff) as Hmiss.
  { clear s' r. intros s' r. unfold resolve_uncached. intros E.
    pose proof (collect_cache p m e s) as Hcc.
    apply se_bind_inv in E as [(err & Ec & ->)|(s1 & l & Ec & E)]; rewrite Ec in Hcc; simpl in Hcc.
    { split; [by rewrite Hcc|done]. }
    case_decide as Hl; [injection E as <- <-; split; [by rewrite Hcc|done]|].
    unfold se_bind, se_gets, of_res, se_modify in E. rewrite fold_profiles_result in E.
    simpl in E. injection E as <- <-.
    assert (made_at (timer s1.1) p m e (fold_result (utcnow s1.1) l (mkScope p m e))) as Hmade
      by (exists s, s1, l, (utcnow s1.1); split_and!; [done|done|done|apply fold_profiles_result]).
    split; [|by intros eff log [= <- _]]. simpl. rewrite Hcc. intros key eff t Hk.
    apply entries_set in Hk as [[-> [= -> ->]]|Hk]; [|by eapply Hc]. eauto 10. }
  assert (∀ s' r, resolve_uncached others p m e s = (s', r) →
    cache_made s'.2 ∧ ∀ eff log, r = Ok (Some eff, log) →
      ∃ t, made_at t p m e eff ∧ ((timer s.1 < t + ttl)%Z ∨ t = timer s'.1)) as Hmiss'
    by (intros s2 r2 [? Hmade]%Hmiss; split; [done|]; intros eff log Hr; eauto).
  destruct (entries s.2 !! _) as [[eff t]|] eqn:Ek; [|apply Hmiss'].
  case_bool_decide as Ht; [|apply Hmiss']. intros [= <- <-]. split; [done|]. intros eff' log [= <- _].
  apply Hc in Ek as (p' & m' & e' & Hp' & Hm' & Hk & Hmade).
  apply cache_key_inj in Hk as (-> & -> & ->); eauto.
Qed.

Definition pod_inv (s : W * Pod) : Prop := cache_made (p_cache s.2).

Lemma on_inv {X E A} name get put (op : SE (W * X) E A) :
  (∀ x p, p_cache (put x p) = p_cache p) → stable pod_inv (on others name get put op).
Proof.
  intros Hput [w p] Hi. unfold on, pod_inv in *. cbn [fst snd] in *.
  destruct (op (w, get p)) as [[w' x'] r]. cbn [fst snd] in *. by rewrite Hput.
Qed.

#[export] Instance pod_deps_inv : DepsInv (W * Pod) pod_inv
  (λ p m e, colon_free p = true ∧ colon_free m = true ∧ plant p m e).
Proof.
  split; try (intros; by apply on_inv).
  - intros process [w p] s' l d _. simpl. unfold on_world, on, get_active_equipment_by_process, eqp_call.
    simpl. destruct (eqp_find (Some process) w) as [w2 [l'|err]] eqn:E; [|done].
    intros [= _ <-] Hd. apply eqp_find_law in E. rewrite E in Hd.
    apply list_elem_of_filter in Hd as [[Hpr Hact] Hin].
    destruct (names_ok _ _ Hin) as [Hp Hm]. rewrite Hpr in Hp. split_and!; [done|done|].
    by exists w, d.
  - intros process m e (Hp & Hm & _) [w p] Hi. simpl. unfold on. cbn [fst snd].
    destruct (se_bind _ _ _) as [[w' x'] r] eqn:E.
    assert (cache_made x'); [|done].
    apply se_bind_inv in E as [(err & E & _)|(s1 & a & E & [= -> _])];
      by apply resolve_made in E as [? _].
Qed.

(** The rule of a breach in the documents collected for its equipment: the most specific
    document that declares it, stored in the database under a scope of the cascade. *)
Definition stored_rule (process model : string) (interval : Z) (b : ThresholdBreach) : Prop :=
  ∃ (s s1 : W * C) l prof rule doc now,
  collect_scope_docs others process model (tb_eqp_id b) s = (s1, Ok l)
  ∧ most_specific (find_rule (tb_rule_id b)) l = Some (prof, rule)
  ∧ p_enabled prof = true ∧ r_enabled rule = true ∧ r_interval_minutes rule = interval
  ∧ r_severity rule = tb_severity b
  ∧ doc ∈ docs s.1 ∧ from_mongo now doc = Ok prof
  ∧ scope_triple (p_scope prof) ∈ _cascade_triples process model (tb_eqp_id b).

Notation asked := (λ p m e, colon_free p = true ∧ colon_free m = true ∧ plant p m e).

(** The world of the pod, from when it asked the repository. *)
Lemma pod_resolve_made p m e q (s s' : W * Pod) :
  colon_free p = true → colon_free m = true → pod_inv s → resolve p m e s = (s', Ok (Some q)) →
  ∃ t w, made_at t p m e q ∧ s'.1 = others w ∧ ((timer s.1 < t + ttl)%Z ∨ t = timer w)
    ∧ (se_bind (resolve_profile others p m e) (λ pr, se_ret pr.1) (s.1, p_cache s.2)).1.1 = w.
Proof.
  intros Hp Hm Hi Hr. destruct s as [w pd]. simpl in Hr. unfold on in Hr.
  cbn [fst snd] in *. destruct (se_bind _ _ _) as [[w1 x1] r] eqn:E.
  apply se_bind_inv in E as [(err & _ & ->)|(s1 & [o log] & E & [= -> <-])]; [done|].
  injection Hr as <- Ho. simpl in Ho. subst o.
  apply resolve_made in E as [_ Hmade]; [|done..].
  destruct (Hmade q log eq_refl) as (t & Ht & Hor). by exists t, w1.
Qed.

Lemma resolved_made p m e q : resolved pod_inv asked p m e q → made p m e q.
Proof.
  intros ((Hp & Hm & _) & s & s' & Hi & Hr).
  destruct (pod_resolve_made p m e q s s' Hp Hm Hi Hr) as (t & w & Hmade & _). by exists t.
Qed.

Lemma made_rule p m e q interval rule b :
  made p m e q → e = tb_eqp_id b → rule ∈ rules_of_tick interval q →
  tb_rule_id b = r_id rule → tb_severity b = r_severity rule → stored_rule p m interval b.
Proof.
  intros (t & s & s1 & l & now & Hc & _ & _ & Hf) -> Hr Hid Hsev.
  apply list_elem_of_filter in Hr as [[Hint Hen] Hr].
  rewrite fold_profiles_result in Hf. injection Hf as <-.
  apply elem_of_find_rule in Hr as Hf; [|apply fold_result_NoDup].
  rewrite find_rule_fold in Hf. apply fmap_Some in Hf as ([prof r0] & Hms & ->). simpl in *.
  apply andb_true_iff in Hen as [Hp Hr0].
  pose proof Hms as [Hin _]%most_specific_Some.
  destruct (collect_elem docs others _ _ _ _ _ _ _ Hc Hin) as (d & now' & Hd & Hm & _ & Hcas).
  exists s, s1, l, prof, r0, d, now'. rewrite Hid. split_and!; done.
Qed.
End Stored.

(** * Properties of the system *)
Section SystemProperties.
Context {W C L CT CL CB Resp : Type}.
Context `{!Collection W, !EqpCollection W, !TemplateCollection W Template, !EsApi W, !Redis W}.
Context `{!Http W Resp, !TTLCache C MonitorProfile, !TTLCache L Z, !TTLCache CT string}.
Context `{!TTLCache CL (list string), !TTLCache CB bool, !SetIter}.
Context (settings : AlertSettings) (debug_read_only : bool).
Context (key_prefix api_url es_keyword_suffix : string) (others : W → W).
Context (pydantic_float : string → option num).
Context (digest : bool * list Measure * list Rule * list (string * NotifyChannel) → string).
Notation Pod := (Pod (C := C) (L := L) (CT := CT) (CL := CL) (CB := CB)).

(** [AnalysisEngine._do_analysis] of a pod *)
Definition pod_tick (process : string) (interval : Z)
  : SE ((W * Pod) * list Event) EngineError AnalysisResult :=
  let _ := pod_deps debug_read_only key_prefix api_url es_keyword_suffix others in
  _do_analysis settings es_keyword_suffix pydantic_float digest process interval.

(** C2: An alert comes from the database: every breach a tick returns is about an active
    equipment of the process, and its rule is, in the documents that were collected for
    that equipment, the one of the most specific document that declares it; that
    document is stored under a scope of the equipment's cascade, it and the rule are
    enabled, and the rule has the interval of the tick and the severity of the breach.
    The profile cache and the grouping by signature change nothing of this. *)
Theorem alerts_come_from_stored_rules docs eqps ttl entries
    `{!CollectionLaws W docs, !EqpCollectionLaws W eqps, !TTLCacheLaws C MonitorProfile ttl entries}
    process interval (s s' : (W * Pod) * list Event) result :
  (∀ w d, d ∈ eqps w →
    colon_free (ei_process d) = true ∧ colon_free (default "*" (ei_eqpModel d)) = true) →
  (∀ index now window category metrics proc facts expand ids w w' resp, ids ≠ [] →
    es_search_api index (build_metric_aggregation_query es_keyword_suffix now window category
      metrics proc facts expand ids) w = (w', Ok resp) →
    ∀ k, k ∈ eqp_keys resp → k ∈ ids) →
  (∀ pr m e p pr' m' e' q, made (C := C) others pr m e p → made (C := C) others pr' m' e' q →
    digest (signature_payload p) = digest (signature_payload q) →
    signature_payload p = signature_payload q) →
  cache_made others entries (p_cache s.1.2) →
  pod_tick process interval s = (s', Ok result) →
  ∀ b, b ∈ ar_breaches result → ∃ model, plant eqps process model (tb_eqp_id b)
    ∧ stored_rule (C := C) others docs process model interval b.
Proof.
  intros Hnames Hes Hinj Hc Hs b Hb.
  pose (deps := pod_deps (C := C) (L := L) (CT := CT) (CL := CL) (CB := CB)
    debug_read_only key_prefix api_url es_keyword_suffix others).
  pose (asks := λ p m e : string,
    colon_free p = true ∧ colon_free m = true ∧ plant eqps p m e).
  assert (DepsInv (W * Pod) (pod_inv others entries) asks) as Hinv by (eapply pod_deps_inv; eauto).
  assert (∀ p, resolvable (pod_inv others entries) asks p → ∃ pr m e, made (C := C) others pr m e p)
    as Hmade by (intros p (pr & m & e & Hr); exists pr, m, e; eapply resolved_made; eauto).
  edestruct (do_analysis_logs (pod_inv others entries) asks settings es_keyword_suffix
    pydantic_float digest) as (_ & tr & _ & Hsound); [..|exact Hs|].
  - intros index now window category metrics proc facts expand ids [w p] [w' p'] resp _ Hids.
    simpl. unfold on. cbn [fst snd].
    destruct (se_bind _ _ _) as [[w1 x1] r] eqn:E. intros [= _ _ Hr].
    apply se_bind_inv in E as [(err & _ & ->)|(s1 & [] & E1 & E)]; [done|].
    unfold es_call in E. destruct (es_search_api _ _ s1.1) as [w2 r2] eqn:Ea.
    injection E as _ _ <-. destruct r2 as [resp'|]; [|done]. injection Hr as ->. by eapply Hes.
  - intros p (pr & m & e & t & s1 & s2 & l & now & _ & _ & _ & Hf)%Hmade.
    rewrite fold_profiles_result in Hf. injection Hf as <-. apply ODict.of_list_NoDup.
  - intros p q (? & ? & ? & Hp)%Hmade (? & ? & ? & Hq)%Hmade. by eapply Hinj.
  - exact Hc.
  - destruct (Hsound _ eq_refl b Hb) as (q & model & rule & ch & _ & Hq & _ & Hr & Hid & Hsev & _).
    exists model. split; [apply Hq|].
    eapply (made_rule _ _ _ _ _ q); eauto. eapply resolved_made; eauto.
Qed.
End SystemProperties.

Section Cooldowns.
Context {W C L CT CL CB Resp : Type}.
Context `{!Collection W, !EqpCollection W, !TemplateCollection W Template, !EsApi W, !Redis W}.
Context `{!Http W Resp, !TTLCache C MonitorProfile, !TTLCache L Z, !TTLCache CT string}.
Context `{!TTLCache CL (list string), !TTLCache CB bool, !SetIter}.
Context (settings : AlertSettings) (key_prefix api_url es_keyword_suffix : string).
Context (others : W → W) (pydantic_float : string → option num).
Context (digest : bool * list Measure * list Rule * list (string * NotifyChannel) → string).
Notation Pod := (Pod (C := C) (L := L) (CT := CT) (CL := CL) (CB := CB)).
Notation tick := (pod_tick (C := C) (L := L) (CT := CT) (CL := CL) (CB := CB)
  settings false key_prefix api_url es_keyword_suffix others pydantic_float digest).

(** C3: Mails are spaced: when a tick sets the cooldown of a key for [minutes], a later
    tick that mails the same key, in this pod or in another, of whatever process and
    interval, ends at least that many minutes after the first one began.  Redis can be
    reached when the first tick begins and stays so, and everybody else leaves the
    stored keys to time; the objects of the two pods are arbitrary. *)
Theorem mails_spaced_by_cooldown expiry up local_entries
    `{!RedisLaws W expiry, !Network W Resp expiry up others,
      !TTLCacheLaws L Z COOLDOWN_LOCAL_CACHE_MAX_TTL_SEC local_entries}
    process1 process2 interval1 interval2 (s1 s1' s2 s2' : W * Pod) tr1 tr2 r1 r2 key minutes :
  tick process1 interval1 (s1, []) = ((s1', tr1), r1) →
  tick process2 interval2 (s2, []) = ((s2', tr2), r2) →
  up s1.1 → benign expiry up s1'.1 s2.1 →
  colon_free key_prefix = true → Forall colon_free_check (mails tr1) →
  EvCooldown key minutes ∈ tr1 → (0 < minutes)%Z → key ∈ mails tr2 →
  (clock s1.1 + 60 * minutes ≤ clock s2'.1)%Z.
Proof.
  intros H1 H2 Hup Hb Hp Hk Hset Hm Hmail.
  pose (deps := pod_deps (C := C) (L := L) (CT := CT) (CL := CL) (CB := CB)
    false key_prefix api_url es_keyword_suffix others).
  pose (srv := pod_service (C := C) (L := L) (CT := CT) (CL := CL) (CB := CB)
    key_prefix expiry up).
  assert (@CooldownServiceLaws (W * Pod) deps srv) as Hlaws by (eapply pod_service_laws; eauto).
  refine (ticks_apart settings es_keyword_suffix pydantic_float digest process1 process2
    interval1 interval2 s1 s1' s2 s2' tr1 tr2 r1 r2 key key minutes H1 H2 _ Hup _ Hset Hm Hmail
    eq_refl).
  - destruct s1' as [w1 p1], s2 as [w2 p2]. exact (benign_quiet key_prefix expiry up w1 w2 p1 p2 Hb).
  - edestruct (tick_mails_NoDup settings es_keyword_suffix pydantic_float digest) as
      (_ & tr & Etr & Hnd); [|exact H1|]; [done|]. simpl in Etr. subst tr.
    apply NoDup_fmap_2_strong; [|done]. rewrite Forall_forall in Hk.
    intros k k' Hin Hin'. apply make_key_inj; auto.
Qed.
End Cooldowns.

(** ** A plant in memory: one profile, three equipments, two of them too full *)
Record Plant := mkPlant { pl_redis : MemRedis; pl_sent : nat }.

Definition pl_at (t : Z) (w : Plant) : Plant :=
  mkPlant (mkRedis (mr_expiry (pl_redis w)) t (mr_up (pl_redis w))) (pl_sent w).
(** A second passes. *)
Definition pl_others (w : Plant) : Plant := pl_at (mr_clock (pl_redis w) + 1) w.

Definition pl_measure : Measure :=
  mkMeasure "disk" "disk" "total_used_pct" "@system" 30 [GK_eqpId] scalar None None None
    [mkFact MAX None None None None].
Definition pl_profile : MonitorProfile :=
  ex_doc (mkScope "ETCH" "*" "*") true [pl_measure] [ex_rule "a" true].
Definition pl_doc : Doc := to_mongo pl_profile.
Definition pl_eqps : list EqpInfo := [ex_eqp "E1"; ex_eqp "E2"; ex_eqp "E3"].

Definition on_redis {A} (op : SE MemRedis RedisExc A) : SE Plant RedisExc A := λ w,
  let '(x, r) := op (pl_redis w) in (mkPlant x (pl_sent w), r).

(** The database is read only here. *)
#[local] Instance pl_collection : Collection Plant := {
  insert_one d w := (w, Err Unavailable);
  replace_one q d w := (w, Err Unavailable);
  update_one q d w := (w, Err Unavailable);
  delete_one q w := (w, Err Unavailable);
  find_one q w := (w, Ok (head (filter (matches q) [pl_doc])));
  find q w := (w, Ok (filter (matches q) [pl_doc]));
  utcnow w := (1781484300000000 + 1000000 * mr_clock (pl_redis w))%Z;
  timer w := mr_clock (pl_redis w);
}.
#[local] Instance pl_eqp_collection : EqpCollection Plant := {
  eqp_distinct_process f w :=
    (w, Ok (remove_dups (ei_process <$> filter (eqp_filter f) pl_eqps)));
  eqp_count f w := (w, Ok (length (filter (eqp_filter f) pl_eqps)));
  eqp_find f w := (w, Ok (filter (eqp_filter f) pl_eqps));
}.
#[local] Instance pl_templates : TemplateCollection Plant Template :=
  {| find_template_doc k w := (w, Ok None) |}.
#[local] Instance pl_es : EsApi Plant := {
  es_search_api index body w :=
    (w, Ok (JObj [("aggregations", JObj [("by_eqp", JObj [("buckets", JArr
       ((λ b : string * json, JObj [("key", JStr b.1); ("max", JObj [("value", b.2)])])
        <$> filter (λ b, b.1 ∈ asked body) [("E2", JInt 97); ("E3", JInt 99)]))])])]));
  es_get_mapping index w := (w, Err NotFoundError);
  es_ping w := (w, Ok true);
  es_api_close w := (w, Ok tt);
  es_timer w := mr_clock (pl_redis w);
  es_later w := w;
}.
#[local] Instance pl_redis_ops : Redis Plant := {
  redis_exists k := on_redis (redis_exists k);
  redis_setex k t := on_redis (redis_setex k t);
  redis_delete k := on_redis (redis_delete k);
  redis_exists_all ks := on_redis (redis_exists_all ks);
  clock w := mr_clock (pl_redis w);
}.
#[local] Instance pl_http : Http Plant json := {
  http_post url payload w :=
    (mkPlant (pl_redis w) (S (pl_sent w)), Ok (JObj [("result", JStr "success")]));
  http_head url w := (w, Ok JNull);
  http_aclose w := (w, Ok tt);
  raise_for_status _ := Ok tt;
  resp_json d := Ok d;
  time_now w := mr_clock (pl_redis w);
  json_text _ := "";
}.

Notation pl_expiry := (λ w, mr_expiry (pl_redis w)).
Notation pl_up := (λ w, mr_up (pl_redis w) = true).

#[local] Instance pl_collection_laws : CollectionLaws Plant (λ _, [pl_doc]).
Proof.
  split; try done.
  - intros q w w' r [= <- <-]. split; [done|].
    destruct (filter (matches q) [pl_doc]) as [|d l] eqn:E; simpl.
    + apply Forall_forall. intros d Hd Hm. apply (elem_of_nil d). rewrite <-E.
      by apply list_elem_of_filter.
    + assert (d ∈ filter (matches q) [pl_doc]) as Hd by (rewrite E; left).
      by apply list_elem_of_filter in Hd as [? ?].
  - by intros q w w' l [= <- <-].
  - by left.
Qed.

#[local] Instance pl_eqp_laws : EqpCollectionLaws Plant (λ _, pl_eqps).
Proof.
  split.
  - intros f w w' l [= _ <-]. split; [apply NoDup_remove_dups|].
    intros p. rewrite elem_of_remove_dups, list_elem_of_fmap.
    setoid_rewrite list_elem_of_filter. naive_solver.
  - by intros f w w' n [= _ <-].
  - by intros f w w' l [= _ <-].
Qed.

#[local] Instance pl_redis_laws : RedisLaws Plant pl_expiry.
Proof.
  assert (∀ A (op : SE MemRedis RedisExc A) (w w' : Plant) a, on_redis op w = (w', Ok a) →
    op (pl_redis w) = (pl_redis w', Ok a) ∧ pl_sent w' = pl_sent w) as Hon.
  { intros A op w w' a. unfold on_redis. destruct (op (pl_redis w)) as [x r]. by intros [= <- ->]. }
  assert (∀ w w' : Plant, pl_redis w' = pl_redis w → pl_sent w' = pl_sent w → w' = w) as Heq
    by (intros [] []; simpl; congruence).
  split.
  - intros k w w' b [[Hr ->]%exists_law Hs]%Hon. auto.
  - intros k ttl w w' [Hr%setex_law _]%Hon. exact Hr.
  - intros k ttl w Ht. destruct (setex_invalid k ttl (pl_redis w)) as [e He]; [done|].
    exists e. change (on_redis (redis_setex k ttl) w = (w, Err e)).
    unfold on_redis. rewrite He. by destruct w.
  - intros k ttl w. pose proof (setex_clock k ttl (pl_redis w)) as Hc.
    change (clock (on_redis (redis_setex k ttl) w).1 = clock w). unfold on_redis.
    by destruct (redis_setex k ttl _).
  - intros ks w w' bs [[Hr ->]%exists_all_law Hs]%Hon. auto.
Qed.

#[local] Instance pl_network : Network Plant json pl_expiry pl_up pl_others.
Proof.
  assert (∀ (w : Plant) n, benign pl_expiry pl_up w (mkPlant (pl_redis w) n)) as Hsame
    by (intros w n; split; simpl; [lia|done|eauto 6 with lia]).
  split.
  { split; try done; [apply _|..].
    - intros w. split; simpl; [lia|done|eauto 6 with lia].
    - intros u p w. apply Hsame.
    - intros ks w. simpl. unfold on_redis, redis_exists_all, mem_redis, when_up.
      destruct (mr_up (pl_redis w)); apply Hsame. }
  - intros ks w Hu. simpl. unfold on_redis, redis_exists_all, mem_redis, when_up. by rewrite Hu.
  - intros k t w Hu Ht. simpl. unfold on_redis, redis_setex, mem_redis, when_up.
    by rewrite decide_True, Hu by done.
  - intros k t w Hu. simpl. unfold on_redis, redis_setex, mem_redis, when_up.
    case_decide; by rewrite ?Hu.
Qed.

#[local] Existing Instance set_iter_id.
#[local] Instance pl_profiles : TTLCache (MapCache MonitorProfile) MonitorProfile := map_cache_ops 300.
#[local] Instance pl_profiles_laws :
  TTLCacheLaws (MapCache MonitorProfile) MonitorProfile 300 map_cache := map_cache_laws 300.
#[local] Instance pl_local : TTLCache (MapCache Z) Z := map_cache_ops 3600.
#[local] Instance pl_local_laws : TTLCacheLaws (MapCache Z) Z 3600 map_cache := map_cache_laws 3600.
#[local] Instance pl_types : TTLCache (MapCache string) string := map_cache_ops 600.
#[local] Instance pl_names : TTLCache (MapCache (list string)) (list string) := map_cache_ops 600.
#[local] Instance pl_marks : TTLCache (MapCache bool) bool := map_cache_ops 300.
(** A pod that has just connected. *)
Definition pl_pod : Pod (C := MapCache MonitorProfile) (L := MapCache Z) (CT := MapCache string)
    (CL := MapCache (list string)) (CB := MapCache bool) :=
  mkPod cache_empty (with_connected true es_init) cache_empty (mkClient true []).
Definition pl_start (t : Z) : Plant := mkPlant (mkRedis ∅ t true) 0.
Definition pl_tick (process : string) :=
  pod_tick (C := MapCache MonitorProfile) (L := MapCache Z) (CT := MapCache string)
    (CL := MapCache (list string)) (CB := MapCache bool)
    ex_settings false "rms" "http://akka/EmailNotify" "" pl_others (λ _, None) (λ _, "sig") process 5.
Definition pl_key (eqp : string) : Check := mkCheck "ETCH" eqp "@system" "default" "CRITICAL".

(** A pod mails the two equipments; the tick of another pod a minute later mails none,
    one after half an hour mails both again. *)
Example plant_example :
  let '(s1, tr1, r1) := pl_tick "ETCH" ((pl_start 0, pl_pod), []) in
  let later t := pl_tick "ETCH" ((pl_at t s1.1, pl_pod), []) in
  mails tr1 = [pl_key "E2"; pl_key "E3"] ∧ pl_sent s1.1 = 2
  ∧ EvCooldown (pl_key "E2") 30 ∈ tr1
  ∧ mails (later 60%Z).1.2 = [] ∧ mails (later 1900%Z).1.2 = [pl_key "E2"; pl_key "E3"].
Proof. vm_compute. split_and!; try done. repeat (left || right). Qed.

Lemma mails_spaced_by_cooldown_witness :
  let t1 := pl_tick "ETCH" ((pl_start 0, pl_pod), []) in
  let t2 := pl_tick "ETCH" ((pl_at 1900 t1.1.1.1, pl_pod), []) in
  pl_key "E2" ∈ mails t1.1.2 ∧ pl_key "E2" ∈ mails t2.1.2 ∧
  (clock (pl_start 0) + 60 * 30 ≤ clock t2.1.1.1)%Z.
Proof.
  intros t1 t2.
  assert (mails t1.1.2 = [pl_key "E2"; pl_key "E3"]) as Hm1 by (vm_compute; reflexivity).
  assert (mails t2.1.2 = [pl_key "E2"; pl_key "E3"]) as Hm2 by (vm_compute; reflexivity).
  assert (pl_key "E2" ∈ mails t2.1.2) as Hm by (rewrite Hm2; left).
  split; [rewrite Hm1; left|]. split; [exact Hm|].
  refine (mails_spaced_by_cooldown ex_settings "rms" "http://akka/EmailNotify" "" pl_others
    (λ _, None) (λ _, "sig") pl_expiry pl_up map_cache "ETCH" "ETCH" 5 5
    (pl_start 0, pl_pod) t1.1.1 (pl_at 1900 t1.1.1.1, pl_pod) t2.1.1 t1.1.2 t2.1.2 t1.2 t2.2
    (pl_key "E2") 30 _ _ eq_refl _ eq_refl _ _ eq_refl Hm).
  - change (t1 = ((t1.1.1, t1.1.2), t1.2)). by destruct t1 as [[? ?] ?].
  - change (t2 = ((t2.1.1, t2.1.2), t2.2)). by destruct t2 as [[? ?] ?].
  - assert (clock t1.1.1.1 ≤ 1900)%Z as Hc by (vm_compute; discriminate).
    split; [exact Hc|vm_compute; reflexivity|]. intros i e He. right. exists e.
    split; [exact He|lia].
  - rewrite Hm1. repeat constructor.
  - apply (list_elem_of_lookup_2 _ 8). vm_compute. reflexivity.
Defined.

Lemma pl_made pr m e q :
  made (C := MapCache MonitorProfile) pl_others pr m e q →
  signature_payload q = signature_payload (fold_result 0 [pl_profile] (mkScope pr m e)).
Proof.
  intros (t & s & s1 & l & now & Hc & _ & Hne & Hf). rewrite fold_profiles_result in Hf.
  injection Hf as <-.
  apply (collect_spec (λ _, [pl_doc])) in Hc as (_ & ds & t' & Hds & ps & Hps & ->).
  assert (ds = [] ∨ ds = [pl_doc]) as [->| ->].
  { rewrite filter_cons, filter_nil in Hds. case_decide; [right|left].
    - by apply Permutation_singleton_r.
    - by apply Permutation_nil_r. }
  - apply Forall2_nil_inv_l in Hps as ->. done.
  - apply Forall2_cons_inv_l in Hps as (p & ps' & Hp & ->%Forall2_nil_inv_l & ->).
    assert (from_mongo t' pl_doc = Ok pl_profile) as Hfm by reflexivity.
    rewrite Hfm in Hp. injection Hp as <-. reflexivity.
Qed.

Lemma alerts_come_from_stored_rules_witness :
  ∃ s' result b, pl_tick "ETCH" ((pl_start 0, pl_pod), []) = (s', Ok result) ∧
    b ∈ ar_breaches result ∧ tb_eqp_id b = "E2" ∧
    ∃ model, plant (λ _ : Plant, pl_eqps) "ETCH" model "E2"
      ∧ stored_rule (C := MapCache MonitorProfile) pl_others (λ _, [pl_doc]) "ETCH" model 5 b.
Proof.
  assert (∃ s' result b, pl_tick "ETCH" ((pl_start 0, pl_pod), []) = (s', Ok result) ∧
    head (ar_breaches result) = Some b ∧ tb_eqp_id b = "E2") as (s' & result & b & Hs & Hb & He)
    by (eexists _, _, _; split_and!; [vm_compute; reflexivity|reflexivity|reflexivity]).
  assert (b ∈ ar_breaches result) as Hin by (by apply head_Some_elem_of).
  exists s', result, b. split; [exact Hs|]. split; [exact Hin|]. split; [exact He|].
  rewrite <-He.
  refine (alerts_come_from_stored_rules ex_settings false "rms" "http://akka/EmailNotify" ""
    pl_others (λ _, None) (λ _, "sig") (λ _, [pl_doc]) (λ _, pl_eqps) 300 map_cache "ETCH" 5
    ((pl_start 0, pl_pod), []) s' result _ _ _ _ Hs b Hin).
  - intros w d Hd. assert (Forall (λ d, colon_free (ei_process d) = true ∧
      colon_free (default "*" (ei_eqpModel d)) = true) pl_eqps) as Hall by (repeat constructor).
    rewrite Forall_forall in Hall. by apply Hall.
  - intros index now window category metrics proc facts expand ids w w' resp Hne [= _ <-] k.
    rewrite mem_keys, asked_query by done.
    intros (x & -> & [Hx _]%list_elem_of_filter)%list_elem_of_fmap. exact Hx.
  - intros pr m e p pr' m' e' q ->%pl_made ->%pl_made _. reflexivity.
  - intros key eff t Hk. done.
Defined.
