(* ===== verification/Complete.v ===== *)
(** * A pod finds every breach, and no other ([src/analyzer/engine.py], [src/db/repository.py],
      [src/es/client.py])

    [Bucketing] compares a tick with the evaluation of each equipment alone, over the
    engine's interface.  Here its laws are discharged by the components of a pod: the
    names come through the caches of the Elasticsearch client, the profiles through the
    cache of the repository, and what is assumed is said of the services only. *)
From stdpp Require Import base list sets strings gmap.
From Stdlib Require Import ZArith Lia.
From S2P Require Import Prelude PyNum PyStr Json FactCatalog Models Renderer Threshold Cache.
From S2P Require Import Repository Cooldown AlertBuilder EmailClient EsQuery EsClient Engine.
From S2P Require Import Bucketing Ticks System.
Local Open Scope se_scope.

(** ** An Elasticsearch whose documents do not change *)

(** Documented behaviour, in the states where [fixed] holds: a search for metric names is
    answered, always with the same names, and a search for some equipment has one bucket
    for each that has rows.  Names that share a cache key are the same ones; they are
    when no category has a colon. *)
Class SteadyEs (W : Type) `{!EsApi W} (fixed : W → Prop) (es_keyword_suffix : string)
    (names : string → string → string → list string)
    (rows : string → Z → Z → string → list string → string → list Fact → bool → string →
       option json) := {
  es_names_law ip cat pr w : fixed w → ∃ w' resp,
    es_search_api ip (metric_names_query es_keyword_suffix cat pr) w = (w', Ok resp)
    ∧ names_of resp = Ok (names ip cat pr);
  es_names_key ip cat pr ip' cat' pr' :
    names_key ip cat pr = names_key ip' cat' pr' → names ip cat pr = names ip' cat' pr';
  es_rows_key index now window c metrics proc facts expand e b :
    rows index now window c metrics proc facts expand e = Some b → key_of b = Ok e;
  es_rows_law index now window c metrics proc facts expand ids w w' resp bs :
    fixed w → ids ≠ [] → (Z.of_nat (length (remove_dups ids)) ≤ _TERMS_AGG_SIZE)%Z →
    es_search_api index (build_metric_aggregation_query es_keyword_suffix now window c metrics
      proc facts expand ids) w = (w', Ok resp) →
    answer_buckets resp = Ok bs →
    bs ≡ₚ omap (rows index now window c metrics proc facts expand) (remove_dups ids);
}.

Lemma steady_es_weaken {W} `{!EsApi W} (fixed fixed' : W → Prop) suffix names rows :
  (∀ w, fixed' w → fixed w) → SteadyEs W fixed suffix names rows →
  SteadyEs W fixed' suffix names rows.
Proof. intros Hf [H1 H2 H3 H4]. split; eauto. Qed.

(** What stays true of a world. *)
Definition remains {W} (fixed : W → Prop) (w w' : W) : Prop := fixed w → fixed w'.
#[export] Instance remains_preorder {W} (fixed : W → Prop) : PreOrder (remains fixed).
Proof. unfold remains. split; [intros w|intros w1 w2 w3]; tauto. Qed.

(** And the clock does not go back. *)
Definition goes_on {W} `{!Collection W} (fixed : W → Prop) (w w' : W) : Prop :=
  (timer w ≤ timer w')%Z ∧ remains fixed w w'.
#[export] Instance goes_on_preorder {W} `{!Collection W} (fixed : W → Prop) : PreOrder (goes_on fixed).
Proof.
  unfold goes_on, remains. split; [intros w; split; [lia|done]|].
  intros w1 w2 w3 [? H1] [? H2]. split; [lia|auto].
Qed.

Lemma traffic_weaken {W Resp} `{!Collection W, !EqpCollection W, !TemplateCollection W Template,
    !EsApi W, !Redis W, !Http W Resp} others (R R' : W → W → Prop) :
  PreOrder R' → (∀ w w', R w w' → R' w w') → Traffic W Resp others R → Traffic W Resp others R'.
Proof. intros Hpre HR [_ H1 H2 H3 H4 H5 H6 H7 H8]. split; auto. Qed.

Lemma stable_and {W A} (P Q : W → Prop) (op : SE W EngineError A) :
  stable P op → stable Q op → stable (λ w, P w ∧ Q w) op.
Proof. intros HP HQ w [Hp Hq]. split; [by apply HP|by apply HQ]. Qed.

Section Complete.
Context {W C L CT CL CB Resp : Type}.
Context `{!Collection W, !EqpCollection W, !TemplateCollection W Template, !EsApi W, !Redis W}.
Context `{!Http W Resp, !TTLCache C MonitorProfile, !TTLCache L Z, !TTLCache CT string}.
Context `{!TTLCache CL (list string), !TTLCache CB bool, !SetIter}.
Context (debug_read_only : bool) (key_prefix api_url es_keyword_suffix : string).
Context (others : W → W) (docs : W → list Doc) (eqps : W → list EqpInfo).
Context `{!CollectionLaws W docs, !EqpCollectionLaws W eqps}.
Context (ttl : Z) (entries : C → gmap string (MonitorProfile * Z))
  `{!TTLCacheLaws C MonitorProfile ttl entries}.
Context (names_ok : ∀ w d, d ∈ eqps w →
  colon_free (ei_process d) = true ∧ colon_free (default "*" (ei_eqpModel d)) = true).
Context (cached : CL → gmap string (list string * Z)) (marks : CB → gmap string (bool * Z)).
Context `{!TTLCacheLaws CL (list string) _INTROSPECT_POSITIVE_TTL cached,
          !TTLCacheLaws CB bool _INTROSPECT_NEGATIVE_TTL marks}.
Context (names : string → string → string → list string).
Context (rows : string → Z → Z → string → list string → string → list Fact → bool → string →
  option json).
Context (fixed : W → Prop) `{!SteadyEs W fixed es_keyword_suffix names rows}.
Context `{!Traffic W Resp others (remains fixed)}.
Context (setex_fixed : ∀ k t w, remains fixed w (redis_setex k t w).1).

Notation Pod := (Pod (C := C) (L := L) (CT := CT) (CL := CL) (CB := CB)).
Notation EsState := (EsState (CT := CT) (CL := CL) (CB := CB)).
#[local] Instance complete_deps : Deps (W * Pod) :=
  pod_deps debug_read_only key_prefix api_url es_keyword_suffix others.

(** ** The client of such a cluster *)

(** It is connected, what it has cached are the names of the cluster, and no failure. *)
Definition es_steady (c : EsState) : Prop :=
  es_connected c = true
  ∧ (∀ key l t, cached (_metric_names_positive c) !! key = Some (l, t) →
       ∃ ip cat pr, key = names_key ip cat pr ∧ l = names ip cat pr)
  ∧ ∀ key, marks (_metric_names_negative c) !! key = None.

Lemma metric_names_steady ip cat pr (s : W * EsState) :
  fixed s.1 → es_steady s.2 →
  let '(s', r) := get_metric_names es_keyword_suffix ip cat pr s in
  (∀ l, r = Ok l → l = names ip cat pr) ∧ es_steady s'.2.
Proof.
  intros Hw (Hc & Hcached & Hmarks). rewrite get_metric_names_eq. cbv zeta.
  set (w2 := es_later (es_later s.1)).
  assert (fixed w2) as Hw2 by (by apply (es_later_moves (R := remains fixed)),
    (es_later_moves (R := remains fixed))).
  assert (∀ l now, cache_get now (names_key ip cat pr) (_metric_names_positive s.2) = Some l →
    l = names ip cat pr) as Hhit.
  { intros l now Ep. rewrite cache_get_spec in Ep. destruct (cached _ !! _) as [[l' t]|] eqn:Ek; [|done].
    case_bool_decide; [|done]. injection Ep as ->.
    apply Hcached in Ek as (ip' & cat' & pr' & Hk & ->). by apply es_names_key. }
  destruct (cache_get (es_timer (es_later s.1)) _ _) as [l0|].
  { destruct (cache_get (es_timer w2) _ (_metric_names_positive s.2)) as [l|] eqn:El; [|done].
    split; [|done]. intros l' [= <-]. by eapply Hhit. }
  rewrite cache_get_spec, Hmarks. unfold se_bind at 1.
  pose proof (search_names_spec es_keyword_suffix ip cat pr (w2, s.2) Hc) as Hs.
  assert (names_answer es_keyword_suffix ip cat pr w2 = Some (names ip cat pr)) as Ha.
  { unfold names_answer. destruct (es_names_law ip cat pr w2 Hw2) as (w' & resp & -> & Hr).
    simpl. by rewrite Hr. }
  cbn [fst snd] in Hs. rewrite Ha in Hs.
  destruct (search_names _ _ _ _ (w2, s.2)) as [s1 r1]. destruct Hs as (-> & _ & Hs2).
  split; [by intros l [= <-]|].
  change (es_steady s1.2). rewrite Hs2. split_and!; [done| |done].
  intros key l t Hk. simpl in Hk. apply entries_set in Hk as [[-> [= -> _]]|Hk]; eauto.
Qed.

Lemma es_search_keeps x b (s : W * EsState) :
  (se_bind client (λ _, es_call (es_search_api x b)) s).1.2 = s.2.
Proof.
  unfold client, se_bind, se_gets, es_call. destruct (es_connected s.2); [|done]. simpl.
  by destruct (es_search_api x b s.1).
Qed.

(** ** The invariant of the pod *)
Definition services_steady (s : W * Pod) : Prop := fixed s.1 ∧ es_steady (p_es s.2).
Definition pod_steady (s : W * Pod) : Prop := pod_inv others entries s ∧ services_steady s.

Lemma on_steady {X E A} name get put (op : SE (W * X) E A) :
  moves (remains fixed) op →
  (∀ w p, fixed w → es_steady (p_es p) → es_steady (p_es (put (op (w, get p)).1.2 p))) →
  stable services_steady (on others name get put op).
Proof.
  intros Hop Hput [w p] [Hw Hes]. unfold on, services_steady. specialize (Hop (w, get p)).
  specialize (Hput w p Hw Hes). cbn [fst snd] in *.
  destruct (op (w, get p)) as [[w' x'] r]. cbn [fst snd] in *.
  split; [|done]. apply (others_moves (R := remains fixed)), Hop, Hw.
Qed.

Lemma on_world_steady {E A} name (op : SE W E A) :
  (∀ w, remains fixed w (op w).1) → stable services_steady (on_world others name op).
Proof.
  intros Hop. apply on_steady; [|done]. intros [w x]. simpl. specialize (Hop w). by destruct (op w).
Qed.

Notation asked := (λ p m e, colon_free p = true ∧ colon_free m = true ∧ plant eqps p m e).

#[export] Instance pod_steady_inv : DepsInv (W * Pod) pod_steady asked.
Proof.
  pose proof (pod_deps_inv (C := C) (L := L) (CT := CT) (CL := CL) (CB := CB) debug_read_only
    key_prefix api_url es_keyword_suffix others eqps ttl entries names_ok) as Hinv.
  split.
  - intros. apply stable_and; [apply Hinv|]. apply on_world_steady. intros.
    apply (eqp_active_moves others (remains fixed)).
  - intros process w w' l d [Hi _]. by apply Hinv.
  - intros process m e Ha. apply stable_and; [by apply Hinv|].
    apply on_steady; [eapply resolve_moves, _|done].
  - intros. apply stable_and; [apply Hinv|]. apply on_steady; [eapply metric_names_moves, _|].
    intros w p' Hw Hes. pose proof (metric_names_steady index c p (w, p_es p') Hw Hes) as Hm.
    by destruct (get_metric_names _ _ _ _ _) as [[w' c'] r], Hm.
  - intros. apply stable_and; [apply Hinv|]. apply on_steady; [eapply es_search_moves, _|].
    intros w p' Hw Hes. by rewrite es_search_keeps.
  - intros. apply stable_and; [apply Hinv|]. apply on_steady; [eapply batch_moves, _|done].
  - intros. apply stable_and; [apply Hinv|]. apply on_steady; [|done].
    apply (set_cooldown_moves debug_read_only key_prefix others); [apply _|]. intros. apply setex_fixed.
  - intros. apply stable_and; [apply Hinv|]. apply on_world_steady. intros.
    apply (template_moves others (remains fixed)).
  - intros. apply stable_and; [apply Hinv|]. apply on_steady; [eapply send_alert_moves, _|done].
Qed.

#[export] Instance pod_cluster :
  SteadyCluster (W * Pod) pod_steady es_keyword_suffix names rows.
Proof.
  split.
  - intros index c p [w pd] s' l (_ & Hw & Hes). simpl. unfold on. cbn [fst snd].
    pose proof (metric_names_steady index c p (w, p_es pd) Hw Hes) as Hm.
    destruct (get_metric_names _ _ _ _ _) as [[w1 c1] r]. destruct Hm as [Hm _].
    destruct r as [l'|e]; [|done]. intros [= _ <-]. by apply Hm.
  - intros index now window c metrics proc facts expand e b. by apply es_rows_key.
  - intros index now window c metrics proc facts expand ids [w pd] s' resp bs (_ & Hw & _) Hne Hfit.
    simpl. unfold on. cbn [fst snd].
    destruct (se_bind _ _ _) as [[w1 x1] r] eqn:E. intros [= _ Hr].
    apply se_bind_inv in E as [(err & _ & ->)|(s1 & [] & E1 & E)]; [done|].
    assert (s1.1 = w) as E1w.
    { unfold client, se_bind, se_gets in E1. simpl in E1.
      destruct (es_connected (p_es pd)); [|done]. by injection E1 as <-. }
    unfold es_call in E. rewrite E1w in E.
    destruct (es_search_api _ _ w) as [w2 r2] eqn:Ea. injection E as _ _ <-.
    destruct r2 as [resp'|]; [|done]. injection Hr as ->. by apply (es_rows_law _ _ _ _ _ _ _ _ _ w w2).
Qed.

(** At a time from [T] on, no document of the cascade of an equipment is stored. *)
Definition undocumented (T : Z) (process : string) (d : EqpInfo) : Prop :=
  ∃ w, (T ≤ timer w)%Z ∧ filter (matches (AnyScope (_cascade_triples process (default "*" (ei_eqpModel d)) (ei_eqpId d))))
         (docs w) = [].

Lemma collect_nil pr m e (s s' : W * C) :
  collect_scope_docs others pr m e s = (s', Ok []) →
  filter (matches (AnyScope (_cascade_triples pr m e))) (docs s.1) = [].
Proof.
  intros (_ & ds & now & Hp & ps & Hps & Hl)%(collect_spec docs).
  assert (ps = []) as ->
    by (apply Permutation_nil_r; rewrite Hl; symmetry; apply sort_by_perm).
  apply Forall2_nil_inv_r in Hps as ->. by apply Permutation_nil_l in Hp.
Qed.

Lemma unresolved_undocumented T process d :
  (∀ w, fixed w → (T ≤ timer w)%Z) →
  unresolved (W := W * Pod) pod_steady asked process d → undocumented T process d.
Proof.
  intros HT ([w pd] & s' & (_ & Hw%HT & _) & _ & Hr). simpl in Hr. unfold on in Hr. cbn [fst snd] in Hr.
  destruct (se_bind _ _ _) as [[w1 x1] r] eqn:E. injection Hr as _ Hr.
  apply se_bind_inv in E as [(err & _ & ->)|(s1 & [o log] & E & [= _ <-])]; [done|].
  injection Hr as ->. unfold resolve_profile, se_bind at 1, se_gets at 1 in E.
  destruct (cache_get _ _ _); [done|]. unfold resolve_uncached in E.
  apply se_bind_Ok in E as (s2 & l & Hc & E). case_decide as Hl.
  - subst l. exists w. split; [done|]. by apply collect_nil in Hc.
  - unfold se_bind, se_gets, of_res, se_modify in E. rewrite fold_profiles_result in E. done.
Qed.
End Complete.

(** * The composed theorem *)
Section CompleteProperty.
Context {W C L CT CL CB Resp : Type}.
Context `{!Collection W, !EqpCollection W, !TemplateCollection W Template, !EsApi W, !Redis W}.
Context `{!Http W Resp, !TTLCache C MonitorProfile, !TTLCache L Z, !TTLCache CT string}.
Context `{!TTLCache CL (list string), !TTLCache CB bool, !SetIter}.
Context (settings : AlertSettings) (debug_read_only : bool).
Context (key_prefix api_url es_keyword_suffix : string) (others : W → W).
Context (pydantic_float : string → option num).
Context (digest : bool * list Measure * list Rule * list (string * NotifyChannel) → string).
Notation Pod := (Pod (C := C) (L := L) (CT := CT) (CL := CL) (CB := CB)).
Notation tick := (pod_tick (C := C) (L := L) (CT := CT) (CL := CL) (CB := CB)
  settings debug_read_only key_prefix api_url es_keyword_suffix others pydantic_float digest).

(** The equipment of a tick. *)
Definition active_equipment (process : string) (l : list EqpInfo) : list EqpInfo :=
  filter (eqp_filter (Some process)) l.

(** C1: A pod finds every breach and no other.  The tick of a process and an interval goes
    through the active equipment of the process in the database.  Each has a profile,
    folded from the documents that were collected for it in the tick, or at most [ttl]
    seconds before it began; or no document is stored for it.  The breaches are exactly
    those that evaluating each equipment alone finds, with its own profile and its own
    readings in Elasticsearch: the cache of profiles, the caches of metric names, the
    grouping by signature and the shared searches change nothing.  The documents of
    Elasticsearch stay as they are, searches for names are answered, and the process has
    at most 30000 active equipment. *)
Theorem tick_finds_exactly docs eqps ttl entries cached marks names rows fixed
    `{!CollectionLaws W docs, !EqpCollectionLaws W eqps, !TTLCacheLaws C MonitorProfile ttl entries,
      !TTLCacheLaws CL (list string) _INTROSPECT_POSITIVE_TTL cached,
      !TTLCacheLaws CB bool _INTROSPECT_NEGATIVE_TTL marks,
      !SteadyEs W fixed es_keyword_suffix names rows, !Traffic W Resp others (goes_on fixed)}
    process interval (s s' : (W * Pod) * list Event) result :
  (∀ w d, d ∈ eqps w →
    colon_free (ei_process d) = true ∧ colon_free (default "*" (ei_eqpModel d)) = true) →
  (∀ k t w, goes_on fixed w (redis_setex k t w).1) →
  (∀ pr m e p pr' m' e' q, made (C := C) others pr m e p → made (C := C) others pr' m' e' q →
    digest (signature_payload p) = digest (signature_payload q) →
    signature_payload p = signature_payload q) →
  (∀ w, (Z.of_nat (length (active_equipment process (eqps w))) ≤ _TERMS_AGG_SIZE)%Z) →
  pod_steady others entries cached marks names fixed s.1 →
  tick process interval s = (s', Ok result) →
  ∃ tr equipment, s'.2 = s.2 ++ tr ∧ equipment ≡ₚ active_equipment process (eqps s.1.1) ∧
  (∀ d, d ∈ equipment → (∃ p, EvResolved (ei_eqpId d) p ∈ tr) ∨ undocumented docs (timer s.1.1) process d) ∧
  (∀ e p, EvResolved e p ∈ tr → ∃ d t, d ∈ equipment ∧ ei_eqpId d = e ∧
     made_at (C := C) others t process (default "*" (ei_eqpModel d)) e p ∧
     ((timer s.1.1 < t + ttl)%Z ∨ (timer s.1.1 ≤ t)%Z)) ∧
  ∀ b, b ∈ ar_breaches result ↔
    ∃ e p, EvResolved e p ∈ tr ∧
      b ∈ pd_breach <$> alone pydantic_float names rows process (utcnow s.1.1) interval e p.
Proof.
  intros Hnames Hset Hinj Hsize Hi Hs.
  pose (deps := pod_deps (C := C) (L := L) (CT := CT) (CL := CL) (CB := CB)
    debug_read_only key_prefix api_url es_keyword_suffix others).
  pose (asks := λ p m e : string, colon_free p = true ∧ colon_free m = true ∧ plant eqps p m e).
  pose (since := λ w : W, fixed w ∧ (timer s.1.1 ≤ timer w)%Z).
  assert (∀ w w', goes_on fixed w w' → remains since w w') as Hgoes.
  { intros w w' [Ht Hf] [Hw Hs0]. split; [by apply Hf|lia]. }
  assert (Traffic W Resp others (remains since)) as Htraffic
    by (eapply traffic_weaken; [apply _|exact Hgoes|done]).
  assert (SteadyEs W since es_keyword_suffix names rows) as Hsteady
    by (eapply steady_es_weaken; [|done]; by intros w []).
  pose (inv := pod_steady (L := L) (CT := CT) (CL := CL) (CB := CB) others entries cached marks names since).
  assert (inv s.1) as Hi'.
  { destruct Hi as (H1 & H2 & H3). split; [exact H1|]. split; [split; [exact H2|lia]|exact H3]. }
  assert (DepsInv (W * Pod) inv asks) as Hinv by (eapply pod_steady_inv; eauto).
  assert (SteadyCluster (W * Pod) inv es_keyword_suffix names rows) as Hcl
    by (eapply pod_cluster; eauto).
  assert (∀ pr m e p, resolved inv asks pr m e p → ∃ t, made_at (C := C) others t pr m e p
    ∧ ((timer s.1.1 < t + ttl)%Z ∨ (timer s.1.1 ≤ t)%Z)) as Hmade.
  { intros pr m e p ((Hp & Hm & _) & w & w' & (Hw & (_ & Hw0) & _) & Hr).
    eapply pod_resolve_made in Hr as (t & w1 & Ht & _ & Hor & Ew); [|done..]. exists t. split; [done|].
    pose proof (resolve_moves (C := C) others (goes_on fixed) fst pr m e (w.1, p_cache w.2)) as [Hle _].
    rewrite Ew in Hle. cbn [fst] in Hle. destruct Hor as [?| ->]; [left|right]; lia. }
  assert (∀ w w' l, get_equipment process w = (w', Ok l) →
    l ≡ₚ active_equipment process (eqps w.1)) as Hget.
  { intros [w pd] w' l. simpl. unfold on_world, on, get_active_equipment_by_process, eqp_call. simpl.
    destruct (eqp_find (Some process) w) as [w2 [l'|err]] eqn:E; [|done].
    intros [= _ <-]. by apply eqp_find_law in E. }
  edestruct (tick_matches_alone inv asks settings es_keyword_suffix pydantic_float digest names rows)
    as (tr & equipment & E & He & Hcov & Hprof & Hb); [..|exact Hs|].
  - intros p (pr & m & e & Hr%Hmade). destruct Hr as (t & (s1 & s2 & l & now & _ & _ & _ & Hf) & _).
    rewrite fold_profiles_result in Hf. injection Hf as <-.
    split; [apply ODict.of_list_NoDup|apply fold_result_measures_NoDup].
  - intros p q (? & ? & ? & (? & Hp & _)%Hmade) (? & ? & ? & (? & Hq & _)%Hmade).
    eapply Hinj; eexists; eassumption.
  - exact Hi'.
  - intros w w' l _ ->%Hget. apply Hsize.
  - exists tr, equipment. split; [exact E|]. split.
    { destruct (get_equipment process s.1) as [w1 r] eqn:Eg. simpl in He. subst r. by apply Hget in Eg. }
    split; [|split; [|exact Hb]].
    + intros d [|Hu]%Hcov; [by left|right]. eapply unresolved_undocumented; [..|exact Hu]; [done|].
      by intros w [].
    + intros e p (d & Hd & He' & (t & Ht & Hor)%Hmade)%Hprof. by exists d, t.
Qed.
End CompleteProperty.

(** ** The plant in memory *)
#[local] Existing Instances pl_collection pl_eqp_collection pl_templates pl_es pl_redis_ops pl_http.
#[local] Existing Instances pl_collection_laws pl_eqp_laws set_iter_id.
#[local] Existing Instances pl_profiles pl_profiles_laws pl_local pl_types pl_names pl_marks.
#[local] Instance pl_names_laws :
  TTLCacheLaws (MapCache (list string)) (list string) _INTROSPECT_POSITIVE_TTL map_cache :=
  map_cache_laws 600.
#[local] Instance pl_marks_laws :
  TTLCacheLaws (MapCache bool) bool _INTROSPECT_NEGATIVE_TTL map_cache := map_cache_laws 300.

Definition pl_readings : list (string * json) := [("E2", JInt 97); ("E3", JInt 99)].
Definition pl_rows (index : string) (now window : Z) (c : string) (metrics : list string)
    (proc : string) (facts : list Fact) (expand : bool) (e : string) : option json :=
  (λ v, ex_row (e, v)) <$> ODict.get e pl_readings.
Definition pl_fixed (w : Plant) : Prop := True.

#[local] Instance pl_steady_es : SteadyEs Plant pl_fixed "" (λ _ _ _, []) pl_rows.
Proof.
  split.
  - intros ip cat pr w _. eexists _, _. split; [reflexivity|]. reflexivity.
  - done.
  - intros index now window c metrics proc facts expand e b. unfold pl_rows.
    destruct (ODict.get e _); [|done]. by intros [= <-].
  - intros index now window c metrics proc facts expand ids w w' resp bs _ Hne _ [= _ <-].
    rewrite asked_query by done. intros [= <-].
    apply rows_filter. vm_compute. repeat constructor; set_solver.
Qed.

Lemma pl_goes_on (w w' : Plant) :
  (mr_clock (pl_redis w) ≤ mr_clock (pl_redis w'))%Z → goes_on pl_fixed w w'.
Proof. by split. Qed.

#[local] Instance pl_traffic : Traffic Plant json pl_others (goes_on pl_fixed).
Proof.
  split; [apply _|..]; intros; apply pl_goes_on; try reflexivity.
  - simpl. lia.
  - simpl. unfold on_redis, redis_exists_all, mem_redis, when_up. simpl.
    destruct (mr_up (pl_redis w)); reflexivity.
Qed.

(** The two full disks are found, and those that each equipment alone shows. *)
Lemma tick_finds_exactly_witness :
  ∃ s' result tr, pl_tick "ETCH" ((pl_start 0, pl_pod), []) = (s', Ok result)
  ∧ tb_eqp_id <$> ar_breaches result = ["E2"; "E3"] ∧ s'.2 = tr
  ∧ ∀ b, b ∈ ar_breaches result ↔ ∃ e p, EvResolved e p ∈ tr ∧
      b ∈ pd_breach <$> alone (λ _, None) (λ _ _ _, []) pl_rows "ETCH" (utcnow (pl_start 0)) 5 e p.
Proof.
  assert (∃ s' result, pl_tick "ETCH" ((pl_start 0, pl_pod), []) = (s', Ok result) ∧
    tb_eqp_id <$> ar_breaches result = ["E2"; "E3"]) as (s' & result & Hs & Hb)
    by (eexists _, _; split; [vm_compute; reflexivity|reflexivity]).
  exists s', result.
  destruct (tick_finds_exactly ex_settings false "rms" "http://akka/EmailNotify" ""
    pl_others (λ _, None) (λ _, "sig") (λ _, [pl_doc]) (λ _, pl_eqps) 300 map_cache map_cache
    map_cache (λ _ _ _, []) pl_rows pl_fixed "ETCH" 5 ((pl_start 0, pl_pod), []) s' result)
    as (tr & equipment & E & _ & _ & _ & Hall).
  - intros w d Hd. assert (Forall (λ d, colon_free (ei_process d) = true ∧
      colon_free (default "*" (ei_eqpModel d)) = true) pl_eqps) as Hok by (repeat constructor).
    rewrite Forall_forall in Hok. by apply Hok.
  - intros k t w. apply pl_goes_on. simpl. unfold on_redis, redis_setex, mem_redis, when_up.
    case_decide; [destruct (mr_up (pl_redis w))|]; reflexivity.
  - intros pr m e p pr' m' e' q ->%pl_made ->%pl_made _. reflexivity.
  - intros w. vm_compute. discriminate.
  - split; [by intros key eff t Hk|]. split; [exact I|]. split; [reflexivity|]. split; [|done].
    by intros key l t Hk.
  - exact Hs.
  - exists tr. split; [exact Hs|]. split; [exact Hb|]. split; [exact E|exact Hall].
Defined.
