(* ===== verification/ProfileApi.v ===== *)
(** * The profile CRUD API ([src/api/profiles.py])

    A handler is a function on the pair of the database and the resolve cache, over the
    repository of [Repository.v], that answers or raises an HTTP error.  [handle] is the
    router of the write endpoints.  An exception that no [except] clause maps becomes a
    500 of the application's handler ([Unhandled]). *)
From stdpp Require Import base list strings sets gmap sorting.
From Stdlib Require Import ZArith Lia.
From S2P Require Import Prelude PyNum FactCatalog Models Cache Repository Content.
Local Open Scope se_scope.

(** ** Requests and answers *)
Inductive Detail : Type := Text (s : string) | Errors (l : list RefError).

Inductive HttpError : Type := HTTPException (status : Z) (detail : Detail) | Unhandled.

Record ProfileCreate := mkProfileCreate
  { pc_scope : Scope; pc_enabled : bool; pc_measures : list Measure; pc_rules : list Rule;
    pc_notify : list (string * NotifyChannel) }.

Record ProfileReplace := mkProfileReplace
  { pr_body : ProfileCreate; pr_expected_version : Z }.

Record MeasureWrite := mkMeasureWrite
  { mw_scope : Scope; mw_expected_version : Z; mw_measure : Measure }.
Record RuleWrite := mkRuleWrite
  { rw_scope : Scope; rw_expected_version : Z; rw_rule : Rule }.
Record NotifyWrite := mkNotifyWrite
  { nw_scope : Scope; nw_expected_version : Z; nw_channel : NotifyChannel }.

(** What a write answers: the scope and the version, or what was deleted. *)
Inductive Answer : Type :=
| Created (id : string) (scope : Scope) (version : Z)
| Committed (scope : Scope) (version : Z)
| Deleted (scope : Scope).

(** [_rank] is the specificity rank of the repository. *)
Definition _rank (scope : Scope) : nat :=
  if decide (process scope = "*") then 0
  else if decide (eqp_model scope = "*") then 1
  else if decide (eqp_id scope = "*") then 2
  else 3.

Definition _map_repo_error (exc : RepoError) : HttpError :=
  match exc with
  | ProfileVersionConflictError _ _ =>
      HTTPException 409 (Text "version conflict (stale governance.version)")
  | ProfileAlreadyExistsError _ => HTTPException 409 (Text "profile already exists for scope")
  | ProfileNotFoundError _ => HTTPException 404 (Text "profile not found for scope")
  | MongoUnavailableError _ => HTTPException 503 (Text "database unavailable")
  | _ => HTTPException 500 (Text "internal error")
  end.

Definition is_unavailable (e : RepoError) : bool :=
  match e with MongoUnavailableError _ => true | _ => false end.

Definition is_write_error (e : RepoError) : bool :=
  match e with
  | ProfileVersionConflictError _ _ | ProfileNotFoundError _ | MongoUnavailableError _ => true
  | _ => false
  end.

Definition is_create_error (e : RepoError) : bool :=
  match e with ProfileAlreadyExistsError _ | MongoUnavailableError _ => true | _ => false end.

Section ProfileApi.
Context {W C : Type} `{!Collection W, !TTLCache C MonitorProfile, !SetIter}.
Variable others : W → W.
(** [scheduler.reconcile()], when there is a scheduler; it may raise. *)
Variable reconcile : option (SE (W * C) unit bool).

Definition Api (A : Type) : Type := SE (W * C) HttpError A.

(** [try: op  except caught as e: raise _map_repo_error(e)] *)
Definition mapped {A} (caught : RepoError → bool) (op : Repo (W := W) (C := C) A) : Api A := λ s,
  let '(s', r) := op s in
  (s', match r with
       | Ok a => Ok a
       | Err e => Err (if caught e then _map_repo_error e else Unhandled)
       end).

(** A constructor whose validator raises. *)
Definition validated {A} (r : res ModelError A) : Api A := λ s,
  (s, match r with Ok a => Ok a | Err _ => Err Unhandled end).

Definition now_api : Api Z := se_gets (λ s, utcnow s.1).

(** ** Helpers *)
Definition compose (docs : list MonitorProfile) (overlay : MonitorProfile)
  : list MonitorProfile :=
  sort_by (λ p q, bool_decide (_rank (p_scope p) ≤ _rank (p_scope q)))
    (filter (λ d, p_scope d ≠ p_scope overlay) docs ++ [overlay]).

Definition _validate_composed (overlay : MonitorProfile) : Api unit :=
  let sc := p_scope overlay in
  docs <- mapped is_unavailable
    (collect_scope_docs others (process sc) (eqp_model sc) (eqp_id sc)) ;;
  now <- now_api ;;
  effective <- validated (fold_profiles now (compose docs overlay) sc) ;;
  if decide (validate_effective effective = []) then se_ret tt
  else se_raise (HTTPException 422 (Errors (validate_effective effective))).

Definition _load_overlay (scope : Scope) : Api MonitorProfile :=
  overlay <- mapped is_unavailable (find_by_scope others scope) ;;
  match overlay with
  | Some p => se_ret p
  | None => se_raise (HTTPException 404 (Text "profile not found for scope"))
  end.

Definition _trigger_reconcile : Api unit :=
  match reconcile with
  | None => se_ret tt
  | Some op => λ s, ((op s).1, Ok tt)
  end.

Definition _commit (overlay : MonitorProfile) (expected_version : Z) : Api Answer :=
  _validate_composed overlay ;;;
  new_version <- mapped is_write_error (replace_with_version others overlay expected_version) ;;
  _trigger_reconcile ;;;
  se_ret (Committed (p_scope overlay) new_version).

(** ** Reads *)
Definition get_overlay (process model eqpId : string) : Api Doc :=
  overlay <- _load_overlay (mkScope process model eqpId) ;;
  se_ret (to_mongo overlay).

Definition label (d : MonitorProfile) : string :=
  process (p_scope d) +:+ "/" +:+ eqp_model (p_scope d) +:+ "/" +:+ eqp_id (p_scope d).

Record Provenance := mkProvenance
  { pv_measures : list (string * string); pv_rules : list (string * string);
    pv_notify : list (string * string) }.

Definition _provenance (docs : list MonitorProfile) : Provenance :=
  let sorted :=
    sort_by (λ p q, bool_decide (_rank (p_scope p) ≤ _rank (p_scope q))) docs in
  mkProvenance
    (foldl (λ d p, ODict.set_all ((λ m, (m_id m, label p)) <$> p_measures p) d) [] sorted)
    (foldl (λ d p, ODict.set_all ((λ r, (r_id r, label p)) <$> p_rules p) d) [] sorted)
    (foldl (λ d p, ODict.set_all ((λ kv, (kv.1, label p)) <$> p_notify p) d) [] sorted).

Definition get_effective (process model eqpId : string) (withProvenance : bool)
  : Api (Doc * option Provenance) :=
  docs <- mapped is_unavailable (collect_scope_docs others process model eqpId) ;;
  if decide (docs = []) then se_raise (HTTPException 404 (Text "no profile matches scope"))
  else
    now <- now_api ;;
    effective <- validated (fold_profiles now docs (mkScope process model eqpId)) ;;
    se_ret (to_mongo effective,
            if withProvenance then Some (_provenance docs) else None).

(** ** Whole overlays *)

(** [MonitorProfile(...)]: the validator of the document runs. *)
Definition overlay_of (body : ProfileCreate) (g : Governance) : res ModelError MonitorProfile :=
  _doc_consistency (mkProfile None (pc_scope body) (pc_enabled body) g (pc_measures body)
    (pc_rules body) (pc_notify body)).

Definition create_overlay (body : ProfileCreate) : Api Answer :=
  now <- now_api ;;
  overlay <- validated (overlay_of body (Governance_default now)) ;;
  _validate_composed overlay ;;;
  profile_id <- mapped is_create_error (create others overlay) ;;
  _trigger_reconcile ;;;
  se_ret (Created profile_id (p_scope overlay) 1).

Definition replace_overlay (body : ProfileReplace) : Api Answer :=
  now <- now_api ;;
  overlay <- validated (overlay_of (pr_body body)
    (mkGovernance (pr_expected_version body) "" now "")) ;;
  _commit overlay (pr_expected_version body).

Definition delete_overlay (scope : Scope) (version : Z) : Api Answer :=
  mapped is_write_error (delete_by_scope others scope (Some version)) ;;;
  _trigger_reconcile ;;;
  se_ret (Deleted scope).

(** ** Items *)
Definition with_measures (ms : list Measure) (p : MonitorProfile) : MonitorProfile :=
  mkProfile (p_id p) (p_scope p) (p_enabled p) (p_governance p) ms (p_rules p) (p_notify p).
Definition with_rules (rs : list Rule) (p : MonitorProfile) : MonitorProfile :=
  mkProfile (p_id p) (p_scope p) (p_enabled p) (p_governance p) (p_measures p) rs (p_notify p).
Definition with_notify (ns : list (string * NotifyChannel)) (p : MonitorProfile)
  : MonitorProfile :=
  mkProfile (p_id p) (p_scope p) (p_enabled p) (p_governance p) (p_measures p) (p_rules p) ns.

Definition conflict (kind id : string) : HttpError :=
  HTTPException 409 (Text (kind +:+ " '" +:+ id +:+ "' already exists")).
Definition missing (kind id : string) : HttpError :=
  HTTPException 404 (Text (kind +:+ " '" +:+ id +:+ "' not found")).
Definition mismatch (kind path body : string) : HttpError :=
  HTTPException 400 (Text (kind +:+ " id mismatch: path '" +:+ path +:+ "' != body '"
    +:+ body +:+ "'")).

Definition add_measure (body : MeasureWrite) : Api Answer :=
  overlay <- _load_overlay (mw_scope body) ;;
  if existsb (λ m, bool_decide (m_id m = m_id (mw_measure body))) (p_measures overlay)
  then se_raise (conflict "measure" (m_id (mw_measure body)))
  else _commit (with_measures (p_measures overlay ++ [mw_measure body]) overlay)
         (mw_expected_version body).

Definition update_measure (measure_id : string) (body : MeasureWrite) : Api Answer :=
  if decide (m_id (mw_measure body) ≠ measure_id)
  then se_raise (mismatch "measure" measure_id (m_id (mw_measure body)))
  else
    overlay <- _load_overlay (mw_scope body) ;;
    match list_find (λ m, m_id m = measure_id) (p_measures overlay) with
    | None => se_raise (missing "measure" measure_id)
    | Some (idx, _) =>
        _commit (with_measures (<[idx := mw_measure body]> (p_measures overlay)) overlay)
          (mw_expected_version body)
    end.

Definition delete_measure (measure_id : string) (scope : Scope) (version : Z) : Api Answer :=
  overlay <- _load_overlay scope ;;
  let kept := filter (λ m, m_id m ≠ measure_id) (p_measures overlay) in
  if decide (length kept = length (p_measures overlay))
  then se_raise (missing "measure" measure_id)
  else _commit (with_measures kept overlay) version.

Definition add_rule (body : RuleWrite) : Api Answer :=
  overlay <- _load_overlay (rw_scope body) ;;
  if existsb (λ r, bool_decide (r_id r = r_id (rw_rule body))) (p_rules overlay)
  then se_raise (conflict "rule" (r_id (rw_rule body)))
  else _commit (with_rules (p_rules overlay ++ [rw_rule body]) overlay)
         (rw_expected_version body).

Definition update_rule (rule_id : string) (body : RuleWrite) : Api Answer :=
  if decide (r_id (rw_rule body) ≠ rule_id)
  then se_raise (mismatch "rule" rule_id (r_id (rw_rule body)))
  else
    overlay <- _load_overlay (rw_scope body) ;;
    match list_find (λ r, r_id r = rule_id) (p_rules overlay) with
    | None => se_raise (missing "rule" rule_id)
    | Some (idx, _) =>
        _commit (with_rules (<[idx := rw_rule body]> (p_rules overlay)) overlay)
          (rw_expected_version body)
    end.

Definition delete_rule (rule_id : string) (scope : Scope) (version : Z) : Api Answer :=
  overlay <- _load_overlay scope ;;
  let kept := filter (λ r, r_id r ≠ rule_id) (p_rules overlay) in
  if decide (length kept = length (p_rules overlay))
  then se_raise (missing "rule" rule_id)
  else _commit (with_rules kept overlay) version.

Definition patch_notify (name : string) (body : NotifyWrite) : Api Answer :=
  overlay <- _load_overlay (nw_scope body) ;;
  _commit (with_notify (ODict.set name (nw_channel body) (p_notify overlay)) overlay)
    (nw_expected_version body).

(** ** The router *)
Inductive WriteRequest : Type :=
| PostOverlay (body : ProfileCreate)
| PutOverlay (body : ProfileReplace)
| DeleteOverlay (scope : Scope) (version : Z)
| PostMeasure (body : MeasureWrite)
| PatchMeasure (measure_id : string) (body : MeasureWrite)
| DeleteMeasure (measure_id : string) (scope : Scope) (version : Z)
| PostRule (body : RuleWrite)
| PatchRule (rule_id : string) (body : RuleWrite)
| DeleteRule (rule_id : string) (scope : Scope) (version : Z)
| PatchNotify (name : string) (body : NotifyWrite).

Definition handle (req : WriteRequest) : Api Answer :=
  match req with
  | PostOverlay body => create_overlay body
  | PutOverlay body => replace_overlay body
  | DeleteOverlay scope version => delete_overlay scope version
  | PostMeasure body => add_measure body
  | PatchMeasure id body => update_measure id body
  | DeleteMeasure id scope version => delete_measure id scope version
  | PostRule body => add_rule body
  | PatchRule id body => update_rule id body
  | DeleteRule id scope version => delete_rule id scope version
  | PatchNotify name body => patch_notify name body
  end.

Definition scope_of (req : WriteRequest) : Scope :=
  match req with
  | PostOverlay body => pc_scope body
  | PutOverlay body => pc_scope (pr_body body)
  | DeleteOverlay scope _ | DeleteMeasure _ scope _ | DeleteRule _ scope _ => scope
  | PostMeasure body | PatchMeasure _ body => mw_scope body
  | PostRule body | PatchRule _ body => rw_scope body
  | PatchNotify _ body => nw_scope body
  end.
End ProfileApi.

(** ** Checking by contents *)

(** The fold is checked by the contents of its documents. *)
Section FoldContent.
Context `{!SetIter}.

Lemma entries_content {V} (f : MonitorProfile → list (string * V))
    (g : Content → list (string * V)) (l l' : list MonitorProfile) :
  (∀ p, f p = g (content p)) → content <$> l = content <$> l' → f <$> l = f <$> l'.
Proof.
  intros Hf Hl. rewrite (list_fmap_ext f (g ∘ content) l) by (intros; apply Hf).
  rewrite (list_fmap_ext f (g ∘ content) l') by (intros; apply Hf).
  by rewrite !list_fmap_compose, Hl.
Qed.

Lemma validate_content now now' l l' sc :
  content <$> l = content <$> l' →
  validate_effective (fold_result now l sc) = validate_effective (fold_result now' l' sc).
Proof.
  intros Hl.
  assert (measure_entries <$> l = measure_entries <$> l') as Hm.
  { by apply (entries_content _ (λ c, (λ m, (m_id m, m)) <$> c.1.1.2)). }
  assert (rule_entries <$> l = rule_entries <$> l') as Hr.
  { by apply (entries_content _ (λ c, (λ r, (r_id r, with_enabled (c.1.1.1.2 && r_enabled r) r))
      <$> c.1.2)). }
  assert (p_notify <$> l = p_notify <$> l') as Hn by (by apply (entries_content _ (λ c, c.2))).
  unfold validate_effective, fold_result. simpl. rewrite Hm, Hr.
  unfold check_rule. simpl. by rewrite Hn.
Qed.
End FoldContent.

Lemma insert_by_fmap {A B} (f : A → B) (leb : A → A → bool) (leb' : B → B → bool) x l :
  (∀ x y, leb x y = leb' (f x) (f y)) →
  f <$> insert_by leb x l = insert_by leb' (f x) (f <$> l).
Proof.
  intros Hf. induction l as [|y l IH]; [done|]. simpl. rewrite <-Hf.
  destruct (leb x y); [done|]. csimpl. by rewrite IH.
Qed.

Lemma sort_by_fmap {A B} (f : A → B) (leb : A → A → bool) (leb' : B → B → bool) l :
  (∀ x y, leb x y = leb' (f x) (f y)) → f <$> sort_by leb l = sort_by leb' (f <$> l).
Proof.
  intros Hf. induction l as [|x l IH]; [done|]. csimpl.
  rewrite (insert_by_fmap f leb leb'), IH by done. done.
Qed.

Definition content_leb (c c' : Content) : bool :=
  bool_decide (_specificity_rank (c_scope c) ≤ _specificity_rank (c_scope c')).

Lemma content_sorted l :
  content <$> sort_by_rank l = sort_by content_leb (content <$> l).
Proof. by apply sort_by_fmap. Qed.

(** Contents of one cascade are sorted by their scopes alone. *)
Lemma content_sort_unique p m e (l l' : list Content) :
  l ≡ₚ l' → NoDup (c_scope <$> l) →
  (∀ c, c ∈ l → scope_triple (c_scope c) ∈ _cascade_triples p m e) →
  sort_by content_leb l = sort_by content_leb l'.
Proof.
  intros Hp Hnd Hin. unfold content_leb. apply sort_by_key_unique_gen; [| | |done].
  - intros x y. rewrite !bool_decide_eq_true. lia.
  - intros x y z. rewrite !bool_decide_eq_true. lia.
  - intros x y Hx Hy. rewrite !bool_decide_eq_true. intros H1 H2.
    assert (c_scope x = c_scope y) as Hs.
    { pose proof (cascade_rank_inj p m e _ _ (Hin x Hx) (Hin y Hy)) as Hr.
      rewrite <-!scope_rank in Hr. specialize (Hr ltac:(lia)).
      destruct (c_scope x), (c_scope y). by injection Hr as -> -> ->. }
    apply list_elem_of_lookup in Hx as [i Hi], Hy as [j Hj].
    assert (i = j) as ->; [|congruence].
    eapply NoDup_lookup; [exact Hnd| |]; rewrite list_lookup_fmap.
    + rewrite Hi. done.
    + rewrite Hj. simpl. by rewrite Hs.
Qed.

(** ** What is collected after a write *)

(** A scope that the cascade can reach: no concrete part under a wildcard. *)
Definition canonical (sc : Scope) : Prop :=
  scope_triple sc ∈ _cascade_triples (process sc) (eqp_model sc) (eqp_id sc).
#[export] Instance canonical_dec sc : Decision (canonical sc).
Proof. unfold canonical. apply _. Defined.

Definition cascade_of (sc : Scope) : Query :=
  AnyScope (_cascade_triples (process sc) (eqp_model sc) (eqp_id sc)).

(** The documents of the other scopes. *)
Definition others_of (sc : Scope) : list Doc → list Doc :=
  filter (λ d, doc_triple d ≠ Some (scope_triple sc)).

#[export] Instance scope_triple_inj : Inj (=) (=) scope_triple.
Proof. intros [] [] [= -> -> ->]. done. Qed.

Lemma contents_triples q ds :
  scope_triple ∘ c_scope <$> omap doc_content (filter (matches (AnyScope q)) ds)
  `sublist_of` omap doc_triple ds
  ∧ ∀ c, c ∈ omap doc_content (filter (matches (AnyScope q)) ds) → scope_triple (c_scope c) ∈ q.
Proof.
  induction ds as [|d ds [IHs IHin]]; [split; [done|set_solver]|].
  rewrite filter_cons. case_decide as Hm; csimpl.
  2: { split; [|done]. destruct (doc_triple d); [by apply sublist_cons|done]. }
  simpl in Hm. destruct (doc_triple d) as [t|] eqn:Et; [|done].
  destruct (doc_content d) as [c|] eqn:Ec; csimpl.
  - rewrite (content_triple _ _ _ Et Ec). split; [by apply sublist_skip|].
    intros c' [->|Hc]%elem_of_cons; [by rewrite (content_triple _ _ _ Et Ec)|auto].
  - split; [by apply sublist_cons|done].
Qed.

Lemma contents_others q sc ds :
  filter (λ c, c_scope c ≠ sc) (omap doc_content (filter (matches (AnyScope q)) ds))
  = omap doc_content (filter (matches (AnyScope q)) (others_of sc ds)).
Proof.
  unfold others_of. induction ds as [|d ds IH]; [done|]. rewrite !filter_cons.
  destruct (decide (matches (AnyScope q) d)) as [Hm|Hm].
  - pose proof Hm as Hm'. simpl in Hm. destruct (doc_triple d) as [t|] eqn:Et; [|done].
    csimpl. destruct (doc_content d) as [c|] eqn:Ec.
    + rewrite filter_cons. pose proof (content_triple _ _ _ Et Ec) as <-.
      destruct (decide (c_scope c = sc)) as [->|Hne].
      * rewrite decide_False, decide_False by naive_solver. done.
      * rewrite decide_True, decide_True by naive_solver.
        rewrite filter_cons_True by done. csimpl. by rewrite Ec, IH.
    + case_decide; [|done]. rewrite filter_cons_True by done. csimpl. by rewrite Ec.
  - case_decide; [|done]. by rewrite filter_cons_False.
Qed.

Lemma content_filter sc (l : list MonitorProfile) :
  content <$> filter (λ d, p_scope d ≠ sc) l = filter (λ c, c_scope c ≠ sc) (content <$> l).
Proof.
  induction l as [|p l IH]; [done|]. csimpl. rewrite !filter_cons.
  change (c_scope (content p)) with (p_scope p). case_decide; csimpl; by rewrite IH.
Qed.

(** Replacing or adding the document of a scope gives the cascade that was composed. *)
Lemma collected_content (D0 D1 ds0 ds1 : list Doc) (ps0 ps1 : list MonitorProfile) now0 now1
    overlay new :
  let sc := p_scope overlay in
  canonical sc → NoDup (omap doc_triple D1) →
  ds0 ≡ₚ filter (matches (cascade_of sc)) D0 → Forall2 (λ d p, from_mongo now0 d = Ok p) ds0 ps0 →
  ds1 ≡ₚ filter (matches (cascade_of sc)) D1 → Forall2 (λ d p, from_mongo now1 d = Ok p) ds1 ps1 →
  D1 ≡ₚ new :: others_of sc D0 →
  doc_triple new = Some (scope_triple sc) → doc_content new = Some (content overlay) →
  content <$> sort_by_rank ps1 = content <$> compose (sort_by_rank ps0) overlay.
Proof.
  intros sc Hcan Hnd H0 F0 H1 F1 HD Ht Hc. unfold compose.
  rewrite content_sorted.
  rewrite (sort_by_fmap content _ content_leb (filter _ _ ++ _)) by done.
  assert (content <$> ps1 ≡ₚ omap doc_content (filter (matches (cascade_of sc)) D1)) as E1
    by (rewrite <-(contents_of _ _ _ F1); by rewrite H1).
  unfold cascade_of in *. set (q := _cascade_triples _ _ _) in *.
  destruct (contents_triples q D1) as [Hsub Hin].
  apply (content_sort_unique (process sc) (eqp_model sc) (eqp_id sc)).
  - rewrite E1, HD, filter_cons_True by (simpl; rewrite Ht; exact Hcan). csimpl. rewrite Hc.
    rewrite <-contents_others, fmap_app. csimpl. rewrite Permutation_app_comm. simpl. f_equiv.
    rewrite content_filter. unfold sort_by_rank.
    rewrite sort_by_perm, <-(contents_of _ _ _ F0). by rewrite H0.
  - apply (NoDup_fmap_1 scope_triple). rewrite <-list_fmap_compose, E1.
    by eapply sublist_NoDup.
  - intros c Hcin. apply Hin. by rewrite <-E1.
Qed.

(** ** The specification: a store of contents by scope *)

(** The content of the document of a scope, when there is one that loads. *)
Definition read (D : list Doc) (sc : Scope) : option Content :=
  d ← head (filter (λ d, doc_triple d = Some (scope_triple sc)) D); doc_content d.

Definition body_content (b : ProfileCreate) : Content :=
  (pc_scope b, pc_enabled b, pc_measures b, pc_rules b, pc_notify b).

Definition c_measures (c : Content) : list Measure := c.1.1.2.
Definition c_rules (c : Content) : list Rule := c.1.2.
Definition set_measures (ms : list Measure) (c : Content) : Content :=
  let '(sc, e, _, rs, ns) := c in (sc, e, ms, rs, ns).
Definition set_rules (rs : list Rule) (c : Content) : Content :=
  let '(sc, e, ms, _, ns) := c in (sc, e, ms, rs, ns).
Definition set_notify (name : string) (ch : NotifyChannel) (c : Content) : Content :=
  let '(sc, e, ms, rs, ns) := c in (sc, e, ms, rs, ODict.set name ch ns).

(** An item of a list by its identifier: added when new, replaced or dropped when there. *)
Definition add_item {A} (key : A → string) (x : A) (l : list A) : option (list A) :=
  if decide (key x ∈ key <$> l) then None else Some (l ++ [x]).
Definition replace_item {A} (key : A → string) (k : string) (x : A) (l : list A)
  : option (list A) :=
  match list_find (λ y, key y = k) l with
  | Some (i, _) => if decide (key x = k) then Some (<[i := x]> l) else None
  | None => None
  end.
Definition drop_item {A} (key : A → string) (k : string) (l : list A) : option (list A) :=
  if decide (k ∈ key <$> l) then Some (filter (λ y, key y ≠ k) l) else None.

(** The content a write leaves at its scope; [None]: the write is refused. *)
Definition edit (req : WriteRequest) (old : option Content) : option Content :=
  match req with
  | PostOverlay body => Some (body_content body)
  | PutOverlay body => Some (body_content (pr_body body))
  | DeleteOverlay _ _ => None
  | PostMeasure body =>
      c ← old; ms ← add_item m_id (mw_measure body) (c_measures c); Some (set_measures ms c)
  | PatchMeasure id body =>
      c ← old; ms ← replace_item m_id id (mw_measure body) (c_measures c);
      Some (set_measures ms c)
  | DeleteMeasure id _ _ =>
      c ← old; ms ← drop_item m_id id (c_measures c); Some (set_measures ms c)
  | PostRule body =>
      c ← old; rs ← add_item r_id (rw_rule body) (c_rules c); Some (set_rules rs c)
  | PatchRule id body =>
      c ← old; rs ← replace_item r_id id (rw_rule body) (c_rules c); Some (set_rules rs c)
  | DeleteRule id _ _ =>
      c ← old; rs ← drop_item r_id id (c_rules c); Some (set_rules rs c)
  | PatchNotify name body => set_notify name (nw_channel body) <$> old
  end.

(** What the bodies have been validated for before the handler runs. *)
Definition request_valid (req : WriteRequest) : Prop :=
  match req with
  | PostOverlay b | PutOverlay (mkProfileReplace b _) =>
      Forall (λ m, Measure_validate m = Ok m) (pc_measures b)
      ∧ Forall (λ r, Rule_validate r = Ok r) (pc_rules b)
  | PostMeasure b | PatchMeasure _ b => Measure_validate (mw_measure b) = Ok (mw_measure b)
  | PostRule b | PatchRule _ b => Rule_validate (rw_rule b) = Ok (rw_rule b)
  | _ => True
  end.

Definition is_delete (req : WriteRequest) : bool :=
  match req with DeleteOverlay _ _ => true | _ => false end.

Lemma add_item_NoDup {A} (key : A → string) x l l' :
  add_item key x l = Some l' → NoDup (key <$> l) → NoDup (key <$> l').
Proof.
  unfold add_item. case_decide as Hk; [done|]. intros [= <-] Hnd. rewrite fmap_app.
  apply NoDup_app. split_and!; [done| |apply NoDup_singleton]. set_solver.
Qed.

Lemma replace_item_NoDup {A} (key : A → string) k x l l' :
  replace_item key k x l = Some l' → NoDup (key <$> l) → NoDup (key <$> l').
Proof.
  unfold replace_item. destruct (list_find _ l) as [[i y]|] eqn:E; [|done].
  apply list_find_Some in E as (Hi & Hy & _). case_decide as Hk; [|done]. intros [= <-] Hnd.
  rewrite list_fmap_insert, list_insert_id; [done|]. rewrite list_lookup_fmap, Hi. simpl. congruence.
Qed.

Lemma drop_item_NoDup {A} (key : A → string) k l l' :
  drop_item key k l = Some l' → NoDup (key <$> l) → NoDup (key <$> l').
Proof.
  unfold drop_item. case_decide; [|done]. intros [= <-].
  intros Hnd. eapply sublist_NoDup; [exact Hnd|]. apply fmap_sublist, sublist_filter.
Qed.

(** The tests of the handlers. *)
Lemma existsb_key {A} (key : A → string) k l :
  existsb (λ x, bool_decide (key x = k)) l = bool_decide (k ∈ key <$> l).
Proof.
  induction l as [|x l IH]; [done|]. csimpl. rewrite IH.
  repeat case_bool_decide; set_solver.
Qed.

Lemma filter_length_key {A} (key : A → string) k l :
  length (filter (λ x, key x ≠ k) l) = length l ↔ k ∉ key <$> l.
Proof.
  induction l as [|x l IH]; csimpl; [set_solver|]. rewrite filter_cons.
  pose proof (length_filter (λ x, key x ≠ k) l). case_decide; csimpl; [|set_solver by lia].
  rewrite Nat.succ_inj_wd, IH. set_solver.
Qed.

(** ** The handlers *)
Section ApiProperties.
Context {W C : Type} `{!Collection W, !TTLCache C MonitorProfile, !SetIter}.
Context (docs : W → list Doc) `{!CollectionLaws W docs}.
Context (ttl : Z) (entries : C → gmap string (MonitorProfile * Z))
  `{!TTLCacheLaws C MonitorProfile ttl entries}.
Context (others : W → W) (reconcile : option (SE (W * C) unit bool)).
Hypothesis alone : ∀ w, docs (others w) = docs w.
(** Reconciling the schedule writes no profile. *)
Hypothesis reconcile_reads : ∀ op s, reconcile = Some op → docs (op s).1.1 = docs s.1.

Notation St := (W * C)%type.

Lemma trigger_docs (s s' : St) r :
  _trigger_reconcile reconcile s = (s', r) → r = Ok tt ∧ docs s'.1 = docs s.1.
Proof.
  unfold _trigger_reconcile. destruct reconcile as [op|] eqn:E; intros [= <- <-]; [|done].
  split; [done|]. by apply reconcile_reads.
Qed.

Lemma mapped_Ok {A} caught (op : Repo (W := W) (C := C) A) s s' a :
  mapped caught op s = (s', Ok a) → op s = (s', Ok a).
Proof. unfold mapped. destruct (op s) as [s1 [b|e]]; naive_solver. Qed.

(** A document that the validation has composed with the overlay. *)
Lemma validate_composed_Ok overlay (s s' : St) u :
  _validate_composed others overlay s = (s', Ok u) →
  docs s'.1 = docs s.1 ∧ ∃ ds ps now now',
    ds ≡ₚ filter (matches (cascade_of (p_scope overlay))) (docs s.1)
    ∧ Forall2 (λ d p, from_mongo now d = Ok p) ds ps
    ∧ validate_effective (fold_result now' (compose (sort_by_rank ps) overlay)
        (p_scope overlay)) = [].
Proof.
  unfold _validate_composed. intros (s1 & l & Hc%mapped_Ok & Hr)%se_bind_Ok.
  pose proof (collect_docs docs others _ _ _ _ _ _ alone Hc) as Hd.
  apply (collect_spec docs others) in Hc as (_ & ds & now & Hds & ps & Hf & ->).
  apply se_bind_Ok in Hr as (s2 & now' & [= <- <-] & Hr).
  rewrite fold_profiles_result in Hr. apply se_bind_Ok in Hr as (s2 & eff & [= <- <-] & Hr).
  case_decide as Hv; [|done]. injection Hr as <- _. eauto 10.
Qed.

(** What a reader of scope [sc] finds in the documents [D]: the effective profile of the
    cascade is intact. *)
Definition effective_ok (sc : Scope) (D : list Doc) : Prop :=
  ∀ ds ps now now', ds ≡ₚ filter (matches (cascade_of sc)) D →
    Forall2 (λ d p, from_mongo now d = Ok p) ds ps →
    validate_effective (fold_result now' (sort_by_rank ps) sc) = [].

Lemma effective_ok_write overlay (s s1 : St) u new D1 :
  _validate_composed others overlay s = (s1, Ok u) →
  canonical (p_scope overlay) → NoDup (omap doc_triple D1) →
  D1 ≡ₚ new :: others_of (p_scope overlay) (docs s.1) →
  doc_triple new = Some (scope_triple (p_scope overlay)) →
  doc_content new = Some (content overlay) → effective_ok (p_scope overlay) D1.
Proof.
  intros (_ & ds & ps & now & now' & Hds & Hps & Hv)%validate_composed_Ok Hcan Hnd HD Ht Hc
    ds1 ps1 now1 now1' H1 F1.
  rewrite <-Hv. apply validate_content.
  by apply (collected_content (docs s.1) D1 ds ds1 ps ps1 now now1 overlay new).
Qed.

Lemma replaced_content overlay v now old :
  valid_profile overlay → doc_content (replaced overlay v now old) = Some (content overlay).
Proof. intros Hv. by apply stored_content. Qed.

(** The rest of the documents around the one that is replaced. *)
Lemma others_of_split sc l1 old l2 :
  NoDup (omap doc_triple (l1 ++ old :: l2)) → doc_triple old = Some (scope_triple sc) →
  others_of sc (l1 ++ old :: l2) = l1 ++ l2.
Proof.
  intros Hnd Ht. rewrite omap_app in Hnd. csimpl in Hnd. rewrite Ht in Hnd.
  apply NoDup_app in Hnd as (_ & H1 & [H2 _]%NoDup_cons).
  unfold others_of. rewrite filter_app, filter_cons_False by naive_solver.
  assert (∀ l : list Doc, scope_triple sc ∉ omap doc_triple l →
    filter (λ d, doc_triple d ≠ Some (scope_triple sc)) l = l) as Hid.
  { clear. induction l as [|d l IH]; [done|]. csimpl. intros Hl.
    rewrite filter_cons_True, IH; [done| |]; destruct (doc_triple d); set_solver. }
  rewrite !Hid; [done|done|]. intros Hin. apply (H1 _ Hin). left.
Qed.

Lemma commit_Ok overlay v (s s' : St) a :
  _commit others reconcile overlay v s = (s', Ok a) →
  valid_profile overlay → unique_scopes docs s.1 →
  a = Committed (p_scope overlay) (v + 1) ∧
  (∃ new, docs s'.1 ≡ₚ new :: others_of (p_scope overlay) (docs s.1)
    ∧ doc_triple new = Some (scope_triple (p_scope overlay))
    ∧ doc_content new = Some (content overlay) ∧ g_version <$> d_governance new = Some (v + 1)%Z)
  ∧ unique_scopes docs s'.1
  ∧ (canonical (p_scope overlay) → effective_ok (p_scope overlay) (docs s'.1)).
Proof.
  intros (s1 & u & Hv & Hr)%se_bind_Ok Hval Hu.
  apply se_bind_Ok in Hr as (s2 & n & Hrep%mapped_Ok & Hr).
  apply se_bind_Ok in Hr as (s3 & u' & Ht & [= -> <-]). apply trigger_docs in Ht as [_ Ht].
  pose proof (validate_composed_Ok _ _ _ _ Hv) as [Hd1 _].
  apply (replace_spec docs ttl entries others) in Hrep as (-> & _ & l1 & old & l2 & Hd & Hto & _ & Hd2);
    [|exact alone].
  rewrite Hd1 in Hd. set (new := replaced _ _ _ _) in *.
  assert (doc_triple new = Some (scope_triple (p_scope overlay))) as Hn by done.
  assert (doc_content new = Some (content overlay)) as Hc by (by apply replaced_content).
  assert (docs s'.1 ≡ₚ new :: others_of (p_scope overlay) (docs s.1)) as HD.
  { rewrite Ht, Hd2, Hd, others_of_split by (done || by rewrite <-Hd).
    by rewrite Permutation_middle. }
  assert (unique_scopes docs s'.1) as Hu'.
  { unfold unique_scopes in *. rewrite Ht, Hd2. rewrite Hd in Hu.
    rewrite omap_app in *. csimpl in *. by rewrite Hto in Hu. }
  split; [done|]. split; [by exists new|]. split; [done|]. intros Hcan.
  by eapply effective_ok_write.
Qed.

Lemma load_Ok sc (s s' : St) p :
  _load_overlay others sc s = (s', Ok p) → unique_scopes docs s.1 →
  docs s'.1 = docs s.1 ∧ read (docs s.1) sc = Some (content p) ∧ valid_profile p ∧ p_scope p = sc.
Proof.
  intros (s1 & o & Hf%mapped_Ok & Hr)%se_bind_Ok Hu. destruct o as [p'|]; [|done].
  injection Hr as -> ->. unfold find_by_scope in Hf.
  apply se_bind_Ok in Hf as (s2 & d & Hf & Hr).
  apply (call_Ok others) in Hf as (w' & Hf & ->). apply find_one_law in Hf as [Hd Hm].
  apply se_bind_Ok in Hr as (s3 & now & [= <- <-] & Hr). destruct d as [d|]; [|done].
  destruct Hm as [Hin [Ht _]]. unfold of_res, se_bind in Hr.
  destruct (from_mongo _ d) as [p2|] eqn:E; [|done]. injection Hr as <- ->. simpl.
  rewrite alone. split; [done|]. split; [|split].
  - unfold read. unfold unique_scopes in Hu.
    apply list_elem_of_split in Hin as (l1 & l2 & Hl). rewrite Hl in Hu |- *.
    rewrite filter_app. change (Repository._scope_exact_filter sc) with (scope_triple sc) in Ht.
    rewrite omap_app in Hu. csimpl in Hu. rewrite Ht in Hu.
    apply NoDup_app in Hu as (_ & H1 & _).
    assert (filter (λ d, doc_triple d = Some (scope_triple sc)) l1 = []) as ->.
    { apply elem_of_nil_inv. intros x [Hx Hxl]%list_elem_of_filter.
      apply (H1 (scope_triple sc)); [|left]. apply list_elem_of_omap. eauto. }
    rewrite filter_cons_True by done. simpl. by apply (from_mongo_content _ _ _ E).
  - by eapply from_mongo_roundtrip_valid.
  - apply (inj scope_triple). by apply (from_mongo_triple _ _ _ _ Ht E).
Qed.

(** What a successful write has done to the documents. *)
Definition written (overlay : MonitorProfile) (version : Z) (D D' : list Doc) : Prop :=
  (∃ new, D' ≡ₚ new :: others_of (p_scope overlay) D
    ∧ doc_triple new = Some (scope_triple (p_scope overlay))
    ∧ doc_content new = Some (content overlay) ∧ g_version <$> d_governance new = Some version)
  ∧ NoDup (omap doc_triple D')
  ∧ (canonical (p_scope overlay) → effective_ok (p_scope overlay) D').

Lemma create_written body (s s' : St) a :
  create_overlay others reconcile body s = (s', Ok a) →
  request_valid (PostOverlay body) → unique_scopes docs s.1 →
  ∃ overlay, content overlay = body_content body ∧ valid_profile overlay
    ∧ written overlay 1 (docs s.1) (docs s'.1).
Proof.
  intros (s1 & now & [= <- <-] & Hr)%se_bind_Ok [Hvm Hvr] Hu.
  apply se_bind_Ok in Hr as (s1 & overlay & Ho & Hr).
  unfold validated in Ho. destruct (overlay_of body _) as [ov|] eqn:Eo; [|done].
  injection Ho as <- <-. pose proof (doc_consistency_id _ _ Eo) as Hov.
  assert (valid_profile ov) as Hval.
  { subst ov. split; [done|]. split; [done|]. by eapply doc_consistency_same. }
  apply se_bind_Ok in Hr as (s2 & u & Hv & Hr).
  apply se_bind_Ok in Hr as (s3 & i & Hc%mapped_Ok & Hr).
  apply se_bind_Ok in Hr as (s4 & u' & [_ Ht]%trigger_docs & [= -> _]).
  pose proof (validate_composed_Ok _ _ _ _ Hv) as [Hd1 _].
  unfold create in Hc. apply se_bind_Ok in Hc as (s5 & j & Hc & Hr).
  apply se_bind_Ok in Hr as (s6 & u2 & [= <- _] & [= <- <-]).
  apply (call_Ok others) in Hc as (w' & Hi & ->). apply insert_one_law in Hi as [Hd2 Hno].
  simpl in *. set (new := doc_with_id j (to_mongo ov)) in *.
  assert (doc_triple new = Some (scope_triple (p_scope ov))) as Hn by done.
  assert (doc_content new = Some (content ov)) as Hcn by (by apply stored_content).
  assert (others_of (p_scope ov) (docs s.1) = docs s.1) as Hoth.
  { unfold others_of. rewrite Hd1 in Hno. clear -Hno.
    induction (docs s.1) as [|d l IH]; [done|]. apply Forall_cons in Hno as [Hd Hl].
    rewrite filter_cons_True, IH; [done..|]. by apply Hd. }
  assert (docs s'.1 ≡ₚ new :: others_of (p_scope ov) (docs s.1)) as HD.
  { rewrite Ht, alone, Hd2, Hd1, Hoth. apply Permutation_app_comm. }
  assert (NoDup (omap doc_triple (docs s'.1))) as Hu'.
  { rewrite HD, Hoth. csimpl. apply NoDup_cons. split; [|done].
    rewrite Hd1 in Hno. rewrite Forall_forall in Hno.
    intros (d & Hd & Htd)%list_elem_of_omap. by apply (Hno d Hd). }
  exists ov. split; [by subst ov|]. split; [done|]. split; [|split; [done|]].
  - exists new. split_and!; [done..|]. subst ov. done.
  - intros Hcan. by eapply effective_ok_write.
Qed.

(** A write that ends in [_commit] of an overlay [q]. *)
Lemma commit_written q v (s s1 s' : St) a :
  docs s1.1 = docs s.1 → _commit others reconcile q v s1 = (s', Ok a) →
  valid_profile q → unique_scopes docs s.1 →
  ∃ version, written q version (docs s.1) (docs s'.1).
Proof.
  intros Hd Hc Hval Hu. exists (v + 1)%Z.
  apply commit_Ok in Hc as (_ & (new & HD & ?) & ? & ?); [|done|by unfold unique_scopes; rewrite Hd].
  rewrite Hd in HD. split; [by exists new|]. done.
Qed.

Lemma valid_lists p ms rs ns :
  valid_profile p → Forall (λ m, Measure_validate m = Ok m) ms →
  Forall (λ r, Rule_validate r = Ok r) rs → NoDup (m_id <$> ms) → NoDup (r_id <$> rs) →
  valid_profile (mkProfile (p_id p) (p_scope p) (p_enabled p) (p_governance p) ms rs ns).
Proof. intros _ Hm Hr Hnm Hnr. split; [done|]. split; [done|]. by apply doc_consistency_Ok. Qed.

(** The new overlay of a write, as its specification has it. *)
Definition specified (req : WriteRequest) (s : St) (q : MonitorProfile) : Prop :=
  edit req (read (docs s.1) (scope_of req)) = Some (content q) ∧ valid_profile q
  ∧ p_scope q = scope_of req.

(** Every list operation keeps validated items validated and identifiers unique. *)
Lemma item_ok {A} (key : A → string) (P : A → Prop) k x l l' :
  (add_item key x l = Some l' ∧ P x ∨ replace_item key k x l = Some l' ∧ P x
   ∨ drop_item key k l = Some l') →
  Forall P l → NoDup (key <$> l) → Forall P l' ∧ NoDup (key <$> l').
Proof.
  intros [[Hop Hx]|[[Hop Hx]|Hop]] Hl Hnd; split;
    eauto using add_item_NoDup, replace_item_NoDup, drop_item_NoDup.
  - unfold add_item in Hop. case_decide; [done|]. injection Hop as <-. by apply Forall_app_2; [|constructor].
  - unfold replace_item in Hop. destruct (list_find _ l) as [[i y]|]; [|done].
    case_decide; [|done]. injection Hop as <-. by apply Forall_insert.
  - unfold drop_item in Hop. case_decide; [|done]. injection Hop as <-.
    rewrite Forall_forall in *. intros y [_ Hy]%list_elem_of_filter. by apply Hl.
Qed.

Definition item_step {A} (key : A → string) (P : A → Prop) (l l' : list A) : Prop :=
  ∃ k x, add_item key x l = Some l' ∧ P x ∨ replace_item key k x l = Some l' ∧ P x
         ∨ drop_item key k l = Some l'.

(** A write of the measures (the rules) of a loaded overlay. *)
Lemma measures_written req (s s1 s' : St) p ms v a :
  _load_overlay others (scope_of req) s = (s1, Ok p) → unique_scopes docs s.1 →
  item_step m_id (λ m, Measure_validate m = Ok m) (p_measures p) ms →
  edit req (Some (content p)) = Some (set_measures ms (content p)) →
  _commit others reconcile (with_measures ms p) v s1 = (s', Ok a) →
  ∃ overlay version, specified req s overlay ∧ written overlay version (docs s.1) (docs s'.1).
Proof.
  intros Hl Hu (k & x & Hstep) He Hc. destruct (load_Ok _ _ _ _ Hl Hu) as (Hd & Hrd & Hval & Hsc).
  pose proof (valid_profile_NoDup _ Hval) as [Hnm Hnr]. pose proof Hval as (Hms & Hrs & _).
  destruct (item_ok m_id _ k x (p_measures p) ms Hstep Hms Hnm) as [Hms' Hnm'].
  assert (valid_profile (with_measures ms p)) as Hv' by (by apply valid_lists).
  apply (commit_written _ _ s) in Hc as [version Hw]; [|done..].
  exists (with_measures ms p), version. split; [|done]. split; [by rewrite Hrd, He|done].
Qed.

Lemma rules_written req (s s1 s' : St) p rs v a :
  _load_overlay others (scope_of req) s = (s1, Ok p) → unique_scopes docs s.1 →
  item_step r_id (λ r, Rule_validate r = Ok r) (p_rules p) rs →
  edit req (Some (content p)) = Some (set_rules rs (content p)) →
  _commit others reconcile (with_rules rs p) v s1 = (s', Ok a) →
  ∃ overlay version, specified req s overlay ∧ written overlay version (docs s.1) (docs s'.1).
Proof.
  intros Hl Hu (k & x & Hstep) He Hc. destruct (load_Ok _ _ _ _ Hl Hu) as (Hd & Hrd & Hval & Hsc).
  pose proof (valid_profile_NoDup _ Hval) as [Hnm Hnr]. pose proof Hval as (Hms & Hrs & _).
  destruct (item_ok r_id _ k x (p_rules p) rs Hstep Hrs Hnr) as [Hrs' Hnr'].
  assert (valid_profile (with_rules rs p)) as Hv' by (by apply valid_lists).
  apply (commit_written _ _ s) in Hc as [version Hw]; [|done..].
  exists (with_rules rs p), version. split; [|done]. split; [by rewrite Hrd, He|done].
Qed.

(** The tests of the handlers are those of the list operations. *)
Lemma add_item_fresh {A} (key : A → string) x l :
  existsb (λ y, bool_decide (key y = key x)) l = false → add_item key x l = Some (l ++ [x]).
Proof. rewrite existsb_key. intros Hk%bool_decide_eq_false. unfold add_item. by rewrite decide_False. Qed.

Lemma drop_item_found {A} (key : A → string) k l :
  length (filter (λ y, key y ≠ k) l) ≠ length l →
  drop_item key k l = Some (filter (λ y, key y ≠ k) l).
Proof.
  intros Hlen. unfold drop_item. rewrite decide_True; [done|].
  destruct (decide (k ∈ key <$> l)); [done|].
  destruct Hlen. by apply (filter_length_key key k l).
Qed.

(** C28: A write that answers, other than the deletion of an overlay, and during which
    nobody else writes (the hypothesis [alone]), leaves the content
    that its specification [edit] gives, from what was stored at its scope, as the one
    document of that scope; the other documents stay, the scopes stay unique, and what
    is stored is a validated profile.  When the scope is one that the cascade reaches,
    everyone who folds the cascade of the scope finds a referentially intact profile. *)
Theorem writes_refine_edit req (s s' : St) a :
  handle others reconcile req s = (s', Ok a) → is_delete req = false →
  request_valid req → unique_scopes docs s.1 →
  ∃ overlay version, specified req s overlay
    ∧ written overlay version (docs s.1) (docs s'.1).
Proof.
  intros Hh Hdel Hreq Hu. destruct req as [b|b|sc v|b|id b|id sc v|b|id b|id sc v|name b];
    simpl in Hh; try done;
    unfold add_measure, update_measure, delete_measure, add_rule, update_rule, delete_rule,
      patch_notify in Hh.
  - apply create_written in Hh as (ov & Hc & Hval & Hw); [|done..].
    exists ov, 1%Z. split; [|done]. split; [by rewrite Hc|]. split; [done|].
    by injection Hc.
  - apply se_bind_Ok in Hh as (s1 & now & [= <- <-] & Hh).
    apply se_bind_Ok in Hh as (s1 & ov & Ho & Hh). unfold validated in Ho.
    destruct (overlay_of _ _) as [ov'|] eqn:Eo; [|done]. injection Ho as <- <-.
    pose proof (doc_consistency_id _ _ Eo) as Hov.
    assert (valid_profile ov') as Hval.
    { destruct b as [b v]. destruct Hreq. subst ov'. split; [done|]. split; [done|].
      by eapply doc_consistency_same. }
    apply (commit_written _ _ s) in Hh as [version Hw]; [|done..].
    exists ov', version. split; [|done]. by subst ov'.
  - apply se_bind_Ok in Hh as (s1 & p & Hl & Hh). simpl in Hreq. case_match eqn:Ex; [done|].
    apply (add_item_fresh m_id) in Ex. eapply measures_written; [done..| | |done].
    + exists "", (mw_measure b). auto.
    + simpl. change (c_measures _) with (p_measures p). by rewrite Ex.
  - case_decide as Hid; [done|].
    apply se_bind_Ok in Hh as (s1 & p & Hl & Hh). simpl in Hreq.
    destruct (list_find _ _) as [[idx m]|] eqn:Ef; [|done].
    assert (replace_item m_id id (mw_measure b) (p_measures p)
            = Some (<[idx:=mw_measure b]> (p_measures p))) as Er
      by (unfold replace_item; by rewrite Ef, decide_True).
    eapply measures_written; [done..| | |done].
    + exists id, (mw_measure b). auto.
    + simpl. change (c_measures _) with (p_measures p). by rewrite Er.
  - apply se_bind_Ok in Hh as (s1 & p & Hl & Hh). case_decide as Hlen; [done|].
    apply (drop_item_found m_id) in Hlen. eapply measures_written; [done..| | |done].
    + exists id, ex_measure. auto.
    + simpl. change (c_measures _) with (p_measures p). by rewrite Hlen.
  - apply se_bind_Ok in Hh as (s1 & p & Hl & Hh). simpl in Hreq. case_match eqn:Ex; [done|].
    apply (add_item_fresh r_id) in Ex. eapply rules_written; [done..| | |done].
    + exists "", (rw_rule b). auto.
    + simpl. change (c_rules _) with (p_rules p). by rewrite Ex.
  - case_decide as Hid; [done|].
    apply se_bind_Ok in Hh as (s1 & p & Hl & Hh). simpl in Hreq.
    destruct (list_find _ _) as [[idx r]|] eqn:Ef; [|done].
    assert (replace_item r_id id (rw_rule b) (p_rules p)
            = Some (<[idx:=rw_rule b]> (p_rules p))) as Er
      by (unfold replace_item; by rewrite Ef, decide_True).
    eapply rules_written; [done..| | |done].
    + exists id, (rw_rule b). auto.
    + simpl. change (c_rules _) with (p_rules p). by rewrite Er.
  - apply se_bind_Ok in Hh as (s1 & p & Hl & Hh). case_decide as Hlen; [done|].
    apply (drop_item_found r_id) in Hlen. eapply rules_written; [done..| | |done].
    + exists id, (ex_rule "" true). auto.
    + simpl. change (c_rules _) with (p_rules p). by rewrite Hlen.
  - apply se_bind_Ok in Hh as (s1 & p & Hl & Hh).
    destruct (load_Ok _ _ _ _ Hl Hu) as (Hd & Hrd & Hval & Hsc).
    pose proof (valid_profile_NoDup _ Hval) as [Hnm Hnr]. pose proof Hval as (Hms & Hrs & _).
    set (q := with_notify _ p) in Hh. assert (valid_profile q) as Hv' by (by apply valid_lists).
    apply (commit_written _ _ s) in Hh as [version Hw]; [|done..].
    exists q, version. split; [|done]. split; [simpl; by rewrite Hrd|done].
Qed.

(** ** Refusals *)

(** The status of an answer that is no server error. *)
Definition refusal (e : HttpError) : Prop :=
  match e with HTTPException status _ => (status < 500)%Z | Unhandled => False end.

(** A step that changes no document when it returns, or when it refuses. *)
Definition reads {A} (op : SE St HttpError A) : Prop := ∀ s s' r,
  op s = (s', r) → match r with Ok _ => True | Err e => refusal e end → docs s'.1 = docs s.1.

Definition clean {A} (op : SE St HttpError A) : Prop := ∀ s s' e,
  op s = (s', Err e) → refusal e → docs s'.1 = docs s.1.

Lemma reads_bind {A B} (op : SE St HttpError A) (k : A → SE St HttpError B) :
  reads op → (∀ a, reads (k a)) → reads (se_bind op k).
Proof.
  intros Ho Hk s s' r. unfold se_bind. destruct (op s) as [s1 [a|e]] eqn:E.
  - intros Hr Hc. rewrite (Hk a _ _ _ Hr Hc). by apply (Ho _ _ _ E).
  - intros [= <- <-]. apply (Ho _ _ _ E).
Qed.

Lemma clean_bind {A B} (op : SE St HttpError A) (k : A → SE St HttpError B) :
  reads op → (∀ a, clean (k a)) → clean (se_bind op k).
Proof.
  intros Ho Hk s s' e. unfold se_bind. destruct (op s) as [s1 [a|e']] eqn:E.
  - intros Hr Hc. rewrite (Hk a _ _ _ Hr Hc). by apply (Ho _ _ _ E).
  - intros [= <- <-]. apply (Ho _ _ _ E).
Qed.

(** A step that cannot fail any more may follow the write. *)
Lemma clean_tail {A B} (op : SE St HttpError A) (k : A → SE St HttpError B) :
  clean op → (∀ a s, isOk (k a s).2 = true) → clean (se_bind op k).
Proof.
  intros Ho Hk s s' e. unfold se_bind. destruct (op s) as [s1 [a|e']] eqn:E.
  - intros Hr. pose proof (Hk a s1) as Hok. by rewrite Hr in Hok.
  - intros [= <- <-]. by apply Ho.
Qed.

Lemma reads_clean {A} (op : SE St HttpError A) : reads op → clean op.
Proof. intros Ho s s' e E Hc. by apply (Ho _ _ _ E). Qed.

Lemma reads_if {A} (P : Prop) `{!Decision P} (f g : SE St HttpError A) :
  reads f → reads g → reads (if decide P then f else g).
Proof. by case_decide. Qed.

Lemma reads_validated {A} (r : res ModelError A) : reads (validated r).
Proof. intros s s' r' [= <- <-]. done. Qed.
Lemma reads_ret {A} (a : A) : reads (se_ret a).
Proof. intros s s' r [= <- <-]. done. Qed.
Lemma reads_raise {A} e : reads (@se_raise St HttpError A e).
Proof. intros s s' r [= <- <-]. done. Qed.
Lemma reads_now : reads (now_api (W := W) (C := C)).
Proof. intros s s' r [= <- <-]. done. Qed.

(** Unavailability is a server error, so only what returns matters. *)
Lemma reads_mapped {A} (op : Repo (W := W) (C := C) A) :
  (∀ s s' a, op s = (s', Ok a) → docs s'.1 = docs s.1) → reads (mapped is_unavailable op).
Proof.
  intros Hop s s' r. unfold mapped. destruct (op s) as [s1 [a|e]] eqn:E; intros [= <- <-].
  - intros _. by apply (Hop _ _ _ E).
  - by destruct e.
Qed.

Lemma reads_load sc : reads (_load_overlay (C := C) others sc).
Proof.
  apply reads_bind.
  - apply reads_mapped. intros s s' a E. apply (find_by_scope_spec docs others) in E; [|exact alone].
    by destruct a; destruct E.
  - intros [p|]; [apply reads_ret|apply reads_raise].
Qed.

Lemma reads_validate overlay : reads (_validate_composed (C := C) others overlay).
Proof.
  apply reads_bind; [|intros l; apply reads_bind; [apply reads_now|]; intros now;
    apply reads_bind; [apply reads_validated|]; intros eff;
    apply reads_if; [apply reads_ret|apply reads_raise]].
  apply reads_mapped. intros s s' l E.
  exact (collect_docs docs others _ _ _ _ _ _ alone E).
Qed.

Lemma trigger_done {A} (a : A) (s : St) :
  isOk ((_trigger_reconcile reconcile ;;; se_ret a) s).2 = true.
Proof.
  unfold se_bind. destruct (_trigger_reconcile reconcile s) as [s' r] eqn:E.
  by apply trigger_docs in E as [-> _].
Qed.

Lemma clean_commit overlay v : clean (_commit (C := C) others reconcile overlay v).
Proof.
  apply clean_bind; [apply reads_validate|]. intros _. apply clean_tail; [|intros; apply trigger_done].
  intros s s' e. unfold mapped. destruct (replace_with_version _ _ _ s) as [s1 [n|x]] eqn:E; [done|].
  apply (replace_spec docs ttl entries others) in E; [|exact alone].
  intros [= <- <-]. destruct x; simpl; try done; naive_solver.
Qed.

Lemma clean_create body : clean (create_overlay (C := C) others reconcile body).
Proof.
  apply clean_bind; [apply reads_now|]. intros now. apply clean_bind; [apply reads_validated|].
  intros ov. apply clean_bind; [apply reads_validate|]. intros _.
  apply clean_tail; [|intros; apply trigger_done].
  intros s s' e. unfold mapped, create, se_bind at 1, call.
  destruct (insert_one _ s.1) as [w' [i|x]] eqn:E; [by intros [= <- <-]|].
  intros [= <- <-]. destruct x; simpl; try done.
  apply insert_duplicate_law in E. by rewrite alone.
Qed.

Lemma clean_delete sc v : clean (delete_overlay (C := C) others reconcile sc v).
Proof.
  apply clean_tail; [|intros; apply trigger_done].
  intros s s' e. unfold mapped, delete_by_scope, se_bind at 1, call.
  destruct (delete_one _ s.1) as [w' [n|x]] eqn:Ed.
  2: { intros [= <- <-]. by destruct x. }
  apply delete_one_law in Ed as [(-> & Hd & _)|(-> & _)].
  - unfold se_bind at 1. rewrite decide_True by done.
    destruct (_raise_write_conflict _ _ _ _) as [s1 r1] eqn:Ec.
    apply (write_conflict_spec docs others) in Ec; [|exact alone]. simpl in Ec.
    rewrite alone, Hd in Ec. destruct r1 as [u|x]; [done|]. intros [= <- <-].
    destruct x; simpl; try done; naive_solver.
  - unfold se_bind. by rewrite decide_False by done.
Qed.

(** A handler that loads an overlay and then decides. *)
Lemma clean_load sc (k : MonitorProfile → SE St HttpError Answer) :
  (∀ p, clean (k p)) → clean (se_bind (_load_overlay others sc) k).
Proof. by apply clean_bind, reads_load. Qed.

Lemma clean_raise {A} e : clean (@se_raise St HttpError A e).
Proof. apply reads_clean, reads_raise. Qed.

(** C29: A write that is refused (an id mismatch, an item or overlay that is missing or
    already there, a stale version, or an effective profile that would not be intact)
    has changed no document, if nobody else writes while it runs ([alone]). *)
Theorem rejected_writes_change_nothing req (s s' : St) status detail :
  handle others reconcile req s = (s', Err (HTTPException status detail)) →
  (status < 500)%Z → docs s'.1 = docs s.1.
Proof.
  intros Hh Hst.
  assert (clean (handle (C := C) others reconcile req)) as Hc; [|by apply (Hc _ _ _ Hh)].
  clear Hh. destruct req as [b|b|sc v|b|id b|id sc v|b|id b|id sc v|name b]; simpl;
    unfold add_measure, update_measure, delete_measure, add_rule, update_rule, delete_rule,
      patch_notify, replace_overlay;
    try (case_decide; [apply clean_raise|]); try (apply clean_load; intros p; cbv zeta);
    repeat case_match; try apply clean_raise; try apply clean_commit.
  - apply clean_create.
  - apply clean_bind; [apply reads_now|]. intros now.
    apply clean_bind; [apply reads_validated|]. intros ov. apply clean_commit.
  - apply clean_delete.
Qed.

(** ** Provenance *)
Lemma label_entries {A} (key : A → string) (items : MonitorProfile → list A) i p :
  last (filter (λ kv, kv.1 = i) ((λ x, (key x, label p)) <$> items p))
  = (λ _, (i, label p)) <$> last (filter (λ x, key x = i) (items p)).
Proof.
  induction (items p) as [|x l IH] using rev_ind; [done|].
  rewrite fmap_app, !filter_app, !last_app, IH. csimpl. rewrite !filter_cons. simpl.
  case_decide; [by subst|]. done.
Qed.

Lemma provenance_get {A} (key : A → string) (items : MonitorProfile → list A) i docs' :
  ODict.get i (foldl (λ d p, ODict.set_all ((λ x, (key x, label p)) <$> items p) d) [] docs')
  = (λ pr, label pr.1) <$>
      most_specific (λ p, last (filter (λ x, key x = i) (items p))) docs'.
Proof.
  induction docs' as [|p ps IH] using rev_ind; [done|].
  rewrite foldl_app, most_specific_snoc. simpl. rewrite ODict.get_set_all, label_entries, IH.
  by destruct (last _).
Qed.

(** C30: What [withProvenance] says is true: every measure, rule and channel of the
    effective profile that is answered is, under its id, the one of a document of the
    cascade, and the provenance of that id is the scope of this document; nothing else
    has a provenance. *)
Theorem provenance_names_source pr m e (s s' : St) d pv :
  get_effective others pr m e true s = (s', Ok (d, Some pv)) →
  ∃ l eff, (collect_scope_docs others pr m e s).2 = Ok l ∧ d = to_mongo eff ∧ l ≠ [] ∧
    ∀ i,
      (find_measure i eff = snd <$> most_specific (find_measure i) l ∧
       ODict.get i (pv_measures pv) = (λ px, label px.1) <$> most_specific (find_measure i) l) ∧
      (find_rule i eff = (λ px, bake px.1 px.2) <$> most_specific (find_rule i) l ∧
       ODict.get i (pv_rules pv) = (λ px, label px.1) <$> most_specific (find_rule i) l) ∧
      (find_channel i eff = snd <$> most_specific (find_channel i) l ∧
       ODict.get i (pv_notify pv) = (λ px, label px.1) <$> most_specific (find_channel i) l).
Proof.
  intros (s1 & l & Hc%mapped_Ok & Hr)%se_bind_Ok. exists l.
  case_decide as Hl; [done|].
  apply se_bind_Ok in Hr as (s2 & now & [= <- <-] & Hr).
  rewrite fold_profiles_result in Hr. apply se_bind_Ok in Hr as (s2 & eff & [= <- <-] & Hr).
  injection Hr as _ <- <-. exists (fold_result (utcnow s1.1) l (mkScope pr m e)).
  assert (sort_by (λ p q, bool_decide (_rank (p_scope p) ≤ _rank (p_scope q))) l = l) as Hs.
  { apply (collect_spec docs others) in Hc as (_ & ds & now & _ & ps & _ & ->).
    apply sort_by_sorted_id. eapply StronglySorted_impl; [|apply rank_sorted].
    intros p q. simpl. by rewrite bool_decide_eq_true. }
  split; [by rewrite Hc|]. split; [done|]. split; [done|]. intros i.
  rewrite find_measure_fold, find_rule_fold, find_channel_fold. unfold _provenance. simpl.
  rewrite Hs. split_and!; [done|by rewrite (provenance_get m_id)|done
    |by rewrite (provenance_get r_id)|done|].
  rewrite (provenance_get fst). unfold find_channel. rewrite (most_specific_fmap snd). by destruct (most_specific _ l) as [[]|].
Qed.
End ApiProperties.

(** ** Scopes the cascade does not reach *)

(** Whatever is collected for an equipment has a scope without a concrete part under a
    wildcard; an overlay of another scope is never part of an effective profile. *)
Lemma cascade_canonical sc pr m e :
  scope_triple sc ∈ _cascade_triples pr m e → canonical sc.
Proof.
  destruct sc as [p md eq]. unfold canonical, scope_triple, _scope_exact_filter. simpl.
  intros Ht%cascade_cases. unfold _cascade_triples.
  repeat (case_decide; simpl); subst; set_solver.
Qed.

(** ** Witnesses *)
#[local] Existing Instance set_iter_id.
#[local] Instance api_cache : TTLCache (MapCache MonitorProfile) MonitorProfile :=
  map_cache_ops 300.
#[local] Instance api_cache_laws :
  TTLCacheLaws (MapCache MonitorProfile) MonitorProfile 300 map_cache := map_cache_laws 300.

Definition ex_handle (req : WriteRequest) := handle (C := MapCache MonitorProfile) id None req.

Definition ex_add : WriteRequest :=
  PostRule (mkRuleWrite (mkScope "ETCH" "M1" "E1") 1 (ex_rule "c" true)).

Lemma writes_refine_edit_witness :
  (ex_handle ex_add ex_repo).2 = Ok (Committed (mkScope "ETCH" "M1" "E1") 2) ∧
  ∃ overlay version, specified (C := MapCache MonitorProfile) md_docs ex_add ex_repo overlay
    ∧ written overlay version (md_docs ex_db) (md_docs (ex_handle ex_add ex_repo).1.1).
Proof.
  assert ((ex_handle ex_add ex_repo).2 = Ok (Committed (mkScope "ETCH" "M1" "E1") 2)) as Hr
    by (vm_compute; reflexivity).
  split; [exact Hr|].
  assert (∀ op s, (None : option (SE (MemDb * MapCache MonitorProfile) unit bool)) = Some op →
    md_docs (op s).1.1 = md_docs s.1) as Hrec by discriminate.
  apply (writes_refine_edit md_docs 300 map_cache id None (λ w, eq_refl) Hrec
    ex_add ex_repo (ex_handle ex_add ex_repo).1 (Committed (mkScope "ETCH" "M1" "E1") 2)).
  - rewrite <-Hr. apply surjective_pairing.
  - reflexivity.
  - vm_compute. reflexivity.
  - apply ex_unique.
Defined.

(** A stale version. *)
Definition ex_stale : WriteRequest :=
  PatchRule "b" (mkRuleWrite (mkScope "ETCH" "M1" "E1") 7 (ex_rule "b" false)).

Lemma rejected_writes_change_nothing_witness :
  (ex_handle ex_stale ex_repo).2
    = Err (HTTPException 409 (Text "version conflict (stale governance.version)")) ∧
  md_docs (ex_handle ex_stale ex_repo).1.1 = md_docs ex_db.
Proof.
  set (e := HTTPException 409 (Text "version conflict (stale governance.version)")).
  assert ((ex_handle ex_stale ex_repo).2 = Err e) as Hr by (vm_compute; reflexivity).
  split; [exact Hr|].
  assert (∀ op s, (None : option (SE (MemDb * MapCache MonitorProfile) unit bool)) = Some op →
    md_docs (op s).1.1 = md_docs s.1) as Hrec by discriminate.
  apply (rejected_writes_change_nothing md_docs 300 map_cache id None (λ w, eq_refl) Hrec
    ex_stale ex_repo (ex_handle ex_stale ex_repo).1 409 (Text "version conflict (stale governance.version)")); [|lia].
  fold e. rewrite <-Hr. apply surjective_pairing.
Defined.

Lemma provenance_names_source_witness :
  match get_effective id "ETCH" "M1" "E1" true ex_repo with
  | (_, Ok (_, Some pv)) =>
      ODict.get "b" (pv_rules pv) = Some "ETCH/M1/E1"
      ∧ ODict.get "disk" (pv_measures pv) = Some "ETCH/*/*"
      ∧ ∃ l, (collect_scope_docs (C := MapCache MonitorProfile) id "ETCH" "M1" "E1" ex_repo).2
             = Ok l ∧ l ≠ []
  | _ => False
  end.
Proof.
  pose proof (provenance_names_source (C := MapCache MonitorProfile) md_docs id
    "ETCH" "M1" "E1" ex_repo) as Hx.
  assert (match (get_effective (C := MapCache MonitorProfile) id "ETCH" "M1" "E1" true ex_repo).2
    with Ok (_, Some pv) => ODict.get "b" (pv_rules pv) = Some "ETCH/M1/E1"
      ∧ ODict.get "disk" (pv_measures pv) = Some "ETCH/*/*" | _ => False end) as Hr
    by (vm_compute; auto).
  destruct (get_effective id "ETCH" "M1" "E1" true ex_repo) as [s' [[d [pv|]]|e]];
    simpl in Hr; try done.
  destruct (Hx s' d pv eq_refl) as (l & _ & Hl & _ & Hne & _). destruct Hr. eauto.
Defined.

(** ** What the validation does not see *)

(** The base overlay of the example is deleted, and rule [b] of the equipment's overlay
    is left without its measure: the API looks up the cascade only. *)
Lemma base_delete_breaks_overlay :
  let s' := (ex_handle (DeleteOverlay (mkScope "ETCH" "*" "*") 1) ex_repo).1 in
  isOk (ex_handle (DeleteOverlay (mkScope "ETCH" "*" "*") 1) ex_repo).2 = true ∧
  (validate_effective <$> (
     match (get_effective (C := MapCache MonitorProfile) id "ETCH" "M1" "E1" false s').2 with
     | Ok (d, _) => match from_mongo 0 d with Ok p => Some p | Err _ => None end
     | Err _ => None
     end)) = Some [MeasureNotFound 0 0 "disk"].
Proof. split; vm_compute; reflexivity. Qed.

(** An overlay of a scope that no cascade reaches is accepted, and its interval is even
    scheduled. *)
Definition ex_hole : WriteRequest :=
  PostOverlay (mkProfileCreate (mkScope "ETCH" "*" "E1") true []
    [mkRule "c" 7 CRITICAL AND [ex_cond "disk.max" OP_GE 95] "default" true]
    []).

Lemma unreachable_overlay_accepted :
  let s' := (ex_handle ex_hole ex_repo).1 in
  isOk (ex_handle ex_hole ex_repo).2 = true ∧ ¬ canonical (mkScope "ETCH" "*" "E1") ∧
  (get_scheduling_intervals (C := MapCache MonitorProfile) id "ETCH" s').2 = Ok [5; 7]%Z.
Proof.
  split; [vm_compute; reflexivity|]. split; [|vm_compute; reflexivity].
  apply (bool_decide_eq_false _). vm_compute. reflexivity.
Qed.

(** Two items of one id in a body: the validator of the document raises in the handler,
    which no clause maps. *)
Lemma duplicate_ids_unhandled :
  (ex_handle (PostOverlay (mkProfileCreate (mkScope "CVD" "*" "*") true
     [ex_measure; ex_measure] [] [])) ex_repo).2 = Err Unhandled.
Proof. vm_compute. reflexivity. Qed.
