(* ===== verification/Clients.v ===== *)
(** * The connections: MongoDB, Redis and ZooKeeper clients
    ([src/db/client.py], [src/cache/redis_client.py], [src/distributed/zk_client.py])

    A method is a function on the pair of the outside world and the wrapper object.  The
    drivers (motor, redis-py, kazoo) are classes; waiting is an event of the class
    [Asyncio].  An exception of [PyExc] other than [CancelledError] is what
    [except Exception] catches. *)
From stdpp Require Import base list strings.
From Stdlib Require Import ZArith Lia Ascii Decimal DecimalN.
From Stdlib Require String DecimalString.
From S2P Require Import Prelude PyStr PyFloat.
Import DecimalString.NilEmpty.
Local Open Scope se_scope.

Inductive PyExc : Type :=
| CancelledError
| TimeoutError (msg : string)
| AssertionError
| RuntimeError (msg : string)
| ValueError
| OperationFailure (code : Z)
| DriverError (name : string).

#[export] Instance PyExc_eq_dec : EqDecision PyExc.
Proof. solve_decision. Defined.

(** [isinstance(e, Exception)] *)
Definition is_exception (e : PyExc) : bool :=
  match e with CancelledError => false | _ => true end.

(** [try: m  except Exception as e: h e] *)
Definition try_except {S A} (m : SE S PyExc A) (h : PyExc → SE S PyExc A) : SE S PyExc A :=
  se_catch m (λ e, if is_exception e then h e else se_raise e).

(** [try: m  finally: f], where [f] does not raise *)
Definition finally {S A} (m : SE S PyExc A) (f : S → S) : SE S PyExc A := λ s,
  let '(s', r) := m s in (f s', r).

(** [await asyncio.sleep(seconds)] *)
Class Asyncio (W : Type) := { sleep : Z → SE W PyExc unit }.

(** ** Connecting with retries

    The loop is the same in both clients: attempts [1 .. max_attempts], a wait of
    [backoff * attempt] seconds after each failure but the last, and the last exception
    at the end. *)
Section Retry.
Context {S : Type}.
Variables (attempt_op : SE S PyExc unit) (wait : Z → SE S PyExc unit).

Fixpoint attempts (max_attempts : nat) (backoff : Z) (todo : list nat) (last_err : option PyExc)
  : SE S PyExc unit :=
  match todo with
  | [] => match last_err with Some e => se_raise e | None => se_raise AssertionError end
  | attempt :: todo =>
      (* [return] when the attempt succeeds *)
      λ s, match attempt_op s with
      | (s', Ok _) => (s', Ok tt)
      | (s', Err e) =>
          if is_exception e then
            ((if decide (attempt < max_attempts) then wait (backoff * Z.of_nat attempt)
              else se_ret tt) ;;;
             attempts max_attempts backoff todo (Some e)) s'
          else (s', Err e)
      end
  end.

Definition retrying (max_attempts : nat) (backoff : Z) : SE S PyExc unit :=
  attempts max_attempts backoff (seq 1 max_attempts) None.
End Retry.

(** ** MongoClient *)

(** [AsyncIOMotorClient]: building one, [admin.command("ping")], [client[mongo_db]] (which
    raises on an invalid name), [close()]. *)
Class Motor (W MC : Type) := {
  motor_client : SE W PyExc MC;
  motor_ping : MC → SE W PyExc unit;
  motor_database : MC → SE W PyExc unit;
  motor_close : MC → SE W PyExc unit;
}.

Module Mongo.
Section Mongo.
Context {W MC : Type} `{!Motor W MC, !Asyncio W}.

(** [_client] and [_db], which is an attribute of the client. *)
Record MongoClient := mkMongo { mg_client : option MC; mg_db : option MC }.

Definition init : MongoClient := mkMongo None None.

Definition M (A : Type) : Type := SE (W * MongoClient) PyExc A.

Definition lift {A} (op : SE W PyExc A) : M A := λ s, let '(w, r) := op s.1 in ((w, s.2), r).

Definition modify (f : MongoClient → MongoClient) : M unit := se_modify (λ s, (s.1, f s.2)).

Definition db : M MC :=
  d <- se_gets (λ s, mg_db s.2) ;;
  match d with
  | Some c => se_ret c
  | None => se_raise (RuntimeError "MongoClient.connect_with_retry() must be called first")
  end.

(** The body of the loop. *)
Definition attempt : M unit :=
  client <- lift motor_client ;;
  lift (motor_ping client) ;;;
  modify (λ m, mkMongo (Some client) (mg_db m)) ;;;
  lift (motor_database client) ;;;
  modify (λ m, mkMongo (mg_client m) (Some client)).

Definition connect_with_retry (max_attempts : nat) (backoff : Z) : M unit :=
  retrying attempt (λ d, lift (sleep d)) max_attempts backoff.

Definition ping : M bool :=
  c <- se_gets (λ s, mg_client s.2) ;;
  match c with
  | None => se_ret false
  | Some client => try_except (lift (motor_ping client) ;;; se_ret true) (λ _, se_ret false)
  end.

Definition close : M unit :=
  c <- se_gets (λ s, mg_client s.2) ;;
  match c with
  | None => se_ret tt
  | Some client =>
      finally (try_except (lift (motor_close client)) (λ _, se_ret tt)) (λ s, (s.1, init))
  end.
End Mongo.
Arguments MongoClient : clear implicits.
End Mongo.

(** ** RedisClient *)

(** [Redis.from_url(url, password=...)], [Sentinel(...)], [master_for], and what is used
    of the clients; [sentinels] are the clients of the sentinels themselves. *)
Class RedisDriver (W RC SN : Type) := {
  redis_from_url : string → option string → SE W PyExc RC;
  redis_sentinel : list (string * Z) → option string → option string → SE W PyExc SN;
  master_for : SN → string → Z → option string → SE W PyExc RC;
  sentinels : SN → list RC;
  redis_ping : RC → SE W PyExc bool;
  redis_aclose : RC → SE W PyExc unit;
}.

(** [x or None] *)
Definition or_none (s : string) : option string := if decide (s = "") then None else Some s.

Module Redis.
Section Redis.
Context {W RC SN : Type} `{!RedisDriver W RC SN, !Asyncio W}.

(** The settings that are read. *)
Record Settings := mkSettings
  { redis_url : string; redis_password : string; redis_sentinels : list string;
    redis_sentinel_master : string; redis_sentinel_password : string; redis_db : Z }.
Variable settings : Settings.

Record RedisClient := mkRedis { rd_client : option RC; rd_sentinel : option SN }.

Definition init : RedisClient := mkRedis None None.

Definition M (A : Type) : Type := SE (W * RedisClient) PyExc A.

Definition lift {A} (op : SE W PyExc A) : M A := λ s, let '(w, r) := op s.1 in ((w, s.2), r).

(** One entry, [host[:port]]. *)
Definition parse_sentinel (entry : string) : option (string * Z) :=
  let '(host, port) :=
    match rpartition ":"%char (strip entry) with
    | Some (host, port) => (host, port)
    | None => (strip entry, "26379")
    end in
  p ← py_int port; Some (host, p).

Definition _sentinel_master (password : option string) : M (RC * SN) :=
  match mapM parse_sentinel (redis_sentinels settings) with
  | None => se_raise ValueError
  | Some addresses =>
      sentinel <- lift (redis_sentinel addresses
                          (or_none (redis_sentinel_password settings)) password) ;;
      master <- lift (master_for sentinel (redis_sentinel_master settings)
                        (redis_db settings) password) ;;
      se_ret (master, sentinel)
  end.

Definition connect : M unit :=
  let password := or_none (redis_password settings) in
  cs <- (if decide (redis_sentinels settings ≠ []) then
           ms <- _sentinel_master password ;; se_ret (ms.1, Some ms.2)
         else
           client <- lift (redis_from_url (redis_url settings) password) ;;
           se_ret (client, None)) ;;
  lift (redis_ping cs.1) ;;;
  se_modify (λ s, (s.1, mkRedis (Some cs.1) cs.2)).

Definition connect_with_retry (max_attempts : nat) (backoff : Z) : M unit :=
  retrying connect (λ d, lift (sleep d)) max_attempts backoff.

Definition ping : M bool :=
  c <- se_gets (λ s, rd_client s.2) ;;
  match c with
  | None => se_ret false
  | Some client => try_except (lift (redis_ping client)) (λ _, se_ret false)
  end.

(** [asyncio.gather] with [return_exceptions=True]: every call is made, and what they
    raise is a result. *)
Fixpoint gather (calls : list (M unit)) : M unit :=
  match calls with
  | [] => se_ret tt
  | call :: calls => λ s, gather calls (call s).1
  end.

Definition close : M unit :=
  c <- se_gets (λ s, rd_client s.2) ;;
  match c with
  | None => se_ret tt
  | Some client =>
      finally (try_except (lift (redis_aclose client)) (λ _, se_ret tt))
        (λ s, (s.1, mkRedis None (rd_sentinel s.2)))
  end ;;;
  sn <- se_gets (λ s, rd_sentinel s.2) ;;
  match sn with
  | None => se_ret tt
  | Some sentinel =>
      finally (gather ((λ c, lift (redis_aclose c)) <$> sentinels sentinel))
        (λ s, (s.1, mkRedis (rd_client s.2) None))
  end.
End Redis.
Arguments RedisClient : clear implicits.
End Redis.

(** ** ZKClient *)

(** [KazooClient]: the blocking calls run in an executor; [kazoo_start c seconds] is
    awaited for at most that long, [kazoo_stat] is the four-letter command, decoded. *)
Class Kazoo (W KC : Type) := {
  kazoo_client : SE W PyExc KC;
  kazoo_add_listener : KC → SE W PyExc unit;
  kazoo_start : KC → Z → SE W PyExc unit;
  kazoo_ensure_path : KC → string → SE W PyExc unit;
  kazoo_stop : KC → SE W PyExc unit;
  kazoo_close : KC → SE W PyExc unit;
  kazoo_stat : KC → SE W PyExc string;
  kazoo_connected : W → KC → bool;
}.

Definition newline_char : ascii := ascii_of_nat 10.

Module Zk.
Section Zk.
(** [H]: the registered handlers, [St]: kazoo's states. *)
Context {W KC H St : Type} `{!Kazoo W KC}.
Variables (zk_root_path : string) (zk_startup_budget_sec : Z).
(** [str] of a number of seconds *)
Variable budget_text : string.

Record ZKClient := mkZk { zk_kazoo : option KC; zk_loop : bool; zk_handlers : list H }.

Definition init : ZKClient := mkZk None false [].

Definition M (A : Type) : Type := SE (W * ZKClient) PyExc A.

Definition lift {A} (op : SE W PyExc A) : M A := λ s, let '(w, r) := op s.1 in ((w, s.2), r).

Definition is_connected (s : W * ZKClient) : bool :=
  match zk_kazoo s.2 with Some k => kazoo_connected s.1 k | None => false end.

(** The object keeps the kazoo client even when starting it fails, so that [close] can
    stop it. *)
Definition connect : M unit :=
  se_modify (λ s, (s.1, mkZk (zk_kazoo s.2) true (zk_handlers s.2))) ;;;
  k <- lift kazoo_client ;;
  se_modify (λ s, (s.1, mkZk (Some k) (zk_loop s.2) (zk_handlers s.2))) ;;;
  lift (kazoo_add_listener k) ;;;
  se_catch (lift (kazoo_start k zk_startup_budget_sec))
    (λ e, match e with
          | TimeoutError _ =>
              se_raise (TimeoutError ("zk_startup_budget_exceeded (" +:+ budget_text +:+ "s)"))
          | _ => se_raise e
          end) ;;;
  lift (kazoo_ensure_path k zk_root_path).

Definition close : M unit :=
  k <- se_gets (λ s, zk_kazoo s.2) ;;
  match k with
  | None => se_ret tt
  | Some k =>
      finally
        (try_except
           (loop <- se_gets (λ s, zk_loop s.2) ;;
            (if (loop : bool) then se_ret tt else se_raise AssertionError) ;;;
            lift (kazoo_stop k) ;;; lift (kazoo_close k))
           (λ _, se_ret tt))
        (λ s, (s.1, mkZk None (zk_loop s.2) (zk_handlers s.2)))
  end.

Definition add_state_handler (h : H) : M unit :=
  se_modify (λ s, (s.1, mkZk (zk_kazoo s.2) (zk_loop s.2) (zk_handlers s.2 ++ [h]))).

(** What the listener thread sees of the loop, and handing it a handler's coroutine. *)
Class LoopBridge := {
  loop_is_closed : W → bool;
  loop_is_running : W → res PyExc bool;
  run_threadsafe : H → St → SE W PyExc unit;
}.

Fixpoint dispatch `{!LoopBridge} (handlers : list H) (state : St) : M unit :=
  match handlers with
  | [] => se_ret tt
  | h :: handlers =>
      try_except (lift (run_threadsafe h state)) (λ _, se_ret tt) ;;;
      dispatch handlers state
  end.

Definition _state_listener `{!LoopBridge} (state : St) : M unit := λ s,
  if negb (zk_loop s.2) || loop_is_closed s.1 then (s, Ok tt)
  else match loop_is_running s.1 with
       | Ok true => dispatch (zk_handlers s.2) state s
       | Ok false => (s, Ok tt)
       | Err (RuntimeError _) => (s, Ok tt)
       | Err e => (s, Err e)
       end.

(** The first line with the version. *)
Definition version_line (text : string) : option string :=
  snd <$> list_find (λ line, startswith "Zookeeper version:" line = true)
    (split_char newline_char text).

(** [line.split(":", 1)[1].strip()] of such a line *)
Definition version_of (line : string) : string :=
  match split_first ":" line with Some (_, v) => strip v | None => "" end.

Definition get_server_version : M string := λ s,
  match zk_kazoo s.2 with
  | Some k =>
      if zk_loop s.2 then
        try_except
          (text <- lift (kazoo_stat k) ;;
           se_ret (match version_line text with Some l => version_of l | None => "unknown" end))
          (λ _, se_ret "unknown") s
      else (s, Ok "unknown")
  | None => (s, Ok "unknown")
  end.
End Zk.
Arguments ZKClient : clear implicits.
Arguments LoopBridge : clear implicits.
End Zk.

(** ** The retry loop *)

Inductive RetryEvent : Type := Attempted | Waited (seconds : Z).

(** What has happened after [k] attempts that failed and the waits after them. *)
Fixpoint failed_attempts (backoff : Z) (k : nat) : list RetryEvent :=
  match k with
  | 0 => []
  | S j => failed_attempts backoff j ++ [Attempted; Waited (backoff * Z.of_nat (S j))]
  end.

(** Up to the end of attempt [k]. *)
Definition retry_trace (backoff : Z) (k : nat) : list RetryEvent :=
  match k with 0 => [] | S j => failed_attempts backoff j ++ [Attempted] end.

Definition waited (tr : list RetryEvent) : Z :=
  foldr (λ e t, match e with Waited d => d + t | Attempted => t end)%Z 0%Z tr.

Lemma waited_app tr tr' : waited (tr ++ tr') = (waited tr + waited tr')%Z.
Proof. induction tr as [|[] tr IH]; simpl; lia. Qed.

Lemma waited_failed b k : (2 * waited (failed_attempts b k) = b * (Z.of_nat k * (Z.of_nat k + 1)))%Z.
Proof. induction k as [|k IH]; [simpl; lia|]. cbn [failed_attempts]. rewrite waited_app. simpl. nia. Qed.

Lemma waited_retry b k :
  (2 * waited (retry_trace b k) = b * (Z.of_nat k * (Z.of_nat k - 1)))%Z.
Proof.
  destruct k as [|k]; [simpl; lia|]. cbn [retry_trace]. rewrite waited_app.
  pose proof (waited_failed b k). simpl. nia.
Qed.

Section RetryProperties.
Context {S : Type} (attempt_op : SE S PyExc unit) (wait : Z → SE S PyExc unit).
Context (trace : S → list RetryEvent).
Hypothesis attempt_traced : ∀ s s' r,
  attempt_op s = (s', r) → trace s' = trace s ++ [Attempted].
Hypothesis wait_traced : ∀ d s s' r, wait d s = (s', r) → trace s' = trace s ++ [Waited d].
(** A wait only ends early when it is cancelled. *)
Hypothesis wait_cancelled : ∀ d s s' e, wait d s = (s', Err e) → e = CancelledError.

(** How the loop has ended, [k] attempts after the trace [t0]. *)
Definition retry_ended (n : nat) (b : Z) (t0 : list RetryEvent) (s' : S) (r : res PyExc unit)
    (k : nat) : Prop :=
  match r with
  | Ok _ => 0 < k ∧ trace s' = t0 ++ retry_trace b k ∧ ∃ s, attempt_op s = (s', Ok tt)
  | Err CancelledError =>
      trace s' = t0 ++ retry_trace b k ∨ trace s' = t0 ++ failed_attempts b k
  | Err e => k = n ∧ trace s' = t0 ++ retry_trace b n ∧
      (n = 0 ∧ e = AssertionError ∨ ∃ s, attempt_op s = (s', Err e))
  end.

Lemma attempts_ended n b todo k0 t0 s s' r last_err :
  todo = seq (Datatypes.S k0) (n - k0) → k0 ≤ n →
  (if decide (k0 = n ∧ 0 < n)
   then trace s = t0 ++ retry_trace b n ∧
        ∃ e s0, last_err = Some e ∧ is_exception e = true ∧ attempt_op s0 = (s, Err e)
   else trace s = t0 ++ failed_attempts b k0 ∧ (k0 = 0 → last_err = None)) →
  attempts attempt_op wait n b todo last_err s = (s', r) →
  ∃ k, k ≤ n ∧ retry_ended n b t0 s' r k.
Proof.
  revert k0 s last_err. induction todo as [|a todo IH]; intros k0 s last_err Hto Hk Htr Ha.
  - assert (k0 = n) as -> by (destruct (n - k0) eqn:E; [lia|done]). exists n. split; [done|].
    destruct (decide (n = 0)) as [->|Hn].
    + rewrite decide_False in Htr by lia. destruct Htr as [Ht Hl]. rewrite Hl in Ha by done.
      injection Ha as <- <-. simpl. auto.
    + rewrite decide_True in Htr by lia. destruct Htr as (Ht & e & s0 & -> & He & Ha0).
      injection Ha as <- <-. destruct e; try done; simpl; eauto 10.
  - assert (k0 < n) as Hlt by (destruct (n - k0) eqn:E; [done|lia]).
    replace (n - k0) with (Datatypes.S (n - Datatypes.S k0)) in Hto by lia.
    injection Hto as -> ->. rewrite decide_False in Htr by lia. destruct Htr as [Ht _].
    simpl in Ha. destruct (attempt_op s) as [s1 [[]|e]] eqn:Es.
    all: pose proof (attempt_traced _ _ _ Es) as Ht1; rewrite Ht, <-app_assoc in Ht1.
    + injection Ha as <- <-. exists (Datatypes.S k0). split; [lia|]. simpl. eauto with lia.
    + destruct (is_exception e) eqn:He.
      2: { injection Ha as <- <-. exists (Datatypes.S k0). split; [lia|]. destruct e; try done.
           simpl. auto. }
      case_decide as Hlast.
      * unfold se_bind in Ha. destruct (wait _ s1) as [s2 [[]|e2]] eqn:Ew.
        -- apply (IH (Datatypes.S k0)) in Ha; [done|done|lia|].
           rewrite decide_False by lia. split; [|done].
           rewrite (wait_traced _ _ _ _ Ew), Ht1. simpl. by rewrite <-!app_assoc.
        -- injection Ha as <- <-. rewrite (wait_cancelled _ _ _ _ Ew).
           exists (Datatypes.S k0). split; [lia|]. simpl. right.
           rewrite (wait_traced _ _ _ _ Ew), Ht1. simpl. by rewrite <-!app_assoc.
      * unfold se_bind, se_ret in Ha. apply (IH (Datatypes.S k0)) in Ha; [done|done|lia|].
        assert (Datatypes.S k0 = n) as <- by lia. rewrite decide_True by lia. eauto 10.
Qed.

(** C37: Connecting with retries ends: after [k] of at most [max_attempts] attempts, with
    the waits [backoff], [2 * backoff], ... between them and none after the last, which
    is [backoff * k * (k - 1) / 2] seconds of waiting in all.  It returns when attempt [k]
    has succeeded; it raises an exception only after all attempts, the one of the last
    attempt (an [AssertionError] when none is allowed); a cancellation ends it at once. *)
Theorem retrying_ends max_attempts backoff s s' r :
  retrying attempt_op wait max_attempts backoff s = (s', r) →
  ∃ k, k ≤ max_attempts ∧ retry_ended max_attempts backoff (trace s) s' r k ∧
    (2 * waited (retry_trace backoff k) = backoff * (Z.of_nat k * (Z.of_nat k - 1)))%Z.
Proof.
  intros Hr. enough (∃ k, k ≤ max_attempts ∧ retry_ended max_attempts backoff (trace s) s' r k)
    as (k & ? & ?) by eauto using waited_retry.
  apply (attempts_ended _ _ _ 0 (trace s)) in Hr; [done|by rewrite Nat.sub_0_r|lia|].
  case_decide; [lia|]. by rewrite app_nil_r.
Qed.
End RetryProperties.

(** The defaults: MongoDB waits up to 20 seconds, Redis up to 3. *)
Example default_waits : waited (retry_trace 2 5) = 20%Z ∧ waited (retry_trace 1 3) = 3%Z.
Proof. done. Qed.

(** ** What a client promises to its owner *)

(** A wrapper object: building it, connecting and closing it; [held] says whether it
    holds a driver object that has to be closed. *)
Class Client (W O : Type) := {
  client_new : O;
  client_connect : SE (W * O) PyExc unit;
  client_close : SE (W * O) PyExc unit;
  held : O → bool;
}.

Class ClientLaws (W O : Type) `{Client W O} := {
  new_holds_nothing : held client_new = false;
  connected_held s s' : client_connect s = (s', Ok tt) → held s'.2 = true;
  (** However it ends, a closed client holds nothing; only a cancellation gets out. *)
  close_releases s s' r : client_close s = (s', r) →
    held s'.2 = false ∧ (r = Ok tt ∨ r = Err CancelledError);
}.

(** What the loop keeps when it raises, and has when it returns. *)
Lemma retrying_inv {S} (op : SE S PyExc unit) wait n b (I Q : S → Prop) s s' r :
  (∀ s s' r, op s = (s', r) → I s → if isOk r then Q s' else I s') →
  (∀ d s s' r, wait d s = (s', r) → I s → I s') →
  I s → retrying op wait n b s = (s', r) → if isOk r then Q s' else I s'.
Proof.
  intros Hop Hw. unfold retrying. generalize (@None PyExc), (seq 1 n). intros last todo. revert s last.
  induction todo as [|a todo IH]; intros s last HI; simpl.
  - destruct last; by intros [= <- <-].
  - destruct (op s) as [s1 [[]|e]] eqn:E; pose proof (Hop _ _ _ E HI) as H1; simpl in H1.
    + by intros [= <- <-].
    + destruct (is_exception e); [|by intros [= <- <-]].
      intros [(e2 & He & ->)|(s2 & u & He & Hr)]%se_bind_inv.
      * case_decide; [|done]. by apply (Hw _ _ _ _ He).
      * eapply IH; [|exact Hr]. case_decide; [by apply (Hw _ _ _ _ He)|by injection He as <-].
Qed.

(** A [finally] that resets the object resets it however the body ends. *)
Lemma finally_spec {S A} (m : SE S PyExc A) f s s' r :
  finally m f s = (s', r) → ∃ s1, m s = (s1, r) ∧ s' = f s1.
Proof. unfold finally. destruct (m s) as [s1 r1]. naive_solver. Qed.

(** Logging what is raised lets only a cancellation out. *)
Lemma swallowed {S} (m : SE S PyExc unit) s s' r :
  try_except m (λ _, se_ret tt) s = (s', r) → r = Ok tt ∨ r = Err CancelledError.
Proof.
  unfold try_except, se_catch. destruct (m s) as [s1 [[]|[]]]; intros [= <- <-]; auto.
Qed.

Section MongoClientLaws.
Context {W MC : Type} `{!Motor W MC, !Asyncio W}.

Lemma mongo_lift {A} (op : SE W PyExc A) (s s' : W * Mongo.MongoClient MC) r :
  Mongo.lift op s = (s', r) → s'.2 = s.2.
Proof. unfold Mongo.lift. destruct (op s.1). by intros [= <- _]. Qed.

Lemma mongo_attempt (s s' : W * Mongo.MongoClient MC) r :
  Mongo.attempt s = (s', r) →
  if isOk r then ∃ c, s'.2 = Mongo.mkMongo (Some c) (Some c)
  else s'.2 = s.2 ∨ ∃ c, s'.2 = Mongo.mkMongo (Some c) (Mongo.mg_db s.2).
Proof.
  unfold Mongo.attempt. intros [(e & He & ->)|(s1 & c & H1 & Hr)]%se_bind_inv.
  { apply mongo_lift in He. by left. }
  apply mongo_lift in H1. apply se_bind_inv in Hr as [(e & He & ->)|(s2 & u & H2 & Hr)].
  { apply mongo_lift in He. left. congruence. }
  apply mongo_lift in H2. unfold Mongo.modify, Mongo.lift, se_modify, se_bind in Hr. simpl in Hr.
  destruct (motor_database c s2.1) as [w [[]|e]]; injection Hr as <- <-; simpl; [eauto|].
  right. exists c. congruence.
Qed.

(** A database is kept only when the server has answered. *)
Lemma mongo_connect_result n b (s s' : W * Mongo.MongoClient MC) r :
  Mongo.connect_with_retry n b s = (s', r) →
  if isOk r then ∃ c, s'.2 = Mongo.mkMongo (Some c) (Some c)
  else Mongo.mg_db s'.2 = Mongo.mg_db s.2.
Proof.
  intros Hr. eapply (retrying_inv _ _ _ _ (λ x, Mongo.mg_db x.2 = Mongo.mg_db s.2) (λ x, ∃ c, x.2 = _)) in Hr;
    [exact Hr| | |done].
  - intros x x' r' Hx%mongo_attempt Hi. destruct (isOk r'); [done|].
    destruct Hx as [->|[c ->]]; done.
  - intros d x x' r' Hx%mongo_lift Hi. congruence.
Qed.

(** [init_infra] uses the defaults. *)
#[export] Instance mongo_as_client : Client W (Mongo.MongoClient MC) := {
  client_new := Mongo.init;
  client_connect := Mongo.connect_with_retry 5 2;
  client_close := Mongo.close;
  held o := bool_decide (is_Some (Mongo.mg_client o));
}.

#[export] Instance mongo_client_laws : ClientLaws W (Mongo.MongoClient MC).
Proof.
  split; [done| |]; simpl.
  - intros s s' (c & Hc)%mongo_connect_result. rewrite Hc. done.
  - intros s s' r. unfold Mongo.close, se_gets, se_bind at 1.
    destruct (Mongo.mg_client s.2) eqn:E.
    + intros (s1 & Hm & ->)%finally_spec. apply swallowed in Hm. done.
    + intros [= <- <-]. simpl. rewrite E. auto.
Qed.
End MongoClientLaws.

Section RedisClientLaws.
Context {W RC SN : Type} `{!RedisDriver W RC SN, !Asyncio W} (settings : Redis.Settings).

Lemma redis_lift {A} (op : SE W PyExc A) (s s' : W * Redis.RedisClient RC SN) r :
  Redis.lift op s = (s', r) → s'.2 = s.2.
Proof. unfold Redis.lift. destruct (op s.1). by intros [= <- _]. Qed.

Lemma redis_sentinel_master pw (s s' : W * Redis.RedisClient RC SN) r :
  Redis._sentinel_master settings pw s = (s', r) → s'.2 = s.2.
Proof.
  unfold Redis._sentinel_master. destruct (mapM _ _); [|by intros [= <- _]].
  intros [(e & He & ->)|(s1 & sn & H1 & Hr)]%se_bind_inv; [by apply redis_lift in He|].
  apply redis_lift in H1. apply se_bind_inv in Hr as [(e & He & ->)|(s2 & m & H2 & Hr)].
  - apply redis_lift in He. congruence.
  - apply redis_lift in H2. injection Hr as <- _. congruence.
Qed.

(** A client is kept only when the server has answered. *)
Lemma redis_connect (s s' : W * Redis.RedisClient RC SN) r :
  Redis.connect settings s = (s', r) →
  if isOk r then is_Some (Redis.rd_client s'.2) else s'.2 = s.2.
Proof.
  unfold Redis.connect. intros Hc. apply se_bind_inv in Hc as Hc.
  assert (∀ s1 x, (if decide (Redis.redis_sentinels settings ≠ []) then
           ms <- Redis._sentinel_master settings (or_none (Redis.redis_password settings)) ;;
           se_ret (ms.1, Some ms.2)
         else
           client <- Redis.lift (redis_from_url (Redis.redis_url settings)
             (or_none (Redis.redis_password settings))) ;;
           se_ret (client, None)) s = (s1, x) → s1.2 = s.2) as Hcs.
  { intros s1 x. case_decide.
    - intros [(e & He & ->)|(s2 & m & H2 & Hr)]%se_bind_inv.
      + by apply redis_sentinel_master in He.
      + apply redis_sentinel_master in H2. by injection Hr as <- _.
    - intros [(e & He & ->)|(s2 & m & H2 & Hr)]%se_bind_inv.
      + by apply redis_lift in He.
      + apply redis_lift in H2. by injection Hr as <- _. }
  destruct Hc as [(e & He & ->)|(s1 & cs & H1 & Hr)]; [by apply Hcs in He|].
  apply Hcs in H1. apply se_bind_inv in Hr as [(e & He & ->)|(s2 & u & H2 & Hr)].
  - apply redis_lift in He. simpl. congruence.
  - injection Hr as <- <-. simpl. eauto.
Qed.

Lemma redis_gather calls (s s' : W * Redis.RedisClient RC SN) r :
  Redis.gather calls s = (s', r) → r = Ok tt.
Proof. revert s. induction calls as [|c calls IH]; intros s; [by intros [= _ <-]|apply IH]. Qed.

#[export] Instance redis_as_client : Client W (Redis.RedisClient RC SN) := {
  client_new := Redis.init;
  client_connect := Redis.connect_with_retry settings 3 1;
  client_close := Redis.close;
  held o := bool_decide (is_Some (Redis.rd_client o));
}.

#[export] Instance redis_client_laws : ClientLaws W (Redis.RedisClient RC SN).
Proof.
  split; [done| |]; simpl.
  - intros s s' Hr. apply bool_decide_eq_true.
    eapply (retrying_inv _ _ _ _ (λ x, True) (λ x, is_Some (Redis.rd_client x.2))) in Hr;
      [exact Hr| |done|done].
    intros x x' r' Hx%redis_connect _. by destruct (isOk r').
  - intros s s' r. unfold Redis.close, se_gets. intros Hr.
    assert (∀ s1 (x : res PyExc unit), match Redis.rd_client s.2 with
      | None => se_ret tt
      | Some client => finally (try_except (Redis.lift (redis_aclose client)) (λ _, se_ret tt))
          (λ s, (s.1, Redis.mkRedis None (Redis.rd_sentinel s.2)))
      end s = (s1, x) →
      Redis.rd_client s1.2 = None ∧ (x = Ok tt ∨ x = Err CancelledError)) as H1.
    { intros s1 x. destruct (Redis.rd_client s.2) eqn:E.
      - intros (s2 & Hm & ->)%finally_spec. apply swallowed in Hm. done.
      - intros [= <- <-]. auto. }
    unfold se_bind at 1 in Hr. apply se_bind_inv in Hr as [(e & He & ->)|(s1 & u & Hc & Hr)].
    + apply H1 in He as [-> ?]. done.
    + apply H1 in Hc as [Hn _]. unfold se_bind in Hr.
      destruct (Redis.rd_sentinel s1.2).
      * apply finally_spec in Hr as (s2 & Hg & ->). simpl.
        assert (s2.2 = s1.2) as Hs2.
        { revert Hg. clear. generalize s1. induction (sentinels s0) as [|c l IH];
            intros s; [by intros [= <- _]|]. simpl. intros Hg. rewrite (IH _ Hg).
          by destruct (Redis.lift (redis_aclose c) s) as [s3 x] eqn:E; apply redis_lift in E. }
        rewrite Hs2, Hn. apply redis_gather in Hg. auto.
      * injection Hr as <- <-. rewrite Hn. auto.
Qed.
End RedisClientLaws.

Section ZkClientLaws.
Context {W KC H St : Type} `{!Kazoo W KC} (root : string) (budget : Z) (budget_text : string).

Lemma zk_lift {A} (op : SE W PyExc A) (s s' : W * Zk.ZKClient KC H) r :
  Zk.lift op s = (s', r) → s'.2 = s.2.
Proof. unfold Zk.lift. destruct (op s.1). by intros [= <- _]. Qed.

(** Once there is a kazoo object it is kept, also when starting it fails. *)
Lemma zk_connect_keeps (s s' : W * Zk.ZKClient KC H) r :
  Zk.connect root budget budget_text s = (s', r) → isOk r = true →
  is_Some (Zk.zk_kazoo s'.2).
Proof.
  unfold Zk.connect. intros Hr Hok.
  apply se_bind_inv in Hr as [(e & [=] & _)|(s1 & u & [= <- _] & Hr)].
  apply se_bind_inv in Hr as [(e & _ & ->)|(s1 & k & _ & Hr)]; [done|].
  apply se_bind_inv in Hr as [(e & [=] & _)|(s2 & u' & [= <- _] & Hr)].
  apply se_bind_inv in Hr as [(e & _ & ->)|(s3 & u2 & H3%zk_lift & Hr)]; [done|].
  apply se_bind_inv in Hr as [(e & _ & ->)|(s4 & u3 & H4 & Hr)]; [done|].
  apply zk_lift in Hr. unfold se_catch in H4.
  destruct (Zk.lift (kazoo_start k budget) s3) as [s5 [a|e]] eqn:E5.
  - apply zk_lift in E5. injection H4 as <- _. rewrite Hr, E5, H3. simpl. eauto.
  - by destruct e.
Qed.

#[export] Instance zk_as_client : Client W (Zk.ZKClient KC H) := {
  client_new := Zk.init;
  client_connect := Zk.connect root budget budget_text;
  client_close := Zk.close;
  held o := bool_decide (is_Some (Zk.zk_kazoo o));
}.

#[export] Instance zk_client_laws : ClientLaws W (Zk.ZKClient KC H).
Proof.
  split; [done| |]; simpl.
  - intros s s' Hr. apply bool_decide_eq_true. by apply zk_connect_keeps in Hr.
  - intros s s' r. unfold Zk.close, se_gets, se_bind at 1.
    destruct (Zk.zk_kazoo s.2) eqn:E.
    + intros (s1 & Hm & ->)%finally_spec. apply swallowed in Hm. done.
    + intros [= <- <-]. simpl. rewrite E. auto.
Qed.

(** The listener gets the state to every handler, in the order they were registered,
    also past those whose hand-over raises. *)
Section Bridge.
Context `{!Zk.LoopBridge W H St}.
(** What has been handed over, and that it is recorded whether or not it raises. *)
Context (handed : W → list (H * St)).
Hypothesis run_recorded : ∀ h st w w' r,
  Zk.run_threadsafe h st w = (w', r) → handed w' = handed w ++ [(h, st)].
Hypothesis run_raises : ∀ h st w w' r,
  Zk.run_threadsafe h st w = (w', r) → r ≠ Err CancelledError.

Lemma zk_dispatch hs st (s s' : W * Zk.ZKClient KC H) r :
  Zk.dispatch hs st s = (s', r) →
  r = Ok tt ∧ s'.2 = s.2 ∧ handed s'.1 = handed s.1 ++ ((λ h, (h, st)) <$> hs).
Proof.
  revert s. induction hs as [|h hs IH]; intros s; simpl.
  - intros [= <- <-]. by rewrite app_nil_r.
  - assert (∀ s1 x, try_except (Zk.lift (Zk.run_threadsafe h st)) (λ _, se_ret tt) s = (s1, x) →
      x = Ok tt ∧ s1.2 = s.2 ∧ handed s1.1 = handed s.1 ++ [(h, st)]) as Hone.
    { intros s1 x Hx. pose proof (swallowed _ _ _ _ Hx) as Hs. revert Hx.
      unfold try_except, se_catch, Zk.lift. destruct (Zk.run_threadsafe h st s.1) as [w y] eqn:E.
      pose proof (run_recorded _ _ _ _ _ E). pose proof (run_raises _ _ _ _ _ E).
      destruct y as [[]|[]]; intros [= <- <-]; done. }
    intros [(e & He & ->)|(s1 & u & H1 & Hr)]%se_bind_inv.
    + by apply Hone in He as [? _].
    + apply Hone in H1 as (_ & H2 & H3). apply IH in Hr as (-> & Hr & Hh).
      rewrite Hr, Hh, H3, H2, <-app_assoc. done.
Qed.

Lemma zk_state_listener st (s : W * Zk.ZKClient KC H) :
  Zk.zk_loop s.2 = true → Zk.loop_is_closed s.1 = false → Zk.loop_is_running s.1 = Ok true →
  let '(s', r) := Zk._state_listener st s in
  r = Ok tt ∧ handed s'.1 = handed s.1 ++ ((λ h, (h, st)) <$> Zk.zk_handlers s.2).
Proof.
  intros Hl Hc Hr. unfold Zk._state_listener. rewrite Hl, Hc, Hr. simpl.
  destruct (Zk.dispatch _ st s) as [s' r] eqn:E. by apply zk_dispatch in E as (-> & _ & ->).
Qed.
End Bridge.

(** The version is only information: nothing but a cancellation gets out. *)
Lemma zk_version_never_raises (s : W * Zk.ZKClient KC H) e :
  (Zk.get_server_version s).2 = Err e → e = CancelledError.
Proof.
  unfold Zk.get_server_version. destruct (Zk.zk_kazoo s.2) as [k|]; [|done].
  destruct (Zk.zk_loop s.2); [|done]. unfold try_except, se_catch.
  destruct (se_bind _ _ s) as [s1 [a|[]]]; simpl; congruence.
Qed.
End ZkClientLaws.

(** ** Sentinel addresses *)
Lemma parse_sentinel_no_port host :
  strip host = host → has_char ":"%char host = false →
  Redis.parse_sentinel host = Some (host, 26379%Z).
Proof.
  intros Hs Hc. unfold Redis.parse_sentinel. rewrite Hs, rpartition_None by done. reflexivity.
Qed.

Lemma parse_sentinel_port host port n :
  let entry := host +:+ String ":" "" +:+ port in
  strip entry = entry → has_char ":"%char port = false → py_int port = Some n →
  Redis.parse_sentinel entry = Some (host, n).
Proof.
  cbv zeta. intros Hs Hc Hn. unfold Redis.parse_sentinel. rewrite Hs, rpartition_app by done.
  simpl. by rewrite Hn.
Qed.

Example sentinel_entries :
  Redis.parse_sentinel " s1.redis:26380 " = Some ("s1.redis", 26380%Z) ∧
  Redis.parse_sentinel "s2" = Some ("s2", 26379%Z) ∧
  Redis.parse_sentinel "s3:" = None.
Proof. by vm_compute. Qed.

Example zk_version_text :
  Zk.version_of "Zookeeper version: 3.5.5-390fe37, built on 05/03/2019"
  = "3.5.5-390fe37, built on 05/03/2019".
Proof. by vm_compute. Qed.

(** ** Witness: two attempts fail, the third one succeeds *)
Definition ex_attempt : SE (nat * list RetryEvent) PyExc unit := λ s,
  ((pred s.1, s.2 ++ [Attempted]),
   if decide (s.1 = 0) then Ok tt else Err (DriverError "ConnectionError")).
Definition ex_wait (d : Z) : SE (nat * list RetryEvent) PyExc unit := λ s,
  ((s.1, s.2 ++ [Waited d]), Ok tt).

Lemma retrying_ends_witness :
  let '(s', r) := retrying ex_attempt ex_wait 5 2 (2, []) in
  r = Ok tt ∧ s'.2 = [Attempted; Waited 2; Attempted; Waited 4; Attempted] ∧
  ∃ k, k ≤ 5 ∧ retry_ended ex_attempt snd 5 2 [] s' r k.
Proof.
  destruct (retrying ex_attempt ex_wait 5 2 (2, [])) as [s' r] eqn:E.
  pose proof E as E'. vm_compute in E'. injection E' as <- <-.
  split; [done|]. split; [done|].
  destruct (retrying_ends ex_attempt ex_wait snd) with (max_attempts := 5) (backoff := 2%Z)
    (s := (2, [] : list RetryEvent)) (s' := (0, [Attempted; Waited 2; Attempted; Waited 4; Attempted]))
    (r := @Ok PyExc unit tt) as (k & Hk & Hr & _); [| | |exact E|eauto].
  - by intros s s' r [= <- _].
  - by intros d s s' r [= <- _].
  - done.
Defined.
