(* ===== verification/Startup.v ===== *)
(** * Startup and shutdown ([src/startup/*.py], [src/main.py])

    The five clients are the class [Client] of [Clients.v]: MongoDB, Redis and ZooKeeper
    are its instances there, Elasticsearch and the mail endpoint are made instances here
    from their own models.  [init_infra] and [close_partial] work on an [InfraContext],
    [init_repos] on the administration of the database, and [lifespan] is the whole life
    of the process.  Everything that connects, closes, starts or stops leaves an event. *)
From stdpp Require Import base list strings sets gmap.
From Stdlib Require Import ZArith Lia.
From S2P Require Import Prelude PyStr Cache EsClient EmailClient Clients.
Local Open Scope se_scope.

(** ** The infrastructure clients *)
Inductive Service : Type := Elasticsearch | MongoDB | RedisDB | EmailApi | ZooKeeper.

Inductive Event : Type :=
| Phase (name : string)
| Connecting (x : Service)
| Closing (x : Service)
| Stopping (name : string)
| VersionMismatch (x : Service)
| SelfAlert
| Serving.

Section Infra.
Context {W OE OM OR OA OZ : Type}.
Context `{!Client W OE, !Client W OM, !Client W OR, !Client W OA, !Client W OZ}.

Record InfraContext := mkInfra
  { ic_es : option OE; ic_mongo : option OM; ic_redis : option OR; ic_email : option OA;
    ic_zk : option OZ }.

Definition empty_infra : InfraContext := mkInfra None None None None None.

Definition put_es (o : option OE) (c : InfraContext) : InfraContext :=
  mkInfra o (ic_mongo c) (ic_redis c) (ic_email c) (ic_zk c).
Definition put_mongo (o : option OM) (c : InfraContext) : InfraContext :=
  mkInfra (ic_es c) o (ic_redis c) (ic_email c) (ic_zk c).
Definition put_redis (o : option OR) (c : InfraContext) : InfraContext :=
  mkInfra (ic_es c) (ic_mongo c) o (ic_email c) (ic_zk c).
Definition put_email (o : option OA) (c : InfraContext) : InfraContext :=
  mkInfra (ic_es c) (ic_mongo c) (ic_redis c) o (ic_zk c).
Definition put_zk (o : option OZ) (c : InfraContext) : InfraContext :=
  mkInfra (ic_es c) (ic_mongo c) (ic_redis c) (ic_email c) o.

(** The outside world, what has been logged, and the context. *)
Definition InfraState : Type := W * list Event * InfraContext.
Definition I (A : Type) : Type := SE InfraState PyExc A.

(** [ctx.x = X(settings); await ctx.x.connect()] *)
Definition connect_one {O} `{!Client W O} (x : Service)
    (put : option O → InfraContext → InfraContext) : I unit := λ s,
  let '(w, log, ctx) := s in
  let '((w', o), r) := client_connect (w, client_new) in
  ((w', log ++ [Connecting x], put (Some o) ctx), r).

(** [if client is None: continue;  try: await client.close()  except Exception: log] *)
Definition close_one {O} `{!Client W O} (x : Service) (get : InfraContext → option O)
    (put : option O → InfraContext → InfraContext) : I unit := λ s,
  let '(w, log, ctx) := s in
  match get ctx with
  | None => (s, Ok tt)
  | Some o =>
      let '((w', o'), r) := try_except client_close (λ _, se_ret tt) (w, o) in
      ((w', log ++ [Closing x], put (Some o') ctx), r)
  end.

Definition close_partial : I unit :=
  close_one ZooKeeper ic_zk put_zk ;;;
  close_one EmailApi ic_email put_email ;;;
  close_one RedisDB ic_redis put_redis ;;;
  close_one MongoDB ic_mongo put_mongo ;;;
  close_one Elasticsearch ic_es put_es.

Definition connect_all (debug_read_only : bool) : I unit :=
  connect_one Elasticsearch put_es ;;;
  connect_one MongoDB put_mongo ;;;
  connect_one RedisDB put_redis ;;;
  connect_one EmailApi put_email ;;;
  if debug_read_only then se_ret tt else connect_one ZooKeeper put_zk.

Definition init_infra (debug_read_only : bool) : I unit :=
  se_modify (λ s, (s.1, empty_infra)) ;;;
  try_except (connect_all debug_read_only) (λ e, close_partial ;;; se_raise e).
End Infra.
Arguments InfraContext : clear implicits.
Arguments InfraState : clear implicits.

(** ** Repositories *)
Definition COLL_PROFILE : string := "RESOURCE_MONITOR_PROFILE".

(** The administration of a database: [create_index] of the unique index on the scope
    triple is given the collection's name. *)
Class MongoAdmin (W : Type) := {
  list_collection_names : SE W PyExc (list string);
  create_collection : string → SE W PyExc unit;
  create_scope_index : string → SE W PyExc unit;
}.

Section Repos.
Context {W : Type} `{!MongoAdmin W}.

(** The collection, when it is missing; another instance may create it meanwhile. *)
Definition ensure_collection : SE W PyExc unit :=
  existing <- list_collection_names ;;
  if decide (COLL_PROFILE ∈ existing) then se_ret tt
  else se_catch (create_collection COLL_PROFILE)
         (λ e, if decide (e = OperationFailure 48) then se_ret tt else se_raise e).

(** [mongo]: whether the context has a MongoDB client that is connected. *)
Definition init_repos (mongo : option bool) (debug_read_only : bool) : SE W PyExc unit :=
  match mongo with
  | None => se_raise (RuntimeError "init_repos requires a connected MongoClient")
  | Some false =>
      se_raise (RuntimeError "MongoClient.connect_with_retry() must be called first")
  | Some true =>
      if debug_read_only then se_ret tt
      else ensure_collection ;;; create_scope_index COLL_PROFILE
  end.
End Repos.

(** ** The life of the process *)

(** The components that the phases start and stop, what the versions are read with, and
    the service itself, from the [yield] to the end of serving. *)
Class Parts (W : Type) := {
  redis_version : SE W PyExc string;
  zk_version : SE W PyExc string;
  partition_manager_start : SE W PyExc unit;
  leader_election_start : SE W PyExc unit;
  scheduler_start : SE W PyExc unit;
  scheduler_shutdown : SE W PyExc unit;
  partition_manager_stop : SE W PyExc unit;
  leader_election_stop : SE W PyExc unit;
  serve : SE W PyExc unit;
  (** [email.send_alert] of the service's own failure *)
  send_self_alert : SE W PyExc unit;
}.

(** [try: m  finally: f] where [f] may raise instead. *)
Definition try_finally {S A} (m : SE S PyExc A) (f : SE S PyExc unit) : SE S PyExc A := λ s,
  let '(s', r) := m s in
  match f s' with
  | (s'', Ok _) => (s'', r)
  | (s'', Err e) => (s'', Err e)
  end.

Section Lifespan.
Context {W OE OM OR OA OZ : Type}.
Context `{!Client W OE, !Client W OM, !Client W OR, !Client W OA, !Client W OZ}.
Context `{!MongoAdmin W, !Parts W}.
(** [settings.debug_read_only] *)
Variable debug_read_only : bool.

Notation Ctx := (InfraContext OE OM OR OA OZ).

(** [lf_ctx] is the context that [init_infra] works on; [lf_infra] says whether the
    variable [infra] refers to it; [lf_attrs] are the attributes of [app.state],
    [lf_complete] the gauge [STARTUP_COMPLETE]. *)
Record Life := mkLife
  { lf_world : W; lf_log : list Event; lf_ctx : Ctx; lf_infra : bool;
    lf_attrs : list string; lf_complete : bool }.

Definition L (A : Type) : Type := SE Life PyExc A.

Definition log (e : Event) : L unit := se_modify (λ s,
  mkLife (lf_world s) (lf_log s ++ [e]) (lf_ctx s) (lf_infra s) (lf_attrs s) (lf_complete s)).

Definition set_attrs (names : list string) : L unit := se_modify (λ s,
  mkLife (lf_world s) (lf_log s) (lf_ctx s) (lf_infra s) names (lf_complete s)).

Definition set_complete (b : bool) : L unit := se_modify (λ s,
  mkLife (lf_world s) (lf_log s) (lf_ctx s) (lf_infra s) (lf_attrs s) b).

Definition set_infra : L unit := se_modify (λ s,
  mkLife (lf_world s) (lf_log s) (lf_ctx s) true (lf_attrs s) (lf_complete s)).

(** A call on the outside world. *)
Definition on_world {A} (op : SE W PyExc A) : L A := λ s,
  let '(w, r) := op (lf_world s) in
  (mkLife w (lf_log s) (lf_ctx s) (lf_infra s) (lf_attrs s) (lf_complete s), r).

(** A step on the clients. *)
Definition on_infra {A} (op : SE (W * list Event * Ctx) PyExc A) : L A := λ s,
  let '(w, lg, c, r) := op (lf_world s, lf_log s, lf_ctx s) in
  (mkLife w lg c (lf_infra s) (lf_attrs s) (lf_complete s), r).

(** [async with startup_phase(name): m]; a failure is logged and raised again. *)
Definition startup_phase {A} (name : string) (m : L A) : L A := log (Phase name) ;;; m.

(** Only information: whatever reading the versions raises is ignored. *)
Definition check_version (x : Service) (read : SE W PyExc string) (mismatch : string → bool)
  : L unit :=
  try_except
    (v <- on_world read ;;
     if mismatch v then log (VersionMismatch x) else se_ret tt)
    (λ _, se_ret tt).

Definition _verify_infra_versions : L unit :=
  c <- se_gets lf_ctx ;;
  (match ic_redis c with
   | None => se_ret tt
   | Some _ => check_version RedisDB redis_version (λ v, negb (startswith "5." v))
   end) ;;;
  match ic_zk c with
  | None => se_ret tt
  | Some _ => check_version ZooKeeper zk_version
                (λ v, negb (bool_decide (v = "unknown")) && negb (contains "3.5." v))
  end.

Definition mongo_state (c : Ctx) : option bool := held <$> ic_mongo c.

(** The wiring of the distributed layer needs its two clients. *)
Definition init_distributed : L unit :=
  c <- se_gets lf_ctx ;;
  match ic_zk c, ic_redis c with
  | None, _ => se_raise (RuntimeError "init_distributed requires a connected ZKClient")
  | _, None => se_raise (RuntimeError "init_distributed requires a connected RedisClient")
  | Some _, Some _ => se_ret tt
  end.

(** What is put on [app.state]. *)
Definition base_attrs : list string :=
  ["settings"; "infra"; "repos"; "scheduler"; "es_client"; "mongo_client"; "redis_client";
   "zk_client"; "email_client"].
Definition distributed_attrs : list string :=
  ["distributed"; "partition_manager"; "leader_election"].
Definition attrs_set : list string :=
  base_attrs ++ (if debug_read_only then [] else distributed_attrs) ++ ["cooldown_manager"].

(** What is deleted from it at the end. *)
Definition attrs_deleted : list string :=
  base_attrs ++ distributed_attrs ++ ["cooldown_manager"].

Definition boot : L unit :=
  startup_phase "init_infra" (on_infra (init_infra debug_read_only) ;;; set_infra) ;;;
  startup_phase "verify_versions" _verify_infra_versions ;;;
  startup_phase "init_repos"
    (c <- se_gets lf_ctx ;; on_world (init_repos (mongo_state c) debug_read_only)) ;;;
  (if debug_read_only then se_ret tt else startup_phase "init_distributed" init_distributed) ;;;
  startup_phase "init_scheduler" (se_ret tt) ;;;
  (old <- se_gets lf_attrs ;; set_attrs (old ++ attrs_set)) ;;;
  (if debug_read_only then se_ret tt
   else startup_phase "partition_manager_start" (on_world partition_manager_start) ;;;
        startup_phase "leader_election_start" (on_world leader_election_start)) ;;;
  startup_phase "scheduler_start" (on_world scheduler_start) ;;;
  set_complete true.

(** Best effort, and only when there is a mail client. *)
Definition _self_alert_critical : L unit :=
  s <- se_gets (λ s, (lf_infra s, ic_email (lf_ctx s))) ;;
  match s with
  | (true, Some _) => try_except (log SelfAlert ;;; on_world send_self_alert) (λ _, se_ret tt)
  | _ => se_ret tt
  end.

(** [if hasattr(app.state, name): try: stop  except Exception: log] *)
Definition stop_part (name : string) (stop : SE W PyExc unit) : L unit :=
  attrs <- se_gets lf_attrs ;;
  if decide (name ∈ attrs)
  then log (Stopping name) ;;; try_except (on_world stop) (λ _, se_ret tt)
  else se_ret tt.

Definition teardown : L unit :=
  set_complete false ;;;
  stop_part "scheduler" scheduler_shutdown ;;;
  stop_part "partition_manager" partition_manager_stop ;;;
  stop_part "leader_election" leader_election_stop ;;;
  (i <- se_gets lf_infra ;; if (i : bool) then on_infra close_partial else se_ret tt) ;;;
  attrs <- se_gets lf_attrs ;;
  set_attrs (filter (λ n, n ∉ attrs_deleted) attrs).

Definition lifespan : L unit :=
  try_finally
    (try_except (boot ;;; log Serving ;;; on_world serve)
       (λ e, _self_alert_critical ;;; se_raise e))
    teardown.
End Lifespan.
Arguments Life : clear implicits.

(** ** Properties of the clients' startup *)
Section InfraProperties.
Context {W OE OM OR OA OZ : Type}.
Context `{!Client W OE, !Client W OM, !Client W OR, !Client W OA, !Client W OZ}.
Context `{!ClientLaws W OE, !ClientLaws W OM, !ClientLaws W OR, !ClientLaws W OA,
  !ClientLaws W OZ}.

Notation Ctx := (InfraContext OE OM OR OA OZ).
Notation St := (InfraState W OE OM OR OA OZ).

Definition held_at {O} `{!Client W O} (o : option O) : bool :=
  match o with Some o => held o | None => false end.

(** The clients of a context that hold something, and those that have been made, in the
    order of making. *)
Definition holding (c : Ctx) : list Service :=
  (if held_at (ic_es c) then [Elasticsearch] else []) ++
  (if held_at (ic_mongo c) then [MongoDB] else []) ++
  (if held_at (ic_redis c) then [RedisDB] else []) ++
  (if held_at (ic_email c) then [EmailApi] else []) ++
  (if held_at (ic_zk c) then [ZooKeeper] else []).

Definition made_if {O} (x : Service) (o : option O) : list Service :=
  match o with Some _ => [x] | None => [] end.
Definition made (c : Ctx) : list Service :=
  made_if Elasticsearch (ic_es c) ++ made_if MongoDB (ic_mongo c) ++
  made_if RedisDB (ic_redis c) ++ made_if EmailApi (ic_email c) ++ made_if ZooKeeper (ic_zk c).

(** What [init_infra] connects to, in order. *)
Definition services (debug_read_only : bool) : list Service :=
  [Elasticsearch; MongoDB; RedisDB; EmailApi] ++
  (if debug_read_only then [] else [ZooKeeper]).

Lemma connect_one_spec {O} `{!Client W O, !ClientLaws W O} x
    (put : option O → Ctx → Ctx) (s s' : St) r :
  connect_one x put s = (s', r) →
  ∃ o, s'.1.2 = s.1.2 ++ [Connecting x] ∧ s'.2 = put (Some o) s.2 ∧
    (r = Ok tt → held o = true).
Proof.
  unfold connect_one. destruct s as [[w log] c].
  destruct (client_connect (w, client_new)) as [[w' o] r'] eqn:E. intros [= <- <-].
  exists o. split; [done|]. split; [done|]. intros ->. by apply connected_held in E.
Qed.

Lemma close_one_spec {O} `{!Client W O, !ClientLaws W O} x
    (get : Ctx → option O) (put : option O → Ctx → Ctx) (s s' : St) r :
  (∀ c, put (get c) c = c) → close_one x get put s = (s', r) →
  ∃ o, s'.1.2 = s.1.2 ++ (Closing <$> made_if x (get s.2)) ∧ s'.2 = put o s.2 ∧
    made_if x o = made_if x (get s.2) ∧ held_at o = false ∧ (r = Ok tt ∨ r = Err CancelledError).
Proof.
  intros Hlens. unfold close_one. destruct s as [[w log] c]. destruct (get c) as [o|] eqn:Eg.
  - destruct (try_except _ _ _) as [[w' o'] r'] eqn:E. intros [= <- <-]. exists (Some o').
    simpl. rewrite Eg. pose proof (swallowed _ _ _ _ E).
    split_and!; try done. unfold try_except, se_catch in E.
    destruct (client_close (w, o)) as [s1 r1] eqn:E1. apply close_releases in E1 as [Hh Hr].
    destruct Hr as [->| ->]; simpl in E; injection E as -> _; done.
  - intros [= <- <-]. exists None. simpl. rewrite Eg. simpl. rewrite app_nil_r.
    split_and!; try done; [|auto]. by rewrite <-Eg, Hlens.
Qed.

Lemma bind_not_cancelled {S} (m k : SE S PyExc unit) s s' r :
  (∀ s s' r, m s = (s', r) → r = Ok tt ∨ r = Err CancelledError) →
  (m ;;; k) s = (s', r) → r ≠ Err CancelledError → ∃ s1, m s = (s1, Ok tt) ∧ k s1 = (s', r).
Proof.
  intros Hm [(e & He & ->)|(s1 & [] & H1 & Hr)]%se_bind_inv Hn; [|by exists s1].
  destruct (Hm _ _ _ He) as [|[= ->]]; [done|]. by destruct Hn.
Qed.

(** Whatever has been made is closed, the last made first, and nothing is held then. *)
Lemma close_partial_spec (s s' : St) r :
  close_partial s = (s', r) → r ≠ Err CancelledError →
  r = Ok tt ∧ s'.1.2 = s.1.2 ++ (Closing <$> reverse (made s.2)) ∧ holding s'.2 = []
  ∧ made s'.2 = made s.2.
Proof.
  unfold close_partial. intros Hc Hn.
  assert (∀ c : Ctx, put_zk (ic_zk c) c = c ∧ put_email (ic_email c) c = c
    ∧ put_redis (ic_redis c) c = c ∧ put_mongo (ic_mongo c) c = c
    ∧ put_es (ic_es c) c = c) as Hlens by (by intros []).
  apply bind_not_cancelled in Hc as (s1 & H1 & Hc); [| |done].
  2: { intros a b x Hx. apply close_one_spec in Hx as (? & _ & _ & _ & _ & ?); [done|apply Hlens]. }
  apply bind_not_cancelled in Hc as (s2 & H2 & Hc); [| |done].
  2: { intros a b x Hx. apply close_one_spec in Hx as (? & _ & _ & _ & _ & ?); [done|apply Hlens]. }
  apply bind_not_cancelled in Hc as (s3 & H3 & Hc); [| |done].
  2: { intros a b x Hx. apply close_one_spec in Hx as (? & _ & _ & _ & _ & ?); [done|apply Hlens]. }
  apply bind_not_cancelled in Hc as (s4 & H4 & Hc); [| |done].
  2: { intros a b x Hx. apply close_one_spec in Hx as (? & _ & _ & _ & _ & ?); [done|apply Hlens]. }
  apply close_one_spec in H1 as (oz & L1 & C1 & M1 & F1 & _); [|apply Hlens].
  apply close_one_spec in H2 as (oa & L2 & C2 & M2 & F2 & _); [|apply Hlens].
  apply close_one_spec in H3 as (or & L3 & C3 & M3 & F3 & _); [|apply Hlens].
  apply close_one_spec in H4 as (om & L4 & C4 & M4 & F4 & _); [|apply Hlens].
  apply close_one_spec in Hc as (oe & L5 & C5 & M5 & F5 & Hr); [|apply Hlens].
  split; [by destruct Hr as [?|?]|].
  rewrite L5, L4, L3, L2, L1, C5, C4, C3, C2, C1. rewrite C1 in M2. rewrite C2, C1 in M3.
  rewrite C3, C2, C1 in M4. rewrite C4, C3, C2, C1 in M5. unfold holding, made.
  destruct s.2 as [e m r0 a z]; simpl in *.
  rewrite F1, F2, F3, F4, F5, M1, M2, M3, M4, M5. split_and!; [|done|done].
  rewrite <-!app_assoc, !reverse_app, !fmap_app.
  assert (∀ {O} x (o : option O), reverse (made_if x o) = made_if x o) as Hrev
    by (by intros ? ? []).
  by rewrite !Hrev, <-!app_assoc.
Qed.

(** The clients [l] have been made since the log was [lg]; all of them hold. *)
Definition stage (lg : list Event) (l : list Service) (s : St) : Prop :=
  s.1.2 = lg ++ (Connecting <$> l) ∧ made s.2 = l.
Definition full (lg : list Event) (l : list Service) (s : St) : Prop :=
  stage lg l s ∧ holding s.2 = l.

(** [put] adds the client of [x] to those of [l]. *)
Definition adds {O} `{Client W O} (x : Service) (put : option O → Ctx → Ctx)
    (l : list Service) : Prop :=
  ∀ c o, made c = l → holding c = l →
    made (put (Some o) c) = l ++ [x] ∧ (held o = true → holding (put (Some o) c) = l ++ [x]).

Lemma connect_step {O} `{Client W O, !ClientLaws W O} x (put : option O → Ctx → Ctx)
    lg l (s s' : St) r :
  adds x put l → full lg l s → connect_one x put s = (s', r) →
  stage lg (l ++ [x]) s' ∧ (r = Ok tt → full lg (l ++ [x]) s').
Proof.
  intros Hp [[Hl Hm] Hh] (o & Hlog & Hx & Ho)%connect_one_spec.
  destruct (Hp s.2 o Hm Hh) as [Hm' Hh'].
  assert (stage lg (l ++ [x]) s') as Hs.
  { split; [by rewrite Hlog, Hl, fmap_app, app_assoc|by rewrite Hx]. }
  split; [done|]. intros Hr. split; [done|]. rewrite Hx. auto.
Qed.

Ltac solve_adds :=
  intros [[?|] [?|] [?|] [?|] [?|]] ? Hmade Hhold; unfold made, holding in *; simpl in *;
  try discriminate Hmade; repeat case_match; try discriminate Hhold; split; try done;
  intros Hx; simpl in *; congruence.

Lemma adds_es : adds Elasticsearch put_es [].
Proof. solve_adds. Qed.
Lemma adds_mongo : adds MongoDB put_mongo [Elasticsearch].
Proof. solve_adds. Qed.
Lemma adds_redis : adds RedisDB put_redis [Elasticsearch; MongoDB].
Proof. solve_adds. Qed.
Lemma adds_email : adds EmailApi put_email [Elasticsearch; MongoDB; RedisDB].
Proof. solve_adds. Qed.
Lemma adds_zk : adds ZooKeeper put_zk [Elasticsearch; MongoDB; RedisDB; EmailApi].
Proof. solve_adds. Qed.

Lemma connect_all_spec debug (s s' : St) r :
  full s.1.2 [] s → connect_all debug s = (s', r) →
  ∃ k, stage s.1.2 (take k (services debug)) s' ∧
    (r = Ok tt → full s.1.2 (services debug) s').
Proof.
  intros H0 Hr. unfold connect_all in Hr.
  apply se_bind_inv in Hr as [(e & H1 & ->)|(s1 & [] & H1 & Hr)];
    apply (connect_step _ _ s.1.2 _ _ _ _ adds_es) in H1 as [Hs1 Hf1]; [|done| |done].
  { by exists 1. }
  apply se_bind_inv in Hr as [(e & H2 & ->)|(s2 & [] & H2 & Hr)];
    apply (connect_step _ _ s.1.2 _ _ _ _ adds_mongo) in H2 as [Hs2 Hf2];
    [|exact (Hf1 eq_refl)| |exact (Hf1 eq_refl)].
  { by exists 2. }
  apply se_bind_inv in Hr as [(e & H3 & ->)|(s3 & [] & H3 & Hr)];
    apply (connect_step _ _ s.1.2 _ _ _ _ adds_redis) in H3 as [Hs3 Hf3];
    [|exact (Hf2 eq_refl)| |exact (Hf2 eq_refl)].
  { by exists 3. }
  apply se_bind_inv in Hr as [(e & H4 & ->)|(s4 & [] & H4 & Hr)];
    apply (connect_step _ _ s.1.2 _ _ _ _ adds_email) in H4 as [Hs4 Hf4];
    [|exact (Hf3 eq_refl)| |exact (Hf3 eq_refl)].
  { by exists 4. }
  destruct debug.
  - injection Hr as <- <-. exists 4. auto.
  - apply (connect_step _ _ s.1.2 _ _ _ _ adds_zk) in Hr as [Hs5 Hf5];
      [|exact (Hf4 eq_refl)].
    by exists 5.
Qed.

(** [init_infra] is all or nothing: it returns with every client connected, made in
    the order Elasticsearch, MongoDB, Redis, mail, ZooKeeper (which a debug instance
    never touches); when it raises an exception, it has closed all that it had made,
    the one that failed included, the last first, and no client holds a connection. *)
Theorem init_infra_spec debug (s s' : St) r :
  init_infra debug s = (s', r) →
  match r with
  | Ok _ => s'.1.2 = s.1.2 ++ (Connecting <$> services debug) ∧ made s'.2 = services debug ∧
      holding s'.2 = services debug
  | Err CancelledError => True
  | Err _ => holding s'.2 = [] ∧
      ∃ k, s'.1.2 = s.1.2 ++ (Connecting <$> take k (services debug))
                          ++ (Closing <$> reverse (take k (services debug)))
  end.
Proof.
  unfold init_infra, se_modify, se_bind at 1. intros Hr.
  set (s0 := (s.1, empty_infra)) in *. assert (full s0.1.2 [] s0) as H0.
  { split; [split|]; [|done|done]. by rewrite app_nil_r. }
  unfold try_except, se_catch in Hr. destruct (connect_all debug s0) as [s1 [[]|e]] eqn:E;
    apply connect_all_spec in E as (k & [Hlog Hm] & Hok); [|done| |done].
  - injection Hr as <- <-. by destruct (Hok eq_refl) as [[? ?] ?].
  - destruct (is_exception e) eqn:He; [|injection Hr as <- <-; by destruct e].
    unfold se_bind in Hr. destruct (close_partial s1) as [s2 [[]|e2]] eqn:Ec.
    + apply close_partial_spec in Ec as (_ & Hl & Hh & _); [|done].
      injection Hr as <- <-. rewrite Hlog, Hm, <-app_assoc in Hl. destruct e; eauto.
    + injection Hr as <- <-. destruct (decide (e2 = CancelledError)) as [->|Hne]; [done|].
      apply close_partial_spec in Ec as [? _]; [done|congruence].
Qed.
End InfraProperties.

(** ** The collection and its index *)
Section ReposProperties.
Context {W : Type} `{!MongoAdmin W}.
(** The collections that exist, and those with the unique index on the scope. *)
Context (collections indexed : W → gset string).
(** Collections are only ever added, by this instance or another. *)
Hypothesis list_law : ∀ w w' l, list_collection_names w = (w', Ok l) →
  ∀ c, c ∈ l → c ∈ collections w'.
Hypothesis create_law : ∀ c w w' r, create_collection c w = (w', r) →
  collections w ⊆ collections w' ∧ (r = Ok tt ∨ r = Err (OperationFailure 48) → c ∈ collections w').
Hypothesis index_law : ∀ c w w' r, create_scope_index c w = (w', r) →
  collections w ⊆ collections w' ∧ (r = Ok tt → c ∈ indexed w').

Lemma ensure_collection_spec (w w' : W) :
  ensure_collection w = (w', Ok tt) → COLL_PROFILE ∈ collections w'.
Proof.
  intros (w1 & l & Hl & Hr)%se_bind_Ok. case_decide as Hin.
  - injection Hr as <-. by apply (list_law _ _ _ Hl).
  - unfold se_catch in Hr. destruct (create_collection _ w1) as [w2 [[]|e]] eqn:Ec;
      apply create_law in Ec as [_ Hc].
    + injection Hr as <-. auto.
    + case_decide as He; [|done]. injection Hr as <-. subst e. auto.
Qed.

(** When [init_repos] returns outside of debug mode, the profile collection exists and
    has its unique index on the scope; losing the race to create the collection is no
    failure.  In debug mode, and without a connected client, nothing is touched. *)
Theorem init_repos_spec mongo debug (w w' : W) r :
  init_repos mongo debug w = (w', r) →
  (r = Ok tt → mongo = Some true ∧
     (debug = false → COLL_PROFILE ∈ collections w' ∧ COLL_PROFILE ∈ indexed w')) ∧
  (debug = true ∨ mongo ≠ Some true → w' = w) ∧
  (∀ w1 l w2, mongo = Some true → debug = false →
     list_collection_names w = (w1, Ok l) → COLL_PROFILE ∉ l →
     create_collection COLL_PROFILE w1 = (w2, Err (OperationFailure 48)) →
     create_scope_index COLL_PROFILE w2 = (w', r)).
Proof.
  unfold init_repos. intros Hr. destruct mongo as [[]|];
    [|injection Hr as <- <-; split_and!; naive_solver..].
  destruct debug; [injection Hr as <- <-; split_and!; naive_solver|].
  split_and!; [|naive_solver|].
  - intros ->. apply se_bind_Ok in Hr as (w1 & [] & H1%ensure_collection_spec & H2).
    apply index_law in H2 as [Hsub Hi]. split; [done|]. intros _. split; [set_solver|auto].
  - intros w1 l w2 _ _ Hl Hin Hc. revert Hr. unfold ensure_collection, se_bind, se_catch.
    rewrite Hl, decide_False, Hc, decide_True by done. done.
Qed.
End ReposProperties.

(** ** Properties of the life of the process *)
Section LifespanProperties.
Context {W OE OM OR OA OZ : Type}.
Context `{!Client W OE, !Client W OM, !Client W OR, !Client W OA, !Client W OZ}.
Context `{!ClientLaws W OE, !ClientLaws W OM, !ClientLaws W OR, !ClientLaws W OA,
  !ClientLaws W OZ}.
Context `{!MongoAdmin W, !Parts W}.
Variable debug_read_only : bool.

Notation St := (Life W OE OM OR OA OZ).

Definition infra_event (e : Event) : bool :=
  match e with Connecting _ | Closing _ => true | _ => false end.
Definition infra_events (l : list Event) : list Event :=
  filter (λ e, infra_event e = true) l.

(** The phases that start a part, with the part that is then stopped at the end. *)
Definition starts : list (string * string) :=
  [("partition_manager_start", "partition_manager");
   ("leader_election_start", "leader_election"); ("scheduler_start", "scheduler")].

(** Nothing that concerns the clients; and no start. *)
Definition other_event (e : Event) : Prop := infra_event e = false.
Definition early_event (e : Event) : Prop :=
  infra_event e = false ∧ ∀ p, e = Phase p → p ∉ starts.*1.

(** From [s] to [s'], only events of [P] have been logged, and neither the clients nor
    [app.state] have changed. *)
Definition ext (P : Event → Prop) (s s' : St) : Prop :=
  lf_ctx s' = lf_ctx s ∧ lf_infra s' = lf_infra s ∧ lf_attrs s' = lf_attrs s ∧
  ∃ l, lf_log s' = lf_log s ++ l ∧ Forall P l.

Definition steps {A} (P : Event → Prop) (m : SE St PyExc A) : Prop := ∀ s s' r,
  m s = (s', r) → ext P s s'.

Lemma ext_refl P s : ext P s s.
Proof. split_and!; [done..|]. exists []. by rewrite app_nil_r. Qed.

Lemma ext_trans P s1 s2 s3 : ext P s1 s2 → ext P s2 s3 → ext P s1 s3.
Proof.
  intros (Hc & Hi & Ha & l & Hl & Hf) (Hc' & Hi' & Ha' & l' & Hl' & Hf').
  split_and!; [congruence..|]. exists (l ++ l'). split; [by rewrite Hl', Hl, app_assoc|].
  by apply Forall_app_2.
Qed.

Lemma ext_mono (P Q : Event → Prop) s s' : (∀ e, P e → Q e) → ext P s s' → ext Q s s'.
Proof.
  intros HPQ (? & ? & ? & l & ? & Hf). split_and!; [done..|]. exists l.
  split; [done|]. by eapply Forall_impl.
Qed.

(** What leaves all but the world and the gauge alone. *)
Lemma steps_none {A} P (m : SE St PyExc A) :
  (∀ s, ∃ w c, (m s).1 = mkLife w (lf_log s) (lf_ctx s) (lf_infra s) (lf_attrs s) c) → steps P m.
Proof.
  intros Hm s s' r E. destruct (Hm s) as (w & c & Hs). rewrite E in Hs. simpl in Hs. subst s'.
  split_and!; [done..|]. exists []. by rewrite app_nil_r.
Qed.

Lemma steps_same {A} P (m : SE St PyExc A) : (∀ s, (m s).1 = s) → steps P m.
Proof. intros Hm s s' r E. specialize (Hm s). rewrite E in Hm. simpl in Hm. subst. apply ext_refl. Qed.

Lemma steps_ret {A} P (a : A) : steps P (se_ret a).
Proof. by apply steps_same. Qed.
Lemma steps_raise {A} P e : steps P (@se_raise St PyExc A e).
Proof. by apply steps_same. Qed.
Lemma steps_gets {A} P (f : St → A) : steps P (se_gets f).
Proof. by apply steps_same. Qed.
Lemma steps_world {A} P (op : SE W PyExc A) : steps P (on_world op).
Proof.
  apply steps_none. intros s. unfold on_world. destruct (op _) as [w r]. by eexists _, _.
Qed.
Lemma steps_complete P b : steps P (set_complete b).
Proof. apply steps_none. intros s. by eexists _, _. Qed.
Lemma steps_log (P : Event → Prop) e : P e → steps P (log e).
Proof.
  intros He s s' r [= <- <-]. split_and!; [done..|]. exists [e]. split; [done|].
  by apply Forall_singleton.
Qed.

Lemma steps_bind {A B} P (m : SE St PyExc A) (k : A → SE St PyExc B) :
  steps P m → (∀ a, steps P (k a)) → steps P (se_bind m k).
Proof.
  intros Hm Hk s s' r [(e & He & ->)|(s1 & a & H1 & Hr)]%se_bind_inv; [by apply (Hm _ _ _ He)|].
  eapply ext_trans; [by apply (Hm _ _ _ H1)|by apply (Hk _ _ _ _ Hr)].
Qed.

Lemma steps_catch {A} P (m : SE St PyExc A) h :
  steps P m → (∀ e, steps P (h e)) → steps P (try_except m h).
Proof.
  intros Hm Hh s s' r. unfold try_except, se_catch. destruct (m s) as [s1 [a|e]] eqn:E.
  - intros [= <- <-]. by apply (Hm _ _ _ E).
  - intros Hr. eapply ext_trans; [by apply (Hm _ _ _ E)|]. destruct (is_exception e).
    + by apply (Hh _ _ _ _ Hr).
    + by apply (steps_raise (A := A) P e _ _ _ Hr).
Qed.

(** A phase that starts nothing. *)
Lemma steps_phase {A} name (m : SE St PyExc A) :
  name ∉ starts.*1 → steps early_event m → steps early_event (startup_phase name m).
Proof.
  intros Hn Hm. apply steps_bind; [|done]. apply steps_log. split; [done|]. by intros p [= <-].
Qed.

Lemma steps_versions : steps early_event (_verify_infra_versions : SE St PyExc unit).
Proof.
  assert (∀ x op f, steps early_event (check_version x op f : SE St PyExc unit)) as Hc.
  { intros x op f. apply steps_catch; [|intros; apply steps_ret].
    apply steps_bind; [apply steps_world|]. intros v. destruct (f v); [|apply steps_ret].
    by apply steps_log. }
  apply steps_bind; [apply steps_gets|]. intros c. apply steps_bind; [|intros []];
    case_match; auto using steps_ret.
Qed.

Lemma steps_distributed : steps early_event (init_distributed : SE St PyExc unit).
Proof.
  apply steps_bind; [apply steps_gets|]. intros c. repeat case_match;
    auto using steps_ret, steps_raise.
Qed.

Lemma steps_repos : steps early_event (c <- se_gets lf_ctx ;;
  on_world (init_repos (mongo_state c) debug_read_only) : SE St PyExc unit).
Proof. apply steps_bind; [apply steps_gets|]. intros c. apply steps_world. Qed.

(** What follows a step is reached, or the step has raised. *)
Lemma steps_then P (m k : SE St PyExc unit) s s' r :
  steps P m → (m ;;; k) s = (s', r) →
  ∃ s1, ext P s s1 ∧ (s1 = s' ∧ (∃ e, r = Err e) ∨ k s1 = (s', r)).
Proof.
  intros Hm [(e & He & ->)|(s1 & [] & H1 & Hr)]%se_bind_inv; eauto 10.
Qed.

Lemma infra_events_app l l' : infra_events (l ++ l') = infra_events l ++ infra_events l'.
Proof. apply filter_app. Qed.

Lemma infra_events_other l : Forall other_event l → infra_events l = [].
Proof.
  induction 1 as [|e l He _ IH]; [done|]. unfold infra_events. rewrite filter_cons_False; [done|].
  by rewrite He.
Qed.

Lemma infra_events_all (f : Service → Event) l :
  (∀ x, infra_event (f x) = true) → infra_events (f <$> l) = f <$> l.
Proof.
  intros Hf. induction l as [|x l IH]; [done|]. csimpl. unfold infra_events in *.
  by rewrite filter_cons_True, IH.
Qed.

(** No part has been started. *)
Definition no_start (l : list Event) : Prop := ∀ p, p ∈ starts.*1 → Phase p ∉ l.

Lemma ext_events P s s' :
  (∀ e, P e → other_event e) → ext P s s' →
  infra_events (lf_log s') = infra_events (lf_log s).
Proof.
  intros HP (_ & _ & _ & l & -> & Hf). rewrite infra_events_app.
  rewrite (infra_events_other l); [by rewrite app_nil_r|]. by eapply Forall_impl.
Qed.

Lemma ext_no_start s s' : ext early_event s s' → no_start (lf_log s) → no_start (lf_log s').
Proof.
  intros (_ & _ & _ & l & -> & Hf) Hn p Hp. rewrite elem_of_app. intros [Hin|Hin]; [by apply (Hn p)|].
  rewrite Forall_forall in Hf. by apply (proj2 (Hf _ Hin) p).
Qed.

Lemma early_other e : early_event e → other_event e.
Proof. by intros [? _]. Qed.

(** The parts that may have been started when all attributes are set. *)
Definition started_only (l : list Event) : Prop :=
  ∀ p part, (p, part) ∈ starts → Phase p ∈ l → part ∈ attrs_set debug_read_only.

(** When the teardown begins: [init_infra] has raised and rolled back, or all clients
    are connected, and the parts that may have been started are known. *)
Definition booted (s : St) : Prop :=
  (lf_infra s = false ∧ holding (lf_ctx s) = [] ∧ lf_attrs s = [] ∧ no_start (lf_log s) ∧
   ∃ k, infra_events (lf_log s)
        = (Connecting <$> take k (services debug_read_only))
          ++ (Closing <$> reverse (take k (services debug_read_only)))) ∨
  (lf_infra s = true ∧ made (lf_ctx s) = services debug_read_only ∧
   infra_events (lf_log s) = Connecting <$> services debug_read_only ∧
   (lf_attrs s = [] ∧ no_start (lf_log s) ∨
    lf_attrs s = attrs_set debug_read_only ∧ started_only (lf_log s))).

(** Connected, and nothing on [app.state] yet. *)
Definition connected (s : St) : Prop :=
  lf_infra s = true ∧ made (lf_ctx s) = services debug_read_only ∧
  infra_events (lf_log s) = (Connecting <$> services debug_read_only) ∧
  lf_attrs s = [] ∧ no_start (lf_log s).

Lemma connected_booted s : connected s → booted s.
Proof. intros (? & ? & ? & ? & ?). right. split_and!; auto. Qed.

Lemma ext_connected s s' : ext early_event s s' → connected s → connected s'.
Proof.
  intros He (Hi & Hm & Hl & Ha & Hn). pose proof He as (Hc & Hi' & Ha' & _).
  split_and!; [congruence|by rewrite Hc| |congruence|by eapply ext_no_start].
  rewrite (ext_events early_event s s'); [done|apply early_other|done].
Qed.

(** The first phase. *)
Lemma infra_phase (s s' : St) r :
  lf_log s = [] → lf_attrs s = [] → lf_infra s = false →
  startup_phase "init_infra" (on_infra (init_infra debug_read_only) ;;; set_infra) s = (s', r) →
  r ≠ Err CancelledError → if isOk r then connected s' else booted s'.
Proof.
  intros Hlog Hat Hin Hr Hn. unfold startup_phase, log, se_modify, se_bind at 1 in Hr.
  rewrite Hlog in Hr. simpl in Hr. unfold on_infra, se_bind in Hr. simpl in Hr.
  destruct (init_infra _ _) as [[[w lg] c] [u|e]] eqn:E; apply init_infra_spec in E; cbn [fst snd] in E;
    unfold connected, booted; revert E; generalize (services debug_read_only); intros sv E.
  - destruct E as (-> & Hm & _). injection Hr as <- <-. simpl.
    split_and!; [done|done| |done|].
    + change (Phase "init_infra" :: ?l) with ([Phase "init_infra"] ++ l).
      by rewrite infra_events_app, infra_events_all.
    + intros p Hp [[= ->]|Hx]%elem_of_cons; [set_solver|].
      by apply list_elem_of_fmap in Hx as (x & ? & _).
  - injection Hr as <- <-. simpl. left. rewrite Hin, Hat.
    assert (e ≠ CancelledError) as Hne by congruence.
    assert (holding c = [] ∧ ∃ k, lg = [Phase "init_infra"] ++
      (Connecting <$> take k sv) ++
      (Closing <$> reverse (take k sv))) as (Hh & k & ->)
      by (destruct e; done).
    split_and!; [done..| |].
    + intros p Hp. rewrite !elem_of_app, !list_elem_of_fmap, list_elem_of_singleton.
      intros [[= ->]|[(? & ? & _)|(? & ? & _)]]; [set_solver|done..].
    + exists k. by rewrite !infra_events_app, !infra_events_all.
Qed.

(** The phases that start parts, once the attributes are set. *)
Lemma start_phases (s s' : St) r :
  connected s →
  ((old <- se_gets lf_attrs ;; set_attrs (old ++ attrs_set debug_read_only)) ;;;
   (if debug_read_only then se_ret tt
    else startup_phase "partition_manager_start" (on_world partition_manager_start) ;;;
         startup_phase "leader_election_start" (on_world leader_election_start)) ;;;
   startup_phase "scheduler_start" (on_world scheduler_start) ;;;
   set_complete true) s = (s', r) → 
  booted s' ∧ lf_attrs s' = attrs_set debug_read_only.
Proof.
  intros (Hi & Hm & Hl & Ha & Hn) Hr. unfold se_bind at 1 2, se_gets, set_attrs, se_modify in Hr.
  rewrite Ha in Hr. simpl in Hr. set (s0 := mkLife _ _ _ _ _ _) in Hr.
  set (P e := other_event e ∧ ∀ p part, (p, part) ∈ starts → e = Phase p →
    part ∈ attrs_set debug_read_only).
  assert (ext P s0 s') as He.
  { assert (∀ p (m : SE W PyExc unit), (∀ part, (p, part) ∈ starts → part ∈ attrs_set debug_read_only) →
      steps P (startup_phase p (on_world m) : SE St PyExc unit)) as Hph.
    { intros p m Hp. apply steps_bind; [|intros []; apply steps_world].
      apply steps_log. split; [done|]. intros p' part Hin [= ->]. by apply Hp. }
    revert Hr. apply steps_bind; [|intros []; apply steps_bind; [|intros []; apply steps_complete]].
    - destruct debug_read_only; [apply steps_ret|]. apply steps_bind; [|intros []]; apply Hph;
        intros part; unfold starts, attrs_set, distributed_attrs; set_solver.
    - apply Hph. intros part. unfold starts, attrs_set, base_attrs. set_solver. }
  assert (infra_events (lf_log s') = infra_events (lf_log s0)) as Hev
    by (apply (ext_events P); [by intros e [? _]|done]).
  destruct He as (Hc & Hi' & Ha' & l & Hlog & Hf). simpl in *.
  split; [|done]. right. split_and!; [congruence|by rewrite Hc|by rewrite Hev|]. right.
  split; [done|]. intros p part Hin. rewrite Hlog, elem_of_app. intros [Hx|Hx].
  - exfalso. apply (Hn p); [|done]. by apply (list_elem_of_fmap_2 fst _ (p, part)).
  - rewrite Forall_forall in Hf. by apply (proj2 (Hf _ Hx) p part).
Qed.

Lemma boot_spec (s s' : St) r :
  lf_log s = [] → lf_attrs s = [] → lf_infra s = false →
  boot debug_read_only s = (s', r) → r ≠ Err CancelledError → booted s'.
Proof.
  intros Hlog Hat Hin Hr Hn. unfold boot in Hr.
  apply se_bind_inv in Hr as [(e & H1 & ->)|(s1 & [] & H1 & Hr)];
    apply infra_phase in H1; try done.
  apply steps_then with (P := early_event) in Hr as (s2 & H2 & [[<- _]|Hr]);
    [by eapply connected_booted, ext_connected| |].
  2: { apply steps_phase; [set_solver|apply steps_versions]. }
  apply (ext_connected _ _ H2) in H1.
  apply steps_then with (P := early_event) in Hr as (s3 & H3 & [[<- _]|Hr]);
    [by eapply connected_booted, ext_connected| |].
  2: { apply steps_phase; [set_solver|apply steps_repos]. }
  apply (ext_connected _ _ H3) in H1.
  apply steps_then with (P := early_event) in Hr as (s4 & H4 & [[<- _]|Hr]);
    [by eapply connected_booted, ext_connected| |].
  2: { destruct debug_read_only; [apply steps_ret|].
       apply steps_phase; [set_solver|apply steps_distributed]. }
  apply (ext_connected _ _ H4) in H1.
  apply steps_then with (P := early_event) in Hr as (s5 & H5 & [[<- _]|Hr]);
    [by eapply connected_booted, ext_connected| |].
  2: { apply steps_phase; [set_solver|apply steps_ret]. }
  apply (ext_connected _ _ H5) in H1. by apply start_phases in Hr as [? _].
Qed.

(** What comes between the start and the teardown changes none of this. *)
Lemma ext_booted s s' : ext early_event s s' → booted s → booted s'.
Proof.
  intros He. pose proof He as (Hc & Hi & Ha & l & Hlog & Hf). unfold booted.
  rewrite Hc, Hi, Ha, (ext_events early_event s s' early_other He).
  assert (started_only (lf_log s) → started_only (lf_log s')) as Hso.
  { intros Hs p part Hin. rewrite Hlog, elem_of_app. intros [Hx|Hx]; [by apply (Hs p)|].
    rewrite Forall_forall in Hf. exfalso. apply (proj2 (Hf _ Hx) p); [done|].
    by apply (list_elem_of_fmap_2 fst _ (p, part)). }
  pose proof (ext_no_start s s' He). naive_solver.
Qed.

(** Stopping a part lets only a cancellation out. *)
Lemma stop_part_spec name op (s s' : St) r :
  stop_part name op s = (s', r) →
  (r = Ok tt ∨ r = Err CancelledError) ∧
  ∃ w, s' = mkLife w (lf_log s ++ (if decide (name ∈ lf_attrs s) then [Stopping name] else []))
              (lf_ctx s) (lf_infra s) (lf_attrs s) (lf_complete s).
Proof.
  unfold stop_part, se_gets, se_bind at 1. case_decide.
  - unfold log, se_modify, se_bind. intros Hr. pose proof (swallowed _ _ _ _ Hr) as Hs.
    split; [done|]. revert Hr. unfold try_except, se_catch, on_world. simpl.
    destruct (op (lf_world s)) as [w [[]|[]]]; intros [= <- _]; by eexists.
  - intros [= <- <-]. split; [auto|]. rewrite app_nil_r. exists (lf_world s).
    by destruct s.
Qed.

(** The part of the teardown that can end early. *)
Definition stops (attrs : list string) : list Event :=
  Stopping <$> filter (λ n, n ∈ attrs) ["scheduler"; "partition_manager"; "leader_election"].

Lemma teardown_raises (s s' : St) e : teardown s = (s', Err e) → e = CancelledError.
Proof.
  unfold teardown. intros Hr.
  apply se_bind_inv in Hr as [(x & [=] & _)|(s0 & [] & _ & Hr)].
  apply se_bind_inv in Hr as [(x & H1 & [= <-])|(s1 & [] & _ & Hr)];
    [by apply stop_part_spec in H1 as [[|[= ->]] _]|].
  apply se_bind_inv in Hr as [(x & H1 & [= <-])|(s2 & [] & _ & Hr)];
    [by apply stop_part_spec in H1 as [[|[= ->]] _]|].
  apply se_bind_inv in Hr as [(x & H1 & [= <-])|(s3 & [] & _ & Hr)];
    [by apply stop_part_spec in H1 as [[|[= ->]] _]|].
  apply se_bind_inv in Hr as [(x & H1 & [= <-])|(s4 & [] & _ & Hr)].
  - unfold se_bind at 1, se_gets in H1. destruct (lf_infra s3); [|done].
    unfold on_infra in H1. destruct (close_partial _) as [[[w lg] c] y] eqn:E.
    injection H1 as _ ->. destruct (decide (e = CancelledError)); [done|].
    apply close_partial_spec in E as [? _]; [done|congruence].
  - by apply se_bind_inv in Hr as [(x & [=] & _)|(s5 & a & _ & Hr)].
Qed.

Lemma teardown_spec (s s' : St) :
  booted s → teardown s = (s', Ok tt) →
  holding (lf_ctx s') = [] ∧ lf_attrs s' = [] ∧ lf_complete s' = false ∧
  lf_log s' = lf_log s ++ stops (lf_attrs s) ++
    (if lf_infra s then Closing <$> reverse (made (lf_ctx s)) else []).
Proof.
  intros Hb Hr. unfold teardown in Hr.
  apply se_bind_Ok in Hr as (s0 & [] & [= <-] & Hr).
  apply se_bind_Ok in Hr as (s1 & [] & [_ [w1 ->]]%stop_part_spec & Hr).
  apply se_bind_Ok in Hr as (s2 & [] & [_ [w2 ->]]%stop_part_spec & Hr).
  apply se_bind_Ok in Hr as (s3 & [] & [_ [w3 ->]]%stop_part_spec & Hr).
  apply se_bind_Ok in Hr as (s4 & [] & H4 & Hr).
  apply se_bind_Ok in Hr as (s5 & a & [= <- <-] & [= <-]).
  cbn [lf_log lf_attrs lf_ctx lf_infra lf_complete lf_world] in *.
  assert (filter (λ n, n ∉ attrs_deleted) (lf_attrs s) = []) as Hat.
  { apply elem_of_nil_inv. intros n [Hn Hin]%list_elem_of_filter. apply Hn.
    destruct Hb as [(_ & _ & Ha & _)|(_ & _ & _ & [[Ha _]|[Ha _]])]; rewrite Ha in Hin;
      [set_solver|set_solver|]. unfold attrs_set in Hin. unfold attrs_deleted.
    destruct debug_read_only; set_solver. }
  assert (∀ lg, lg ++ stops (lf_attrs s) = ((lg ++
      (if decide ("scheduler" ∈ lf_attrs s) then [Stopping "scheduler"] else [])) ++
      (if decide ("partition_manager" ∈ lf_attrs s) then [Stopping "partition_manager"] else [])) ++
      (if decide ("leader_election" ∈ lf_attrs s) then [Stopping "leader_election"] else [])) as Hst.
  { intros lg. rewrite <-!app_assoc. f_equal. unfold stops. rewrite !filter_cons.
    repeat case_decide; done. }
  rewrite <-Hst in H4. unfold se_bind, se_gets in H4. cbn [lf_infra] in H4.
  destruct (lf_infra s) eqn:Ei.
  - unfold on_infra in H4. cbn [lf_world lf_log lf_ctx] in H4.
    destruct (close_partial _) as [[[w lg] c] y] eqn:E. injection H4 as <- ->.
    apply close_partial_spec in E as (_ & Hl & Hh & _); [|done]. cbn in Hl, Hh |- *.
    split_and!; [done|done|done|]. by rewrite Hl, <-app_assoc.
  - injection H4 as <-. cbn. rewrite app_nil_r. split_and!; [|done..].
    by destruct Hb as [(_ & Hh & _)|(Hi & _)]; [|congruence].
Qed.

Lemma steps_alert : steps early_event (_self_alert_critical : SE St PyExc unit).
Proof.
  apply steps_bind; [apply steps_gets|]. intros [[] [a|]]; try apply steps_ret.
  apply steps_catch; [|intros; apply steps_ret].
  apply steps_bind; [by apply steps_log|]. intros []. apply steps_world.
Qed.

(** Up to the teardown: a start that is not cancelled, the service, the alert. *)
Lemma life_booted (s s' : St) r :
  lf_log s = [] → lf_attrs s = [] → lf_infra s = false →
  try_except (boot debug_read_only ;;; log Serving ;;; on_world serve)
    (λ e, _self_alert_critical ;;; se_raise e) s = (s', r) →
  r ≠ Err CancelledError → booted s'.
Proof.
  intros Hl Ha Hi Hr Hn. unfold try_except, se_catch in Hr.
  destruct (se_bind _ _ s) as [s1 r1] eqn:E.
  assert (r1 ≠ Err CancelledError) as Hn1 by (unfold se_raise in Hr; destruct r1 as [|[]]; simpl in *; congruence).
  assert (booted s1) as Hb.
  { apply se_bind_inv in E as [(e & Hb & ->)|(s2 & [] & Hb & Hs)].
    - by apply boot_spec in Hb.
    - apply boot_spec in Hb; [|done..]. eapply ext_booted; [|exact Hb]. revert Hs.
      apply steps_bind; [by apply steps_log|]. intros []. apply steps_world. }
  destruct r1 as [[]|e]; [by injection Hr as <- _|].
  destruct (is_exception e); [|by injection Hr as <- _].
  eapply ext_booted; [|exact Hb]. revert Hr.
  apply steps_bind; [apply steps_alert|intros []; apply steps_raise].
Qed.

(** C36: However the process ends short of a cancellation (a failing phase, a failure while
    serving, a failure of the alert about it, or an orderly end), no client holds a
    connection any more, [app.state] is clean and the startup gauge is down.  The
    clients were connected in the fixed order up to some point and closed in the
    reverse order; every part whose start was tried was stopped, after it was started
    and before any client was closed. *)
Theorem lifespan_releases (s s' : St) r :
  lf_log s = [] → lf_attrs s = [] → lf_infra s = false →
  lifespan debug_read_only s = (s', r) → r ≠ Err CancelledError →
  (holding (lf_ctx s') = [] ∧ lf_attrs s' = [] ∧ lf_complete s' = false) ∧
  (∃ k, infra_events (lf_log s')
        = (Connecting <$> take k (services debug_read_only))
          ++ (Closing <$> reverse (take k (services debug_read_only)))) ∧
  ∀ p part, (p, part) ∈ starts → Phase p ∈ lf_log s' →
    ∃ l1 l2, lf_log s' = l1 ++ l2 ++ (Closing <$> reverse (services debug_read_only)) ∧
      Phase p ∈ l1 ∧ Stopping part ∈ l2.
Proof.
  intros Hl Ha Hi Hr Hn. unfold lifespan, try_finally in Hr.
  destruct (try_except _ _ s) as [s1 r1] eqn:E.
  destruct (teardown s1) as [s2 [[]|e]] eqn:Et; injection Hr as <- <-.
  2: { apply teardown_raises in Et as ->. done. }
  apply life_booted in E; [|done..].
  destruct (teardown_spec _ _ E Et) as (Hh & Hat & Hc & Hlog). split; [done|].
  assert (Forall other_event (stops (lf_attrs s1))) as Hso
    by (apply Forall_fmap, Forall_true; done).
  assert (∀ p : string, Phase p ∉ stops (lf_attrs s1)) as Hps
    by (intros p (? & ? & _)%list_elem_of_fmap; done).
  assert (∀ (p : string) (l : list Service), Phase p ∉ Closing <$> l) as Hpc
    by (intros p l (? & ? & _)%list_elem_of_fmap; done).
  rewrite Hlog. rewrite !infra_events_app, (infra_events_other (stops _)) by done.
  destruct E as [(Hi1 & _ & _ & Hns & k & Hk)|(Hi1 & Hm & Hk & Hst)]; rewrite Hi1, Hk.
  - split; [exists k; by rewrite !app_nil_r|]. intros p part Hin. rewrite app_nil_r, elem_of_app.
    intros [Hx|Hx]; [|by apply Hps in Hx]. exfalso. apply (Hns p); [|done].
    by apply (list_elem_of_fmap_2 fst _ (p, part)).
  - rewrite Hm. split.
    + exists (length (services debug_read_only)). by rewrite infra_events_all, firstn_all.
    + intros p part Hin. rewrite !elem_of_app. intros [Hx|[Hx|Hx]];
        [|by apply Hps in Hx|by apply Hpc in Hx].
      exists (lf_log s1), (stops (lf_attrs s1)). split; [done|]. split; [done|].
      destruct Hst as [[_ Hns]|[Hatt Hs]].
      * exfalso. apply (Hns p); [|done]. by apply (list_elem_of_fmap_2 fst _ (p, part)).
      * apply list_elem_of_fmap_2. apply list_elem_of_filter. rewrite Hatt.
        split; [by apply (Hs p)|]. unfold starts in Hin. set_solver.
Qed.
End LifespanProperties.

(** ** Elasticsearch and the mail endpoint as clients *)
Definition es_exc (e : EsExc) : PyExc :=
  match e with NotFoundError => DriverError "NotFoundError" | EsError m => RuntimeError m
  | KeyError _ => DriverError "KeyError" end.

Definition as_py {S E A} (f : E → PyExc) (m : SE S E A) : SE S PyExc A := λ s,
  let '(s', r) := m s in (s', match r with Ok a => Ok a | Err e => Err (f e) end).

Section EsAsClient.
Context {W CT CL CB : Type}.
Context `{!EsApi W, !TTLCache CT string, !TTLCache CL (list string), !TTLCache CB bool}.

#[export] Instance es_as_client : Client W (@EsState CT CL CB) := {
  client_new := es_init;
  client_connect := as_py es_exc EsClient.connect;
  client_close := as_py es_exc EsClient.close;
  held := es_connected;
}.

#[export] Instance es_client_laws : ClientLaws W (@EsState CT CL CB).
Proof.
  split; [done| |]; simpl; unfold as_py.
  - intros s s' Hr. destruct (EsClient.connect s) as [s1 [[]|e]] eqn:E; [|done].
    injection Hr as <-. unfold EsClient.connect in E.
    apply se_bind_Ok in E as (s2 & [] & [= <-] & E).
    apply se_bind_Ok in E as (s3 & ok & Hp & E). destruct ok; [|done]. injection E as <-.
    unfold EsClient.ping, se_bind, se_gets in Hp. simpl in Hp.
    unfold se_catch, es_call in Hp. simpl in Hp.
    destruct (es_ping s.1) as [w [b|e]]; by injection Hp as <- _.
  - intros s s' r Hr. unfold EsClient.close, se_bind, se_gets in Hr.
    destruct (es_connected s.2) eqn:Ec; simpl in Hr; [|injection Hr as <- <-; auto].
    unfold se_catch, es_call in Hr. destruct (es_api_close s.1) as [w [b|e]];
      injection Hr as <- <-; auto.
Qed.
End EsAsClient.

Definition mail_exc (e : ClientError) : PyExc :=
  match e with
  | StartupHealthCheckFailed => RuntimeError "email_startup_health_check_failed"
  | Raised _ => DriverError "httpx"
  end.

Section MailAsClient.
Context {W Resp : Type} `{!Http W Resp} (debug_read_only : bool) (_api_url : string).

Definition mail_new : EmailAlertClient := mkClient false [].

#[export] Instance mail_as_client : Client W EmailAlertClient := {
  client_new := mail_new;
  client_connect := as_py mail_exc (EmailClient.connect debug_read_only _api_url);
  client_close := as_py mail_exc EmailClient.close;
  held := ec_connected;
}.

#[export] Instance mail_client_laws : ClientLaws W EmailAlertClient.
Proof.
  split; [done| |]; simpl; unfold as_py.
  - intros s s' Hr. destruct (EmailClient.connect _ _ s) as [s1 [[]|e]] eqn:E; [|done].
    injection Hr as <-. unfold EmailClient.connect in E.
    apply se_bind_Ok in E as (s2 & [] & [= <-] & E).
    destruct debug_read_only; [by injection E as <-|].
    apply se_bind_Ok in E as (s3 & ok & Hp & E). destruct ok; [|done]. injection E as <-.
    unfold health_check, se_bind, se_gets, se_catch, lift, http in Hp. simpl in Hp.
    destruct (http_head _ s.1) as [w [b|e]]; [by injection Hp as <-|done].
  - intros s s' r Hr. unfold EmailClient.close, se_bind, se_gets in Hr.
    destruct (ec_connected s.2) eqn:Ec; simpl in Hr; [|injection Hr as <- <-; auto].
    unfold se_catch, lift, http in Hr. simpl in Hr.
    destruct (http_aclose s.1) as [w [b|e]]; injection Hr as <- <-; auto.
Qed.
End MailAsClient.

(** ** Witnesses: a world that is the script of what its calls do *)
Definition Script : Type := list (res PyExc unit).

Definition scripted : SE Script PyExc unit := λ w,
  match w with [] => ([], Ok tt) | r :: w => (w, r) end.

#[local] Instance script_client : Client Script bool := {
  client_new := false;
  client_connect s := let '(w, r) := scripted s.1 in ((w, true), r);
  client_close s :=
    let '(w, r) := scripted s.1 in
    ((w, false), match r with Err CancelledError => Err CancelledError | _ => Ok tt end);
  held := id;
}.
#[local] Instance script_client_laws : ClientLaws Script bool.
Proof.
  split; [done| |]; simpl.
  - intros [w o] s'. simpl. destruct (scripted w). by intros [= <- _].
  - intros [w o] s' r. simpl. destruct (scripted w) as [w' [|[]]]; intros [= <- <-]; auto.
Qed.
#[local] Instance script_admin : MongoAdmin Script := {
  list_collection_names w := (w, Ok []);
  create_collection _ := scripted;
  create_scope_index _ := scripted;
}.
#[local] Instance script_parts : Parts Script := {
  redis_version w := (w, Ok "5.0.6"); zk_version w := (w, Ok "unknown");
  partition_manager_start := scripted; leader_election_start := scripted;
  scheduler_start := scripted; scheduler_shutdown := scripted;
  partition_manager_stop := scripted; leader_election_stop := scripted;
  serve := scripted; send_self_alert := scripted;
}.

Definition ex_life (w : Script) : Life Script bool bool bool bool bool :=
  mkLife w [] empty_infra false [] false.

(** ES and MongoDB connect, Redis does not, and closing MongoDB fails as well. *)
Definition ex_init := init_infra (W := Script) (OE := bool) (OM := bool) (OR := bool)
  (OA := bool) (OZ := bool) false.
Definition ex_redis_down : Script * list Event * InfraContext bool bool bool bool bool :=
  ([Ok tt; Ok tt; Err (DriverError "ConnectionError"); Ok tt; Err (DriverError "close")],
   [], empty_infra).

Lemma init_infra_spec_witness :
  (ex_init ex_redis_down).2 = Err (DriverError "ConnectionError") ∧
  holding (ex_init ex_redis_down).1.2 = [].
Proof.
  assert ((ex_init ex_redis_down).2 = Err (DriverError "ConnectionError")) as Hr
    by (vm_compute; reflexivity).
  split; [exact Hr|].
  apply (init_infra_spec false ex_redis_down (ex_init ex_redis_down).1
    (Err (DriverError "ConnectionError"))).
  rewrite <-Hr. apply surjective_pairing.
Defined.

(** The leader election does not start, and the partition manager does not stop. *)
Definition ex_script : Script :=
  repeat (Ok tt) 8 ++ [Err (DriverError "NoNodeError"); Ok tt; Ok tt; Err (DriverError "stop")].

Lemma lifespan_releases_witness :
  (lifespan false (ex_life ex_script)).2 = Err (DriverError "NoNodeError") ∧
  holding (lf_ctx (lifespan false (ex_life ex_script)).1) = [] ∧
  lf_attrs (lifespan false (ex_life ex_script)).1 = [].
Proof.
  assert ((lifespan false (ex_life ex_script)).2 = Err (DriverError "NoNodeError")) as Hr
    by (vm_compute; reflexivity).
  split; [exact Hr|].
  pose proof (lifespan_releases false (ex_life ex_script) _ _ eq_refl eq_refl eq_refl
    (surjective_pairing _)) as Hx.
  rewrite Hr in Hx. assert (Err (DriverError "NoNodeError") ≠ @Err PyExc unit CancelledError)
    as Hn by discriminate.
  destruct (Hx Hn) as [(Hh & Ha & _) _]. split; [exact Hh|exact Ha].
Defined.

(** A startup that is cancelled while Redis connects keeps what it had connected:
    [CancelledError] is no [Exception], so nothing is rolled back, and [infra] is still
    unset when the teardown looks at it. *)
Lemma cancelled_startup_leaks :
  let s' := lifespan false (ex_life [Ok tt; Ok tt; Err CancelledError]) in
  s'.2 = Err CancelledError ∧ holding (lf_ctx s'.1) = [Elasticsearch; MongoDB; RedisDB].
Proof. by vm_compute. Qed.

(** Another instance creates the collection between the listing and the creation. *)
#[local] Instance race_admin : MongoAdmin (gset string * gset string) := {
  list_collection_names w := ((w.1 ∪ {[COLL_PROFILE]}, w.2), Ok (elements w.1));
  create_collection c w :=
    if decide (c ∈ w.1) then (w, Err (OperationFailure 48)) else ((w.1 ∪ {[c]}, w.2), Ok tt);
  create_scope_index c w := ((w.1 ∪ {[c]}, w.2 ∪ {[c]}), Ok tt);
}.

Lemma init_repos_spec_witness :
  (init_repos (Some true) false (∅, ∅)).2 = Ok tt ∧
  COLL_PROFILE ∈ (init_repos (Some true) false (∅, ∅)).1.2.
Proof.
  assert ((init_repos (Some true) false (∅, ∅)).2 = Ok tt) as Hr by (vm_compute; reflexivity).
  split; [exact Hr|].
  destruct (init_repos_spec (fst : _ * gset string → gset string) snd)
    with (mongo := Some true) (debug := false) (w := (∅, ∅) : gset string * gset string)
      (w' := (init_repos (Some true) false (∅, ∅)).1) (r := @Ok PyExc unit tt) as [Hok _].
  - intros w w' l [= <- <-] c Hc. apply elem_of_elements in Hc. simpl. set_solver.
  - intros c w w' r. simpl. case_decide; intros [= <- <-]; simpl; set_solver.
  - intros c w w' r [= <- <-]. simpl. set_solver.
  - rewrite <-Hr. apply surjective_pairing.
  - by apply Hok.
Defined.
