(* ===== verification/Health.v ===== *)
(** * The probes ([src/api/health.py]) and what they read of [app.state] ([src/api/deps.py])

    A probe is a function on the outside world; each check of an infrastructure is a call
    that the caller may cancel and that is awaited for two seconds. *)
From stdpp Require Import base list strings.
From Stdlib Require Import ZArith Lia.
From S2P Require Import Prelude Clients.
Local Open Scope se_scope.

Definition _CHECK_TIMEOUT_SEC : Z := 2.
Definition _VERSION : string := "0.1.0".

(** [wait_for seconds coro]: the call, or a [TimeoutError] when it takes longer. *)
Class WaitFor (W : Type) := { wait_for : Z → SE W PyExc bool → SE W PyExc bool }.

(** What the handler reads of the partition manager. *)
Record PmView := mkPmView { pv_is_leader : bool; pv_redistribute_unhealthy : bool }.

(** [app.state]: an attribute that is missing is [None].  [as_zk] is the synchronous
    [is_connected]. *)
Record AppState (W : Type) := mkApp
  { as_debug_read_only : option bool;
    as_es : option (SE W PyExc bool);
    as_mongo : option (SE W PyExc bool);
    as_redis : option (SE W PyExc bool);
    as_email : option (SE W PyExc bool);
    as_zk : option (W → bool);
    as_pm : option (W → PmView);
    as_scheduler_running : option (W → bool) }.
Arguments mkApp {W}.
Arguments as_debug_read_only {W}.
Arguments as_es {W}.
Arguments as_mongo {W}.
Arguments as_redis {W}.
Arguments as_email {W}.
Arguments as_zk {W}.
Arguments as_pm {W}.
Arguments as_scheduler_running {W}.

(** A value of [checks]; debug mode skips ZooKeeper. *)
Inductive CheckValue : Type := Up (b : bool) | SkippedDebug.
#[export] Instance CheckValue_eq_dec : EqDecision CheckValue.
Proof. solve_decision. Defined.

Record ReadyAnswer := mkReady
  { rd_status_code : Z; rd_status : string; rd_debug_read_only : bool;
    rd_checks : list (string * CheckValue); rd_scheduler_running : bool;
    rd_is_leader : option bool; rd_redistribute_unhealthy : bool; rd_version : string }.

Section Health.
Context {W : Type} `{!WaitFor W}.

(** The state: the world and the gauge [INFRA_UP], by label. *)
Definition HM (A : Type) : Type := SE (W * list (string * bool)) PyExc A.

Definition lift {A} (op : SE W PyExc A) : HM A := λ s, let '(w, r) := op s.1 in ((w, s.2), r).

(** [_state]: the attribute, or a [RuntimeError]. *)
Definition _state {A} (name : string) (attr : option A) : HM A :=
  match attr with
  | Some a => se_ret a
  | None => se_raise (RuntimeError ("app.state." +:+ name +:+ " is not initialized"))
  end.

Definition _safe_check (coro : SE W PyExc bool) : HM bool :=
  se_catch (lift (wait_for _CHECK_TIMEOUT_SEC coro))
    (λ e, match e with CancelledError => se_raise e | _ => se_ret false end).

Definition liveness : string := "alive".

Definition set_infra_up (k : string) (v : bool) : HM unit :=
  se_modify (λ s, (s.1, ODict.set k v s.2)).

(** The checks that count. *)
Definition counted (debug_mode : bool) (checks : list (string * CheckValue))
  : list (string * CheckValue) :=
  filter (λ kv, ¬ (debug_mode = true ∧ kv.1 = "zookeeper")) checks.

Fixpoint update_gauges (checks : list (string * CheckValue)) : HM unit :=
  match checks with
  | [] => se_ret tt
  | (k, v) :: checks => set_infra_up k (bool_decide (v = Up true)) ;;; update_gauges checks
  end.

Definition readiness (app : AppState W) : HM ReadyAnswer :=
  debug_mode <- _state "settings" (as_debug_read_only app) ;;
  es <- _state "es_client" (as_es app) ;;
  mongo <- _state "mongo_client" (as_mongo app) ;;
  redis <- _state "redis_client" (as_redis app) ;;
  email <- _state "email_client" (as_email app) ;;
  scheduler_running <- _state "scheduler" (as_scheduler_running app) ;;
  es_up <- _safe_check es ;;
  mongo_up <- _safe_check mongo ;;
  redis_up <- _safe_check redis ;;
  email_up <- _safe_check email ;;
  w <- se_gets fst ;;
  let zookeeper : CheckValue :=
    if (debug_mode : bool) then SkippedDebug
    else Up (match as_zk app with Some is_connected => is_connected w | None => false end) in
  let checks := [("elasticsearch", Up es_up); ("mongodb", Up mongo_up); ("redis", Up redis_up);
                 ("email_api", Up email_up); ("zookeeper", zookeeper)] in
  update_gauges (counted debug_mode checks) ;;;
  let redistribute_unhealthy :=
    match as_pm app with Some pm => pv_redistribute_unhealthy (pm w) | None => false end in
  let all_ok :=
    forallb (λ kv, bool_decide (kv.2 = Up true)) (counted debug_mode checks)
    && negb redistribute_unhealthy in
  se_ret (mkReady (if all_ok then 200 else 503) (if all_ok then "ready" else "not_ready")
            debug_mode checks (scheduler_running w)
            ((λ pm, pv_is_leader (pm w)) <$> as_pm app) redistribute_unhealthy _VERSION).

(** ** Properties *)

(** What a check has found, from the state it ran in. *)
Definition found (coro : SE W PyExc bool) (w : W) : bool :=
  match (wait_for _CHECK_TIMEOUT_SEC coro w).2 with Ok b => b | Err _ => false end.

Lemma safe_check_spec coro (s s' : W * list (string * bool)) r :
  _safe_check coro s = (s', r) →
  s' = ((wait_for _CHECK_TIMEOUT_SEC coro s.1).1, s.2) ∧
  (r = Ok (found coro s.1) ∨ r = Err CancelledError).
Proof.
  unfold _safe_check, se_catch, lift, found.
  destruct (wait_for _ coro s.1) as [w [b|[]]]; intros [= <- <-]; auto.
Qed.

(** The gauge of every counted infrastructure says whether its check is [True]. *)
Lemma update_gauges_spec checks (s s' : W * list (string * bool)) r :
  update_gauges checks s = (s', r) →
  r = Ok tt ∧ s'.1 = s.1 ∧
  s'.2 = ODict.set_all ((λ kv, (kv.1, bool_decide (kv.2 = Up true))) <$> checks) s.2.
Proof.
  revert s. induction checks as [|[k v] checks IH]; intros s; simpl; [by intros [= <- <-]|].
  intros Hr. by apply IH in Hr as (-> & -> & ->).
Qed.

(** C40: Readiness of a started application, unless it is cancelled, always answers, 200 exactly when all four
    pings answered true in time, ZooKeeper is connected (or the instance is a debug one,
    which has none) and the partition manager has not given up a redistribution; else
    503.  The four pings run one after the other, none is skipped, and the gauge of each
    infrastructure is set to what was found; ZooKeeper's keeps its value in debug mode. *)
Theorem readiness_spec debug es mongo redis email zk pm running
    (s s' : W * list (string * bool)) r :
  readiness (mkApp (Some debug) (Some es) (Some mongo) (Some redis) (Some email) zk pm
    (Some running)) s = (s', r) →
  let w1 := (wait_for _CHECK_TIMEOUT_SEC es s.1).1 in
  let w2 := (wait_for _CHECK_TIMEOUT_SEC mongo w1).1 in
  let w3 := (wait_for _CHECK_TIMEOUT_SEC redis w2).1 in
  let w4 := (wait_for _CHECK_TIMEOUT_SEC email w3).1 in
  let zk_up := match zk with Some f => f w4 | None => false end in
  let unhealthy := match pm with Some f => pv_redistribute_unhealthy (f w4) | None => false end in
  r = Err CancelledError ∨
  ∃ answer, r = Ok answer ∧ s'.1 = w4 ∧
    (rd_status_code answer = 200 ∨ rd_status_code answer = 503)%Z ∧
    (rd_status_code answer = 200%Z ↔
       found es s.1 = true ∧ found mongo w1 = true ∧ found redis w2 = true ∧
       found email w3 = true ∧ (debug = true ∨ zk_up = true) ∧ unhealthy = false) ∧
    ODict.get "elasticsearch" s'.2 = Some (found es s.1) ∧
    ODict.get "mongodb" s'.2 = Some (found mongo w1) ∧
    ODict.get "redis" s'.2 = Some (found redis w2) ∧
    ODict.get "email_api" s'.2 = Some (found email w3) ∧
    ODict.get "zookeeper" s'.2 = if debug then ODict.get "zookeeper" s.2 else Some zk_up.
Proof.
  intros Hr. cbv zeta.
  unfold readiness in Hr. unfold _state, se_ret in Hr. unfold se_bind in Hr at 1 2 3 4 5 6.
  apply se_bind_inv in Hr as [(e & [_ He]%safe_check_spec & ->)|(s1 & b1 & [-> H1]%safe_check_spec & Hr)];
    [left; by destruct He as [|[= ->]]|].
  apply se_bind_inv in Hr as [(e & [_ He]%safe_check_spec & ->)|(s2 & b2 & [-> H2]%safe_check_spec & Hr)];
    [left; by destruct He as [|[= ->]]|].
  apply se_bind_inv in Hr as [(e & [_ He]%safe_check_spec & ->)|(s3 & b3 & [-> H3]%safe_check_spec & Hr)];
    [left; by destruct He as [|[= ->]]|].
  apply se_bind_inv in Hr as [(e & [_ He]%safe_check_spec & ->)|(s4 & b4 & [-> H4]%safe_check_spec & Hr)];
    [left; by destruct He as [|[= ->]]|].
  right. cbn [fst snd as_zk as_pm] in *. unfold se_bind at 1, se_gets in Hr. cbv zeta in Hr.
  destruct H1 as [[= ->]|]; [|done]. destruct H2 as [[= ->]|]; [|done].
  destruct H3 as [[= ->]|]; [|done]. destruct H4 as [[= ->]|]; [|done].
  apply se_bind_inv in Hr as [(e & (? & _)%update_gauges_spec & ->)|(s5 & u & (_ & Hw & Hg)%update_gauges_spec & Hr)];
    [done|].
  injection Hr as <- <-. eexists. split; [reflexivity|]. cbn [fst snd as_zk as_pm] in *. split; [exact Hw|].
  cbn [rd_status_code].
  set (w1 := (wait_for _ es _).1) in *. set (w2 := (wait_for _ mongo _).1) in *.
  set (w3 := (wait_for _ redis _).1) in *. set (w4 := (wait_for _ email _).1) in *.
  rewrite Hg. clear.
  generalize (found es s.1); generalize (found mongo w1); generalize (found redis w2);
    generalize (found email w3).
  generalize (match zk with Some f => f w4 | None => false end).
  generalize (match pm with Some f => pv_redistribute_unhealthy (f w4) | None => false end).
  intros u z a b c d.
  split; [by case_match; auto|]. split.
  - destruct debug, a, b, c, d, z, u; vm_compute; naive_solver.
  - rewrite !ODict.get_set_all. destruct debug, a, b, c, d, z; vm_compute; split_and!; reflexivity.
Qed.
End Health.

(** ** Witness: the pings are scripted, one of them times out *)
#[local] Instance script_wait : WaitFor (list (option bool)) := {
  wait_for _ _ w :=
    match w with
    | [] => ([], Ok true)
    | Some b :: w => (w, Ok b)
    | None :: w => (w, Err (TimeoutError "2s"))
    end;
}.

Definition ex_ping : SE (list (option bool)) PyExc bool := λ w, (w, Ok true).
Definition ex_app (unhealthy : bool) : AppState (list (option bool)) :=
  mkApp (Some false) (Some ex_ping) (Some ex_ping) (Some ex_ping) (Some ex_ping)
    (Some (λ _, true)) (Some (λ _, mkPmView false unhealthy)) (Some (λ _, true)).

Lemma readiness_spec_witness :
  (rd_status_code <$> (readiness (ex_app false) ([Some true; None], [])).2 = Ok 503%Z) ∧
  ODict.get "mongodb" (readiness (ex_app false) ([Some true; None], [])).1.2 = Some false.
Proof.
  split; [vm_compute; reflexivity|].
  destruct (readiness_spec false ex_ping ex_ping ex_ping ex_ping (Some (λ _, true))
    (Some (λ _, mkPmView false false)) (λ _, true) ([Some true; None], [])
    _ _ (surjective_pairing _)) as [Hr|(a & _ & _ & _ & _ & _ & Hg & _)].
  - vm_compute in Hr. discriminate Hr.
  - exact Hg.
Defined.

(** A follower that gave up a redistribution while it was the leader is not ready,
    although redistributing is not its task any more. *)
Lemma unhealthy_follower_not_ready :
  (λ a, (rd_status_code a, rd_is_leader a)) <$> (readiness (ex_app true) ([], [])).2
  = Ok (503%Z, Some false).
Proof. vm_compute. reflexivity. Qed.
