(* ===== verification/Metrics.v ===== *)
(** * Metrics ([src/api/metrics.py]) and what a tick moves of them

    The registry of the Prometheus client is the class [Registry].  The engine's events
    say which series a tick touches ([series_of]); the accounting theorem reads the
    counters back: what they show after a tick is what happened in it. *)
From stdpp Require Import base list sets strings gmap.
From Stdlib Require Import ZArith Lia.
From S2P Require Import Prelude PyNum PyStr Json FactCatalog Models Renderer Threshold Repository.
From S2P Require Import Cooldown AlertBuilder EsQuery Engine Ticks Health.
Local Open Scope se_scope.

Inductive Metric : Set :=
| JOB_TOTAL | ALERTS_SENT | THRESHOLD_BREACHES | ALERTS_SUPPRESSED
| JOB_DURATION | ES_QUERY_DURATION
| ZK_LEADER | ASSIGNED_PROCESSES | INFRA_UP | STARTUP_COMPLETE.

#[export] Instance Metric_eq_dec : EqDecision Metric.
Proof. solve_decision. Defined.

Inductive MetricType : Set := Counter | Histogram | Gauge.

#[export] Instance MetricType_eq_dec : EqDecision MetricType.
Proof. solve_decision. Defined.

Definition metric_type (m : Metric) : MetricType :=
  match m with
  | JOB_TOTAL | ALERTS_SENT | THRESHOLD_BREACHES | ALERTS_SUPPRESSED => Counter
  | JOB_DURATION | ES_QUERY_DURATION => Histogram
  | ZK_LEADER | ASSIGNED_PROCESSES | INFRA_UP | STARTUP_COMPLETE => Gauge
  end.

Definition metric_name (m : Metric) : string :=
  match m with
  | JOB_TOTAL => "resource_monitor_job_total"
  | ALERTS_SENT => "resource_monitor_alerts_sent_total"
  | THRESHOLD_BREACHES => "resource_monitor_threshold_breaches_total"
  | ALERTS_SUPPRESSED => "resource_monitor_alerts_suppressed_by_cooldown_total"
  | JOB_DURATION => "resource_monitor_job_duration_seconds"
  | ES_QUERY_DURATION => "resource_monitor_es_query_duration_seconds"
  | ZK_LEADER => "resource_monitor_zk_leader"
  | ASSIGNED_PROCESSES => "resource_monitor_assigned_processes"
  | INFRA_UP => "resource_monitor_infra_up"
  | STARTUP_COMPLETE => "resource_monitor_startup_complete"
  end.

Definition labelnames (m : Metric) : list string :=
  match m with
  | JOB_TOTAL => ["process"; "status"; "reason"]
  | ALERTS_SENT => ["code"; "subcode"]
  | THRESHOLD_BREACHES | ALERTS_SUPPRESSED => ["process"; "metric"; "severity"]
  | JOB_DURATION => ["process"; "metric_category"]
  | ES_QUERY_DURATION => ["process"]
  | INFRA_UP => ["infra"]
  | ZK_LEADER | ASSIGNED_PROCESSES | STARTUP_COMPLETE => []
  end.

Definition INFRA_LABELS : list string :=
  ["elasticsearch"; "mongodb"; "redis"; "email_api"; "zookeeper"].

(** A metric and the labels of a series. *)
Notation Series := (Metric * list (string * string))%type.

(** ** The registry *)

(** [m.labels(k=v, ...).inc()] and [.observe(x)]; [None] is the [ValueError] of wrong
    labels.  [value]: a counter, or the number of observations of a histogram. *)
Class Registry (R : Type) := {
  inc : Series → R → option R;
  observe : Series → R → option R;
  value : R → Series → nat;
}.

(** Documented behaviour of [prometheus_client]: the labels must be the declared ones, and
    only the series itself moves. *)
Class RegistryLaws (R : Type) `{!Registry R} := {
  inc_law s r : s.2.*1 = labelnames s.1 → metric_type s.1 = Counter →
    ∃ r', inc s r = Some r' ∧ ∀ s', value r' s' = value r s' + if decide (s' = s) then 1 else 0;
  observe_law s r : s.2.*1 = labelnames s.1 → metric_type s.1 = Histogram →
    ∃ r', observe s r = Some r' ∧ ∀ s', value r' s' = value r s' + if decide (s' = s) then 1 else 0;
}.

(** The series that the engine touches. *)
Definition breach_series (process fact : string) (sev : Severity) : Series :=
  (THRESHOLD_BREACHES, [("process", process); ("metric", fact); ("severity", severity_str sev)]).
Definition suppressed_series (process fact : string) (sev : Severity) : Series :=
  (ALERTS_SUPPRESSED, [("process", process); ("metric", fact); ("severity", severity_str sev)]).
Definition sent_series (code subcode : string) : Series :=
  (ALERTS_SENT, [("code", code); ("subcode", subcode)]).
Definition query_series (process : string) : Series := (ES_QUERY_DURATION, [("process", process)]).

(** The job wrapper's. *)
Definition job_series (label : string * string * string) : Series :=
  let '(process, status, reason) := label in
  (JOB_TOTAL, [("process", process); ("status", status); ("reason", reason)]).

Definition series_of (process : string) (e : Event) : option Series :=
  match e with
  | EvBreach fact sev => Some (breach_series process fact sev)
  | EvSuppressed fact sev => Some (suppressed_series process fact sev)
  | EvSent code subcode => Some (sent_series code subcode)
  | EvSearched => Some (query_series process)
  | EvResolved _ _ | EvMail _ _ | EvAnswer _ _ | EvCooldown _ _ => None
  end.

Section Count.
Context {R : Type} `{!Registry R}.

Definition touch (s : Series) (r : R) : option R :=
  match metric_type s.1 with Histogram => observe s r | _ => inc s r end.

(** The counters after the events of a tick. *)
Definition count_event (process : string) (r : R) (e : Event) : option R :=
  match series_of process e with Some s => touch s r | None => Some r end.

Fixpoint count_events (process : string) (tr : list Event) (r : R) : option R :=
  match tr with
  | [] => Some r
  | e :: tr' => r' ← count_event process r e; count_events process tr' r'
  end.

Fixpoint count_jobs (labels : list (string * string * string)) (r : R) : option R :=
  match labels with
  | [] => Some r
  | l :: labels' => r' ← inc (job_series l) r; count_jobs labels' r'
  end.

Context `{!RegistryLaws R}.

Lemma touch_law (s : Series) r :
  s.2.*1 = labelnames s.1 → metric_type s.1 ≠ Gauge →
  ∃ r', touch s r = Some r' ∧ ∀ s', value r' s' = value r s' + if decide (s' = s) then 1 else 0.
Proof.
  intros Hl Hg. unfold touch. destruct (metric_type s.1) eqn:Et; [by apply inc_law|by apply observe_law|done].
Qed.

(** No call raises, and every series grows by the events that touch it. *)
Lemma count_events_spec process tr r :
  ∃ r', count_events process tr r = Some r' ∧
  ∀ s, value r' s = value r s + length (filter (λ e, series_of process e = Some s) tr).
Proof.
  revert r. induction tr as [|e tr IH]; intros r; [exists r; split; [done|intros s; simpl; lia]|].
  cbn [count_events]. assert (∃ r1, count_event process r e = Some r1 ∧
    ∀ s, value r1 s = value r s + if decide (series_of process e = Some s) then 1 else 0)
    as (r1 & -> & H1).
  { unfold count_event. destruct (series_of process e) as [s|] eqn:Es.
    2: { exists r. split; [done|]. intros s. rewrite decide_False by done. lia. }
    destruct (touch_law s r) as (r1 & -> & H1);
      [by destruct e; simplify_eq/=|by destruct e; simplify_eq/=|].
    exists r1. split; [done|]. intros s'. rewrite H1.
    destruct (decide (s' = s)), (decide (Some s = Some s')); congruence || lia. }
  simpl. destruct (IH r1) as (r' & -> & Hr). exists r'. split; [done|]. intros s.
  rewrite Hr, H1, filter_cons. case_decide; simpl; lia.
Qed.
End Count.

(** The jobs that have run, by outcome. *)
Lemma count_jobs_spec {R} `{!Registry R, !RegistryLaws R} labels (r : R) :
  ∃ r', count_jobs labels r = Some r' ∧
  ∀ l, value r' (job_series l) = value r (job_series l) + length (filter (λ l', l' = l) labels).
Proof.
  assert (∀ l l', job_series l = job_series l' → l = l') as Hinj
    by (intros [[] ] [[] ] [= -> -> ->]; done).
  revert r. induction labels as [|l labels IH]; intros r; [exists r; split; [done|intros l; simpl; lia]|].
  cbn [count_jobs]. destruct (inc_law (job_series l) r) as (r1 & -> & H1); [by destruct l as [[]]..|].
  simpl. destruct (IH r1) as (r' & -> & Hr). exists r'. split; [done|]. intros l'.
  rewrite Hr, H1, filter_cons. destruct (decide (l = l')) as [->|Hne].
  - rewrite decide_True by done. simpl. lia.
  - rewrite decide_False by (intros E; by apply Hinj in E). lia.
Qed.

(** ** The endpoint *)
Section Render.
(** [prometheus_client.generate_latest] and [CONTENT_TYPE_LATEST] *)
Context {R : Type} (generate_latest : R → string) (CONTENT_TYPE_LATEST : string).

Definition render_metrics (r : R) : string * string := (generate_latest r, CONTENT_TYPE_LATEST).

(** [GET /metrics]: the content and its media type. *)
Definition metrics (r : R) : string * string :=
  let '(body, ctype) := render_metrics r in (body, ctype).
End Render.

(** The readiness probe names the infrastructures of the gauge. *)
Lemma readiness_labels {W} `{!WaitFor W} (app : AppState W) s s' answer :
  readiness app s = (s', Ok answer) → (rd_checks answer).*1 = INFRA_LABELS.
Proof.
  unfold readiness. intros H.
  repeat (apply se_bind_Ok in H as (? & ? & _ & H)). by injection H as _ <-.
Qed.

(** ** The trace of a completed dispatch *)
Definition suppressions (members : list _Pending) : list Event :=
  (λ m, EvSuppressed (tb_fact (pd_breach m)) (tb_severity (pd_breach m))) <$> members.

(** A cooling group is counted member by member; the mail of another one is refused, or
    accepted, cooled down and counted. *)
Inductive group_trace (cooling : list (Check * bool)) (g : Check * list _Pending)
  : list Event → Prop :=
| gt_cooling : is_cooling cooling g.1 = true → group_trace cooling g (suppressions g.2)
| gt_refused alert : is_cooling cooling g.1 = false →
    group_trace cooling g [EvMail g.1 alert; EvAnswer g.1 false]
| gt_sent alert minutes : is_cooling cooling g.1 = false →
    group_trace cooling g [EvMail g.1 alert; EvAnswer g.1 true; EvCooldown g.1 minutes;
                           EvSent (er_code alert) (er_subcode alert)].

(** The requests the mail API accepted. *)
Fixpoint accepted (tr : list Event) : list EmailAlertRequest :=
  match tr with
  | EvMail _ a :: ((EvAnswer _ true :: _) as tr') => a :: accepted tr'
  | _ :: tr' => accepted tr'
  | [] => []
  end.

Definition like (fact : string) (sev : Severity) (b : ThresholdBreach) : Prop :=
  tb_fact b = fact ∧ tb_severity b = sev.
#[export] Instance like_dec fact sev b : Decision (like fact sev b) := _.

(** How many of the pending breaches are about a fact, with a severity. *)
Definition pending_like (fact : string) (sev : Severity) (l : list _Pending) : nat :=
  length (filter (λ p, like fact sev (pd_breach p)) l).

Definition touches (process : string) (s : Series) (tr : list Event) : nat :=
  length (filter (λ e, series_of process e = Some s) tr).

Lemma touches_app process s tr tr' :
  touches process s (tr ++ tr') = touches process s tr + touches process s tr'.
Proof. unfold touches. by rewrite filter_app, length_app. Qed.

Lemma pending_like_app fact sev l l' :
  pending_like fact sev (l ++ l') = pending_like fact sev l + pending_like fact sev l'.
Proof. unfold pending_like. by rewrite filter_app, length_app. Qed.

Lemma pending_like_cons fact sev p l :
  pending_like fact sev (p :: l) = pending_like fact sev [p] + pending_like fact sev l.
Proof. apply (pending_like_app _ _ [p]). Qed.

Lemma severity_str_inj s s' : severity_str s = severity_str s' → s = s'.
Proof. by destruct s, s'. Qed.

(** One event per member, all of one metric. *)
Lemma touches_members process (series : string → Severity → Series) (ev : _Pending → Event)
    fact sev l :
  (∀ f sv f' sv', series f sv = series f' sv' → f = f' ∧ sv = sv') →
  (∀ m, series_of process (ev m) = Some (series (tb_fact (pd_breach m)) (tb_severity (pd_breach m)))) →
  touches process (series fact sev) (ev <$> l) = pending_like fact sev l.
Proof.
  intros Hinj Hev. unfold touches, pending_like. induction l as [|m l IH]; [done|].
  cbn [fmap list_fmap]. rewrite !filter_cons, Hev. unfold like.
  destruct (decide (Some (series _ _) = _)) as [[= E%Hinj]|E].
  - rewrite decide_True by done. simpl. by rewrite IH.
  - rewrite decide_False by (intros [<- <-]; done). done.
Qed.

Lemma suppressions_touch process fact sev l :
  touches process (suppressed_series process fact sev) (suppressions l) = pending_like fact sev l.
Proof.
  apply (touches_members process (suppressed_series process)); [|done].
  intros f sv f' sv' [= ? Hs]. apply severity_str_inj in Hs. done.
Qed.

Lemma touches_none process s tr :
  Forall (λ e, series_of process e ≠ Some s) tr → touches process s tr = 0.
Proof.
  unfold touches. induction 1 as [|e tr He _ IH]; [done|]. by rewrite filter_cons, decide_False.
Qed.

Lemma accepted_suppressions l tr : accepted (suppressions l ++ tr) = accepted tr.
Proof. by induction l. Qed.

Section Dispatch.
Context {W : Type} `{!Deps W, !SetIter}.
Context (settings : AlertSettings).
#[local] Existing Instance no_inv.
Notation logs := (logs (λ _ : W, True)).

Lemma suppress_shape members :
  logs (iter_se (λ m, emit (EvSuppressed (tb_fact (pd_breach m)) (tb_severity (pd_breach m))))
          members) (λ tr _, tr = suppressions members).
Proof.
  eapply (logs_iter _ _ (λ l tr (_ : res EngineError unit), tr = suppressions l)); [done|].
  intros m l' _. apply logs_emit. by intros tr r ->.
Qed.

Lemma dispatch_group_shape process eqp_lookup now values d g :
  group_ok eqp_lookup g →
  logs (dispatch_group settings process eqp_lookup now values d g)
    (λ tr r, r = Ok tt → group_trace d g tr).
Proof.
  destruct g as [key members]. intros [Hne Hk]. unfold dispatch_group.
  destruct (is_cooling d key) eqn:Ec.
  { eapply logs_weaken; [apply suppress_shape|]. intros tr r -> _. by apply (gt_cooling d (key, members)). }
  unfold mail_group. simpl in *. destruct members as [|m0 ms]; [done|].
  destruct (breaching (m0 :: ms)) as [|rep_eqp rest] eqn:Eb.
  { assert (tb_eqp_id (pd_breach m0) ∈ breaching (m0 :: ms)) as Hin
      by (apply elem_of_sort_by, elem_of_remove_dups; left).
    rewrite Eb in Hin. by apply elem_of_nil in Hin. }
  destruct (list_find _ _) as [[i rep]|]; [|by apply logs_raise].
  destruct (ODict.get rep_eqp eqp_lookup) as [info|]; [|by apply logs_raise].
  eapply (logs_bind _ _ _ (λ tr _, tr = [])); [|done|].
  { destruct (rms_custom_body_enabled settings); [|by apply logs_ret].
    apply logs_dep; [by eauto with deps_inv|done]. }
  intros template tr ->. eapply (logs_bind _ _ _ (λ tr _, tr = [])); [by apply logs_lift|done|].
  intros alert ? ->. eapply logs_weaken; [apply (send_group_logs _ (λ _ _ _, True))|].
  intros tr r [[-> Hr]|[->|[[-> Hr]| ->]]] ->; [done| |done|]; constructor; exact Ec.
Qed.

Lemma dispatch_shape process eqp_lookup now values d gs :
  Forall (group_ok eqp_lookup) gs →
  logs (iter_se (dispatch_group settings process eqp_lookup now values d) gs)
    (λ tr r, r = Ok tt → ∃ trs, tr = mjoin trs ∧ Forall2 (group_trace d) gs trs).
Proof.
  intros Hgs. apply (logs_iter _ _ (λ gs tr r, r = Ok tt →
    ∃ trs, tr = mjoin trs ∧ Forall2 (group_trace d) gs trs)).
  { intros _. by exists []. }
  intros g gs' Hsuf. eapply logs_weaken; [apply dispatch_group_shape|].
  { destruct Hsuf as [k ->]. apply Forall_app in Hgs as [_ Hgs]. by inversion Hgs. }
  intros tr [[]|e] Ht; [|done]. intros tr' r' Hrest Hr. destruct (Hrest Hr) as (trs & -> & Htrs).
  exists (tr :: trs). split; [done|]. constructor; auto.
Qed.
End Dispatch.

(** ** What the trace says *)
Lemma group_trace_mails d g tr :
  group_trace d g tr → mails tr = if is_cooling d g.1 then [] else [g.1].
Proof.
  intros [Hc|alert Hc|alert minutes Hc]; rewrite Hc; try done.
  apply mails_silent, Forall_fmap, Forall_true. by intros m.
Qed.

Lemma group_trace_suppressed process fact sev d g tr :
  group_trace d g tr →
  touches process (suppressed_series process fact sev) tr
  = if is_cooling d g.1 then pending_like fact sev g.2 else 0.
Proof.
  intros [Hc|alert Hc|alert minutes Hc]; rewrite Hc; [apply suppressions_touch|..];
    (apply touches_none; repeat constructor; done).
Qed.

Definition sent_as (code subcode : string) (l : list EmailAlertRequest) : nat :=
  length (filter (λ a, er_code a = code ∧ er_subcode a = subcode) l).

Lemma accepted_group d g tr tr' :
  group_trace d g tr → accepted (tr ++ tr') = accepted tr ++ accepted tr'.
Proof.
  intros [Hc|alert Hc|alert minutes Hc]; [|done|done].
  rewrite accepted_suppressions. by rewrite <-(app_nil_r (suppressions _)), accepted_suppressions.
Qed.

Lemma group_trace_sent process code subcode d g tr :
  group_trace d g tr →
  touches process (sent_series code subcode) tr = sent_as code subcode (accepted tr).
Proof.
  intros [Hc|alert Hc|alert minutes Hc]; [|done|].
  - rewrite <-(app_nil_r (suppressions _)), accepted_suppressions, app_nil_r.
    apply touches_none, Forall_fmap, Forall_true. by intros m.
  - unfold touches, sent_as. simpl. rewrite !filter_cons, !filter_nil. simpl.
    destruct (decide (Some _ = _)) as [[= -> ->]|E]; [by rewrite decide_True|].
    rewrite decide_False; [done|]. by intros [<- <-].
Qed.

Lemma group_trace_other process s d g tr :
  group_trace d g tr → s.1 ≠ ALERTS_SUPPRESSED → s.1 ≠ ALERTS_SENT → touches process s tr = 0.
Proof.
  intros Hg H1 H2. apply touches_none. destruct Hg as [Hc|alert Hc|alert minutes Hc].
  - apply Forall_fmap, Forall_true. intros m [= <-]. done.
  - repeat constructor; done.
  - repeat constructor; try done. intros [= <-]. done.
Qed.

(** The suppressed breaches, and those of the groups a mail was tried for, are all. *)
Lemma shape_conserves process (key : _Pending → Check) fact sev d gs trs (M : list Check) :
  Forall2 (group_trace d) gs trs →
  (∀ g, g ∈ gs → (is_cooling d g.1 = false ↔ g.1 ∈ M) ∧ ∀ p, p ∈ g.2 → key p = g.1) →
  touches process (suppressed_series process fact sev) (mjoin trs)
  + pending_like fact sev (filter (λ p, key p ∈ M) (mjoin gs.*2))
  = pending_like fact sev (mjoin gs.*2).
Proof.
  induction 1 as [|g tr gs trs Hg _ IH]; intros HM; [done|]. csimpl.
  rewrite touches_app, filter_app, !pending_like_app, (group_trace_suppressed _ _ _ _ _ _ Hg).
  assert (∀ l, (∀ p, p ∈ l → key p = g.1) →
    (if is_cooling d g.1 then pending_like fact sev l else 0)
    + pending_like fact sev (filter (λ p, key p ∈ M) l) = pending_like fact sev l) as Hl.
  { destruct (HM g (list_elem_of_here _ _)) as [HM1 _].
    intros l. induction l as [|p l IHl]; intros Hk; [by destruct (is_cooling _ _)|].
    specialize (IHl (λ q Hq, Hk q (list_elem_of_further _ _ _ Hq))).
    rewrite filter_cons, (Hk p), (pending_like_cons _ _ p l) by left.
    destruct (is_cooling d g.1).
    - rewrite decide_False by (intros H%HM1; done). lia.
    - rewrite decide_True by (by apply HM1). rewrite pending_like_cons. lia. }
  specialize (Hl g.2 (proj2 (HM g (list_elem_of_here _ _)))).
  specialize (IH (λ h Hh, HM h (list_elem_of_further _ _ _ Hh))). lia.
Qed.

Lemma shape_sent process code subcode d gs trs :
  Forall2 (group_trace d) gs trs →
  touches process (sent_series code subcode) (mjoin trs)
  = sent_as code subcode (accepted (mjoin trs)).
Proof.
  induction 1 as [|g tr gs trs Hg _ IH]; [done|]. csimpl.
  rewrite touches_app, (group_trace_sent _ _ _ _ _ _ Hg), IH, (accepted_group _ _ _ _ Hg).
  unfold sent_as. by rewrite filter_app, length_app.
Qed.

Lemma shape_other process s d gs trs :
  Forall2 (group_trace d) gs trs → s.1 ≠ ALERTS_SUPPRESSED → s.1 ≠ ALERTS_SENT →
  touches process s (mjoin trs) = 0.
Proof.
  intros Hs H1 H2. induction Hs as [|g tr gs trs Hg _ IH]; [done|]. csimpl.
  by rewrite touches_app, IH, (group_trace_other _ _ _ _ _ Hg).
Qed.

Lemma shape_mails d gs trs :
  Forall2 (group_trace d) gs trs → mails (mjoin trs) = not_cooling d gs.*1.
Proof.
  induction 1 as [|g tr gs trs Hg _ IH]; [done|]. csimpl.
  rewrite mails_app, IH, (group_trace_mails _ _ _ Hg). unfold not_cooling. rewrite filter_cons.
  destruct (is_cooling d g.1) eqn:E; [by rewrite decide_False|by rewrite decide_True].
Qed.

(** ** A completed dispatch *)

(** The numbers of a dispatch: every breach of known equipment is either counted as
    suppressed or belongs to a group that a mail was tried for, every accepted mail is
    counted as sent, and nothing else moves. *)
Record accounted (process : string) (key : _Pending → Check) (l : list _Pending)
    (tr : list Event) : Prop := {
  acc_breaches fact sev :
    touches process (suppressed_series process fact sev) tr
    + pending_like fact sev (filter (λ p, key p ∈ mails tr) l) = pending_like fact sev l;
  acc_sent code subcode :
    touches process (sent_series code subcode) tr = sent_as code subcode (accepted tr);
  acc_other s : s.1 ≠ ALERTS_SUPPRESSED → s.1 ≠ ALERTS_SENT → touches process s tr = 0;
}.

Lemma pending_like_perm fact sev l l' :
  l ≡ₚ l' → pending_like fact sev l = pending_like fact sev l'.
Proof. intros H. unfold pending_like. by rewrite H. Qed.

Lemma pending_like_filter_perm fact sev (P : _Pending → Prop) `{!∀ p, Decision (P p)} l l' :
  l ≡ₚ l' → pending_like fact sev (filter P l) = pending_like fact sev (filter P l').
Proof. intros Hl. apply pending_like_perm. by rewrite Hl. Qed.

Lemma dispatch_accounted {W} `{!Deps W, !SetIter} settings process pending eqp_lookup now
    (s s' : W * list Event) :
  _dispatch settings process pending eqp_lookup now s = (s', Ok tt) →
  ∃ tr, s'.2 = s.2 ++ tr
  ∧ accounted process (key_of_pending process eqp_lookup) (known eqp_lookup pending) tr.
Proof.
  unfold _dispatch. set (groups := pending_groups process eqp_lookup pending).
  assert (mjoin groups.*2 ≡ₚ known eqp_lookup pending) as Hperm by apply ODict.group_values_perm.
  intros Hs.
  assert (∃ d trs, s'.2 = s.2 ++ mjoin trs ∧ Forall2 (group_trace d) groups trs)
    as (d & trs & E & Htrs).
  { case_decide as Eg.
    - injection Hs as <-. exists [], []. rewrite app_nil_r, Eg. done.
    - apply se_bind_Ok in Hs as (s1 & d & Hd & Hs). unfold dep in Hd.
      destruct (cooling_batch _ _) as [w r]. injection Hd as <- ->.
      apply (dispatch_shape settings process eqp_lookup now _ d groups
        (pending_groups_ok _ _ _)) in Hs as (_ & tr & E & Htr); [|done].
      destruct (Htr eq_refl) as (trs & -> & ?). by exists d, trs. }
  exists (mjoin trs). split; [done|]. split; [|intros; by eapply shape_sent|intros; by eapply shape_other].
  intros fact sev. rewrite (shape_mails _ _ _ Htrs).
  rewrite <-(pending_like_perm fact sev _ _ Hperm).
  rewrite <-(pending_like_filter_perm fact sev _ _ _ Hperm).
  apply (shape_conserves process (key_of_pending process eqp_lookup) fact sev d); [done|].
  intros [k ms] Hin. split.
  - unfold not_cooling. rewrite list_elem_of_filter. split; [|by intros []].
    intros Hc. split; [done|]. by apply (list_elem_of_fmap_2 fst) in Hin.
  - intros p Hp. apply ODict.elem_of_group in Hin as [-> _].
    by apply list_elem_of_filter in Hp as [? _].
Qed.

(** ** A completed tick *)

(** What a tick does before it counts its breaches. *)
Definition uncounted (e : Event) : Prop :=
  match e with EvResolved _ _ | EvSearched => True | _ => False end.

Lemma uncounted_touch process s tr :
  Forall uncounted tr → s.1 ≠ ES_QUERY_DURATION → touches process s tr = 0.
Proof.
  intros Htr Hs. apply touches_none. eapply Forall_impl; [exact Htr|].
  intros [] Hu; simpl in *; try done. intros [= <-]. done.
Qed.

Lemma uncounted_silent tr : Forall uncounted tr → mails tr = [] ∧ ∀ tr', accepted (tr ++ tr') = accepted tr'.
Proof.
  intros Htr. split.
  - apply mails_silent. eapply Forall_impl; [exact Htr|]. by intros [].
  - intros tr'. induction Htr as [|[] tr He _ IH]; (done || exact IH).
Qed.

Definition breach_events (pending : list _Pending) : list Event :=
  (λ p, EvBreach (tb_fact (pd_breach p)) (tb_severity (pd_breach p))) <$> pending.

Lemma breach_events_touch process fact sev l :
  touches process (breach_series process fact sev) (breach_events l) = pending_like fact sev l.
Proof.
  apply (touches_members process (breach_series process)); [|done].
  intros f sv f' sv' [= ? Hs]. apply severity_str_inj in Hs. done.
Qed.

Lemma breach_events_other process s l :
  s.1 ≠ THRESHOLD_BREACHES → touches process s (breach_events l) = 0.
Proof. intros Hs. apply touches_none, Forall_fmap, Forall_true. intros m [= <-]. done. Qed.

Lemma breach_events_silent l :
  mails (breach_events l) = [] ∧ ∀ tr', accepted (breach_events l ++ tr') = accepted tr'.
Proof.
  split; [apply mails_silent, Forall_fmap, Forall_true; by intros m|].
  intros tr'. by induction l.
Qed.

Lemma pending_like_fmap fact sev l :
  pending_like fact sev l = length (filter (like fact sev) (pd_breach <$> l)).
Proof.
  unfold pending_like. induction l as [|p l IH]; [done|]. csimpl. rewrite !filter_cons.
  case_decide; simpl; by rewrite IH.
Qed.

Section Tick.
Context {W : Type} `{!Deps W, !SetIter}.
Context (settings : AlertSettings) (es_keyword_suffix : string).
Context (pydantic_float : string → option num).
Context (digest : bool * list Measure * list Rule * list (string * NotifyChannel) → string).
#[local] Existing Instance no_inv.
Notation logs := (logs (λ _ : W, True)).
Notation tick := (_do_analysis settings es_keyword_suffix pydantic_float digest).

Lemma breach_loop pending :
  logs (iter_se (λ p, emit (EvBreach (tb_fact (pd_breach p)) (tb_severity (pd_breach p)))) pending)
    (λ tr _, tr = breach_events pending).
Proof.
  eapply (logs_iter _ _ (λ l tr (_ : res EngineError unit), tr = breach_events l)); [done|].
  intros m l' _. apply logs_emit. by intros tr r ->.
Qed.

(** The breaches pending in a completed tick, which [evaluate_buckets] found, and its
    events: uncounted ones, one per breach, and those of the dispatch. *)
Lemma tick_shape process interval (s s' : W * list Event) result :
  tick process interval s = (s', Ok result) →
  ∃ w1 equipment pending tr1 tr2,
    get_equipment process s.1 = (w1, Ok equipment)
  ∧ ar_breaches result = pd_breach <$> pending
  ∧ (pending = [] ∨ ∃ buckets s2 s3 ids, evaluate_buckets es_keyword_suffix pydantic_float
       process interval (utc_now s.1) buckets s2 = (s3, Ok (pending, ids)))
  ∧ s'.2 = s.2 ++ tr1 ++ breach_events pending ++ tr2 ∧ Forall uncounted tr1
  ∧ let eqp_lookup := ODict.of_list ((λ d, (ei_eqpId d, d)) <$> equipment) in
    accounted process (key_of_pending process eqp_lookup) (known eqp_lookup pending) tr2.
Proof.
  intros Hs. unfold _do_analysis in Hs.
  apply se_bind_Ok in Hs as (s0 & now & [= <- <-] & Hs).
  apply se_bind_Ok in Hs as (s1 & equipment & He & Hs). unfold dep in He.
  destruct (get_equipment process s.1) as [w1 r] eqn:Eg. injection He as <- ->.
  assert (∀ key, accounted process key [] []) as Hnil by (by split).
  exists w1, equipment. cbv zeta in Hs. case_decide as Hne.
  { injection Hs as <- <-. exists [], [], []. rewrite app_nil_r. simpl. eauto 10. }
  apply se_bind_Ok in Hs as (s2 & buckets & Hb & Hs).
  assert (emits (λ _, True) uncounted (fold_se (resolve_into digest process) equipment [])) as Hu1
    by (unfold resolve_into; emit_parts).
  apply Hu1 in Hb as (_ & tr1 & E1 & Hq1); [|done]. clear Hu1.
  apply se_bind_Ok in Hs as (s3 & [pending ids] & Ha & Hs).
  assert (emits (λ _, True) uncounted (evaluate_buckets es_keyword_suffix pydantic_float process
    interval (utc_now s.1) buckets)) as Hu2
    by (unfold evaluate_buckets, _evaluate_bucket, _compute_measure; emit_parts).
  pose proof Ha as Ha'. apply Hu2 in Ha' as (_ & tr2 & E2 & Hq2); [|done]. clear Hu2.
  apply se_bind_Ok in Hs as (s4 & [] & Hbr & Hs).
  apply breach_loop in Hbr as (_ & tr3 & E3 & ->); [|done].
  apply se_bind_Ok in Hs as (s5 & [] & Hd & [= <- <-]). cbn [snd ar_breaches] in *.
  set (lookup := ODict.of_list _) in *.
  assert (∃ tr4, s5.2 = s4.2 ++ tr4 ∧
    accounted process (key_of_pending process lookup) (known lookup pending) tr4) as (tr4 & E4 & H4).
  { case_decide as Hp; [|by apply dispatch_accounted in Hd].
    injection Hd as <-. exists []. rewrite app_nil_r, Hp. split; [done|apply Hnil]. }
  exists pending, (tr1 ++ tr2), tr4. split_and!; [done|done|eauto 10| |by apply Forall_app|done].
  by rewrite E4, E3, E2, E1, !app_assoc.
Qed.

Context {R : Type} `{!Registry R, !RegistryLaws R}.

(** C27: The counters of a completed tick tell what happened in it, and counting never
    raises.  The breach counter of a fact and a severity grows by the breaches of the
    tick about it.  Of those whose equipment is known, each is either counted as
    suppressed by a cooldown or belongs to a group that a mail was tried for in this
    tick: no breach is lost silently.  The counter of sent alerts grows, for every code
    and subcode, by the requests the mail API accepted; and no other series moves but
    the latency of the searches. *)
Theorem tick_accounts_breaches process interval (s s' : W * list Event) result (r : R) :
  tick process interval s = (s', Ok result) →
  ∃ w1 equipment pending tr r',
    s'.2 = s.2 ++ tr ∧ count_events process tr r = Some r'
  ∧ get_equipment process s.1 = (w1, Ok equipment)
  ∧ ar_breaches result = pd_breach <$> pending
  ∧ (pending = [] ∨ ∃ buckets s2 s3 ids, evaluate_buckets es_keyword_suffix pydantic_float
       process interval (utc_now s.1) buckets s2 = (s3, Ok (pending, ids)))
  ∧ let eqp_lookup := ODict.of_list ((λ d, (ei_eqpId d, d)) <$> equipment) in
    let key := key_of_pending process eqp_lookup in
    (∀ fact sev, value r' (breach_series process fact sev) = value r (breach_series process fact sev)
       + length (filter (like fact sev) (ar_breaches result)))
  ∧ (∀ fact sev,
       value r' (suppressed_series process fact sev)
       + pending_like fact sev (filter (λ p, key p ∈ mails tr) (known eqp_lookup pending))
       = value r (suppressed_series process fact sev)
         + pending_like fact sev (known eqp_lookup pending))
  ∧ (∀ code subcode, value r' (sent_series code subcode)
       = value r (sent_series code subcode) + sent_as code subcode (accepted tr))
  ∧ ∀ x, x.1 ∉ [THRESHOLD_BREACHES; ALERTS_SUPPRESSED; ALERTS_SENT; ES_QUERY_DURATION] →
       value r' x = value r x.
Proof.
  intros (w1 & equipment & pending & tr1 & tr2 & He & Hb & Hp & E & Hu & Hacc)%tick_shape.
  cbv zeta in *. set (lookup := ODict.of_list _) in *.
  destruct (count_events_spec process (tr1 ++ breach_events pending ++ tr2) r) as (r' & Hc & Hv).
  exists w1, equipment, pending, (tr1 ++ breach_events pending ++ tr2), r'.
  assert (∀ x, value r' x = value r x + (touches process x tr1
    + (touches process x (breach_events pending) + touches process x tr2))) as Hv'
    by (intros x; rewrite Hv; unfold touches; by rewrite !filter_app, !length_app).
  clear Hv. destruct Hacc as [Hsup Hsent Hother].
  assert (mails (tr1 ++ breach_events pending ++ tr2) = mails tr2) as Hm.
  { rewrite !mails_app, (proj1 (breach_events_silent _)). by rewrite (proj1 (uncounted_silent _ Hu)). }
  split_and!; [done..| | | |].
  - intros fact sev. rewrite Hv', breach_events_touch, Hother, uncounted_touch by done.
    rewrite Hb, pending_like_fmap. lia.
  - intros fact sev. rewrite Hm, Hv', breach_events_other, uncounted_touch by done.
    specialize (Hsup fact sev). subst lookup. lia.
  - intros code subcode. rewrite Hv', breach_events_other, uncounted_touch, Hsent by done.
    rewrite (proj2 (uncounted_silent _ Hu)), (proj2 (breach_events_silent _)). lia.
  - intros x Hx. rewrite Hv', breach_events_other, uncounted_touch, Hother by set_solver. lia.
Qed.
End Tick.

(** ** A registry in memory: the touches so far *)
Notation MemRegistry := (list Series).

#[export] Instance mem_registry : Registry MemRegistry := {
  inc s r := if decide (s.2.*1 = labelnames s.1 ∧ metric_type s.1 = Counter)
             then Some (s :: r) else None;
  observe s r := if decide (s.2.*1 = labelnames s.1 ∧ metric_type s.1 = Histogram)
                 then Some (s :: r) else None;
  value r s := length (filter (λ s', s = s') r);
}.

#[export] Instance mem_registry_laws : RegistryLaws MemRegistry.
Proof.
  split; intros s r Hl Ht; exists (s :: r);
    (split; [simpl; by rewrite decide_True|]); intros s'; unfold value, mem_registry; rewrite filter_cons;
    destruct (decide (s' = s)); simpl; lia.
Qed.

(** Three breaches of two equipment, two mails; the wrong labels are refused. *)
Example counters_example :
  let '(s1, _) := ex_tick ex_deps in
  let '(s2, _) := ex_tick s1.1 in
  match r ← count_events "ETCH" s1.2 ([] : MemRegistry); count_events "ETCH" s2.2 r with
  | Some r => value r (breach_series "ETCH" "disk.max" CRITICAL) = 6
      ∧ value r (suppressed_series "ETCH" "disk.max" CRITICAL) = 3
      ∧ value r (sent_series "RESOURCE_MONITOR" "DISK_CRITICAL") = 2
      ∧ value r (query_series "ETCH") = 4
  | None => False
  end ∧ inc (JOB_TOTAL, [("process", "ETCH")]) ([] : MemRegistry) = None.
Proof. vm_compute. repeat split. Qed.

Lemma tick_accounts_breaches_witness :
  ∃ s' result r', ex_tick ex_deps = (s', Ok result) ∧
    count_events "ETCH" s'.2 ([] : MemRegistry) = Some r' ∧
    value r' (breach_series "ETCH" "disk.max" CRITICAL) = 3 ∧
    value r' (sent_series "RESOURCE_MONITOR" "DISK_CRITICAL") = sent_as "RESOURCE_MONITOR" "DISK_CRITICAL" (accepted s'.2).
Proof.
  assert (∃ s' result, ex_tick ex_deps = (s', Ok result)
          ∧ length (filter (like "disk.max" CRITICAL) (ar_breaches result)) = 3)
    as (s' & result & Hs & Hl) by (eexists _, _; split; [vm_compute; reflexivity|reflexivity]).
  destruct (@tick_accounts_breaches MemDeps mem_deps set_iter_id ex_settings "" (λ _, None)
    ex_digest MemRegistry mem_registry mem_registry_laws "ETCH" 5 (ex_deps, []) s' result [] Hs)
    as (w1 & equipment & pending & tr & r' & E & Hc & _ & _ & _ & Hb & _ & Hsent & _).
  simpl in E. subst tr. exists s', result, r'. split; [exact Hs|]. split; [exact Hc|].
  split; [rewrite Hb, Hl; reflexivity|apply Hsent].
Defined.
