(* ===== verification/Admin.v ===== *)
(** * The operators' endpoints ([src/api/admin.py])

    Each handler is composed from the operations of the component it asks: the cooldown
    manager, the scheduler, the mail client's outbox, and for the status the scheduler,
    the partition manager and ZooKeeper. *)
From stdpp Require Import base list strings gmap.
From Stdlib Require Import ZArith Lia.
From S2P Require Import Prelude Cache Cooldown Scheduler EmailClient.
Local Open Scope se_scope.

(** ** [DELETE /admin/cooldowns] *)
Section Cooldowns.
Context {W L : Type} `{!Redis W, !TTLCache L Z}.
Context (debug_read_only : bool) (key_prefix : string).

(** What is answered. *)
Definition cleared (c : Check) : string :=
  join_colon [ck_process c; ck_eqp_id c; ck_proc c; ck_notify c; ck_severity c].

Definition clear_cooldown (c : Check) : SE (W * L) RedisExc string :=
  Cooldown.clear_cooldown debug_read_only key_prefix c ;;; se_ret (cleared c).

Context (expiry : W → gmap string Z) `{!RedisLaws W expiry}.
Context (entries : L → gmap string (Z * Z))
  `{!TTLCacheLaws L Z COOLDOWN_LOCAL_CACHE_MAX_TTL_SEC entries}.
(** [DEL] and the clock. *)
Hypothesis delete_law : ∀ k w w', redis_delete k w = (w', Ok tt) →
  expiry w' = delete k (expiry w).

(** An operator's clear is effective for this instance: the local entry is gone, so a
    check that cannot reach Redis finds no cooldown, and when Redis was reached, neither
    does a check that reaches it. *)
Theorem clear_cooldown_pages_again c (s s' s2 : W * L) a b w :
  clear_cooldown c s = (s', Ok a) →
  is_cooling_down debug_read_only key_prefix c (w, s'.2) = (s2, Ok b) →
  a = cleared c ∧
  (debug_read_only = true ∨ (redis_exists (_make_key key_prefix c) w).2 = Err RedisUnavailable →
   b = false) ∧
  ((redis_delete (_make_key key_prefix c) s.1).2 = Ok tt → expiry w = expiry s'.1 → b = false).
Proof.
  intros Hc Hd. unfold clear_cooldown in Hc. apply se_bind_Ok in Hc as (s1 & [] & Hc & [= <- <-]).
  set (key := _make_key key_prefix c) in *.
  assert (entries s1.2 !! key = None) as Hl.
  { unfold Cooldown.clear_cooldown, se_bind, se_modify in Hc. fold key in Hc.
    assert (s1.2 = cache_pop key s.2) as ->; [|by rewrite entries_pop, lookup_delete_eq].
    destruct debug_read_only; [by injection Hc as <-|].
    unfold or_unavailable, se_catch, redis in Hc. simpl in Hc.
    destruct (redis_delete key s.1) as [w' [[]|[]]]; by injection Hc as <-. }
  assert (cache_get (clock w) key s1.2 = None) as Hget by (by rewrite cache_get_spec, Hl).
  split; [done|]. unfold is_cooling_down in Hd. fold key in Hd.
  assert (in_local key (w, s1.2) = ((w, s1.2), Ok false)) as Hin
    by (unfold in_local; simpl; by rewrite Hget).
  destruct debug_read_only eqn:Edebug.
  - rewrite Hin in Hd. by injection Hd as _ <-.
  - unfold or_unavailable, se_catch, redis in Hd. simpl in Hd.
    destruct (redis_exists key w) as [w2 r2] eqn:Ex. simpl. split.
    + intros [|He]; [done|]. simpl in He. subst r2. unfold in_local in Hd. simpl in Hd.
      rewrite cache_get_spec, Hl in Hd. by injection Hd as _ <-.
    + intros Hdel He. destruct r2 as [b2|[]]; simpl in Hd; [| |done].
      * injection Hd as _ ->. apply exists_law in Ex as [_ ->]. rewrite He.
        unfold Cooldown.clear_cooldown, se_bind, se_modify in Hc. fold key in Hc.
        unfold or_unavailable, se_catch, redis in Hc. simpl in Hc.
        destruct (redis_delete key s.1) as [w' [[]|]] eqn:E; [|done].
        injection Hc as <-. simpl. by rewrite (delete_law _ _ _ E), lookup_delete_eq.
      * unfold in_local in Hd. simpl in Hd. rewrite cache_get_spec, Hl in Hd.
        by injection Hd as _ <-.
Qed.
End Cooldowns.

(** ** [POST /admin/scheduler/reload] *)
Inductive AdminError : Type := HTTP503 (detail : string) | ServerError.

Section Reload.
Context {W : Type} `{!Backend W, !SetIter} (settings : Settings).

Definition reload_scheduler : SE (Sched * W) AdminError bool := λ s,
  match reconcile settings s with
  | (s', Ok changed) => (s', Ok changed)
  | (s', Err MongoUnavailable) => (s', Err (HTTP503 "database unavailable"))
  | (s', Err _) => (s', Err ServerError)
  end.
End Reload.

(** ** [GET /admin/email-outbox] *)
Record OutboxAnswer := mkOutboxAnswer
  { oa_count : nat; oa_max_size : nat; oa_entries : list OutboxRecord; oa_available : bool }.

Definition email_outbox (email_client : option EmailAlertClient) : OutboxAnswer :=
  match email_client with
  | None => mkOutboxAnswer 0 0 [] false
  | Some c =>
      let snapshot := get_outbox_snapshot c in
      mkOutboxAnswer (length snapshot) outbox_max_size (last_n 50 snapshot) true
  end.

(** The newest entries, at most fifty of them. *)
Lemma email_outbox_spec c :
  let a := email_outbox (Some c) in
  oa_entries a `suffix_of` ec_outbox c ∧ length (oa_entries a) = 50 `min` oa_count a.
Proof.
  unfold email_outbox. cbn [oa_entries oa_count]. unfold last_n, get_outbox_snapshot. split.
  - exists (take (length (ec_outbox c) - 50) (ec_outbox c)). by rewrite take_drop.
  - rewrite length_drop. lia.
Qed.

(** ** [GET /admin/status] *)

(** What is read of the partition manager and the leader election, and of ZooKeeper. *)
Record PmStatus := mkPmStatus { ps_is_leader : bool; ps_epoch : option Z; ps_processes : list string }.

(** A row of [scheduled_jobs]; the time is given as ISO text. *)
Record JobRow := mkJobRow { jr_id : string; jr_next_run : option Z }.

Record StatusAnswer := mkStatus
  { st_instance_id : string; st_debug_read_only : bool; st_scheduled_jobs : list JobRow;
    st_scheduler_running : bool; st_is_leader : option bool; st_leader_epoch : option Z;
    st_assigned_processes : option (list string); st_zk_connected : option bool;
    st_zk_server_version : option string }.

(** The rows up to the first job whose reading raises. *)
Fixpoint job_rows (jobs : list (res unit JobRow)) : list JobRow :=
  match jobs with
  | Ok row :: jobs => row :: job_rows jobs
  | _ => []
  end.

(** [jobs]: what [get_jobs()] gives, [None] when it raises; [leader_epoch] is only shown
    of a leader. *)
Definition admin_status (instance_id : string) (debug_read_only : bool)
    (jobs : option (list (res unit JobRow))) (running : bool) (pm : option PmStatus)
    (zk : option (bool * string)) : StatusAnswer :=
  mkStatus instance_id debug_read_only
    (match jobs with Some js => job_rows js | None => [] end) running
    (ps_is_leader <$> pm)
    (p ← pm; if ps_is_leader p then ps_epoch p else None)
    (ps_processes <$> pm) (fst <$> zk) (snd <$> zk).

(** ** Witnesses *)
#[local] Instance ex_local : TTLCache (MapCache Z) Z := map_cache_ops 3600.
#[local] Instance ex_local_laws : TTLCacheLaws (MapCache Z) Z 3600 map_cache :=
  map_cache_laws 3600.

(** A cooldown that is set and cleared. *)
Definition ex_cooling : MemRedis * MapCache Z :=
  (set_cooldown false "rms" ex_check 30 (ex_state true)).1.

Lemma clear_cooldown_pages_again_witness :
  (is_cooling_down false "rms" ex_check ex_cooling).2 = Ok true ∧
  (is_cooling_down false "rms" ex_check (clear_cooldown false "rms" ex_check ex_cooling).1).2
    = Ok false.
Proof.
  split; [vm_compute; reflexivity|].
  set (s' := (clear_cooldown false "rms" ex_check ex_cooling).1).
  assert (clear_cooldown false "rms" ex_check ex_cooling
          = (s', Ok "ETCH:E1:@system:default:CRITICAL")) as Hc by (vm_compute; reflexivity).
  assert (is_cooling_down false "rms" ex_check (s'.1, s'.2)
          = (s', Ok (mr_exists (_make_key "rms" ex_check) s'.1))) as Hd by (vm_compute; reflexivity).
  assert (∀ k w w', redis_delete k w = (w', Ok tt) → mr_expiry w' = delete k (mr_expiry w)) as Hlaw.
  { intros k w w'. simpl. unfold when_up. destruct (mr_up w); [by intros [= <-]|done]. }
  destruct (clear_cooldown_pages_again false "rms" mr_expiry map_cache Hlaw ex_check ex_cooling s' _ _
    _ s'.1 Hc Hd) as (_ & _ & Hb).
  rewrite (Hb ltac:(vm_compute; reflexivity) eq_refl) in Hd.
  replace s' with (s'.1, s'.2) by (symmetry; apply surjective_pairing). by rewrite Hd.
Defined.

(** The clear is also answered when Redis cannot be reached; the entry there stays, and
    suppresses again once Redis is back. *)
Lemma clear_without_redis :
  let down := (mkRedis (mr_expiry ex_cooling.1) 1000 false, ex_cooling.2) in
  let '(s', r) := clear_cooldown false "rms" ex_check down in
  r = Ok "ETCH:E1:@system:default:CRITICAL" ∧
  (is_cooling_down false "rms" ex_check (mkRedis (mr_expiry s'.1) 1000 true, s'.2)).2 = Ok true.
Proof. vm_compute. auto. Qed.
