(* ===== verification/Seed.v ===== *)
(** * The default profile and its seeding ([src/db/seed.py])

    [build_default_profile] is the built-in global profile, built through the validators
    of [Models.v]; [seed_default_profile] is a function on the database and the resolve
    cache, over the repository of [Repository.v].  SHA-256 of the canonical JSON is a
    parameter [digest] of the structural content. *)
From stdpp Require Import base list strings sets gmap.
From Stdlib Require Import ZArith Lia.
From S2P Require Import Prelude PyNum FactCatalog Models Cache Repository Content.
Local Open Scope se_scope.

(** ** [build_default_profile] *)
Definition fact (t : FactType) : Fact := mkFact t None None None None.

Definition measure (id category metric proc : string) (window_minutes : Z) (facts : list Fact)
  : Measure :=
  mkMeasure id category metric proc window_minutes [GK_eqpId] scalar None None None facts.

Definition default_measures : list Measure :=
  [measure "cpu" "cpu" "total_used_pct" "@system" 15
     [fact MAX; fact P95; mkFact SPIKE_COUNT (Some (num_of_Z 90)) (Some above) None None];
   measure "mem_used" "memory" "total_used_pct" "@system" 15 [fact MAX];
   measure "mem_free" "memory" "total_free_pct" "@system" 15 [fact MIN];
   measure "disk" "disk" "*" "@system" 30 [fact MAX];
   measure "temp" "temperature" "*" "@system" 15 [fact MAX];
   measure "fan" "fan" "*" "@system" 15 [fact MIN];
   measure "volt_vcore" "voltage" "CPU_Vcore" "@system" 15 [fact MIN; fact MAX];
   measure "gpu_load" "gpu" "*_core_load" "@system" 15 [fact P95];
   measure "ssd_life" "storage_smart" "*_remaining_life" "@system" 60 [fact MIN];
   measure "disk_health" "storage_health" "*_status" "@system" 60 [fact MAX];
   measure "proc_required" "process_watch" "required" "*" 5 [fact MIN];
   measure "proc_forbidden" "process_watch" "forbidden" "*" 5 [fact MAX]].

Definition cond (fact : string) (op : Operator) (value : num) : Condition :=
  mkCondition fact op (VNum value) q_any None.

Definition rule (id : string) (severity : Severity) (combine : Combine)
    (when : list Condition) : Rule :=
  mkRule id 5 severity combine when "default" true.

(** The doubles [1.1] and [1.4]. *)
Definition num_1_1 : num := Fin 2476979795053773 (-51).
Definition num_1_4 : num := Fin 3152519739159347 (-51).

Definition default_rules : list Rule :=
  [rule "cpu_warn" WARNING AND [cond "cpu.max" OP_GE (num_of_Z 80)];
   rule "cpu_crit" CRITICAL AND [cond "cpu.max" OP_GE (num_of_Z 95)];
   rule "cpu_anomaly" WARNING AND
     [cond "cpu.p95" OP_GT (num_of_Z 80); cond "cpu.spike_count" OP_GT (num_of_Z 5)];
   rule "mem_high" WARNING AND [cond "mem_used.max" OP_GE (num_of_Z 90)];
   rule "mem_low_free" WARNING AND [cond "mem_free.min" OP_LE (num_of_Z 5)];
   rule "disk_full" CRITICAL AND [cond "disk.max" OP_GE (num_of_Z 95)];
   rule "temp_high" WARNING AND [cond "temp.max" OP_GE (num_of_Z 90)];
   rule "fan_low" WARNING AND [cond "fan.min" OP_LE (num_of_Z 300)];
   rule "volt_out" WARNING OR
     [cond "volt_vcore.min" OP_LT num_1_1; cond "volt_vcore.max" OP_GT num_1_4];
   rule "gpu_hot" WARNING AND [cond "gpu_load.p95" OP_GE (num_of_Z 95)];
   rule "ssd_life_low" WARNING AND [cond "ssd_life.min" OP_LE (num_of_Z 20)];
   rule "disk_failing" CRITICAL AND [cond "disk_health.max" OP_GE (num_of_Z 2)];
   rule "proc_down" CRITICAL AND [cond "proc_required.min" OP_EQ (num_of_Z 0)];
   rule "proc_forbidden_run" CRITICAL AND [cond "proc_forbidden.max" OP_GT (num_of_Z 0)]].

Definition global_scope : Scope := mkScope "*" "*" "*".

Definition build_default_profile (now : Z) : res ModelError MonitorProfile :=
  measures ← mapM Measure_validate default_measures;
  rules ← mapM Rule_validate default_rules;
  _doc_consistency (mkProfile None global_scope true
    (mkGovernance 1 "system" now "initial seed") measures rules
    [("default", mkNotify 30 "RESOURCE_MONITOR" None gb_eqp None)]).

(** ** Seeding *)

(** [structural_mongo]: the document without its governance; the canonical JSON sorts
    the keys of objects. *)
Definition Structure : Type :=
  Scope * bool * list Measure * list Rule * list (string * NotifyChannel).

Definition structural_mongo (self : MonitorProfile) : Structure :=
  (p_scope self, p_enabled self, p_measures self, p_rules self, sorted_items (p_notify self)).

Section Seed.
Context {W C : Type} `{!Collection W, !TTLCache C MonitorProfile, !SetIter}.
Variable others : W → W.
Variable digest : Structure → string.

Definition _profile_hash (profile : MonitorProfile) : string := digest (structural_mongo profile).

(** [try: await repo.upsert(default)  except DuplicateKeyError] *)
Definition upsert_default (default : MonitorProfile) : Repo (W := W) (C := C) unit :=
  se_catch (upsert others default)
    (λ e, match e with Propagated DuplicateKeyError => se_ret tt | _ => se_raise e end).

Definition seed_default_profile : Repo (W := W) (C := C) unit :=
  now <- se_gets (λ s, utcnow s.1) ;;
  default <- of_res (build_default_profile now) ;;
  existing <- find_by_scope others (p_scope default) ;;
  match existing with
  | Some existing =>
      if decide (_profile_hash existing = _profile_hash default) then se_ret tt
      else if decide (g_updated_by (p_governance existing) ≠ "system") then se_ret tt
      else upsert_default default
  | None => upsert_default default
  end.
End Seed.

(** ** Properties *)
Definition default_profile (now : Z) : MonitorProfile :=
  match build_default_profile now with Ok p => p | Err _ => ex_base end.

Lemma build_default_Ok now : build_default_profile now = Ok (default_profile now).
Proof. vm_compute. reflexivity. Qed.

(** Whether there are errors does not depend on the order sets are iterated in. *)
Lemma validate_any_order (i j : SetIter) p :
  validate_effective (H := i) p = [] → validate_effective (H := j) p = [].
Proof. intros Hv. by apply (validate_effective_spec (H := j)), (validate_effective_spec (H := i)). Qed.

Lemma default_profile_valid now : valid_profile (default_profile now).
Proof.
  split; [|split].
  - set (l := p_measures _). vm_compute in l. subst l. repeat constructor.
  - set (l := p_rules _). vm_compute in l. subst l. repeat constructor.
  - vm_compute. reflexivity.
Qed.

(** Alone in a cascade its references are intact and it draws no lint warning. *)
Example default_profile_clean `{!SetIter} now sc :
  validate_effective (fold_result now [default_profile now] sc) = [] ∧
  lint_effective (fold_result now [default_profile now] sc) = [].
Proof.
  split; [apply (validate_any_order set_iter_id); vm_compute; reflexivity|].
  vm_compute; reflexivity.
Qed.

Lemma structure_of_content p q : content p = content q → structural_mongo p = structural_mongo q.
Proof. unfold content, structural_mongo. by intros [= -> -> -> -> ->]. Qed.

Lemma default_content now now' : content (default_profile now) = content (default_profile now').
Proof. vm_compute. reflexivity. Qed.

Section SeedProperties.
Context {W C : Type} `{!Collection W, !TTLCache C MonitorProfile}.
Context (docs : W → list Doc) `{!CollectionLaws W docs}.
Context (others : W → W) (digest : Structure → string).
Hypothesis alone : ∀ w, docs (others w) = docs w.

Notation St := (W * C)%type.

(** The documents of the global scope. *)
Definition is_global (d : Doc) : Prop := doc_triple d = Some (scope_triple global_scope).

(** The stored default: what an upsert leaves of it. *)
Definition is_default (d : Doc) : Prop :=
  is_global d ∧ doc_content d = Some (content (default_profile 0)).

Lemma default_stored now d :
  d_scope d = Some (Scope_to_mongo global_scope) →
  d_enabled d = d_enabled (to_mongo (default_profile now)) →
  d_measures d = d_measures (to_mongo (default_profile now)) →
  d_rules d = d_rules (to_mongo (default_profile now)) →
  d_notify d = d_notify (to_mongo (default_profile now)) → is_default d.
Proof.
  intros Hs He Hm Hr Hn. split; [unfold is_global, doc_triple; by rewrite Hs|].
  rewrite <-(default_content now 0). apply stored_content; try done.
  apply default_profile_valid.
Qed.

(** What one document of the global scope makes the seeding do. *)
Definition keeps (p : MonitorProfile) : Prop :=
  _profile_hash digest p = _profile_hash digest (default_profile 0) ∨
  g_updated_by (p_governance p) ≠ "system".

(** What the upsert does: nothing when another instance was first. *)
Lemma upsert_default_spec now (s s' : St) :
  upsert_default others (default_profile now) s = (s', Ok tt) →
  (Forall (λ d, ¬ is_global d) (docs s.1) ∧
    (docs s'.1 = docs s.1 ∨ ∃ d, docs s'.1 = docs s.1 ++ [d] ∧ is_default d)) ∨
  (∃ l1 old l2 d, docs s.1 = l1 ++ old :: l2 ∧ is_global old ∧ docs s'.1 = l1 ++ d :: l2 ∧
     is_default d).
Proof.
  unfold upsert_default, se_catch, upsert, se_bind, call.
  destruct (replace_one _ _ s.1) as [w [[]|e]] eqn:E.
  - intros [= <-]. simpl. rewrite alone.
    assert (∀ ds, Forall (λ d', ¬ matches (ByScope (scope_triple global_scope) None) d') ds →
      Forall (λ d, ¬ is_global d) ds) as Hng
      by (intros ds Hno; eapply Forall_impl; [exact Hno|]; unfold is_global; simpl; naive_solver).
    apply replace_one_law in E as [(Hno & i & Hd)|(l1 & old & l2 & Hd & Hm & Hd')].
    + left. split; [by apply Hng|]. right. eexists. split; [done|]. by apply (default_stored now).
    + right. exists l1, old, l2. eexists. split; [done|]. split; [by destruct Hm|].
      split; [done|]. by apply (default_stored now).
  - destruct e; intros [= <-]; simpl; rewrite alone. left.
    apply replace_duplicate_law in E as [Hd Hno]. split; [|by left].
    eapply Forall_impl; [exact Hno|]. unfold is_global. simpl. naive_solver.
Qed.

(** Seeding decides on the one document of the global scope: when there is none, the
    default is stored; when its content is the default's, or somebody other than the
    system wrote it last, no document changes; otherwise it is replaced, in its place,
    by the default.  The other documents never change. *)
Theorem seed_default_profile_spec (s s' : St) :
  seed_default_profile others digest s = (s', Ok tt) →
  (Forall (λ d, ¬ is_global d) (docs s.1) ∧
    (docs s'.1 = docs s.1 ∨ ∃ d, docs s'.1 = docs s.1 ++ [d] ∧ is_default d)) ∨
  (∃ old p now, old ∈ docs s.1 ∧ is_global old ∧ from_mongo now old = Ok p ∧
    (keeps p → docs s'.1 = docs s.1) ∧
    (¬ keeps p →
       ∃ l1 old' l2 d, docs s.1 = l1 ++ old' :: l2 ∧ is_global old' ∧
         docs s'.1 = l1 ++ d :: l2 ∧ is_default d)).
Proof.
  unfold seed_default_profile. intros (s0 & now & [= <- <-] & Hr)%se_bind_Ok.
  rewrite build_default_Ok in Hr. apply se_bind_Ok in Hr as (s0 & dflt & [= <- <-] & Hr).
  apply se_bind_Ok in Hr as (s1 & existing & Hf & Hr). unfold find_by_scope in Hf.
  apply se_bind_Ok in Hf as (s2 & d & Hf & Hx). apply (call_Ok others) in Hf as (w' & Hf & ->).
  apply find_one_law in Hf as [Hd Hm]. apply se_bind_Ok in Hx as (s3 & now' & [= <- <-] & Hx).
  assert (docs (others w') = docs s.1) as Hds by (by rewrite alone).
  destruct d as [d|].
  - right. destruct Hm as [Hin [Ht _]]. unfold of_res, se_bind in Hx.
    destruct (from_mongo _ d) as [p|] eqn:Ep; [|done]. injection Hx as <- <-. simpl in Ep.
    exists d, p. eexists. split; [done|]. split; [exact Ht|]. split; [exact Ep|].
    assert (_profile_hash digest (default_profile (utcnow s.1))
            = _profile_hash digest (default_profile 0)) as Hh
      by (unfold _profile_hash; f_equal; apply structure_of_content, default_content).
    rewrite Hh in Hr. unfold keeps. case_decide as Hc; [injection Hr as <-|].
    { simpl. split; [done|naive_solver]. }
    case_decide as Hu; [injection Hr as <-; simpl; split; [done|naive_solver]|].
    split; [naive_solver|]. intros _. apply upsert_default_spec in Hr. simpl in Hr.
    rewrite Hds in Hr. destruct Hr as [[Hno _]|Hr]; [|done].
    rewrite Forall_forall in Hno. by apply Hno in Hin.
  - left. injection Hx as <- <-. assert (Forall (λ d, ¬ is_global d) (docs s.1)) as Hno
      by (eapply Forall_impl; [exact Hm|]; unfold is_global; simpl; naive_solver).
    split; [done|]. apply upsert_default_spec in Hr. simpl in Hr. rewrite Hds in Hr.
    destruct Hr as [[_ Hr]|(l1 & old & l2 & d & Hl & Hg & _)]; [done|].
    rewrite Hl, Forall_app, Forall_cons in Hno. naive_solver.
Qed.

(** A default, and a document that was kept, are kept again. *)
Lemma default_kept now d p : is_default d → from_mongo now d = Ok p → keeps p.
Proof.
  intros [_ Hc] Hp%from_mongo_content. left. unfold _profile_hash. f_equal.
  apply structure_of_content. congruence.
Qed.

Lemma kept_later now now' d p p' :
  from_mongo now d = Ok p → from_mongo now' d = Ok p' → keeps p → keeps p'.
Proof.
  intros Hp Hp'. destruct (from_mongo_times _ _ _ _ _ Hp Hp') as [Hc Hu].
  unfold keeps, _profile_hash. by rewrite Hu, (structure_of_content _ _ Hc).
Qed.

Lemma only_one_global ds d d' :
  NoDup (omap doc_triple ds) → d ∈ ds → d' ∈ ds → is_global d → is_global d' → d = d'.
Proof.
  intros Hnd Hd Hd' Hg Hg'. induction ds as [|x ds IH]; [set_solver|]. csimpl in Hnd.
  assert (∀ y, y ∈ ds → is_global y → scope_triple global_scope ∈ omap doc_triple ds) as Hin
    by (intros y Hy Hgy; apply list_elem_of_omap; eauto).
  apply elem_of_cons in Hd as [->|Hd], Hd' as [->|Hd']; [done|..].
  - unfold is_global in Hg. rewrite Hg in Hnd. apply NoDup_cons in Hnd as [Hn _].
    destruct Hn. by apply (Hin d').
  - unfold is_global in Hg'. rewrite Hg' in Hnd. apply NoDup_cons in Hnd as [Hn _].
    destruct Hn. by apply (Hin d).
  - apply IH; [|done..]. destruct (doc_triple x); [by apply NoDup_cons in Hnd as [_ Hn]|done].
Qed.

(** Seeding again changes nothing: every later start finds the global profile, the
    default or an operator's, as the one before left it. *)
Theorem seed_idempotent (s s1 s1' s2 : St) :
  unique_scopes docs s.1 → seed_default_profile others digest s = (s1, Ok tt) →
  docs s1'.1 = docs s1.1 → Exists is_global (docs s1.1) →
  seed_default_profile others digest s1' = (s2, Ok tt) → docs s2.1 = docs s1.1.
Proof.
  intros Hu H1 Hd1 Hex H2. rewrite <-Hd1 in Hex |- *.
  assert (∀ d now p, d ∈ docs s1'.1 → is_global d → from_mongo now d = Ok p → keeps p) as Hset.
  { rewrite Hd1 in Hex |- *. clear H2 Hd1.
    apply seed_default_profile_spec in H1
      as [[Hno [Hd|(x & Hd & Hx)]]|(old & p0 & now0 & Hin & Hg & Hp0 & Hk & Hnk)];
      intros d now p Hdin Hdg Hp.
    - rewrite Hd in Hdin. rewrite Forall_forall in Hno. by apply Hno in Hdin.
    - rewrite Hd in Hdin. apply elem_of_app in Hdin as [Hdin| ->%list_elem_of_singleton].
      + rewrite Forall_forall in Hno. by apply Hno in Hdin.
      + by eapply default_kept.
    - destruct (decide (_profile_hash digest p0 = _profile_hash digest (default_profile 0)
        ∨ g_updated_by (p_governance p0) ≠ "system")) as [Hkeep|Hkeep].
      + rewrite (Hk Hkeep) in Hdin. assert (d = old) as -> by (by eapply only_one_global).
        by apply (kept_later now0 now old p0 p).
      + destruct (Hnk Hkeep) as (l1 & old' & l2 & x & Hl & Hg' & Hd & Hx).
        unfold unique_scopes in Hu. assert (NoDup (omap doc_triple (docs s1.1))) as Hu1.
        { rewrite Hd. rewrite Hl in Hu. rewrite omap_app in *. csimpl in *.
          destruct Hx as [Hxg _]. unfold is_global in *. rewrite Hxg. by rewrite Hg' in Hu. }
        assert (d = x) as ->; [|by eapply default_kept].
        eapply only_one_global; [exact Hu1|done| |done|by destruct Hx].
        rewrite Hd. set_solver. }
  apply seed_default_profile_spec in H2 as [[Hno _]|(old & p & now & Hin & Hg & Hp & Hk & _)].
  - apply Exists_exists in Hex as (d & Hd & Hg). rewrite Forall_forall in Hno. by apply Hno in Hd.
  - apply Hk. by eapply Hset.
Qed.
End SeedProperties.

(** ** Witnesses *)
#[local] Instance seed_cache : TTLCache (MapCache MonitorProfile) MonitorProfile :=
  map_cache_ops 300.

Definition ex_digest (st : Structure) : string :=
  if decide (st = structural_mongo (default_profile 0)) then "default" else "other".

Definition ex_seed : Repo (W := MemDb) (C := MapCache MonitorProfile) unit :=
  seed_default_profile id ex_digest.

Definition ex_empty : MemDb * MapCache MonitorProfile := (mkMemDb [] 1000, cache_empty).
Definition ex_seeded : MemDb * MapCache MonitorProfile := (ex_seed ex_empty).1.

Lemma ex_seeds : ex_seed ex_empty = (ex_seeded, Ok tt).
Proof. vm_compute. reflexivity. Qed.

Lemma seed_default_profile_spec_witness :
  ex_seed ex_empty = (ex_seeded, Ok tt) ∧
  ∃ d, md_docs ex_seeded.1 = md_docs ex_empty.1 ++ [d] ∧ is_default d.
Proof.
  split; [exact ex_seeds|].
  destruct (seed_default_profile_spec md_docs id ex_digest (λ _, eq_refl) _ _ ex_seeds)
    as [[_ [Hd|Hd]]|(old & _ & _ & Hin & _)].
  - vm_compute in Hd. discriminate Hd.
  - exact Hd.
  - by apply elem_of_nil in Hin.
Defined.

(** The next start, an hour later. *)
Definition ex_later : MemDb * MapCache MonitorProfile :=
  (mkMemDb (md_docs ex_seeded.1) 4600, cache_empty).

Lemma seed_idempotent_witness :
  length (md_docs ex_seeded.1) = 1 ∧ md_docs (ex_seed ex_later).1.1 = md_docs ex_seeded.1.
Proof.
  split; [vm_compute; reflexivity|].
  apply (seed_idempotent md_docs id ex_digest (λ _, eq_refl) ex_empty ex_seeded ex_later
    (ex_seed ex_later).1); [constructor|exact ex_seeds|reflexivity| |].
  - apply (bool_decide_unpack _). vm_compute. exact I.
  - assert ((ex_seed ex_later).2 = Ok tt) as <- by (vm_compute; reflexivity).
    apply surjective_pairing.
Defined.

(** An edit of the document that leaves its author [system] is undone by the next
    seeding. *)
Definition ex_hand_edited : MonitorProfile :=
  mkProfile None global_scope false (mkGovernance 1 "system" 0 "initial seed")
    default_measures default_rules [("default", ex_channel)].

Lemma hand_edit_undone :
  let s' := (ex_seed (mkMemDb [to_mongo ex_hand_edited] 1000, cache_empty)).1 in
  d_enabled <$> md_docs s'.1 = [Some true].
Proof. vm_compute. reflexivity. Qed.
