(* ===== verification/PartitionManager.v ===== *)
(** * PartitionManager: redistribution by the leader, and the session state machine
    ([src/distributed/partition_manager.py])

    The manager object is the record [PM]; everything it calls out to (the kazoo
    client, Mongo, the clock, the scheduler) is the class [World], and a handler
    is a function on a manager and a world in which a call may raise ([SE]).

    asyncio: a task is an entry of [pm_tasks], its id the index.  [Task.cancel]
    on a task that is not done marks it, and a marked task gets [Cancelled] at the
    call it awaits, or at the next one it makes.  [me] is the task a handler runs
    in ([None]: one the manager keeps no handle of).  While a call is awaited the
    event loop runs other handlers, and other instances write to ZooKeeper: what
    they do is the argument [meanwhile] of every handler, an arbitrary function
    on the manager and the world.  Between two awaits a handler is atomic. *)
From stdpp Require Import base list strings sets gmap.
From Stdlib Require Import ZArith Lia.
From S2P Require Import Prelude PyNum PyStr PyFloat Json JsonText Assignments.
Local Open Scope se_scope.

(** ** The world *)

Inductive CallError : Type := NoNodeError | NodeExistsError | OtherError.
Inductive KazooState : Set := SUSPENDED | LOST | CONNECTED.

(** What the scheduler is asked to do; [None] when there is no scheduler yet. *)
Inductive SchedulerCall : Type :=
| pause_all_jobs
| resume_jobs_for (processes : list string)
| scheduler_reload (processes : list string).

Class World (W : Type) := {
  (** [ensure_path] of the members and of the assignments *)
  ensure_parent_paths : SE W CallError unit;
  get_distinct_processes : SE W CallError (list string);
  time_time : W → num;
  (** kazoo, on [{assignments}/<id>] *)
  ensure_assignment_path : string → SE W CallError unit;
  (** [transaction.commit()]: one result per operation, [Some e] an exception *)
  commit_set_data : list (string * string) → SE W CallError (list (option CallError));
  get_assignment_children : SE W CallError (list string);
  delete_assignment : string → SE W CallError unit;
  (** the node's bytes *)
  get_assignment : string → SE W CallError (option string);
  (** kazoo, on the members *)
  get_member_children : SE W CallError (list string);
  create_member : string → SE W CallError unit;
  (** [LeaderElection.restart_after_loss] *)
  restart_after_loss : SE W CallError unit;
  has_scheduler : W → bool;
  scheduler_call : SchedulerCall → SE W CallError unit;
}.

(** ** The manager *)
Inductive TaskKind : Type :=
| DebouncedRedistribute
| RetryRedistribute (instances : list string) (attempt : Z).

Record Task := mkTask { t_kind : TaskKind; t_done : bool; t_cancelled : bool }.

Record PM := mkPM {
  pm_instance_id : string;
  (** [LeaderElection.is_leader()] and [.epoch] *)
  pm_is_leader : bool;
  pm_leader_epoch : Z;
  pm_known : Known;
  pm_session_lost : bool;
  pm_watch_epoch : nat;
  pm_redistribution_task : option nat;
  pm_redistribute_attempt : Z;
  pm_redistribute_unhealthy : bool;
  pm_redistribute_retry_task : option nat;
  (** the state handler and the leader callback are registered *)
  pm_subscribed : bool;
  pm_tasks : list Task;
}.

Definition PM_init (id : string) : PM :=
  mkPM id false 0 Known_init false 0 None 0 false None false [].

Definition _REDISTRIBUTE_MAX_ATTEMPTS : Z := 5.

(** Field updates. *)
Definition set_known (k : Known) (s : PM) : PM :=
  mkPM (pm_instance_id s) (pm_is_leader s) (pm_leader_epoch s) k (pm_session_lost s)
    (pm_watch_epoch s) (pm_redistribution_task s) (pm_redistribute_attempt s)
    (pm_redistribute_unhealthy s) (pm_redistribute_retry_task s) (pm_subscribed s) (pm_tasks s).
Definition set_session_lost (b : bool) (s : PM) : PM :=
  mkPM (pm_instance_id s) (pm_is_leader s) (pm_leader_epoch s) (pm_known s) b
    (pm_watch_epoch s) (pm_redistribution_task s) (pm_redistribute_attempt s)
    (pm_redistribute_unhealthy s) (pm_redistribute_retry_task s) (pm_subscribed s) (pm_tasks s).
Definition set_watch_epoch (n : nat) (s : PM) : PM :=
  mkPM (pm_instance_id s) (pm_is_leader s) (pm_leader_epoch s) (pm_known s)
    (pm_session_lost s) n (pm_redistribution_task s) (pm_redistribute_attempt s)
    (pm_redistribute_unhealthy s) (pm_redistribute_retry_task s) (pm_subscribed s) (pm_tasks s).
Definition set_redistribution_task (t : option nat) (s : PM) : PM :=
  mkPM (pm_instance_id s) (pm_is_leader s) (pm_leader_epoch s) (pm_known s)
    (pm_session_lost s) (pm_watch_epoch s) t (pm_redistribute_attempt s)
    (pm_redistribute_unhealthy s) (pm_redistribute_retry_task s) (pm_subscribed s) (pm_tasks s).
Definition set_attempt (n : Z) (s : PM) : PM :=
  mkPM (pm_instance_id s) (pm_is_leader s) (pm_leader_epoch s) (pm_known s)
    (pm_session_lost s) (pm_watch_epoch s) (pm_redistribution_task s) n
    (pm_redistribute_unhealthy s) (pm_redistribute_retry_task s) (pm_subscribed s) (pm_tasks s).
Definition set_unhealthy (b : bool) (s : PM) : PM :=
  mkPM (pm_instance_id s) (pm_is_leader s) (pm_leader_epoch s) (pm_known s)
    (pm_session_lost s) (pm_watch_epoch s) (pm_redistribution_task s)
    (pm_redistribute_attempt s) b (pm_redistribute_retry_task s) (pm_subscribed s) (pm_tasks s).
Definition set_retry_task (t : option nat) (s : PM) : PM :=
  mkPM (pm_instance_id s) (pm_is_leader s) (pm_leader_epoch s) (pm_known s)
    (pm_session_lost s) (pm_watch_epoch s) (pm_redistribution_task s)
    (pm_redistribute_attempt s) (pm_redistribute_unhealthy s) t (pm_subscribed s) (pm_tasks s).
Definition set_tasks (ts : list Task) (s : PM) : PM :=
  mkPM (pm_instance_id s) (pm_is_leader s) (pm_leader_epoch s) (pm_known s)
    (pm_session_lost s) (pm_watch_epoch s) (pm_redistribution_task s)
    (pm_redistribute_attempt s) (pm_redistribute_unhealthy s)
    (pm_redistribute_retry_task s) (pm_subscribed s) ts.
Definition set_subscribed (b : bool) (s : PM) : PM :=
  mkPM (pm_instance_id s) (pm_is_leader s) (pm_leader_epoch s) (pm_known s)
    (pm_session_lost s) (pm_watch_epoch s) (pm_redistribution_task s)
    (pm_redistribute_attempt s) (pm_redistribute_unhealthy s)
    (pm_redistribute_retry_task s) b (pm_tasks s).
Definition set_leader (b : bool) (epoch : Z) (s : PM) : PM :=
  mkPM (pm_instance_id s) b epoch (pm_known s)
    (pm_session_lost s) (pm_watch_epoch s) (pm_redistribution_task s)
    (pm_redistribute_attempt s) (pm_redistribute_unhealthy s)
    (pm_redistribute_retry_task s) (pm_subscribed s) (pm_tasks s).

(** ** asyncio tasks *)
Definition create_task (k : TaskKind) (s : PM) : PM * nat :=
  (set_tasks (pm_tasks s ++ [mkTask k false false]) s, length (pm_tasks s)).

Definition task_done (t : nat) (s : PM) : bool :=
  match pm_tasks s !! t with Some tk => t_done tk | None => true end.

Definition alter_task (f : Task → Task) (t : nat) (s : PM) : PM :=
  set_tasks (alter f t (pm_tasks s)) s.

(** [task.cancel()] *)
Definition cancel_task (t : nat) (s : PM) : PM :=
  if task_done t s then s
  else alter_task (λ tk, mkTask (t_kind tk) false true) t s.

Definition finish_task (t : nat) (s : PM) : PM :=
  alter_task (λ tk, mkTask (t_kind tk) true (t_cancelled tk)) t s.

(** [if task is not None and not task.done(): task.cancel()] *)
Definition cancel_if_pending (ot : option nat) (s : PM) : PM :=
  match ot with
  | Some t => if task_done t s then s else cancel_task t s
  | None => s
  end.

Definition cancel_requested (me : option nat) (s : PM) : bool :=
  match me with
  | Some t => match pm_tasks s !! t with Some tk => t_cancelled tk | None => false end
  | None => false
  end.

Inductive Exn : Type := Cancelled | Raised (e : CallError).

Section Handlers.
Context {W : Type} `{!World W}.

Definition M (A : Type) : Type := SE (PM * W) Exn A.

(** What happens while a call is awaited. *)
Variable meanwhile : PM * W → PM * W.

Definition pm_gets {A} (f : PM → A) : M A := λ s, (s, Ok (f s.1)).
Definition pm_modify (f : PM → PM) : M unit := λ s, ((f s.1, s.2), Ok tt).
Definition world_gets {A} (f : W → A) : M A := λ s, (s, Ok (f s.2)).

(** [await] of an executor call (or another one that suspends): the call has been
    submitted when the task can see a request to cancel it.  The mark stays: no
    handler awaits again after a [Cancelled]. *)
Definition await (me : option nat) {A} (op : SE W CallError A) : M A := λ s,
  let '(w', r) := op s.2 in
  let s' := meanwhile (s.1, w') in
  if cancel_requested me s'.1 then (s', Err Cancelled)
  else (s', match r with Ok a => Ok a | Err e => Err (Raised e) end).

(** [try: m  except Exception: h] -- a cancellation passes through. *)
Definition try_except {A} (m : M A) (h : CallError → M A) : M A := λ s,
  match m s with
  | (s', Err (Raised e)) => h e s'
  | r => r
  end.

Fixpoint for_each {A} (f : A → M unit) (l : list A) : M unit :=
  match l with
  | [] => se_ret tt
  | x :: l' => f x ;;; for_each f l'
  end.

(** A coroutine that ends without suspending. *)
Definition at_once {A} (op : SE W CallError A) : M A := λ s,
  let '(w', r) := op s.2 in
  ((s.1, w'), match r with Ok a => Ok a | Err e => Err (Raised e) end).

(** [if scheduler is not None: await scheduler.c(...)]: only a reload suspends. *)
Definition call_scheduler (scheduler : bool) (c : SchedulerCall) : M unit :=
  if scheduler then
    match c with
    | scheduler_reload _ => await None (scheduler_call c)
    | _ => at_once (scheduler_call c)
    end
  else se_ret tt.

(** ** Redistribution *)
Definition _cleanup_orphan_assignments (me : option nat) (live_instances : list string)
  : M unit :=
  existing <- try_except (o <- await me get_assignment_children ;; se_ret (Some o))
                (λ _, se_ret None) ;;
  match existing with
  | None => se_ret tt
  | Some existing =>
      let orphans := filter (.∉ live_instances) existing in
      for_each (λ orphan,
        try_except (await me (delete_assignment orphan)) (λ _, se_ret tt)) orphans
  end.

(** The [try] body of [_do_redistribute]. *)
Definition redistribute_body (me : option nat) (instances : list string) : M unit :=
  processes <- await me get_distinct_processes ;;
  let assignments := _compute_assignments instances processes in
  for_each (λ inst_id,
    try_except (await me (ensure_assignment_path inst_id)) (λ _, se_ret tt))
    assignments.*1 ;;;
  timestamp <- world_gets time_time ;;
  epoch <- pm_gets pm_leader_epoch ;;
  let ops := (λ kv, (kv.1, assignment_data (mkAssignment kv.2 epoch timestamp)))
               <$> assignments in
  results <- await me (commit_set_data ops) ;;
  match list_find is_Some results with
  | Some _ => se_raise (Raised OtherError)
  | None => se_ret tt
  end.

(** The [except Exception] branch. *)
Definition redistribute_failed (instances : list string) : M unit :=
  pm_modify (λ s, set_attempt (pm_redistribute_attempt s + 1) s) ;;;
  attempt <- pm_gets pm_redistribute_attempt ;;
  if bool_decide (attempt < _REDISTRIBUTE_MAX_ATTEMPTS)%Z then
    pm_modify (λ s, cancel_if_pending (pm_redistribute_retry_task s) s) ;;;
    pm_modify (λ s, let '(s', t) := create_task (RetryRedistribute instances attempt) s in
                    set_retry_task (Some t) s')
  else pm_modify (set_unhealthy true).

Definition _do_redistribute (me : option nat) (instances : list string) : M unit := λ s,
  match redistribute_body me instances s with
  | (s', Err Cancelled) => (s', Err Cancelled)
  | (s', Err (Raised _)) => redistribute_failed instances s'
  | (s', Ok _) =>
      (pm_modify (set_attempt 0) ;;; pm_modify (set_unhealthy false) ;;;
       pm_modify (λ s, cancel_if_pending (pm_redistribute_retry_task s) s) ;;;
       _cleanup_orphan_assignments me instances) s'
  end.

(** [min(30.0, float(2 ** attempt))] *)
Definition retry_delay (attempt : Z) : Z := Z.min 30 (2 ^ attempt).

(** [_retry_redistribute] of task [t], when its sleep ends. *)
Definition _retry_redistribute (t : nat) (instances : list string) : M unit := λ s,
  if cancel_requested (Some t) s.1 then (s, Ok tt)
  else if negb (pm_is_leader s.1) then (s, Ok tt)
  else _do_redistribute (Some t) instances s.

(** [_debounced_redistribute] of task [t], when its sleep ends; a cancellation
    anywhere in it is swallowed. *)
Definition _debounced_redistribute (t : nat) : M unit := λ s,
  if cancel_requested (Some t) s.1 then (s, Ok tt)
  else if negb (pm_is_leader s.1) then (s, Ok tt)
  else
    match (current <- await (Some t) get_member_children ;;
           _do_redistribute (Some t) current) s with
    | (s', Err Cancelled) => (s', Ok tt)
    | r => r
    end.

(** A task runs to its end, whatever the outcome: nobody awaits it. *)
Definition run_task (t : nat) (s : PM * W) : PM * W :=
  match pm_tasks s.1 !! t with
  | Some (mkTask k false _) =>
      let s' := match k with
                | RetryRedistribute instances _ => (_retry_redistribute t instances s).1
                | DebouncedRedistribute => (_debounced_redistribute t s).1
                end in
      (finish_task t s'.1, s'.2)
  | _ => s
  end.

Definition _handle_membership_change (s : PM) : PM :=
  if negb (pm_is_leader s) then s
  else
    let s := cancel_if_pending (pm_redistribution_task s) s in
    let '(s, t) := create_task DebouncedRedistribute s in
    set_redistribution_task (Some t) s.

(** [on_become_leader], called by the election with the new epoch. *)
Definition on_become_leader : M unit :=
  members <- await None get_member_children ;;
  _do_redistribute None members.

(** ** Assignments and the session *)
Definition apply_payload (data : Payload) : M unit :=
  known <- pm_gets pm_known ;;
  let '(known', reload) := _apply_assignment data known in
  pm_modify (set_known known') ;;;
  match reload with
  | Some procs =>
      scheduler <- world_gets has_scheduler ;;
      call_scheduler scheduler (scheduler_reload procs)
  | None => se_ret tt
  end.

(** [_on_assignment_changed_sync]: nothing happens on empty data (a node that was only
    created) or data that does not decode. *)
Definition _on_assignment_changed (data : option string) : M unit :=
  match data with
  | None | Some "" => se_ret tt
  | Some data =>
      match decode_data data with
      | Some payload => apply_payload (payload_of payload)
      | None => se_ret tt
      end
  end.

Definition _refresh_assignment_from_zk : M unit :=
  try_except
    (id <- pm_gets pm_instance_id ;;
     data <- await None (get_assignment id) ;;
     _on_assignment_changed data)
    (λ _, se_ret tt).

Definition _register_member : M unit :=
  id <- pm_gets pm_instance_id ;;
  try_except (await None (create_member id))
    (λ e, match e with NodeExistsError => se_ret tt | _ => se_raise (Raised e) end).

Definition _register_watches : M unit :=
  pm_modify (λ s, set_watch_epoch (S (pm_watch_epoch s)) s).

(** The closures registered at watch epoch [epoch]; [false]: stop the watch. *)
Definition members_cb (epoch : nat) (s : PM) : PM * bool :=
  if bool_decide (epoch ≠ pm_watch_epoch s) then (s, false)
  else (_handle_membership_change s, true).

Definition assignment_cb (epoch : nat) (data : option string) : M bool :=
  now <- pm_gets pm_watch_epoch ;;
  if bool_decide (epoch ≠ now) then se_ret false
  else _on_assignment_changed data ;;; se_ret true.

Definition _reinit_after_loss : M unit :=
  try_except
    (_register_member ;;;
     id <- pm_gets pm_instance_id ;;
     await None (ensure_assignment_path id) ;;;
     _register_watches ;;;
     _refresh_assignment_from_zk ;;;
     await None restart_after_loss)
    (λ _, se_ret tt).

Definition on_zk_state_change (state : KazooState) : M unit :=
  scheduler <- world_gets has_scheduler ;;
  match state with
  | SUSPENDED => call_scheduler scheduler pause_all_jobs
  | LOST =>
      pm_modify (set_session_lost true) ;;;
      pm_modify (set_known Known_init) ;;;
      call_scheduler scheduler pause_all_jobs
  | CONNECTED =>
      lost <- pm_gets pm_session_lost ;;
      (if lost : bool then
         _reinit_after_loss ;;; pm_modify (set_session_lost false)
       else se_ret tt) ;;;
      known <- pm_gets pm_known ;;
      call_scheduler scheduler (resume_jobs_for (_assigned_processes known))
  end.

(** ** Lifecycle *)
Definition start : M unit :=
  await None ensure_parent_paths ;;;
  _register_member ;;;
  id <- pm_gets pm_instance_id ;;
  await None (ensure_assignment_path id) ;;;
  pm_modify (set_subscribed true) ;;;
  _register_watches ;;;
  _refresh_assignment_from_zk.

(** [task.cancel()] and [await task], of a task in its sleep: it ends without
    running its body. *)
Definition stop (s : PM) : PM :=
  foldl (λ s ot, match ot with
                 | Some t => if task_done t s then s else finish_task t (cancel_task t s)
                 | None => s
                 end) s [pm_redistribution_task s; pm_redistribute_retry_task s].
End Handlers.

(** ** Steps of the whole manager *)
Section Steps.
Context {W : Type} `{!World W} (meanwhile : PM * W → PM * W).

(** What reaches the event loop of an instance: its own lifecycle, a watch that fires (with
    the watch epoch it was registered at), a task whose sleep ends, the election, and the
    state of the ZooKeeper session. *)
Inductive Event : Type :=
| EvStart
| EvStop
| EvMembers (epoch : nat)
| EvAssignment (epoch : nat) (data : option string)
| EvTask (t : nat)
| EvLeader (epoch : Z)
| EvNotLeader
| EvZk (state : KazooState).

(** The handler runs to its end; what it raises is dropped. *)
Definition handle (ev : Event) (s : PM * W) : PM * W :=
  match ev with
  | EvStart => (start meanwhile s).1
  | EvStop => (stop s.1, s.2)
  | EvMembers epoch => ((members_cb epoch s.1).1, s.2)
  | EvAssignment epoch data => (assignment_cb meanwhile epoch data s).1
  | EvTask t => run_task meanwhile t s
  | EvLeader epoch => (on_become_leader meanwhile (set_leader true epoch s.1, s.2)).1
  | EvNotLeader => (set_leader false (pm_leader_epoch s.1) s.1, s.2)
  | EvZk state => (on_zk_state_change meanwhile state s).1
  end.

Inductive pm_step : PM * W → PM * W → Prop :=
| step_event ev s : pm_step s (handle ev s)
| step_world w s : pm_step s (s.1, w).

Definition pm_reachable (id : string) : PM * W → Prop :=
  λ s, ∃ w, rtc pm_step (PM_init id, w) s.
End Steps.

#[global] Arguments _on_assignment_changed : simpl never.

(** A node a leader has written. *)
Lemma on_assignment_text {W} `{!World W} (meanwhile : PM * W → PM * W) a :
  writable a →
  _on_assignment_changed meanwhile (Some (assignment_data a))
  = apply_payload meanwhile (to_payload a).
Proof.
  intros (data & Hd & <-)%assignment_text_decodes. unfold _on_assignment_changed. rewrite Hd.
  reflexivity.
Qed.

(** ** Predicates on the manager a handler preserves *)
Section Preserves.
Context {W : Type} `{!World W} (meanwhile : PM * W → PM * W) (P : PM → Prop).
Hypothesis meanwhile_P : ∀ s, P s.1 → P (meanwhile s).1.

Definition preserves {A} (m : M (W := W) A) : Prop := ∀ s, P s.1 → P (m s).1.1.

Lemma preserves_ret {A} (a : A) : preserves (se_ret a).
Proof. by intros s. Qed.

Lemma preserves_raise {A} e : preserves (se_raise (A := A) e).
Proof. by intros s. Qed.

Lemma preserves_gets {A} (f : PM → A) : preserves (pm_gets f).
Proof. by intros s. Qed.

Lemma preserves_world_gets {A} (f : W → A) : preserves (world_gets f).
Proof. by intros s. Qed.

Lemma preserves_modify f : (∀ s, P s → P (f s)) → preserves (pm_modify f).
Proof. intros Hf s. apply Hf. Qed.

Lemma preserves_bind {A B} (m : M A) (k : A → M B) :
  preserves m → (∀ a, preserves (k a)) → preserves (se_bind m k).
Proof.
  intros Hm Hk s Hs. unfold se_bind. specialize (Hm s Hs).
  destruct (m s) as [s' [a|e]]; simpl in *; [by apply Hk|done].
Qed.

Lemma preserves_await me {A} (op : SE W CallError A) : preserves (await meanwhile me op).
Proof.
  intros s Hs. unfold await. destruct (op s.2) as [w' r].
  pose proof (meanwhile_P (s.1, w') Hs). by case_match.
Qed.

Lemma preserves_try {A} (m : M A) h :
  preserves m → (∀ e, preserves (h e)) → preserves (try_except m h).
Proof.
  intros Hm Hh s Hs. unfold try_except. specialize (Hm s Hs).
  destruct (m s) as [s' [a|[|e]]]; simpl in *; [done|done|by apply Hh].
Qed.

Lemma preserves_for_each {A} (f : A → M unit) l :
  (∀ x, preserves (f x)) → preserves (for_each f l).
Proof.
  intros Hf. induction l; [apply preserves_ret|apply preserves_bind; auto].
Qed.

Lemma preserves_scheduler b c : preserves (call_scheduler meanwhile b c).
Proof.
  assert (∀ op : SE W CallError unit, preserves (at_once op)) as Hnow.
  { intros op s Hs. unfold at_once. by destruct (op s.2). }
  destruct b; [|apply preserves_ret]. destruct c; [apply Hnow|apply Hnow|apply preserves_await].
Qed.

Lemma preserves_if {A} (b : bool) (m1 m2 : M A) :
  preserves m1 → preserves m2 → preserves (if b then m1 else m2).
Proof. by destruct b. Qed.
End Preserves.

Create HintDb preserves.
#[export] Hint Resolve preserves_ret preserves_raise preserves_gets preserves_world_gets
  preserves_bind preserves_await preserves_try preserves_for_each preserves_scheduler
  preserves_if : preserves.
#[export] Hint Extern 1 (preserves _ (match ?x with _ => _ end)) => destruct x : preserves.

(** ** At most one pending task of each kind *)

(** A task that will still do its work when its sleep ends. *)
Definition pending (k : TaskKind) (t : nat) (s : PM) : Prop :=
  pm_tasks s !! t = Some (mkTask k false false).

Record one_pending (s : PM) : Prop := {
  attempt_nonneg : (0 ≤ pm_redistribute_attempt s)%Z;
  one_retry : ∀ t instances a, pending (RetryRedistribute instances a) t s →
    pm_redistribute_retry_task s = Some t ∧ (1 ≤ a < _REDISTRIBUTE_MAX_ATTEMPTS)%Z;
  one_debounce : ∀ t, pending DebouncedRedistribute t s → pm_redistribution_task s = Some t;
}.

Lemma one_pending_init id : one_pending (PM_init id).
Proof. split; [simpl; lia|intros t instances a Ht|intros t Ht]; by unfold pending in Ht. Qed.

(** Tasks are only marked. *)
Lemma pending_alter f k t t' s :
  (∀ tk, t_kind (f tk) = t_kind tk ∧ (t_done (f tk) || t_cancelled (f tk)) = true) →
  pending k t (alter_task f t' s) → pending k t s ∧ t ≠ t'.
Proof.
  intros Hf. unfold pending, alter_task. simpl. destruct (decide (t = t')) as [<-|Hne].
  - rewrite list_lookup_alter, decide_True by done. destruct (pm_tasks s !! t) as [tk|]; simpl; [|done].
    destruct (Hf tk) as [_ Hx]. simpl. intros [= E]. by rewrite E in Hx.
  - by rewrite list_lookup_alter_ne.
Qed.

Lemma pending_cancel k t t' s :
  pending k t (cancel_task t' s) → pending k t s ∧ t ≠ t'.
Proof.
  unfold cancel_task, task_done. case_match eqn:E.
  - intros Hp. split; [done|]. intros <-. rewrite Hp in E. done.
  - by apply pending_alter.
Qed.

Lemma pending_cancel_if k t ot s :
  pending k t (cancel_if_pending ot s) → pending k t s ∧ ot ≠ Some t.
Proof.
  unfold cancel_if_pending, task_done. destruct ot as [t'|]; [|done].
  intros Hp. assert (pending k t s ∧ t ≠ t') as [? ?]; [|naive_solver].
  case_match eqn:E; [|by apply pending_cancel in Hp].
  split; [done|]. intros <-. by rewrite Hp in E.
Qed.

Lemma pending_finish k t t' s : pending k t (finish_task t' s) → pending k t s ∧ t ≠ t'.
Proof. apply pending_alter. intros tk. by rewrite orb_true_l. Qed.

(** A manager with fewer pending tasks and the same handles. *)
Lemma one_pending_shrink s s' :
  one_pending s →
  (0 ≤ pm_redistribute_attempt s')%Z →
  pm_redistribute_retry_task s' = pm_redistribute_retry_task s →
  pm_redistribution_task s' = pm_redistribution_task s →
  (∀ k t, pending k t s' → pending k t s) →
  one_pending s'.
Proof.
  intros [Ha Hr Hd] Ha' Er Ed Hp. split; [done| |]; setoid_rewrite Er || setoid_rewrite Ed;
    eauto.
Qed.

Lemma cancel_if_same ot s :
  pm_redistribute_attempt (cancel_if_pending ot s) = pm_redistribute_attempt s ∧
  pm_redistribute_retry_task (cancel_if_pending ot s) = pm_redistribute_retry_task s ∧
  pm_redistribution_task (cancel_if_pending ot s) = pm_redistribution_task s ∧
  pm_is_leader (cancel_if_pending ot s) = pm_is_leader s ∧
  pm_redistribute_unhealthy (cancel_if_pending ot s) = pm_redistribute_unhealthy s ∧
  length (pm_tasks (cancel_if_pending ot s)) = length (pm_tasks s).
Proof.
  unfold cancel_if_pending, cancel_task. destruct ot; [|done].
  repeat case_match; try done. simpl. by rewrite length_alter.
Qed.

Lemma one_pending_cancel_if ot s : one_pending s → one_pending (cancel_if_pending ot s).
Proof.
  intros Hs. destruct (cancel_if_same ot s) as (Ea & Er & Ed & _).
  apply (one_pending_shrink s); [done| |done|done|].
  - rewrite Ea. apply Hs.
  - intros k t Hp. by apply pending_cancel_if in Hp as [? _].
Qed.

Lemma one_pending_finish t s : one_pending s → one_pending (finish_task t s).
Proof.
  intros Hs. apply (one_pending_shrink s); [done|apply Hs|done|done|].
  intros k t' Hp. by apply pending_finish in Hp as [? _].
Qed.

Lemma pending_create k k0 t s :
  pending k t (create_task k0 s).1 →
  pending k t s ∨ (t = (create_task k0 s).2 ∧ k = k0).
Proof.
  unfold pending, create_task. simpl. intros [?|[? Hx]]%lookup_snoc_Some; [naive_solver|].
  right. naive_solver.
Qed.

(** Cancelling the held retry and scheduling another one. *)
Lemma one_pending_reschedule instances a s :
  one_pending s → (1 ≤ a < _REDISTRIBUTE_MAX_ATTEMPTS)%Z →
  let '(s', t) := create_task (RetryRedistribute instances a)
                    (cancel_if_pending (pm_redistribute_retry_task s) s) in
  one_pending (set_retry_task (Some t) s').
Proof.
  intros Hs Ha. pose proof (one_pending_cancel_if (pm_redistribute_retry_task s) s Hs) as Hc.
  destruct (create_task _ _) as [s' t] eqn:E.
  assert (∀ k u, pending k u s' → (pending k u s ∧ pm_redistribute_retry_task s ≠ Some u) ∨
            (u = t ∧ k = RetryRedistribute instances a)) as Hp.
  { intros k u Hu. replace s' with (create_task (RetryRedistribute instances a)
      (cancel_if_pending (pm_redistribute_retry_task s) s)).1 in Hu by by rewrite E.
    apply pending_create in Hu as [Hu%pending_cancel_if|[-> ->]]; [by left|right].
    by rewrite E. }
  unfold create_task in E. simplify_eq/=. split; simpl.
  - apply Hc.
  - intros u is' a' [[Hu Hne]|[-> [= -> ->]]]%Hp; [|done].
    by apply (one_retry s Hs) in Hu as [? _].
  - intros u [[Hu _]|[_ ?]]%Hp; [|done].
    destruct (cancel_if_same (pm_redistribute_retry_task s) s) as (_ & _ & -> & _).
    by apply Hs.
Qed.

Lemma one_pending_membership s : one_pending s → one_pending (_handle_membership_change s).
Proof.
  intros Hs. unfold _handle_membership_change. case_match; [done|].
  pose proof (one_pending_cancel_if (pm_redistribution_task s) s Hs) as Hc.
  destruct (cancel_if_same (pm_redistribution_task s) s) as (Ea & Er & _).
  simpl. split; simpl.
  - apply Hc.
  - intros t is' a Hp. apply (pending_create _ DebouncedRedistribute) in Hp as [Hp|[_ ?]];
      [|done]. by eapply (one_retry _ Hc).
  - intros t Hp. apply (pending_create _ DebouncedRedistribute) in Hp as [Hp|[-> _]];
      [|done]. apply pending_cancel_if in Hp as [Hp Hne].
    by apply (one_debounce s Hs) in Hp.
Qed.

Lemma one_pending_stop s : one_pending s → one_pending (stop s).
Proof.
  intros Hs. unfold stop. simpl.
  assert (∀ ot s, one_pending s → one_pending
    (match ot with Some t => if task_done t s then s else finish_task t (cancel_task t s)
     | None => s end)) as Hstep.
  { intros [t|] s0 H0; [|done]. case_match; [done|]. apply one_pending_finish.
    pose proof (one_pending_cancel_if (Some t) s0 H0) as Hc.
    unfold cancel_if_pending in Hc. by case_match. }
  by apply Hstep, Hstep.
Qed.

Section OnePending.
Context {W : Type} `{!World W} (meanwhile : PM * W → PM * W).
Hypothesis meanwhile_one : ∀ s, one_pending s.1 → one_pending (meanwhile s).1.

Lemma preserves_field (f : PM → PM) :
  (∀ s, pm_redistribute_attempt (f s) = pm_redistribute_attempt s ∧
        pm_redistribute_retry_task (f s) = pm_redistribute_retry_task s ∧
        pm_redistribution_task (f s) = pm_redistribution_task s ∧
        pm_tasks (f s) = pm_tasks s) →
  preserves (W := W) one_pending (pm_modify f).
Proof.
  intros Hf. apply preserves_modify. intros s Hs. destruct (Hf s) as (Ea & Er & Ed & Et).
  apply (one_pending_shrink s); [done| |done|done|].
  - rewrite Ea. apply Hs.
  - intros k t. unfold pending. by rewrite Et.
Qed.

Hint Resolve preserves_field meanwhile_one : preserves.
Hint Extern 2 (preserves one_pending (pm_modify _)) => apply preserves_field; done : preserves.

Lemma preserves_failed instances :
  preserves (W := W) one_pending (redistribute_failed instances).
Proof.
  intros s Hs. unfold redistribute_failed, se_bind, pm_modify, pm_gets. simpl.
  set (s1 := set_attempt (pm_redistribute_attempt s.1 + 1)%Z s.1).
  assert (one_pending s1) as H1.
  { apply (one_pending_shrink s.1); try done. simpl. pose proof (attempt_nonneg _ Hs). lia. }
  case_bool_decide as Hlt.
  - apply (one_pending_reschedule instances _ _ H1).
    split; [|done]. simpl. pose proof (attempt_nonneg _ Hs). lia.
  - simpl. by apply (one_pending_shrink s1); [|apply H1|..].
Qed.

Lemma preserves_cleanup me live :
  preserves one_pending (_cleanup_orphan_assignments meanwhile me live).
Proof. unfold _cleanup_orphan_assignments. auto 10 with preserves. Qed.

Lemma preserves_body me instances :
  preserves one_pending (redistribute_body meanwhile me instances).
Proof.
  unfold redistribute_body. repeat (apply preserves_bind; [auto 10 with preserves|intros]).
  case_match; auto with preserves.
Qed.

Lemma preserves_do_redistribute me instances :
  preserves one_pending (_do_redistribute meanwhile me instances).
Proof.
  intros s Hs. unfold _do_redistribute. pose proof (preserves_body me instances s Hs) as Hb.
  destruct (redistribute_body meanwhile me instances s) as [s' [[]|[|e]]]; simpl in *.
  - revert s' Hb. change (preserves one_pending
      (pm_modify (set_attempt 0) ;;; pm_modify (set_unhealthy false) ;;;
       pm_modify (λ s, cancel_if_pending (pm_redistribute_retry_task s) s) ;;;
       _cleanup_orphan_assignments meanwhile me instances)).
    apply preserves_bind; [|intros; apply preserves_bind; [|intros; apply preserves_bind]].
    + apply preserves_modify. intros s0 H0. by apply (one_pending_shrink s0).
    + auto with preserves.
    + apply preserves_modify. intros s0. apply one_pending_cancel_if.
    + intros. apply preserves_cleanup.
  - done.
  - by apply preserves_failed.
Qed.

Lemma preserves_apply_payload p : preserves one_pending (apply_payload meanwhile p).
Proof.
  unfold apply_payload. apply preserves_bind; [auto with preserves|intros k].
  destruct (_apply_assignment p k) as [k' [procs|]]; auto 10 with preserves.
Qed.

Hint Resolve preserves_apply_payload : preserves.

Lemma preserves_assignment data : preserves one_pending (_on_assignment_changed meanwhile data).
Proof. unfold _on_assignment_changed. auto with preserves. Qed.

Hint Resolve preserves_assignment : preserves.

Lemma preserves_refresh : preserves one_pending (_refresh_assignment_from_zk meanwhile).
Proof. unfold _refresh_assignment_from_zk. auto 10 with preserves. Qed.

Lemma preserves_register_member : preserves one_pending (_register_member meanwhile).
Proof. unfold _register_member. auto 10 with preserves. Qed.

Lemma preserves_watches : preserves (W := W) one_pending _register_watches.
Proof. unfold _register_watches. auto with preserves. Qed.

Hint Resolve preserves_refresh preserves_register_member preserves_watches : preserves.

Lemma preserves_start : preserves one_pending (start meanwhile).
Proof. unfold start. auto 20 with preserves. Qed.

Lemma preserves_reinit : preserves one_pending (_reinit_after_loss meanwhile).
Proof. unfold _reinit_after_loss. auto 20 with preserves. Qed.

Hint Resolve preserves_reinit : preserves.

Lemma preserves_zk state : preserves one_pending (on_zk_state_change meanwhile state).
Proof. unfold on_zk_state_change. auto 20 with preserves. Qed.

Lemma preserves_run_task t s :
  one_pending s.1 → one_pending (run_task meanwhile t s).1.
Proof.
  intros Hs. unfold run_task.
  destruct (pm_tasks s.1 !! t) as [[k [] ?]|]; try done; simpl; apply one_pending_finish.
  destruct k as [|instances a].
  - unfold _debounced_redistribute. case_match; [done|]. case_match; [done|].
    pose proof (preserves_bind one_pending _ _
      (preserves_await meanwhile one_pending meanwhile_one (Some t) get_member_children)
      (λ c, preserves_do_redistribute (Some t) c) s Hs) as Hx.
    by destruct (se_bind _ _ s) as [s' [?|[|e]]].
  - unfold _retry_redistribute. case_match; [done|]. case_match; [done|].
    by apply preserves_do_redistribute.
Qed.

Lemma one_pending_step s s' :
  pm_step meanwhile s s' → one_pending s.1 → one_pending s'.1.
Proof.
  intros Hstep Hs. destruct Hstep as [ev s|]; [destruct ev as [| |epoch|epoch data|t|epoch| |state]|];
    simpl.
  - by apply preserves_start.
  - by apply one_pending_stop.
  - unfold members_cb. case_bool_decide; [done|]. by apply one_pending_membership.
  - unfold assignment_cb.
    assert (preserves one_pending (assignment_cb meanwhile epoch data)) as Hp; [|by apply Hp].
    unfold assignment_cb. auto 10 with preserves.
  - by apply preserves_run_task.
  - unfold on_become_leader.
    apply (preserves_bind one_pending _ _
      (preserves_await meanwhile one_pending meanwhile_one None get_member_children)
      (λ c, preserves_do_redistribute None c)).
    apply (one_pending_shrink s.1); try done. apply Hs.
  - apply (one_pending_shrink s.1); try done. apply Hs.
  - by apply preserves_zk.
  - done.
Qed.
End OnePending.

(** ** What ZooKeeper does with the nodes *)

(** [nodes w]: the bytes of the assignment nodes.  A call that raises may
    or may not have taken effect. *)
Class ZkLaws (W : Type) `{World W} (nodes : W → gmap string string) := {
  (** a transaction is atomic: every operation without error, or no effect *)
  commit_nodes ops w results :
    (commit_set_data ops w).2 = Ok results → Forall (.= None) results →
    nodes (commit_set_data ops w).1 =
      foldl (λ m kv, <[kv.1 := kv.2]> m) (nodes w) ops;
  processes_nodes w : nodes (get_distinct_processes w).1 = nodes w;
  ensure_nodes i j w : i ≠ j → nodes (ensure_assignment_path i w).1 !! j = nodes w !! j;
  children_nodes w : nodes (get_assignment_children w).1 = nodes w;
  children_dom w l :
    (get_assignment_children w).2 = Ok l → list_to_set l = dom (nodes w);
  delete_nodes i w :
    nodes (delete_assignment i w).1 = nodes w ∨
    nodes (delete_assignment i w).1 = delete i (nodes w);
  delete_ok i w :
    isOk (delete_assignment i w).2 = true →
    nodes (delete_assignment i w).1 = delete i (nodes w);
}.

Section Redistribution.
Context {W : Type} `{!World W} (meanwhile : PM * W → PM * W).

(** The [except] branch on its own. *)
Lemma failed_spec instances s :
  let n := (pm_redistribute_attempt s.1 + 1)%Z in
  (redistribute_failed instances s).2 = Ok tt ∧
  (redistribute_failed instances s).1.2 = s.2 ∧
  let s' := (redistribute_failed (W := W) instances s).1.1 in
  pm_redistribute_attempt s' = n ∧ pm_is_leader s' = pm_is_leader s.1 ∧
  if decide (n < _REDISTRIBUTE_MAX_ATTEMPTS)%Z then
    pm_redistribute_retry_task s' = Some (length (pm_tasks s.1)) ∧
    pending (RetryRedistribute instances n) (length (pm_tasks s.1)) s' ∧
    pm_redistribute_unhealthy s' = pm_redistribute_unhealthy s.1
  else pm_redistribute_unhealthy s' = true ∧
    pm_tasks s' = pm_tasks s.1 ∧
    pm_redistribute_retry_task s' = pm_redistribute_retry_task s.1.
Proof.
  unfold redistribute_failed, se_bind, pm_modify, pm_gets. cbn.
  set (s1 := set_attempt _ _).
  destruct (decide (_ < _)%Z) as [Hlt|Hlt].
  - rewrite bool_decide_eq_true_2 by done. cbn.
    destruct (cancel_if_same (pm_redistribute_retry_task s.1) s1)
      as (Ea & _ & _ & El & Eu & Et).
    rewrite Ea, El, Eu, Et. repeat split. unfold pending. simpl.
    apply lookup_snoc_Some. right. by rewrite Et.
  - by rewrite bool_decide_eq_false_2.
Qed.

(** Without an event in between, and without a request to cancel [me], an awaited
    call gives its result. *)
Lemma await_None {A} (op : SE W CallError A) s :
  await meanwhile None op s =
    (meanwhile (s.1, (op s.2).1),
     match (op s.2).2 with Ok a => Ok a | Err e => Err (Raised e) end).
Proof. unfold await. by destruct (op s.2). Qed.

Lemma cleanup_eq me live s :
  _cleanup_orphan_assignments meanwhile me live s =
    match await meanwhile me get_assignment_children s with
    | (s1, Ok existing) =>
        for_each (λ orphan, try_except (await meanwhile me (delete_assignment orphan))
                              (λ _, se_ret tt)) (filter (.∉ live) existing) s1
    | (s1, Err Cancelled) => (s1, Err Cancelled)
    | (s1, Err (Raised _)) => (s1, Ok tt)
    end.
Proof.
  unfold _cleanup_orphan_assignments, se_bind, try_except at 1.
  by destruct (await _ _ _ _) as [s1 [l|[|e]]].
Qed.

(** The success branch, with what it runs the cleanup from. *)
Definition redistributed (s : PM) : PM :=
  let s := set_unhealthy false (set_attempt 0 s) in
  cancel_if_pending (pm_redistribute_retry_task s) s.

Lemma do_redistribute_eq me instances s :
  _do_redistribute meanwhile me instances s =
    match redistribute_body meanwhile me instances s with
    | (s', Ok _) =>
        _cleanup_orphan_assignments meanwhile me instances (redistributed s'.1, s'.2)
    | (s', Err Cancelled) => (s', Err Cancelled)
    | (s', Err (Raised _)) => redistribute_failed instances s'
    end.
Proof. unfold _do_redistribute. by destruct (redistribute_body _ _ _ _) as [s' [[]|[|e]]]. Qed.

Lemma redistributed_spec s :
  pm_redistribute_attempt (redistributed s) = 0%Z ∧
  pm_redistribute_unhealthy (redistributed s) = false ∧
  pm_redistribute_retry_task (redistributed s) = pm_redistribute_retry_task s ∧
  pm_leader_epoch (redistributed s) = pm_leader_epoch s ∧
  (∀ k t, pending k t (redistributed s) →
    pm_redistribute_retry_task s ≠ Some t ∧ pending k t s).
Proof.
  unfold redistributed. set (s1 := set_unhealthy _ _).
  destruct (cancel_if_same (pm_redistribute_retry_task s1) s1) as (-> & -> & _ & _ & -> & _).
  repeat split.
  - unfold cancel_if_pending, cancel_task. by repeat case_match.
  - by apply pending_cancel_if in H as [? ?].
  - by apply pending_cancel_if in H as [? ?].
Qed.
End Redistribution.

(** *** A successful redistribution *)
Section Success.
Context {W : Type} `{!World W} (meanwhile : PM * W → PM * W).
Context (nodes : W → gmap string string) `{!ZkLaws W nodes}.

(** While the leader redistributes, nobody else writes assignments and its own
    manager is idle. *)
Definition undisturbed : Prop :=
  ∀ s, (meanwhile s).1 = s.1 ∧ nodes (meanwhile s).2 = nodes s.2.

Context (Hun : undisturbed).

Lemma await_Ok {A} (op : SE W CallError A) s s' a :
  await meanwhile None op s = (s', Ok a) →
  (op s.2).2 = Ok a ∧ s'.1 = s.1 ∧ nodes s'.2 = nodes (op s.2).1.
Proof.
  rewrite await_None. destruct (op s.2) as [w' [b|e]]; simpl; [|done]. intros [= <- ->].
  by destruct (Hun (s.1, w')) as [-> ->].
Qed.

Lemma for_each_manager {A} (f : A → M unit) l :
  (∀ x s, (f x s).1.1 = s.1) → ∀ s : PM * W, (for_each f l s).1.1 = s.1.
Proof.
  intros Hf. induction l as [|x l IH]; intros s; [done|]. simpl. unfold se_bind.
  specialize (Hf x s). destruct (f x s) as [s1 [[]|e]]; simpl in *; by rewrite ?IH, <-?Hf.
Qed.

Lemma try_await_manager {A} me (op : SE W CallError A) h s :
  (∀ e s, (h e s).1.1 = s.1) → (try_except (await meanwhile me op) h s).1.1 = s.1.
Proof.
  intros Hh. unfold try_except, await. destruct (op s.2) as [w' r].
  pose proof (proj1 (Hun (s.1, w'))) as Hm. simpl in Hm.
  repeat case_match; simplify_eq/=; by rewrite ?Hh, ?Hm.
Qed.

Lemma set_data_lookup ops (m : gmap string string) i :
  NoDup ops.*1 →
  foldl (λ m kv, <[kv.1 := kv.2]> m) m ops !! i =
    match ODict.get i ops with Some a => Some a | None => m !! i end.
Proof.
  revert m. induction ops as [|[j a] ops IH]; intros m; [done|].
  rewrite fmap_cons, NoDup_cons. cbn [fst]. intros [Hj Hnd]. cbn [foldl].
  rewrite IH by done. simpl. destruct (decide (i = j)) as [->|Hij].
  - by rewrite (proj2 (ODict.get_None j ops)), lookup_insert_eq.
  - case_match; [done|]. by rewrite lookup_insert_ne.
Qed.

(** [m], run by task [me] that nobody has asked to cancel, does what [m'] does outside a
    task; neither touches the manager. *)
Definition agree (me : option nat) {A} (m m' : M (W := W) A) : Prop :=
  ∀ s, cancel_requested me s.1 = false → m s = m' s ∧ (m s).1.1 = s.1.

Lemma agree_ret me {A} (a : A) : agree me (se_ret a) (se_ret a).
Proof. by intros s. Qed.
Lemma agree_raise me {A} e : agree me (se_raise (A := A) e) (se_raise e).
Proof. by intros s. Qed.
Lemma agree_gets me {A} (f : PM → A) : agree me (pm_gets f) (pm_gets f).
Proof. by intros s. Qed.
Lemma agree_world_gets me {A} (f : W → A) : agree me (world_gets f) (world_gets f).
Proof. by intros s. Qed.

Lemma agree_await me {A} (op : SE W CallError A) :
  agree me (await meanwhile me op) (await meanwhile None op).
Proof.
  intros s Hs. unfold await. destruct (op s.2) as [w r].
  pose proof (proj1 (Hun (s.1, w))) as Hm. cbn [fst] in Hm. rewrite Hm, Hs. by simpl.
Qed.

Lemma agree_bind me {A B} (m m' : M (W := W) A) (k k' : A → M (W := W) B) :
  agree me m m' → (∀ a, agree me (k a) (k' a)) → agree me (se_bind m k) (se_bind m' k').
Proof.
  intros Hm Hk s Hs. unfold se_bind. destruct (Hm s Hs) as [<- Es].
  destruct (m s) as [s1 [a|e]]; cbn [fst] in *; [|done].
  destruct (Hk a s1) as [-> E1]; [by rewrite Es|]. by rewrite E1.
Qed.

Lemma agree_try me {A} (m m' : M (W := W) A) h :
  agree me m m' → (∀ e, agree me (h e) (h e)) → agree me (try_except m h) (try_except m' h).
Proof.
  intros Hm Hh s Hs. unfold try_except. destruct (Hm s Hs) as [<- Es].
  destruct (m s) as [s1 [a|[|e]]]; cbn [fst] in *; [done..|].
  destruct (Hh e s1) as [_ E1]; [by rewrite Es|]. by rewrite E1.
Qed.

Lemma agree_for_each me {A} (f f' : A → M (W := W) unit) l :
  (∀ x, agree me (f x) (f' x)) → agree me (for_each f l) (for_each f' l).
Proof. intros Hf. induction l; [apply agree_ret|by apply agree_bind]. Qed.

Hint Resolve agree_ret agree_raise agree_gets agree_world_gets agree_await agree_bind agree_try
  agree_for_each : agree.
Hint Extern 1 (agree _ (match ?x with _ => _ end) _) => destruct x : agree.

Lemma agree_body me instances :
  agree me (redistribute_body meanwhile me instances) (redistribute_body meanwhile None instances).
Proof. unfold redistribute_body. auto 20 with agree. Qed.

Lemma agree_cleanup me live :
  agree me (_cleanup_orphan_assignments meanwhile me live)
    (_cleanup_orphan_assignments meanwhile None live).
Proof. unfold _cleanup_orphan_assignments. auto 20 with agree. Qed.

(** A body that commits was never asked to be cancelled. *)
Lemma body_uncancelled me instances s :
  (redistribute_body meanwhile me instances s).2 = Ok tt → cancel_requested me s.1 = false.
Proof.
  intros (s' & Hb)%(λ H, ex_intro (λ s', _ = (s', Ok tt)) _
    (eq_trans (surjective_pairing _) (f_equal (pair _) H))).
  unfold redistribute_body in Hb. apply se_bind_Ok in Hb as (s1 & p & Ha & _).
  unfold await in Ha. destruct (get_distinct_processes s.2) as [w r].
  pose proof (proj1 (Hun (s.1, w))) as Hm. cbn [fst] in Hm. rewrite Hm in Ha.
  by destruct (cancel_requested me s.1).
Qed.

Lemma ensure_paths_nodes l i s :
  i ∉ l →
  nodes (for_each (λ j, try_except (await meanwhile None (ensure_assignment_path j))
    (λ _, se_ret tt)) l s).1.2 !! i = nodes s.2 !! i.
Proof.
  revert s. induction l as [|j l IH]; intros s; [done|]. rewrite not_elem_of_cons.
  intros [Hij Hi]. simpl. unfold se_bind, try_except at 1. rewrite await_None.
  pose proof (ensure_nodes j i s.2 ltac:(done)) as He.
  destruct (ensure_assignment_path j s.2) as [w r]. simpl in He |- *.
  pose proof (proj2 (Hun (s.1, w))) as Hn. simpl in Hn. rewrite <-He, <-Hn.
  destruct r; simpl; by apply IH.
Qed.

Lemma body_Ok instances s s' :
  NoDup instances →
  redistribute_body meanwhile None instances s = (s', Ok tt) →
  ∃ processes t, (get_distinct_processes s.2).2 = Ok processes ∧ s'.1 = s.1 ∧
    (∀ i procs, (i, procs) ∈ _compute_assignments instances processes →
      nodes s'.2 !! i = Some (assignment_data (mkAssignment procs (pm_leader_epoch s.1) t))) ∧
    ∀ i, i ∉ instances → nodes s'.2 !! i = nodes s.2 !! i.
Proof.
  intros Hnd. unfold redistribute_body.
  intros (s1 & procs & [Hp [H1 Hn1]]%await_Ok & Hb)%se_bind_Ok.
  apply se_bind_Ok in Hb as (s2 & [] & Hf & Hb).
  apply se_bind_Ok in Hb as (s3 & t & [= <- <-] & Hb).
  apply se_bind_Ok in Hb as (s4 & e & [= <- <-] & Hb).
  apply se_bind_Ok in Hb as (s5 & results & [Hc [H5 Hn]]%await_Ok & Hb).
  destruct (list_find is_Some results) eqn:Hr; [done|]. injection Hb as <-.
  assert (s2.1 = s1.1) as H2.
  { pose proof (for_each_manager (λ i, try_except
      (await meanwhile None (ensure_assignment_path i)) (λ _, se_ret tt))
      (_compute_assignments instances procs).*1) as Hx.
    specialize (Hx (λ x s, try_await_manager None (ensure_assignment_path x)
      (λ _, se_ret tt) s (λ _ _, eq_refl)) s1).
    by rewrite Hf in Hx. }
  rewrite H1 in H2. rewrite H2 in H5.
  pose proof (compute_assignments_keys instances procs Hnd) as Hk.
  assert (NoDup ((λ kv, (kv.1, assignment_data
      (mkAssignment kv.2 (pm_leader_epoch s2.1) (time_time s2.2))))
      <$> _compute_assignments instances procs).*1) as Hops.
  { rewrite fmap_values_keys, Hk. by apply sort_str_NoDup. }
  assert (Forall (.= None) results) as Hres.
  { apply list_find_None in Hr. eapply Forall_impl; [done|]. intros [] Hx; [|done]. by destruct Hx. }
  exists procs, (time_time s2.2). split; [done|]. split; [done|].
  rewrite Hn, (commit_nodes _ _ _ Hc Hres). split; intros i.
  - intros ps Hin. rewrite set_data_lookup by done.
    erewrite ODict.elem_of_get; [done|done|]. rewrite <-H2.
    by apply (list_elem_of_fmap_2 (λ kv, (kv.1, assignment_data (mkAssignment kv.2 _ _))) _ (i, ps)).
  - intros Hi. assert (i ∉ (_compute_assignments instances procs).*1) as Hi'
      by (rewrite Hk; unfold sort_str; by rewrite sort_by_perm).
    rewrite set_data_lookup by done. rewrite (proj2 (ODict.get_None i _)) by (by rewrite fmap_values_keys).
    pose proof (ensure_paths_nodes _ i s1 Hi') as He. rewrite Hf in He. simpl in He.
    by rewrite He, Hn1, processes_nodes.
Qed.

Definition deletions_succeed : Prop :=
  (∀ w, isOk (get_assignment_children w).2 = true) ∧
  (∀ i w, isOk (delete_assignment i w).2 = true).

Definition delete_orphan (orphan : string) : M unit :=
  try_except (await meanwhile None (delete_assignment orphan)) (λ _, se_ret tt).

Lemma delete_orphan_spec o s :
  (delete_orphan o s).2 = Ok tt ∧ (delete_orphan o s).1.1 = s.1 ∧
  let n' := nodes (delete_orphan o s).1.2 in
  (n' = nodes s.2 ∨ n' = delete o (nodes s.2)) ∧
  (deletions_succeed → n' = delete o (nodes s.2)).
Proof.
  split; [|split; [by apply try_await_manager|]].
  - unfold delete_orphan, try_except. rewrite await_None.
    by destruct (delete_assignment o s.2) as [? [[]|e]].
  - unfold delete_orphan, try_except. rewrite await_None.
    pose proof (delete_nodes o s.2) as Hd. pose proof (delete_ok o s.2) as Hok.
    assert (deletions_succeed → isOk (delete_assignment o s.2).2 = true) as Hds
      by (intros [_ Hx]; apply Hx).
    destruct (delete_assignment o s.2) as [w' r]. simpl in *.
    destruct (Hun (s.1, w')) as [_ Hn]. simpl in Hn.
    destruct r; simpl in *; rewrite Hn; (split; [done|]); auto.
Qed.

Lemma delete_orphans_spec l s :
  (for_each delete_orphan l s).1.1 = s.1 ∧ (for_each delete_orphan l s).2 = Ok tt ∧
  let n' := nodes (for_each delete_orphan l s).1.2 in
  ∀ i, (i ∉ l → n' !! i = nodes s.2 !! i) ∧ (nodes s.2 !! i = None → n' !! i = None) ∧
       (deletions_succeed → i ∈ l → n' !! i = None).
Proof.
  revert s. induction l as [|o l IH]; intros s.
  { split; [done|]. split; [done|]. intros n' i. unfold n'. simpl. set_solver. }
  simpl. unfold se_bind.
  destruct (delete_orphan_spec o s) as (Er & Em & Hn & Hok).
  destruct (delete_orphan o s) as [s1 r]. simpl in *. subst r. rewrite <-Em.
  destruct (IH s1) as (E1 & E2 & Hi). split; [done|]. split; [done|]. intros i.
  destruct (Hi i) as (Ha & Hb & Hc). rewrite not_elem_of_cons, elem_of_cons.
  assert (∀ m : gmap string string, m !! i = None → delete o m !! i = None)
    as Hdel. { intros m Hm. rewrite lookup_delete. by case_decide. }
  split; [|split].
  - intros [Hne Hni]. rewrite Ha by done.
    destruct Hn as [->| ->]; [done|]. by rewrite lookup_delete_ne.
  - intros Hnone. apply Hb. destruct Hn as [->| ->]; auto.
  - intros Hd [->|Hin]; [|auto]. apply Hb. rewrite (Hok Hd). apply lookup_delete_eq.
Qed.

Lemma cleanup_spec live s :
  (_cleanup_orphan_assignments meanwhile None live s).1.1 = s.1 ∧
  (_cleanup_orphan_assignments meanwhile None live s).2 = Ok tt ∧
  let n' := nodes (_cleanup_orphan_assignments meanwhile None live s).1.2 in
  (∀ i, i ∈ live → n' !! i = nodes s.2 !! i) ∧
  (deletions_succeed → ∀ i, i ∉ live → n' !! i = None).
Proof.
  rewrite cleanup_eq, await_None.
  pose proof (children_nodes s.2) as Hn. pose proof (children_dom s.2) as Hdom.
  assert (deletions_succeed → isOk (get_assignment_children s.2).2 = true) as Hok
    by (intros [Hx _]; apply Hx).
  destruct (get_assignment_children s.2) as [w r]. simpl in *.
  destruct (Hun (s.1, w)) as [Hm Hn']. simpl in *. rewrite Hn in Hn'.
  destruct r as [l|e]; simpl.
  - pose proof (delete_orphans_spec (filter (.∉ live) l) (meanwhile (s.1, w))) as (E1 & E2 & Hi).
    fold delete_orphan. split; [by rewrite E1|]. split; [exact E2|]. rewrite Hn' in Hi. split.
    + intros i Hl. apply Hi. rewrite list_elem_of_filter. tauto.
    + intros Hd i Hl. destruct (Hi i) as (_ & Hb & Hc). specialize (Hdom l eq_refl).
      destruct (nodes s.2 !! i) eqn:E; [|by apply Hb].
      apply Hc; [done|]. apply list_elem_of_filter. split; [done|].
      apply (elem_of_list_to_set (C := gset string)). rewrite Hdom. by eapply elem_of_dom_2.
  - split; [done|]. split; [done|]. rewrite Hn'. split; [done|]. intros Hx. by specialize (Hok Hx).
Qed.
End Success.

(** The task that redistributes is the pending retry, which a success cancels. *)
Definition cancels_itself (me : option nat) (s : PM) : bool :=
  match me with
  | Some t => bool_decide (pm_redistribute_retry_task s = Some t) && negb (task_done t s)
  | None => false
  end.

Lemma redistributed_cancels me s :
  cancel_requested me s = false → cancel_requested me (redistributed s) = cancels_itself me s.
Proof.
  destruct me as [t|]; [|done]. unfold redistributed, cancel_if_pending, cancels_itself.
  change (pm_redistribute_retry_task (set_unhealthy false (set_attempt 0 s)))
    with (pm_redistribute_retry_task s). set (s1 := set_unhealthy _ _).
  assert (cancel_requested (Some t) s1 = cancel_requested (Some t) s) as E1 by done.
  intros Hs. destruct (pm_redistribute_retry_task s) as [t'|]; [|by rewrite E1].
  change (task_done t' s1) with (task_done t' s). destruct (decide (t' = t)) as [->|Hne].
  - rewrite bool_decide_true by done. unfold cancel_task. change (task_done t s1) with (task_done t s).
    destruct (task_done t s) eqn:Ed; [by rewrite E1|]. unfold task_done in Ed. simpl.
    destruct (pm_tasks s !! t) as [tk|] eqn:Et; [|done].
    by rewrite list_lookup_alter, decide_True, Et.
  - rewrite bool_decide_false by congruence. change (false && _) with false. rewrite <-Hs, <-E1.
    destruct (task_done t' s); [done|]. unfold cancel_task. case_match; [done|]. simpl.
    by rewrite list_lookup_alter_ne.
Qed.

(** *** Repeated failure *)
Section Failures.
Context {W : Type} `{!World W} (meanwhile : PM * W → PM * W).

(** The database is down, and the manager is otherwise idle. *)
Definition database_down : Prop :=
  (∀ w, ∃ e, (get_distinct_processes w).2 = Err e) ∧ ∀ s, (meanwhile s).1 = s.1.

Context (Hdown : database_down).

Lemma body_down me instances s :
  cancel_requested me s.1 = false →
  ∃ s' e, redistribute_body meanwhile me instances s = (s', Err (Raised e)) ∧ s'.1 = s.1.
Proof.
  intros Hc. destruct Hdown as [Hdb Hidle]. destruct (Hdb s.2) as [e He].
  unfold redistribute_body, se_bind at 1, await at 1.
  destruct (get_distinct_processes s.2) as [w r]. simpl in He. subst r.
  pose proof (Hidle (s.1, w)) as Hm. simpl in Hm. rewrite Hm, Hc. eauto.
Qed.

(** The leader waits to try for the [n+1]st time. *)
Definition waiting (instances : list string) (n : Z) (s : PM) : Prop :=
  pm_is_leader s = true ∧ pm_redistribute_attempt s = n ∧
  pm_redistribute_unhealthy s = false ∧
  ∃ t, pm_redistribute_retry_task s = Some t ∧ pending (RetryRedistribute instances n) t s.

Definition gave_up (s : PM) : Prop :=
  pm_redistribute_unhealthy s = true ∧
  ∀ t k, pm_redistribute_retry_task s = Some t → ¬ pending k t s.

(** The timer of the held retry task fires. *)
Definition retry_round (s : PM * W) : PM * W :=
  match pm_redistribute_retry_task s.1 with
  | Some t => run_task meanwhile t s
  | None => s
  end.

Lemma waiting_round instances n s :
  waiting instances n s.1 →
  if decide (n + 1 < _REDISTRIBUTE_MAX_ATTEMPTS)%Z
  then waiting instances (n + 1) (retry_round s).1 else gave_up (retry_round s).1.
Proof.
  intros (Hl & Ha & Hu & t & Ht & Hp). unfold retry_round, run_task.
  rewrite Ht, Hp. unfold _retry_redistribute, cancel_requested. rewrite Hp, Hl. simpl.
  destruct (body_down (Some t) instances s) as (s1 & e & Hb & E1).
  { unfold cancel_requested. by rewrite Hp. }
  rewrite do_redistribute_eq, Hb.
  destruct (failed_spec instances s1) as (_ & _ & Ea & El & Hf).
  destruct (redistribute_failed instances s1) as [s2 r]. simpl in *. rewrite E1, Ha in *.
  assert (t < length (pm_tasks s.1)) as Hlt by (by eapply lookup_lt_Some).
  destruct (decide _) as [Hn|Hn].
  - destruct Hf as (Er & Hpend & Eu). unfold waiting. simpl. rewrite El, Eu.
    repeat split; [done..|]. eexists. split; [done|].
    unfold pending, finish_task, alter_task in *. simpl. rewrite list_lookup_alter_ne; [done|lia].
  - destruct Hf as (Hun & Et & Er). split; [done|]. simpl. rewrite Er, Ht.
    intros t' k [= <-] Hx%pending_finish. naive_solver.
Qed.

Lemma waiting_first instances s :
  pm_is_leader s.1 = true → pm_redistribute_attempt s.1 = 0%Z →
  pm_redistribute_unhealthy s.1 = false →
  waiting instances 1 (_do_redistribute meanwhile None instances s).1.1.
Proof.
  intros Hl Ha Hu. destruct (body_down None instances s eq_refl) as (s1 & e & Hb & E1).
  rewrite do_redistribute_eq, Hb.
  destruct (failed_spec instances s1) as (_ & _ & Ea & El & Hf).
  destruct (redistribute_failed instances s1) as [s2 r]. simpl in *. rewrite E1, Ha in *.
  destruct (decide _) as [Hn|Hn]; [|by destruct Hn].
  destruct Hf as (Er & Hpend & Eu). unfold waiting. rewrite El, Eu. naive_solver.
Qed.

Lemma waiting_rounds instances k s :
  waiting instances 1 s.1 → (k ≤ 3)%nat →
  waiting instances (Z.of_nat k + 1) (Nat.iter k retry_round s).1.
Proof.
  intros Hs. induction k as [|k IH]; intros Hk; [done|].
  pose proof (waiting_round _ _ _ (IH ltac:(lia))) as Hx. rewrite decide_True in Hx.
  - by replace (Z.of_nat (S k) + 1)%Z with (Z.of_nat k + 1 + 1)%Z by lia.
  - unfold _REDISTRIBUTE_MAX_ATTEMPTS. lia.
Qed.
End Failures.

(** *** Watch epochs only grow *)
Section WatchEpochs.
Context {W : Type} `{!World W} (meanwhile : PM * W → PM * W).
Hypothesis meanwhile_grows : ∀ s, pm_watch_epoch s.1 ≤ pm_watch_epoch (meanwhile s).1.

Definition watch_ge (n : nat) (s : PM) : Prop := n ≤ pm_watch_epoch s.

Lemma watch_cancel_if ot s : pm_watch_epoch (cancel_if_pending ot s) = pm_watch_epoch s.
Proof. unfold cancel_if_pending, cancel_task. by repeat case_match. Qed.

Lemma watch_meanwhile n s : watch_ge n s.1 → watch_ge n (meanwhile s).1.
Proof. unfold watch_ge. pose proof (meanwhile_grows s). lia. Qed.

Lemma watch_modify n f :
  (∀ s, pm_watch_epoch s ≤ pm_watch_epoch (f s)) →
  preserves (W := W) (watch_ge n) (pm_modify f).
Proof.
  intros Hf. apply preserves_modify. unfold watch_ge. intros s. specialize (Hf s). lia.
Qed.

Hint Resolve watch_meanwhile : preserves.
Hint Extern 2 (preserves (watch_ge _) (pm_modify _)) =>
  apply watch_modify; intros ?; simpl; rewrite ?watch_cancel_if; lia : preserves.

Lemma watch_do_redistribute n me instances :
  preserves (watch_ge n) (_do_redistribute meanwhile me instances).
Proof.
  assert (preserves (watch_ge n) (redistribute_body meanwhile me instances)) as Hbody.
  { unfold redistribute_body. repeat (apply preserves_bind; [auto 10 with preserves|intros]).
    case_match; auto with preserves. }
  assert (preserves (watch_ge n) (_cleanup_orphan_assignments meanwhile me instances)) as Hclean.
  { unfold _cleanup_orphan_assignments. auto 10 with preserves. }
  assert (preserves (W := W) (watch_ge n) (redistribute_failed instances)) as Hfail.
  { unfold redistribute_failed. auto 10 with preserves. }
  intros s Hs. rewrite do_redistribute_eq. specialize (Hbody s Hs).
  destruct (redistribute_body meanwhile me instances s) as [s' [[]|[|e]]]; simpl in *; auto.
  apply Hclean. unfold redistributed, watch_ge. simpl. by rewrite watch_cancel_if.
Qed.

Hint Resolve watch_do_redistribute : preserves.

Lemma watch_apply_payload n p : preserves (watch_ge n) (apply_payload meanwhile p).
Proof.
  unfold apply_payload. apply preserves_bind; [auto with preserves|intros k].
  destruct (_apply_assignment p k) as [k' [procs|]]; auto 10 with preserves.
Qed.

Hint Resolve watch_apply_payload : preserves.

Lemma watch_assignment n data : preserves (watch_ge n) (_on_assignment_changed meanwhile data).
Proof. unfold _on_assignment_changed. auto with preserves. Qed.

Hint Resolve watch_assignment : preserves.

Lemma watch_reinit n : preserves (watch_ge n) (_reinit_after_loss meanwhile).
Proof.
  unfold _reinit_after_loss, _register_member, _register_watches, _refresh_assignment_from_zk.
  auto 20 with preserves.
Qed.

Hint Resolve watch_reinit : preserves.

Lemma watch_step n s s' : pm_step meanwhile s s' → watch_ge n s.1 → watch_ge n s'.1.
Proof.
  intros Hstep Hs. destruct Hstep as [ev s|]; [destruct ev as [| |epoch|epoch data|t|epoch| |state]|];
    simpl; try done.
  - assert (preserves (watch_ge n) (start meanwhile)) as Hp; [|by apply Hp].
    unfold start, _register_member, _register_watches, _refresh_assignment_from_zk.
    auto 20 with preserves.
  - unfold watch_ge, stop, finish_task, cancel_task, alter_task in *. simpl.
    by repeat case_match.
  - unfold members_cb, _handle_membership_change. case_bool_decide; [done|].
    case_match; [done|]. unfold watch_ge in *. simpl. by rewrite watch_cancel_if.
  - assert (preserves (watch_ge n) (assignment_cb meanwhile epoch data)) as Hp; [|by apply Hp].
    unfold assignment_cb. auto 10 with preserves.
  - unfold run_task. destruct (pm_tasks s.1 !! t) as [[k [] ?]|]; try done. simpl.
    destruct k as [|instances a]; unfold _debounced_redistribute, _retry_redistribute.
    + case_match; [done|]. case_match; [done|].
      assert (preserves (watch_ge n) (se_bind (await meanwhile (Some t) get_member_children)
        (_do_redistribute meanwhile (Some t)))) as Hp by auto with preserves.
      specialize (Hp s Hs). by destruct (se_bind _ _ s) as [s' [?|[|e]]].
    + case_match; [done|]. case_match; [done|]. by apply watch_do_redistribute.
  - assert (preserves (watch_ge n) (on_become_leader meanwhile)) as Hp; [|by apply Hp].
    unfold on_become_leader. auto with preserves.
  - assert (preserves (watch_ge n) (on_zk_state_change meanwhile state)) as Hp; [|by apply Hp].
    unfold on_zk_state_change. auto 20 with preserves.
Qed.
End WatchEpochs.

(** ** Properties *)
Section Properties.
Context {W : Type} `{!World W} (meanwhile : PM * W → PM * W).

(** C17: No silent stall inside [_do_redistribute], whatever happens while it waits:
    if its body raises, the attempt is counted and either a retry of the same
    instances is pending with it or the leader is flagged unhealthy; a cancellation
    goes through; after a success the retry state is clear and the held retry is
    not pending when the cleanup starts. *)
Theorem do_redistribute_no_silent_stall me instances s :
  let '(sb, rb) := redistribute_body meanwhile me instances s in
  let '(s', r) := _do_redistribute meanwhile me instances s in
  match rb with
  | Err (Raised _) =>
      let n := pm_redistribute_attempt s'.1 in
      r = Ok tt ∧ s'.2 = sb.2 ∧ n = (pm_redistribute_attempt sb.1 + 1)%Z ∧
      if decide (n < _REDISTRIBUTE_MAX_ATTEMPTS)%Z then
        ∃ t, pm_redistribute_retry_task s'.1 = Some t ∧
             pending (RetryRedistribute instances n) t s'.1
      else pm_redistribute_unhealthy s'.1 = true
  | Err Cancelled => r = Err Cancelled ∧ s' = sb
  | Ok _ =>
      ∃ s1, (s', r) = _cleanup_orphan_assignments meanwhile me instances (s1, sb.2) ∧
        pm_redistribute_attempt s1 = 0%Z ∧ pm_redistribute_unhealthy s1 = false ∧
        ∀ t k, pm_redistribute_retry_task s1 = Some t → ¬ pending k t s1
  end.
Proof.
  pose proof (do_redistribute_eq meanwhile me instances s) as E.
  destruct (redistribute_body meanwhile me instances s) as [sb rb].
  destruct (_do_redistribute meanwhile me instances s) as [s' r].
  destruct rb as [[]|[|e]]; [|by simplify_eq|].
  - destruct (redistributed_spec sb.1) as (? & ? & Er & _ & Hp).
    exists (redistributed sb.1). split_and!; try done. rewrite Er.
    intros t k Ht Hk. by apply Hp in Hk as [? _].
  - destruct (failed_spec instances sb) as (Hr & Hw & Ea & _ & Hf). rewrite <-E in *.
    simpl in *. rewrite Ea. split_and!; try done.
    case_decide; naive_solver.
Qed.

(** C19: In every reachable manager at most one debounce and one retry are pending,
    namely the ones it holds the handles of, and a pending retry has a backoff of
    at most 16 seconds -- if what happens while a handler waits keeps it so. *)
Theorem one_pending_task id s :
  (∀ s, one_pending s.1 → one_pending (meanwhile s).1) →
  pm_reachable meanwhile id s →
  (∀ t, pending DebouncedRedistribute t s.1 → pm_redistribution_task s.1 = Some t) ∧
  (∀ t instances a, pending (RetryRedistribute instances a) t s.1 →
    pm_redistribute_retry_task s.1 = Some t ∧ (2 ≤ retry_delay a ≤ 16)%Z).
Proof.
  intros Hm [w Hr].
  assert (one_pending s.1) as Hs.
  { remember (PM_init id, w) as s0 eqn:E0.
    assert (one_pending s0.1) as H0 by (subst; apply one_pending_init). clear E0.
    induction Hr; [done|]. eauto using one_pending_step. }
  split; [apply Hs|]. intros t is' a Hp. apply (one_retry _ Hs) in Hp as [? Ha].
  split; [done|]. unfold retry_delay, _REDISTRIBUTE_MAX_ATTEMPTS in *.
  assert (a = 1 ∨ a = 2 ∨ a = 3 ∨ a = 4)%Z as [->|[->|[->| ->]]] by lia; lia.
Qed.

(** C20: If the database stays down, a healthy leader retries four times, with
    backoffs of 2, 4, 8 and 16 seconds, and the fifth failure flags it unhealthy
    with nothing pending. *)
Theorem failing_leader_becomes_unhealthy instances s :
  database_down meanwhile →
  pm_is_leader s.1 = true → pm_redistribute_attempt s.1 = 0%Z →
  pm_redistribute_unhealthy s.1 = false →
  let s0 := (_do_redistribute meanwhile None instances s).1 in
  (∀ k, (k < 4)%nat →
    waiting instances (Z.of_nat k + 1) (Nat.iter k (retry_round meanwhile) s0).1 ∧
    retry_delay (Z.of_nat k + 1) = (2 * 2 ^ Z.of_nat k)%Z) ∧
  gave_up (Nat.iter 4 (retry_round meanwhile) s0).1.
Proof.
  intros Hd Hl Ha Hu s0. pose proof (waiting_first meanwhile Hd instances s Hl Ha Hu) as H0.
  split.
  - intros k Hk. split; [apply waiting_rounds; [done|done|lia]|].
    unfold retry_delay. destruct k as [|[|[|[|k]]]]; [reflexivity..|lia].
  - pose proof (waiting_rounds meanwhile Hd instances 3 s0 H0 ltac:(lia)) as H3.
    by apply (waiting_round meanwhile Hd) in H3.
Qed.

(** C18: When a redistribution commits and nobody interferes, whoever runs it ([me]: nobody's
    task, a debounce or a retry), every instance's node holds exactly its share of the
    processes Mongo listed, all with the leader's epoch and one timestamp, and the retry
    state is clear.  If the cleanup's calls succeed no other assignment node is left --
    unless the task is the pending retry itself: that one cancels itself, no orphan is
    deleted, and the other nodes stay as they were. *)
Theorem redistribute_writes_assignments nodes `{!ZkLaws W nodes} me instances s :
  undisturbed meanwhile nodes → NoDup instances →
  (redistribute_body meanwhile me instances s).2 = Ok tt →
  let '(s', r) := _do_redistribute meanwhile me instances s in
  pm_redistribute_attempt s'.1 = 0%Z ∧ pm_redistribute_unhealthy s'.1 = false ∧
  (∃ processes t, (get_distinct_processes s.2).2 = Ok processes ∧
    ∀ i procs, (i, procs) ∈ _compute_assignments instances processes →
      nodes s'.2 !! i = Some (assignment_data (mkAssignment procs (pm_leader_epoch s.1) t))) ∧
  if cancels_itself me s.1 then
    r = Err Cancelled ∧ ∀ i, i ∉ instances → nodes s'.2 !! i = nodes s.2 !! i
  else r = Ok tt ∧ (deletions_succeed → dom (nodes s'.2) = list_to_set instances).
Proof.
  intros Hun Hnd Hb. pose proof (body_uncancelled meanwhile nodes Hun me instances s Hb) as Hme.
  rewrite do_redistribute_eq.
  destruct (agree_body meanwhile nodes Hun me instances s Hme) as [Eq _]. rewrite Eq in Hb |- *.
  destruct (redistribute_body meanwhile None instances s) as [sb r] eqn:Eb.
  simpl in Hb. subst r.
  destruct (body_Ok meanwhile nodes Hun instances s sb Hnd Eb) as (procs & t & Hp & Em & Hn & Ho).
  destruct (redistributed_spec sb.1) as (Ha & Hu & _).
  pose proof (redistributed_cancels me s.1 Hme) as Hc. rewrite <-Em in Hc.
  assert (∀ i, i ∈ instances ↔ ∃ ps, (i, ps) ∈ _compute_assignments instances procs) as Hin.
  { intros i. trans (i ∈ (_compute_assignments instances procs).*1).
    - rewrite compute_assignments_keys by done. unfold sort_str. by rewrite sort_by_perm.
    - rewrite list_elem_of_fmap. split; [intros ([] & -> & ?); eauto|intros [ps ?]].
      by exists (i, ps). }
  rewrite <-Em. destruct (cancels_itself me sb.1) eqn:Ei.
  - rewrite cleanup_eq. unfold await. cbn [fst snd]. pose proof (children_nodes sb.2) as Hch.
    destruct (get_assignment_children sb.2) as [w r]. cbn [fst] in Hch.
    destruct (Hun (redistributed sb.1, w)) as [Hm Hw]. cbn [fst snd] in *.
    rewrite Hm, Hc. rewrite Hm, Hw, Hch. split_and!; [done..| |done|done].
    rewrite Em. eauto.
  - destruct (agree_cleanup meanwhile nodes Hun me instances (redistributed sb.1, sb.2) Hc) as [-> _].
    destruct (cleanup_spec meanwhile nodes Hun instances (redistributed sb.1, sb.2))
      as (Es & Er & Hlive & Hdead).
    destruct (_cleanup_orphan_assignments _ _ _ _) as [s' r]. cbn [fst snd] in *.
    rewrite Es. split_and!; [done..| |done|].
    + exists procs, t. split; [done|]. intros i ps Hi. rewrite Hlive; [rewrite Em; by apply Hn|].
      apply Hin. eauto.
    + intros Hd. apply set_eq. intros i. rewrite elem_of_dom, elem_of_list_to_set.
      destruct (decide (i ∈ instances)) as [Hi|Hi].
      * split; [done|]. intros _. rewrite Hlive by done. apply Hin in Hi as [ps Hi].
        rewrite (Hn _ _ Hi). eauto.
      * rewrite Hdead by done. split; [by intros [? ?]|done].
Qed.

(** When a pending retry commits its redistribution it cancels itself: the held
    retry it cancels is the task it runs in, so its first call after the commit
    raises [CancelledError] and no orphan assignment node is deleted.  (A mark
    stays while the task waits.) *)
Theorem retry_success_skips_cleanup t instances s sb :
  (∀ s, cancel_requested (Some t) s.1 = true →
        cancel_requested (Some t) (meanwhile s).1 = true) →
  redistribute_body meanwhile (Some t) instances s = (sb, Ok tt) →
  pm_redistribute_retry_task sb.1 = Some t → task_done t sb.1 = false →
  _do_redistribute meanwhile (Some t) instances s =
    (meanwhile (redistributed sb.1, (get_assignment_children sb.2).1), Err Cancelled).
Proof.
  intros Hm Hb Ht Hd. rewrite do_redistribute_eq, Hb, cleanup_eq. unfold await at 1. cbn [fst snd].
  destruct (get_assignment_children sb.2) as [w r]. cbn [fst snd].
  rewrite Hm; [done|]. unfold redistributed, cancel_if_pending, cancel_task, cancel_requested.
  simpl. rewrite Ht. unfold task_done in *. simpl.
  destruct (pm_tasks sb.1 !! t) as [tk|] eqn:E; [|done]. rewrite Hd. simpl.
  by rewrite list_lookup_alter, decide_True, E.
Qed.

(** If listing the members fails, a new leader (and a debounced redistribution)
    stops there: no attempt is counted, no retry is scheduled, and nothing is
    flagged unhealthy. *)
Theorem member_listing_failure_stalls e s :
  (∀ s, (meanwhile s).1 = s.1) → (get_member_children s.2).2 = Err e →
  (on_become_leader meanwhile s).2 = Err (Raised e) ∧
  (on_become_leader meanwhile s).1.1 = s.1 ∧
  ∀ t, pending DebouncedRedistribute t s.1 →
    (run_task meanwhile t s).1 = finish_task t s.1.
Proof.
  intros Hm He. unfold on_become_leader, se_bind, await. cbn [cancel_requested].
  destruct (get_member_children s.2) as [w r] eqn:E. simpl in He. subst r.
  pose proof (Hm (s.1, w)) as Hw. cbn [fst snd] in *.
  split; [done|]. split; [done|]. intros t Hp. unfold pending in Hp.
  unfold run_task. rewrite Hp. cbn [fst snd]. f_equal.
  unfold _debounced_redistribute, se_bind, await. rewrite E. cbn [fst snd].
  unfold cancel_requested. rewrite Hw, Hp. rewrite ?Hw, ?Hp. simpl. destruct (pm_is_leader s.1); simpl; auto.
Qed.

(** C21: Once the watches are registered again, every callback registered before does
    nothing and asks to be removed, at any later moment. *)
Theorem stale_watch_noop s s' epoch data :
  (∀ s, pm_watch_epoch s.1 ≤ pm_watch_epoch (meanwhile s).1) →
  epoch ≤ pm_watch_epoch s.1 →
  rtc (pm_step meanwhile) (_register_watches s).1 s' →
  members_cb epoch s'.1 = (s'.1, false) ∧ assignment_cb meanwhile epoch data s' = (s', Ok false).
Proof.
  intros Hm He Hr.
  assert (watch_ge (S epoch) s'.1) as Hs'.
  { assert (watch_ge (S epoch) (_register_watches s).1.1) as H0
      by (unfold watch_ge, _register_watches, pm_modify; simpl; lia).
    induction Hr; [done|]. eauto using watch_step. }
  unfold watch_ge in Hs'. unfold members_cb, assignment_cb, se_bind, pm_gets.
  rewrite !bool_decide_eq_true_2 by lia. done.
Qed.

(** Losing the session forgets the known epoch, so the member then accepts
    whatever stamped assignment of a positive epoch it finds, even one older than
    what it had (until another one comes in); and the jobs are paused. *)
Theorem lost_session_forgets s a :
  (1 ≤ a_leader_epoch a)%Z → writable a →
  let '(s', r) := on_zk_state_change meanwhile LOST s in
  pm_session_lost s'.1 = true ∧ _assigned_processes (pm_known s'.1) = [] ∧
  s'.2 = (if has_scheduler s.2 then (scheduler_call pause_all_jobs s.2).1 else s.2) ∧
  pm_known (_on_assignment_changed id (Some (assignment_data a)) s').1.1 = to_known a.
Proof.
  intros Ha Hw. unfold on_zk_state_change, se_bind, world_gets, pm_modify, call_scheduler. simpl.
  assert (∀ s : PM * W, pm_known s.1 = Known_init →
    pm_known (_on_assignment_changed id (Some (assignment_data a)) s).1.1 = to_known a) as Hk.
  { clear s. intros s Hs. rewrite on_assignment_text by done.
    unfold apply_payload, se_bind, pm_gets, pm_modify. simpl. rewrite Hs.
    rewrite apply_to_payload. unfold newer. simpl.
    rewrite bool_decide_eq_false_2, bool_decide_eq_false_2 by lia. simpl.
    unfold world_gets, call_scheduler. destruct (has_scheduler _); [|done].
    unfold await. simpl. by destruct (scheduler_call _ _). }
  destruct (has_scheduler s.2); simpl.
  - unfold at_once. simpl. destruct (scheduler_call _ _) as [w r]. simpl.
    split_and!; [done..|]. by apply Hk.
  - split_and!; [done..|]. by apply Hk.
Qed.

(** If the member node cannot be created after a loss (for another reason than
    that it exists), the rest of the reinitialisation is skipped -- no watch is
    registered and the election is not restarted -- and still the loss is marked
    as handled, so nothing tries again. *)
Theorem reinit_failure_is_final s e :
  pm_session_lost s.1 = true →
  (create_member (pm_instance_id s.1) s.2).2 = Err e → e ≠ NodeExistsError →
  let s1 := meanwhile (s.1, (create_member (pm_instance_id s.1) s.2).1) in
  (on_zk_state_change meanwhile CONNECTED s).1 =
    (set_session_lost false s1.1,
     if has_scheduler s.2
     then (scheduler_call (resume_jobs_for (_assigned_processes (pm_known s1.1))) s1.2).1
     else s1.2).
Proof.
  intros Hl He Hne. unfold on_zk_state_change, _reinit_after_loss, _register_member.
  unfold se_bind, try_except, world_gets, pm_gets, pm_modify, call_scheduler. simpl. rewrite Hl.
  rewrite await_None. destruct (create_member _ _) as [w r]. simpl in *. subst r.
  destruct e; [| |]; try done; destruct (has_scheduler s.2); try done;
    unfold at_once; simpl; by destruct (scheduler_call _ _).
Qed.
End Properties.

(** ** A world in memory *)
Record Mem := mkMem {
  mem_processes : res CallError (list string);
  mem_time : num;
  mem_nodes : gmap string string;
  mem_members : res CallError (list string);
  mem_create : res CallError unit;
  mem_scheduler : bool;
  mem_calls : list SchedulerCall;
}.

Definition mem_set_nodes (m : gmap string string) (w : Mem) : Mem :=
  mkMem (mem_processes w) (mem_time w) m (mem_members w) (mem_create w)
    (mem_scheduler w) (mem_calls w).

#[export] Instance mem_world : World Mem := {
  ensure_parent_paths w := (w, Ok tt);
  get_distinct_processes w := (w, mem_processes w);
  time_time := mem_time;
  ensure_assignment_path i w :=
    (match mem_nodes w !! i with
     | Some _ => w
     | None => mem_set_nodes (<[i := EmptyString]> (mem_nodes w)) w
     end, Ok tt);
  commit_set_data ops w :=
    if decide (Forall (λ kv, is_Some (mem_nodes w !! kv.1)) ops) then
      (mem_set_nodes (foldl (λ m kv, <[kv.1 := kv.2]> m) (mem_nodes w) ops) w,
       Ok ((λ _, None) <$> ops))
    else (w, Ok ((λ _, Some NoNodeError) <$> ops));
  get_assignment_children w := (w, Ok (elements (dom (mem_nodes w))));
  delete_assignment i w := (mem_set_nodes (delete i (mem_nodes w)) w, Ok tt);
  get_assignment i w :=
    (w, match mem_nodes w !! i with Some d => Ok (Some d) | None => Err NoNodeError end);
  get_member_children w := (w, mem_members w);
  create_member i w := (w, mem_create w);
  restart_after_loss w := (w, Ok tt);
  has_scheduler := mem_scheduler;
  scheduler_call c w :=
    (mkMem (mem_processes w) (mem_time w) (mem_nodes w) (mem_members w) (mem_create w)
       (mem_scheduler w) (mem_calls w ++ [c]), Ok tt);
}.

#[export] Instance mem_laws : ZkLaws Mem mem_nodes.
Proof.
  split; simpl; try done.
  - intros ops w results. case_decide as Hd; [done|]. intros [= <-] Hf. exfalso. apply Hd.
    destruct ops as [|o ops]; [constructor|]. by inversion Hf.
  - intros i j w Hij. case_match; [done|]. by apply lookup_insert_ne.
  - intros w l [= <-]. by apply leibniz_equiv, list_to_set_elements.
  - intros i w. by right.
Qed.

Definition ex_zk (processes : res CallError (list string)) : Mem :=
  mkMem processes (num_of_Z 100) {["gone" := EmptyString]} (Ok ["b"; "a"]) (Ok tt) true [].
Definition ex_leader : PM := set_leader true 3 (PM_init "a").
Definition idle {W} (s : PM * W) : PM * W := s.

(** A leader whose first redistribution failed, and whose database is back. *)
Definition ex_recovering : PM * Mem :=
  ((_do_redistribute idle None ["b"; "a"] (ex_leader, ex_zk (Err OtherError))).1.1,
   ex_zk (Ok ["p2"; "p1"; "p3"])).

Lemma one_pending_task_witness :
  let s := (on_become_leader idle (ex_leader, ex_zk (Err OtherError))).1 in
  pending (RetryRedistribute ["b"; "a"] 1) 0 s.1 ∧
  pm_redistribute_retry_task s.1 = Some 0 ∧ (2 ≤ retry_delay 1 ≤ 16)%Z.
Proof.
  intros s. assert (pending (RetryRedistribute ["b"; "a"] 1) 0 s.1) as Hp by reflexivity.
  split; [exact Hp|]. eapply (proj2 (one_pending_task idle "a" s (λ _ h, h) _)), Hp.
  Unshelve. exists (ex_zk (Err OtherError)). apply rtc_once.
  exact (step_event idle (EvLeader 3) (PM_init "a", ex_zk (Err OtherError))).
Defined.

Definition ex_down_world : World Mem := {|
  ensure_parent_paths w := (w, Ok tt);
  get_distinct_processes w := (w, Err OtherError);
  time_time := mem_time;
  ensure_assignment_path i w := (w, Ok tt);
  commit_set_data ops w := (w, Ok []);
  get_assignment_children w := (w, Ok []);
  delete_assignment i w := (w, Ok tt);
  get_assignment i w := (w, Ok None);
  get_member_children w := (w, mem_members w);
  create_member i w := (w, Ok tt);
  restart_after_loss w := (w, Ok tt);
  has_scheduler := mem_scheduler;
  scheduler_call c w := (w, Ok tt) |}.

Lemma failing_leader_becomes_unhealthy_witness :
  gave_up (Nat.iter 4 (retry_round (World0 := ex_down_world) idle)
    (_do_redistribute (World0 := ex_down_world) idle None ["b"; "a"]
      (ex_leader, ex_zk (Ok []))).1).1.
Proof.
  apply (failing_leader_becomes_unhealthy (World0 := ex_down_world) idle); try done.
  split; [|done]. intros w. by exists OtherError.
Defined.

(** Out of a task the orphan is deleted; by the retry it is not. *)
Lemma redistribute_writes_assignments_witness :
  (let s' := (_do_redistribute idle None ["b"; "a"] ex_recovering).1 in
   pm_redistribute_attempt s'.1 = 0%Z ∧ dom (mem_nodes s'.2) = list_to_set ["b"; "a"]) ∧
  (let s' := (_do_redistribute idle (Some 0) ["b"; "a"] ex_recovering).1 in
   pm_redistribute_attempt s'.1 = 0%Z ∧ mem_nodes s'.2 !! "gone" = Some "").
Proof.
  assert (undisturbed idle mem_nodes) as Hun by done.
  assert (NoDup ["b"; "a"]) as Hnd by (apply (bool_decide_unpack _); vm_compute; done).
  split.
  - assert ((redistribute_body idle None ["b"; "a"] ex_recovering).2 = Ok tt) as Hb
      by (vm_compute; reflexivity).
    pose proof (redistribute_writes_assignments idle mem_nodes None ["b"; "a"] ex_recovering
      Hun Hnd Hb) as Hx.
    destruct (_do_redistribute _ _ _ _) as [s' r]. destruct Hx as (Ha & _ & _ & _ & Hd).
    split; [exact Ha|]. apply Hd. by split.
  - assert ((redistribute_body idle (Some 0) ["b"; "a"] ex_recovering).2 = Ok tt) as Hb
      by (vm_compute; reflexivity).
    pose proof (redistribute_writes_assignments idle mem_nodes (Some 0) ["b"; "a"] ex_recovering
      Hun Hnd Hb) as Hx.
    assert (cancels_itself (Some 0) ex_recovering.1 = true) as Hc by (vm_compute; reflexivity).
    rewrite Hc in Hx. destruct (_do_redistribute _ _ _ _) as [s' r].
    destruct Hx as (Ha & _ & _ & _ & Ho). split; [exact Ha|]. simpl. rewrite Ho; [reflexivity|].
    by apply (bool_decide_unpack _); vm_compute.
Defined.

Example ex_written :
  let s' := (_do_redistribute idle None ["b"; "a"] ex_recovering).1 in
  map_to_list (mem_nodes s'.2) =
    [("a", assignment_data (mkAssignment ["p1"; "p3"] 3 (num_of_Z 100)));
     ("b", assignment_data (mkAssignment ["p2"] 3 (num_of_Z 100)))].
Proof. vm_compute. reflexivity. Qed.

Lemma retry_success_skips_cleanup_witness :
  let sb := (redistribute_body idle (Some 0) ["b"; "a"] ex_recovering).1 in
  _do_redistribute idle (Some 0) ["b"; "a"] ex_recovering =
    ((redistributed sb.1, sb.2), Err Cancelled) ∧
  is_Some (mem_nodes sb.2 !! "gone").
Proof.
  intros sb. split; [|vm_compute; eauto].
  assert (redistribute_body idle (Some 0) ["b"; "a"] ex_recovering = (sb, Ok tt)) as Hb
    by (vm_compute; reflexivity).
  assert (pm_redistribute_retry_task sb.1 = Some 0) as Ht by (vm_compute; reflexivity).
  assert (task_done 0 sb.1 = false) as Hd by (vm_compute; reflexivity).
  exact (retry_success_skips_cleanup idle 0 _ _ sb (λ _ h, h) Hb Ht Hd).
Defined.

Lemma member_listing_failure_stalls_witness :
  let w := mkMem (Ok []) (num_of_Z 0) ∅ (Err OtherError) (Ok tt) true [] in
  on_become_leader idle (ex_leader, w) = ((ex_leader, w), Err (Raised OtherError)).
Proof.
  intros w. assert ((get_member_children w).2 = Err OtherError) as He by reflexivity.
  destruct (member_listing_failure_stalls idle OtherError (ex_leader, w)
    (λ _, eq_refl) He) as (Hr & Hm & _).
  rewrite (surjective_pairing (on_become_leader idle (ex_leader, w))), Hr.
  by rewrite (surjective_pairing (on_become_leader idle (ex_leader, w)).1), Hm.
Defined.

Lemma stale_watch_noop_witness :
  let s := (ex_leader, ex_zk (Ok [])) in
  members_cb 0 ((_register_watches s).1).1 = (((_register_watches s).1).1, false).
Proof.
  intros s. apply (stale_watch_noop idle s (_register_watches s).1 0 None); [|simpl; lia|].
  - intros ?. apply Nat.le_refl.
  - apply rtc_refl.
Defined.

Lemma lost_session_forgets_witness :
  let s := (set_known (mkKnown 9 (num_of_Z 50) ["p"]) ex_leader, ex_zk (Ok [])) in
  let a := mkAssignment ["q"] 2 (num_of_Z 7) in
  pm_known (_on_assignment_changed id (Some (assignment_data a))
    (on_zk_state_change idle LOST s).1).1.1 = to_known a.
Proof.
  intros s a. assert (writable a) as Hw.
  { split; [repeat constructor; apply (bool_decide_unpack _); vm_compute; done|].
    exists 7%Z, 0%Z. split; [reflexivity|split; [lia|reflexivity]]. }
  pose proof (lost_session_forgets idle s a ltac:(simpl; lia) Hw) as Hx.
  destruct (on_zk_state_change idle LOST s) as [s' r]. apply Hx.
Defined.

Lemma reinit_failure_is_final_witness :
  let w := mkMem (Ok []) (num_of_Z 0) ∅ (Ok []) (Err OtherError) false [] in
  let s := (set_session_lost true ex_leader, w) in
  (on_zk_state_change idle CONNECTED s).1 = (set_session_lost false s.1, w).
Proof.
  intros w s. assert ((create_member (pm_instance_id s.1) s.2).2 = Err OtherError) as He
    by reflexivity.
  exact (reinit_failure_is_final idle s OtherError eq_refl He ltac:(discriminate)).
Defined.
