(* ===== verification/Cluster.v ===== *)
(** * The cluster: who analyses which process, across the pods
    ([src/distributed/partition_manager.py] of every pod, over one ZooKeeper)

    A cluster is a map from instance ids to managers ([PM]) and the world they share.  The
    ghost observer [written] is the sequence of the transactions ever committed; what a
    manager does is its event handler, and while a call is awaited anything happens to it and
    to the world that keeps the invariant (the rely, which is the guarantee of every
    handler): transactions are only ever appended, and each is a redistribution. *)
From stdpp Require Import base list strings sets gmap.
From Stdlib Require Import ZArith Lia.
From S2P Require Import Prelude PyNum PyStr PyFloat Json JsonText Assignments PartitionManager.
Local Open Scope se_scope.

(** ** The history of the assignment nodes *)
Notation Transaction := (list (string * string)).

(** What a leader deals, when, and among whom. *)
Record Redistribution := mkRedistribution
  { rd_instances : list string; rd_processes : list string; rd_epoch : Z; rd_at : num }.

Definition share_of (R : Redistribution) (i : string) : option Assignment :=
  (λ ps, mkAssignment ps (rd_epoch R) (rd_at R))
    <$> ODict.get i (_compute_assignments (rd_instances R) (rd_processes R)).

Definition ops_of (R : Redistribution) : Transaction :=
  (λ kv, (kv.1, assignment_data (mkAssignment kv.2 (rd_epoch R) (rd_at R))))
    <$> _compute_assignments (rd_instances R) (rd_processes R).

Record proper_redistribution (R : Redistribution) : Prop := {
  pr_instances : NoDup (rd_instances R);
  pr_processes : Forall is_utf8 (rd_processes R);
  pr_distinct : NoDup (rd_processes R);
  pr_at : is_double (rd_at R);
}.

(** ZooKeeper, seen through the transactions committed so far: a node holds no data or what
    one of them set it to, and only a commit adds one (a commit that raises may have).
    [also j k w]: what else holds of pod [j] when its manager knows [k]; only what the pod's
    own scheduler is told to load touches it. *)
Section History.
Context {W : Type} (written : W → list Transaction) (also : string → Known → W → Prop).

Definition quiet (w w' : W) : Prop :=
  written w' = written w ∧ ∀ j k, also j k w → also j k w'.

Class History {HW : World W} (id : string) := {
  h_commit ops w :
    (written (commit_set_data ops w).1 = written w
     ∨ written (commit_set_data ops w).1 = written w ++ [ops]) ∧
    ∀ j k, also j k w → also j k (commit_set_data ops w).1;
  h_get i w d : (get_assignment i w).2 = Ok (Some d) →
    d = "" ∨ ∃ ops, ops ∈ written w ∧ (i, d) ∈ ops;
  h_get_quiet i w : quiet w (get_assignment i w).1;
  h_paths w : quiet w (ensure_parent_paths w).1;
  h_processes w : quiet w (get_distinct_processes w).1;
  h_path i w : quiet w (ensure_assignment_path i w).1;
  h_children w : quiet w (get_assignment_children w).1;
  h_delete i w : quiet w (delete_assignment i w).1;
  h_members w : quiet w (get_member_children w).1;
  h_create i w : quiet w (create_member i w).1;
  h_restart w : quiet w (restart_after_loss w).1;
  h_pause w : quiet w (scheduler_call pause_all_jobs w).1;
  h_resume ps w : quiet w (scheduler_call (resume_jobs_for ps) w).1;
  (** a reload, whatever it returns *)
  h_reload ps w :
    written (scheduler_call (scheduler_reload ps) w).1 = written w ∧
    (∀ j k, j ≠ id → also j k w → also j k (scheduler_call (scheduler_reload ps) w).1) ∧
    ∀ k, _assigned_processes k = ps → also id k (scheduler_call (scheduler_reload ps) w).1;
  h_unscheduled k w : has_scheduler w = false → also id k w;
  h_init w : also id Known_init w;
  (** the names are distinct texts, the members are distinct, the clock gives doubles *)
  h_names w l : (get_distinct_processes w).2 = Ok l → Forall is_utf8 l ∧ NoDup l;
  h_distinct w l : (get_member_children w).2 = Ok l → NoDup l;
  h_time w : is_double (time_time w);
}.
End History.

(** ** What a share is *)
Lemma sort_str_elem x l : x ∈ sort_str l ↔ x ∈ l.
Proof. unfold sort_str. by rewrite sort_by_perm. Qed.

Lemma assignments_nodup R :
  proper_redistribution R → NoDup (_compute_assignments (rd_instances R) (rd_processes R)).*1.
Proof.
  intros []. rewrite compute_assignments_keys by done. by apply sort_str_NoDup.
Qed.

Lemma elem_of_ops R i d :
  proper_redistribution R →
  (i, d) ∈ ops_of R ↔ ∃ a, share_of R i = Some a ∧ d = assignment_data a.
Proof.
  intros HR. pose proof (assignments_nodup R HR) as Hnd. unfold ops_of, share_of.
  rewrite list_elem_of_fmap. split.
  - intros ([j ps] & [= -> ->] & Hin). eexists. split; [|done].
    by rewrite (ODict.elem_of_get _ _ _ Hnd Hin).
  - intros (a & (ps & Hg & ->)%fmap_Some & ->). exists (i, ps). split; [done|].
    by apply ODict.get_Some_elem_of.
Qed.

Lemma share_of_is_Some R i :
  proper_redistribution R → is_Some (share_of R i) ↔ i ∈ rd_instances R.
Proof.
  intros HR. unfold share_of. rewrite fmap_is_Some.
  rewrite <-(sort_str_elem i), <-(compute_assignments_keys _ (rd_processes R) (pr_instances R HR)).
  rewrite <-not_eq_None_Some, ODict.get_None. destruct (decide (i ∈
    (_compute_assignments (rd_instances R) (rd_processes R)).*1)); tauto.
Qed.

Lemma share_of_stamp R i a :
  share_of R i = Some a → a_leader_epoch a = rd_epoch R ∧ a_assigned_at a = rd_at R.
Proof. by intros (ps & _ & ->)%fmap_Some. Qed.

Lemma share_elem R i a p :
  proper_redistribution R → share_of R i = Some a → p ∈ a_processes a → p ∈ rd_processes R.
Proof.
  intros HR Ha Hp. assert (i ∈ rd_instances R) as Hi by (apply (share_of_is_Some R i HR); eauto).
  destruct (compute_assignments_partition (rd_instances R) (rd_processes R)) as (_ & Hperm & _).
  { apply HR. } { by intros E; rewrite E in Hi; apply not_elem_of_nil in Hi. }
  rewrite <-Hperm. unfold share_of in Ha. apply fmap_Some in Ha as (ps & Hg & ->).
  apply ODict.get_Some_elem_of in Hg. apply list_elem_of_join. exists ps. split; [done|].
  by apply (list_elem_of_fmap_2 snd _ (i, ps)).
Qed.

Lemma share_writable R i a : proper_redistribution R → share_of R i = Some a → writable a.
Proof.
  intros HR Ha. split.
  - apply Forall_forall. intros p Hp. pose proof (pr_processes R HR) as Hu.
    rewrite Forall_forall in Hu. apply Hu. by eapply share_elem.
  - destruct (share_of_stamp _ _ _ Ha) as [_ ->]. apply HR.
Qed.

(** ** The invariant of a manager, relative to the history *)
Definition history_proper (H : list Transaction) : Prop :=
  ∀ ops, ops ∈ H → ∃ R, proper_redistribution R ∧ ops = ops_of R.

(** A manager knows nothing, or its share of a redistribution that was committed. *)
Definition knows (H : list Transaction) (id : string) (k : Known) : Prop :=
  k = Known_init ∨
  ∃ R a, proper_redistribution R ∧ ops_of R ∈ H ∧ share_of R id = Some a ∧ k = to_known a.

Record local (H : list Transaction) (id : string) (s : PM) : Prop := {
  local_id : pm_instance_id s = id;
  local_known : knows H id (pm_known s);
  local_retry : ∀ t instances a d c,
    pm_tasks s !! t = Some (mkTask (RetryRedistribute instances a) d c) → NoDup instances;
}.

Lemma knows_mono H H' id k : (∀ ops, ops ∈ H → ops ∈ H') → knows H id k → knows H' id k.
Proof. intros Hs [->|(R & a & ? & ? & ? & ?)]; [by left|right; eauto 10]. Qed.

Lemma local_mono H H' id s : (∀ ops, ops ∈ H → ops ∈ H') → local H id s → local H' id s.
Proof. intros Hs []. split; [done| |done]. by eapply knows_mono. Qed.

(** What reading a node of the history gives. *)
Lemma read_share H i d :
  history_proper H → (∃ ops, ops ∈ H ∧ (i, d) ∈ ops) →
  ∃ R a, proper_redistribution R ∧ ops_of R ∈ H ∧ share_of R i = Some a ∧ d = assignment_data a.
Proof.
  intros HH (ops & Hops & Hd). destruct (HH _ Hops) as (R & HR & ->).
  apply elem_of_ops in Hd as (a & Ha & ->); [|done]. eauto 10.
Qed.

Section Keeps.
Context {W : Type} `{!World W} (written : W → list Transaction).
Context (also : string → Known → W → Prop) (id : string) `{!History written also id}.
Context (meanwhile : PM * W → PM * W).

Record inv (s : PM * W) : Prop := {
  inv_history : history_proper (written s.2);
  inv_local : local (written s.2) id s.1;
  inv_also : also id (pm_known s.1) s.2;
}.

(** The history grows, and the other pods are left alone. *)
Definition grows (s s' : PM * W) : Prop :=
  (∀ ops, ops ∈ written s.2 → ops ∈ written s'.2) ∧
  ∀ j k, j ≠ id → also j k s.2 → also j k s'.2.

(** The rely: it keeps the invariant and the history. *)
Hypothesis meanwhile_inv : ∀ s, inv s → inv (meanwhile s) ∧ grows s (meanwhile s).

(** The guarantee of a handler, with what it returns. *)
Definition keeps {A} (m : M (W := W) A) (Q : A → Prop) : Prop :=
  ∀ s, inv s → inv (m s).1 ∧ grows s (m s).1 ∧ ∀ a, (m s).2 = Ok a → Q a.

Lemma grows_refl s : grows s s.
Proof. done. Qed.

Lemma grows_trans s1 s2 s3 : grows s1 s2 → grows s2 s3 → grows s1 s3.
Proof. intros [] []. split; auto. Qed.

Lemma inv_quiet pm w w' : quiet written also w w' → inv (pm, w) → inv (pm, w') ∧ grows (pm, w) (pm, w').
Proof.
  intros [E Ha] [Hh Hl Hj]. cbn [fst snd] in *.
  split; [split; cbn [fst snd]; rewrite ?E; auto|split; cbn [fst snd]; rewrite ?E; auto].
Qed.

(** The manager alone moves. *)
Lemma inv_manager s pm :
  inv s → local (written s.2) id pm → pm_known pm = pm_known s.1 → inv (pm, s.2) ∧ grows s (pm, s.2).
Proof. intros [Hh Hl Hj] Hpm Ek. split; [split; simpl; by rewrite ?Ek|done]. Qed.

Lemma keeps_ret {A} (a : A) (Q : A → Prop) : Q a → keeps (se_ret a) Q.
Proof. intros HQ s Hs. split; [done|]. split; [apply grows_refl|]. by intros ? [= <-]. Qed.

Lemma keeps_raise {A} e (Q : A → Prop) : keeps (se_raise e) Q.
Proof. intros s Hs. split; [done|]. by split; [apply grows_refl|]. Qed.

Lemma keeps_weaken {A} (m : M A) (Q Q' : A → Prop) : keeps m Q → (∀ a, Q a → Q' a) → keeps m Q'.
Proof. intros Hm HQ s Hs. destruct (Hm s Hs) as (? & ? & ?). naive_solver. Qed.

Lemma keeps_guar_bind {A B} (m : M A) (k : A → M B) Q Q' :
  keeps m Q → (∀ a, Q a → keeps (k a) Q') → keeps (se_bind m k) Q'.
Proof.
  intros Hm Hk s Hs. unfold se_bind. destruct (Hm s Hs) as (Hi & Hg & Hq).
  destruct (m s) as [s' [a|e]]; simpl in *; [|done].
  destruct (Hk a (Hq a eq_refl) s' Hi) as (? & ? & ?). eauto using grows_trans.
Qed.

Lemma keeps_gets {A} (f : PM → A) : keeps (pm_gets f) (λ _, True).
Proof. intros s Hs. by split; [|split; [apply grows_refl|]]. Qed.

Lemma keeps_world_gets {A} (f : W → A) (Q : A → Prop) : (∀ w, Q (f w)) → keeps (world_gets f) Q.
Proof. intros HQ s Hs. split; [done|]. split; [apply grows_refl|]. by intros a [= <-]. Qed.

Lemma keeps_modify f :
  (∀ H s, local H id s → local H id (f s)) → (∀ s, pm_known (f s) = pm_known s) →
  keeps (pm_modify f) (λ _, True).
Proof.
  intros Hf Hk s [Hh Hl Hj]. split; [|done].
  split; simpl; [done|by apply Hf|by rewrite Hk].
Qed.

(** A call that leaves the history alone. *)
Lemma keeps_await me {A} (op : SE W CallError A) (Q : A → Prop) :
  (∀ w, quiet written also w (op w).1) → (∀ w a, (op w).2 = Ok a → Q a) →
  keeps (await meanwhile me op) Q.
Proof.
  intros Hw HQ [pm w] Hs. unfold await. cbn [fst snd]. specialize (Hw w). specialize (HQ w).
  destruct (op w) as [w' r]. cbn [fst snd] in *.
  destruct (inv_quiet pm w w' Hw Hs) as [Hi Hg]. destruct (meanwhile_inv _ Hi) as [Hi' Hg'].
  pose proof (grows_trans _ _ _ Hg Hg'). case_match; [done|]. split; [done|]. split; [done|].
  destruct r; [|done]. intros a' [= <-]. auto.
Qed.

Lemma keeps_at_once {A} (op : SE W CallError A) :
  (∀ w, quiet written also w (op w).1) → keeps (at_once op) (λ _, True).
Proof.
  intros Hw [pm w] Hs. unfold at_once. cbn [fst snd]. specialize (Hw w).
  destruct (op w) as [w' r]. cbn [fst snd] in *.
  destruct (inv_quiet pm w w' Hw Hs). done.
Qed.

Lemma keeps_try {A} (m : M A) h Q : keeps m Q → (∀ e, keeps (h e) Q) → keeps (try_except m h) Q.
Proof.
  intros Hm Hh s Hs. unfold try_except. destruct (Hm s Hs) as (Hi & Hg & Hq).
  destruct (m s) as [s' [a|[|e]]]; simpl in *; [done|done|].
  destruct (Hh e s' Hi) as (? & ? & ?). eauto using grows_trans.
Qed.

Lemma keeps_for_each {A} (f : A → M unit) l :
  (∀ x, keeps (f x) (λ _, True)) → keeps (for_each f l) (λ _, True).
Proof.
  intros Hf. induction l as [|x l IH]; [by apply keeps_ret|]. by eapply keeps_guar_bind.
Qed.

Lemma keeps_pause b : keeps (call_scheduler meanwhile b pause_all_jobs) (λ _, True).
Proof. destruct b; [apply keeps_at_once; intros w; by eapply h_pause|by apply keeps_ret]. Qed.

Lemma keeps_resume b ps : keeps (call_scheduler meanwhile b (resume_jobs_for ps)) (λ _, True).
Proof. destruct b; [apply keeps_at_once; intros w; by eapply h_resume|by apply keeps_ret]. Qed.

(** The commit: the history is extended by what was dealt. *)
Lemma keeps_commit me R :
  proper_redistribution R → keeps (await meanwhile me (commit_set_data (ops_of R))) (λ _, True).
Proof.
  intros HR [pm w] Hs. unfold await. cbn [fst snd].
  pose proof (h_commit written also (id := id) (ops_of R) w) as [Hc Ha].
  destruct (commit_set_data (ops_of R) w) as [w' r]. cbn [fst snd] in *.
  assert (inv (pm, w') ∧ grows (pm, w) (pm, w')) as [Hi Hg].
  { destruct Hc as [E|E]; [by apply inv_quiet|]. destruct Hs as [Hh Hl Hj]. cbn [fst snd] in *.
    assert (∀ ops, ops ∈ written w → ops ∈ written w') as Hsub
      by (intros ops Hops; rewrite E; apply elem_of_app; by left).
    split; [split; cbn [fst snd]|split; cbn [fst snd]; auto].
    - rewrite E. intros ops [Hops| ->%list_elem_of_singleton]%elem_of_app; [by apply Hh|eauto].
    - by eapply local_mono.
    - by apply Ha. }
  destruct (meanwhile_inv _ Hi) as [Hi' Hg']. pose proof (grows_trans _ _ _ Hg Hg').
  by case_match.
Qed.

(** *** The handlers *)
Notation quiet_keeps m := (keeps m (λ _, True)).

(** An update of the fields the invariant does not see, which creates no task but a debounce
    or a retry among distinct instances. *)
Lemma local_update H s s' :
  local H id s → pm_instance_id s' = pm_instance_id s → pm_known s' = pm_known s →
  (∀ t k d c, pm_tasks s' !! t = Some (mkTask k d c) →
    (∃ d' c', pm_tasks s !! t = Some (mkTask k d' c')) ∨
    match k with RetryRedistribute instances _ => NoDup instances | _ => True end) →
  local H id s'.
Proof.
  intros [Hi Hk Hr] Ei Ek Ht. split; [congruence|by rewrite Ek|].
  intros t instances a d c [(d' & c' & H')|H']%Ht; eauto.
Qed.

Lemma alter_task_kind f t' s t k d c :
  (∀ tk, t_kind (f tk) = t_kind tk) →
  pm_tasks (alter_task f t' s) !! t = Some (mkTask k d c) →
  ∃ d' c', pm_tasks s !! t = Some (mkTask k d' c').
Proof.
  intros Hf. unfold alter_task. simpl. destruct (decide (t = t')) as [<-|Hne].
  - rewrite list_lookup_alter, decide_True by done.
    destruct (pm_tasks s !! t) as [[k' d' c']|]; simpl; [|done]. intros [= E].
    pose proof (Hf (mkTask k' d' c')) as E'. rewrite E in E'. simpl in E'. subst k'. eauto.
  - rewrite list_lookup_alter_ne by done. eauto.
Qed.

Lemma local_alter H f t s :
  (∀ tk, t_kind (f tk) = t_kind tk) → local H id s → local H id (alter_task f t s).
Proof.
  intros Hf Hl. apply (local_update H s); [done..|]. intros t' k d c Ht. left.
  by eapply alter_task_kind.
Qed.

Lemma cancel_if_known ot s : pm_known (cancel_if_pending ot s) = pm_known s.
Proof. unfold cancel_if_pending, cancel_task. by repeat case_match. Qed.

Lemma local_cancel_if H ot s : local H id s → local H id (cancel_if_pending ot s).
Proof.
  intros Hl. unfold cancel_if_pending, cancel_task. repeat case_match; try done.
  by apply local_alter.
Qed.

Lemma local_finish H t s : local H id s → local H id (finish_task t s).
Proof. by apply local_alter. Qed.

Lemma local_create H k s :
  local H id s → match k with RetryRedistribute instances _ => NoDup instances | _ => True end →
  local H id (create_task k s).1.
Proof.
  intros Hl Hk. apply (local_update H s); [done..|]. simpl.
  intros t k' d c [[_ Ht]|[_ E]]%lookup_snoc_Some; [left; eauto|right].
  by simplify_eq.
Qed.

Lemma local_fields H s s' :
  pm_instance_id s' = pm_instance_id s → pm_known s' = pm_known s → pm_tasks s' = pm_tasks s →
  local H id s → local H id s'.
Proof. intros Ei Ek Et Hl. apply (local_update H s); [done..|]. rewrite Et. eauto. Qed.

Lemma quiet_fields f :
  (∀ s, pm_instance_id (f s) = pm_instance_id s ∧ pm_known (f s) = pm_known s ∧
        pm_tasks (f s) = pm_tasks s) → quiet_keeps (pm_modify f).
Proof.
  intros Hf. apply keeps_modify; [|intros s; apply Hf]. intros H s Hl.
  destruct (Hf s) as (? & ? & ?). by apply (local_fields H s).
Qed.

(** Sequences of calls that leave the history alone, and of updates of other fields. *)
Ltac keep_quiet :=
  match goal with
  | |- keeps (let _ := _ in _) _ => cbv zeta; keep_quiet
  | |- keeps (se_bind _ _) _ =>
      apply (keeps_guar_bind _ _ (λ _, True)); [keep_quiet|intros ? _; keep_quiet]
  | |- keeps (try_except _ _) _ => apply keeps_try; [keep_quiet|intros ?; keep_quiet]
  | |- keeps (for_each _ _) _ => apply keeps_for_each; intros ?; keep_quiet
  | |- keeps (se_ret _) _ => by apply keeps_ret
  | |- keeps (se_raise _) _ => apply keeps_raise
  | |- keeps (pm_gets _) _ => apply keeps_gets
  | |- keeps (world_gets _) _ => by apply keeps_world_gets
  | |- keeps (call_scheduler _ _ pause_all_jobs) _ => apply keeps_pause
  | |- keeps (call_scheduler _ _ (resume_jobs_for _)) _ => apply keeps_resume
  | |- keeps (await _ _ _) _ =>
      apply keeps_await;
      [intros ?; first [by eapply h_paths|by eapply h_processes|by eapply h_path
        |by eapply h_children|by eapply h_delete|by eapply h_members|by eapply h_create
        |by eapply h_restart|by eapply h_get_quiet]|try done]
  | |- keeps (pm_modify _) _ => apply quiet_fields; intros ?; done
  | |- keeps (match ?x with _ => _ end) _ => destruct x; keep_quiet
  | _ => idtac
  end.

Lemma keeps_cleanup me live : quiet_keeps (_cleanup_orphan_assignments meanwhile me live).
Proof. unfold _cleanup_orphan_assignments. keep_quiet. Qed.

Lemma keeps_body me instances :
  NoDup instances → quiet_keeps (redistribute_body meanwhile me instances).
Proof.
  intros Hnd. unfold redistribute_body.
  eapply (keeps_guar_bind _ _ (λ l, Forall is_utf8 l ∧ NoDup l)).
  { apply keeps_await; [intros w; by eapply h_processes|by eapply h_names]. }
  intros processes [Hu Hdist]. eapply keeps_guar_bind; [keep_quiet|intros _ _].
  eapply (keeps_guar_bind _ _ is_double); [apply keeps_world_gets; by eapply h_time|intros timestamp Ht].
  eapply keeps_guar_bind; [keep_quiet|intros epoch _]. cbn zeta.
  eapply keeps_guar_bind.
  { apply (keeps_commit me (mkRedistribution instances processes epoch timestamp)). by split. }
  intros results _. keep_quiet.
Qed.

Lemma keeps_failed instances : NoDup instances → quiet_keeps (redistribute_failed instances).
Proof.
  intros Hnd. unfold redistribute_failed. eapply (keeps_guar_bind _ _ (λ _, True)); [keep_quiet|].
  intros _ _. eapply (keeps_guar_bind _ _ (λ _, True)); [keep_quiet|]. intros attempt _.
  case_bool_decide; [|keep_quiet]. eapply (keeps_guar_bind _ _ (λ _, True)).
  - apply keeps_modify; [intros Hist s; apply local_cancel_if|intros s; apply cancel_if_known].
  - intros _ _. apply keeps_modify; [|done]. intros Hist s Hl.
    pose proof (local_create Hist (RetryRedistribute instances attempt) s Hl Hnd) as Hc.
    destruct (create_task _ s) as [s' t]. by apply (local_fields Hist s').
Qed.

Lemma keeps_do_redistribute me instances :
  NoDup instances → quiet_keeps (_do_redistribute meanwhile me instances).
Proof.
  intros Hnd s Hs. rewrite do_redistribute_eq.
  destruct (keeps_body me instances Hnd s Hs) as (Hi & Hg & _).
  destruct (redistribute_body meanwhile me instances s) as [s' [[]|[|e]]]; cbn [fst snd] in *;
    [|done|].
  - assert (inv (redistributed s'.1, s'.2)) as Hr.
    { destruct Hi as [Hh Hl Hj]. unfold redistributed. split; [done| |].
      - apply local_cancel_if. by apply (local_fields _ s'.1).
      - cbn [fst snd]. by rewrite cancel_if_known. }
    destruct (keeps_cleanup me instances _ Hr) as (? & ? & ?).
    split; [done|]. split; [|done]. eapply grows_trans; [exact Hg|done].
  - destruct (keeps_failed instances Hnd s' Hi) as (? & ? & ?).
    split; [done|]. split; [|done]. eapply grows_trans; [exact Hg|done].
Qed.

(** A payload that stands in a share of the history: until the reload has run, nothing else
    sees what the manager knows. *)
Lemma keeps_apply_share s R a :
  inv s → proper_redistribution R → ops_of R ∈ written s.2 → share_of R id = Some a →
  let s' := (apply_payload meanwhile (to_payload a) s).1 in inv s' ∧ grows s s'.
Proof.
  intros [Hh Hl Hj] HR Hops Ha. unfold apply_payload, se_bind, pm_gets, pm_modify. simpl.
  rewrite apply_to_payload. destruct (newer _ _ _); simpl.
  2: { split; [|done]. split; [done| |done]. by destruct Hl. }
  unfold world_gets, call_scheduler. simpl.
  assert (∀ w, written w = written s.2 → also id (to_known a) w → inv (set_known (to_known a) s.1, w))
    as Hinv.
  { intros w E Hj'. destruct Hl as [Hi Hk Hr]. split; simpl; rewrite ?E; [done| |done].
    split; [done| |done]. right. eauto 10. }
  destruct (has_scheduler s.2) eqn:Es; simpl.
  2: { split; [|done]. apply Hinv; [done|]. by eapply h_unscheduled. }
  pose proof (h_reload written also (id := id) (a_processes a) s.2) as (E & Hothers & Hown).
  unfold await. simpl. destruct (scheduler_call _ s.2) as [w r]. simpl in *.
  destruct (meanwhile_inv (set_known (to_known a) s.1, w)) as [Hi' Hg']; [by apply Hinv, Hown|].
  split; [done|]. eapply grows_trans; [|exact Hg']. split; simpl; [by rewrite E|done].
Qed.

Definition legit (H : list Transaction) (data : option string) : Prop :=
  match data with
  | Some d => d = "" ∨ ∃ ops, ops ∈ H ∧ (id, d) ∈ ops
  | None => True
  end.

Lemma keeps_on_assignment data s :
  inv s → legit (written s.2) data →
  inv (_on_assignment_changed meanwhile data s).1 ∧
  grows s (_on_assignment_changed meanwhile data s).1.
Proof.
  intros Hs Hd. destruct data as [d|]; [|by split; [|apply grows_refl]].
  destruct Hd as [->|Hd]; [by split; [|apply grows_refl]|].
  destruct (read_share _ id d (inv_history _ Hs) Hd) as (R & a & HR & Hops & Ha & ->).
  rewrite on_assignment_text by by eapply share_writable.
  by apply (keeps_apply_share s R a).
Qed.

Lemma keeps_refresh : quiet_keeps (_refresh_assignment_from_zk meanwhile).
Proof.
  apply keeps_try; [|intros; keep_quiet]. intros [pm w0] Hs. unfold se_bind, pm_gets, await.
  cbn [fst snd]. assert (pm_instance_id pm = id) as -> by apply (inv_local _ Hs).
  pose proof (h_get written also (id := id) id w0) as Hget. pose proof (h_get_quiet written also (id := id) id w0) as Hq.
  destruct (get_assignment id w0) as [w r]. cbn [fst snd] in *.
  destruct (inv_quiet pm w0 w Hq Hs) as [Hi Hg]. destruct (meanwhile_inv _ Hi) as [Hi' Hg'].
  pose proof (grows_trans _ _ _ Hg Hg') as Hg0.
  cbn [cancel_requested]. destruct r as [data|e]; [|done].
  destruct (keeps_on_assignment data (meanwhile (pm, w)) Hi') as [Hj Hk].
  - destruct data as [d|]; [|done]. destruct (Hget d eq_refl) as [->|(ops & Hops & Hin)]; [by left|].
    right. exists ops. split; [by apply Hg0|done].
  - destruct (_on_assignment_changed meanwhile data _) as [s' [[]|e]]; cbn [fst snd] in *;
      eauto using grows_trans.
Qed.

Lemma keeps_register_member : quiet_keeps (_register_member meanwhile).
Proof. unfold _register_member. keep_quiet. Qed.

Lemma keeps_watches : quiet_keeps _register_watches.
Proof. unfold _register_watches. keep_quiet. Qed.

Lemma keeps_start : quiet_keeps (start meanwhile).
Proof.
  unfold start. keep_quiet; [apply keeps_register_member|apply keeps_watches|apply keeps_refresh].
Qed.

Lemma keeps_reinit : quiet_keeps (_reinit_after_loss meanwhile).
Proof.
  unfold _reinit_after_loss.
  keep_quiet; [apply keeps_register_member|apply keeps_watches|apply keeps_refresh].
Qed.

Lemma keeps_zk state : quiet_keeps (on_zk_state_change meanwhile state).
Proof.
  unfold on_zk_state_change. keep_quiet; [|apply keeps_reinit].
  intros s [Hh [Hi Hk Hr] Hj]. split; [|done]. split; [done| |by eapply h_init].
  by split; [|left|].
Qed.

Lemma keeps_run_task t s :
  inv s → inv (run_task meanwhile t s) ∧ grows s (run_task meanwhile t s).
Proof.
  intros Hs. unfold run_task. pose proof (local_retry _ _ _ (inv_local _ Hs) t) as Hr.
  destruct (pm_tasks s.1 !! t) as [[k [] c]|]; try by split; [|apply grows_refl].
  assert (∀ s', inv s' ∧ grows s s' → inv (finish_task t s'.1, s'.2) ∧ grows s (finish_task t s'.1, s'.2))
    as Hfin by (intros s' [[Hh Hl Hj] Hg]; split; [split; [done|by apply local_finish|done]|exact Hg]).
  destruct k as [|instances a]; apply Hfin.
  - unfold _debounced_redistribute. case_match; [by split; [|apply grows_refl]|].
    case_match; [by split; [|apply grows_refl]|].
    assert (quiet_keeps (se_bind (await meanwhile (Some t) get_member_children)
      (_do_redistribute meanwhile (Some t)))) as Hk.
    { eapply (keeps_guar_bind _ _ (@NoDup string)).
      - apply keeps_await; [intros w; by eapply h_members|by eapply h_distinct].
      - intros l Hl. by apply keeps_do_redistribute. }
    destruct (Hk s Hs) as (Hi & Hg & _). by destruct (se_bind _ _ s) as [s' [?|[|e]]].
  - unfold _retry_redistribute. case_match; [by split; [|apply grows_refl]|].
    case_match; [by split; [|apply grows_refl]|].
    by destruct (keeps_do_redistribute (Some t) instances (Hr _ _ _ _ eq_refl) s Hs) as (? & ? & _).
Qed.

(** Every handler keeps the invariant and the history, if what an assignment watch delivers
    was written. *)
Lemma keeps_handle ev s :
  inv s → match ev with EvAssignment _ data => legit (written s.2) data | _ => True end →
  inv (handle meanwhile ev s) ∧ grows s (handle meanwhile ev s).
Proof.
  intros Hs Hev. pose proof (inv_local _ Hs) as Hl.
  destruct ev as [| |epoch|epoch data|t|epoch| |state]; simpl.
  - destruct (keeps_start s Hs) as (? & ? & _). done.
  - assert (∀ ot pm, local (written s.2) id pm ∧ pm_known pm = pm_known s.1 →
      let pm' := match ot with Some t => if task_done t pm then pm else finish_task t (cancel_task t pm)
       | None => pm end in local (written s.2) id pm' ∧ pm_known pm' = pm_known s.1) as Hstep.
    { intros [t|] pm [Hpm Ek]; [|done]. simpl. case_match; [done|].
      pose proof (local_cancel_if _ (Some t) pm Hpm) as Hc.
      pose proof (cancel_if_known (Some t) pm) as Ek'. unfold cancel_if_pending in *.
      rewrite H in *. split; [by apply local_finish|]. by rewrite <-Ek. }
    apply inv_manager; [done|apply Hstep, Hstep; done..].
  - unfold members_cb, _handle_membership_change.
    case_bool_decide; [apply inv_manager; done|]. case_match; [apply inv_manager; done|].
    simpl. apply inv_manager; [done| |apply cancel_if_known].
    pose proof (local_create _ DebouncedRedistribute _
      (local_cancel_if _ (pm_redistribution_task s.1) _ Hl) I) as Hc. simpl in Hc.
    eapply local_fields; [..|exact Hc]; done.
  - unfold assignment_cb, se_bind, pm_gets. simpl.
    case_bool_decide; [by split; [|apply grows_refl]|].
    destruct (keeps_on_assignment data s Hs Hev) as [? ?].
    by destruct (_on_assignment_changed meanwhile data s) as [s' [[]|e]].
  - by apply keeps_run_task.
  - destruct (inv_manager s (set_leader true epoch s.1) Hs) as [Hi Hg0];
      [by eapply local_fields, Hl|done|].
    assert (quiet_keeps (on_become_leader meanwhile)) as Hk.
    { unfold on_become_leader. eapply (keeps_guar_bind _ _ (@NoDup string)).
      - apply keeps_await; [intros w; by eapply h_members|by eapply h_distinct].
      - intros l Hd. by apply keeps_do_redistribute. }
    destruct (Hk _ Hi) as (? & Hg & _). split; [done|]. eapply grows_trans; [exact Hg0|exact Hg].
  - apply inv_manager; [done|by eapply local_fields, Hl|done].
  - by destruct (keeps_zk state s Hs) as (? & ? & _).
Qed.
End Keeps.

(** ** The cluster *)
Section Cluster.
Context {W : Type} (world : string → World W) (written : W → list Transaction).
Context (also : string → Known → W → Prop).
Context {Hist : ∀ id, History (HW := world id) written also id}.

Notation Cluster := (gmap string PM * W)%type.

(** What may happen to manager [id] and the world while one of its handlers awaits. *)
Definition rely (id : string) (meanwhile : PM * W → PM * W) : Prop :=
  ∀ s, inv written also id s →
    inv written also id (meanwhile s) ∧ grows written also id s (meanwhile s).

(** Pod [id] handles an event, calling out to what it sees of the world. *)
Definition pod_handle (id : string) (meanwhile : PM * W → PM * W) (ev : Event) : PM * W → PM * W :=
  handle (World0 := world id) meanwhile ev.

(** An event at one pod, a pod that joins (with a new manager) or leaves, and anything
    outside that leaves the assignment nodes alone and the pods what they are. *)
Inductive cluster_step : Cluster → Cluster → Prop :=
| cl_event id pm ev meanwhile pms w :
    pms !! id = Some pm → rely id meanwhile →
    match ev with EvAssignment _ data => legit id (written w) data | _ => True end →
    cluster_step (pms, w)
      (<[id := (pod_handle id meanwhile ev (pm, w)).1]> pms, (pod_handle id meanwhile ev (pm, w)).2)
| cl_join id pms w : pms !! id = None → cluster_step (pms, w) (<[id := PM_init id]> pms, w)
| cl_leave id pms w : cluster_step (pms, w) (delete id pms, w)
| cl_world pms w w' :
    written w' = written w →
    (∀ id pm, pms !! id = Some pm → also id (pm_known pm) w → also id (pm_known pm) w') →
    cluster_step (pms, w) (pms, w').

Definition cluster_reachable (c : Cluster) : Prop :=
  ∃ w, written w = [] ∧ rtc cluster_step (∅, w) c.

Record cluster_inv (c : Cluster) : Prop := {
  ci_history : history_proper (written c.2);
  ci_pod : ∀ id pm, c.1 !! id = Some pm →
    local (written c.2) id pm ∧ also id (pm_known pm) c.2;
}.

Lemma local_init H id : local H id (PM_init id).
Proof. split; [done|by left|done]. Qed.

Lemma cluster_inv_pod pms w id pm : cluster_inv (pms, w) → pms !! id = Some pm → inv written also id (pm, w).
Proof. intros [Hh Hp] Hpm. destruct (Hp id pm Hpm). done. Qed.

(** One pod and the world move, and leave the others alone. *)
Lemma cluster_inv_pod_step pms w id s' :
  cluster_inv (pms, w) → inv written also id s' →
  (∀ pm, grows written also id (pm, w) s') → cluster_inv (<[id := s'.1]> pms, s'.2).
Proof.
  intros [Hh Hp] [Hh' Hl' Hj'] Hg. split; cbn [fst snd] in *; [done|].
  intros j pmj. rewrite lookup_insert_Some. intros [[<- <-]|[Hne Hj]]; [done|].
  destruct (Hp j pmj Hj) as [Hlj Haj], (Hg pmj) as [Hg1 Hg2].
  split; [by eapply local_mono|by apply Hg2].
Qed.

Lemma cluster_inv_step c c' : cluster_step c c' → cluster_inv c → cluster_inv c'.
Proof.
  intros Hstep Hinv. destruct Hstep as [id pm ev mw pms w Hpm Hrely Hev|id pms w Hnone
    |id pms w|pms w w' E Ha].
  - pose proof (cluster_inv_pod _ _ _ _ Hinv Hpm) as Hi.
    destruct (keeps_handle (World0 := world id) written also id mw Hrely ev (pm, w) Hi Hev)
      as [Hi' Hg]. by apply (cluster_inv_pod_step pms w id).
  - apply (cluster_inv_pod_step pms w id (PM_init id, w)); [done| |done].
    split; [apply Hinv|apply local_init|]. by eapply (h_init written also (HW := world id)).
  - destruct Hinv as [Hh Hp]. split; [done|]. cbn [fst snd] in *.
    intros j pmj [_ Hj]%lookup_delete_Some. by apply Hp.
  - destruct Hinv as [Hh Hp]. cbn [fst snd] in *. split; cbn [fst snd]; rewrite E; [done|].
    intros j pmj Hj. destruct (Hp j pmj Hj). auto.
Qed.

Lemma cluster_reachable_inv c : cluster_reachable c → cluster_inv c.
Proof.
  intros (w & Hw & Hr). remember (∅, w) as c0 eqn:E0.
  assert (cluster_inv c0) as H0.
  { subst. split; cbn [fst snd]; [|by intros ? ?; rewrite lookup_empty].
    rewrite Hw. by intros ops ?%elem_of_nil. }
  clear E0. induction Hr; [done|]. eauto using cluster_inv_step.
Qed.

(** ** Shares *)

(** Two transactions with one stamp are one transaction: the epochs of two leaders differ
    ([LeaderElection.epochs_strictly_increase]), and one leader's clock does not show the
    same time twice. *)
Definition stamps_unique (H : list Transaction) : Prop :=
  ∀ R R', proper_redistribution R → proper_redistribution R' →
    ops_of R ∈ H → ops_of R' ∈ H → rd_epoch R = rd_epoch R' → rd_at R = rd_at R' →
    ops_of R = ops_of R'.

Lemma ops_share R R' i a :
  proper_redistribution R → proper_redistribution R' → ops_of R = ops_of R' →
  share_of R i = Some a → share_of R' i = Some a.
Proof.
  intros HR HR' E Ha. assert ((i, assignment_data a) ∈ ops_of R) as Hin
    by (apply elem_of_ops; eauto).
  rewrite E in Hin. apply elem_of_ops in Hin as (a' & Ha' & Ed); [|done]. rewrite Ha'. f_equal.
  destruct (assignment_text_decodes a (share_writable R i a HR Ha)) as (d & Hd & Hp).
  destruct (assignment_text_decodes a' (share_writable R' i a' HR' Ha')) as (d' & Hd' & Hp').
  rewrite <-Ed, Hd in Hd'. injection Hd' as <-. rewrite Hp in Hp'.
  destruct a, a'. unfold to_payload in Hp'. simpl in Hp'. congruence.
Qed.

Lemma shares_disjoint R i j a b p :
  proper_redistribution R → share_of R i = Some a → share_of R j = Some b →
  p ∈ a_processes a → p ∈ a_processes b → i = j.
Proof.
  intros HR Ha Hb Hpa Hpb. pose proof (assignments_nodup R HR) as Hnd.
  assert (i ∈ rd_instances R) as Hi by (apply (share_of_is_Some R i HR); eauto).
  destruct (compute_assignments_partition (rd_instances R) (rd_processes R)) as (_ & Hperm & _).
  { apply HR. } { by intros E; rewrite E in Hi; apply not_elem_of_nil in Hi. }
  unfold share_of in *. apply fmap_Some in Ha as (ps & Hps & ->), Hb as (qs & Hqs & ->).
  simpl in *. apply ODict.get_Some_elem_of in Hps, Hqs.
  pose proof (pr_distinct R HR) as Hd. rewrite <-Hperm in Hd. clear Hperm Hi.
  revert Hd Hps Hqs Hnd. induction (_compute_assignments _ _) as [|[k l] d IH];
    [by intros _ ?%elem_of_nil|].
  rewrite !fmap_cons. cbn [mjoin list_join fst snd]. rewrite NoDup_app.
  intros (Hl & Hdis & Hd). rewrite !elem_of_cons, NoDup_cons. intros Hps Hqs [Hk Hnd].
  assert (∀ i ps, (i, ps) ∈ d → p ∈ ps → p ∈ mjoin d.*2) as Hj.
  { intros i' ps' Hin Hp. apply list_elem_of_join. exists ps'. split; [done|].
    by apply (list_elem_of_fmap_2 snd _ (i', ps')). }
  destruct Hps as [[= -> ->]|Hps], Hqs as [[= -> ->]|Hqs]; [done|..|by apply IH].
  - by destruct (Hdis p Hpa); eapply Hj.
  - by destruct (Hdis p Hpb); eapply Hj.
Qed.

(** ** Delivering a redistribution *)
Definition owned (c : Cluster) (id : string) : list string :=
  match c.1 !! id with Some pm => _assigned_processes (pm_known pm) | None => [] end.

Definition undisturbed_await (s : PM * W) : PM * W := s.

(** The assignment watch of pod [id] fires with what [R] set its node to. *)
Definition deliver (R : Redistribution) (c : Cluster) (id : string) : Cluster :=
  match c.1 !! id with
  | Some pm =>
      let s := pod_handle id undisturbed_await
        (EvAssignment (pm_watch_epoch pm) (assignment_data <$> share_of R id)) (pm, c.2) in
      (<[id := s.1]> c.1, s.2)
  | None => c
  end.

Lemma deliver_pods R c i j : is_Some (c.1 !! j) → is_Some ((deliver R c i).1 !! j).
Proof.
  intros Hj. unfold deliver. destruct (c.1 !! i); [|done]. simpl.
  destruct (decide (i = j)) as [->|?]; [rewrite lookup_insert_eq; eauto|by rewrite lookup_insert_ne].
Qed.

(** Which is a step of the cluster. *)
Lemma deliver_step R c i :
  proper_redistribution R → ops_of R ∈ written c.2 → is_Some (c.1 !! i) →
  cluster_step c (deliver R c i).
Proof.
  intros HR Hops [pm Hpm]. unfold deliver. rewrite Hpm. destruct c as [pms w']. simpl in *.
  apply (cl_event i pm (EvAssignment _ _) undisturbed_await);
    [done|by intros s Hs; split; [|apply grows_refl]|].
  destruct (share_of R i) as [a|] eqn:E; [|done]. right. exists (ops_of R). split; [done|].
  apply elem_of_ops; eauto.
Qed.

Lemma deliver_reachable R c i :
  cluster_reachable c → proper_redistribution R → ops_of R ∈ written c.2 →
  is_Some (c.1 !! i) → cluster_reachable (deliver R c i).
Proof.
  intros (w & Hw & Hr) HR Hops Hi. exists w. split; [done|]. etransitivity; [exact Hr|].
  by apply rtc_once, deliver_step.
Qed.

(** [R] is not older than any other transaction. *)
Definition newest (H : list Transaction) (R : Redistribution) : Prop :=
  ∀ R', proper_redistribution R' → ops_of R' ∈ H →
    stamp_le (rd_epoch R') (rd_at R') (rd_epoch R) (rd_at R).

Lemma double_not_nan x : is_double x → x ≠ NaN.
Proof. intros (m & e & ->)%is_double_finite. done. Qed.

(** Pod [id] takes in its share: it is loaded, if it is newer than what the pod knows. *)
Lemma deliver_eq R c id pm a :
  proper_redistribution R → c.1 !! id = Some pm → share_of R id = Some a →
  let load := newer (a_leader_epoch a) (a_assigned_at a) (pm_known pm) in
  ∃ pm', deliver R c id =
    (<[id := pm']> c.1,
     if load && has_scheduler (World := world id) c.2
     then (scheduler_call (World := world id) (scheduler_reload (a_processes a)) c.2).1 else c.2) ∧
    pm_known pm' = if load then to_known a else pm_known pm.
Proof.
  intros HR Hpm Ha load. unfold deliver. rewrite Hpm, Ha. cbn [fmap option_fmap option_map].
  unfold pod_handle. simpl. unfold assignment_cb, se_bind, pm_gets. simpl.
  rewrite bool_decide_eq_false_2 by auto. rewrite on_assignment_text by by eapply share_writable.
  unfold apply_payload, se_bind, pm_gets, pm_modify, world_gets. simpl. rewrite apply_to_payload.
  fold load. destruct load; simpl; [|by eexists].
  unfold call_scheduler. destruct (has_scheduler _); simpl; [|by eexists].
  unfold await. simpl. destruct (scheduler_call _ _) as [w [[]|e]]; by eexists.
Qed.

(** Pod [i] knows its share of [R]. *)
Definition knows_share (R : Redistribution) (c : Cluster) (i : string) : Prop :=
  ∃ pm a, c.1 !! i = Some pm ∧ share_of R i = Some a ∧ pm_known pm = to_known a.

(** A pod that is given its share of the newest redistribution knows it afterwards. *)
Lemma deliver_one R c id :
  cluster_inv c → stamps_unique (written c.2) → proper_redistribution R →
  ops_of R ∈ written c.2 → newest (written c.2) R → (1 ≤ rd_epoch R)%Z →
  is_Some (c.1 !! id) → id ∈ rd_instances R →
  cluster_inv (deliver R c id) ∧ written (deliver R c id).2 = written c.2 ∧
  (∀ j, j ≠ id → (deliver R c id).1 !! j = c.1 !! j) ∧ knows_share R (deliver R c id) id.
Proof.
  intros Hinv Huniq HR Hops Hnew He [pm Hpm] [a Ha]%(share_of_is_Some R id HR).
  assert (cluster_inv (deliver R c id)) as Hinv'.
  { destruct c as [pms w]. eapply cluster_inv_step, Hinv. apply (deliver_step R (pms, w)); eauto. }
  pose proof (deliver_eq R c id pm a HR Hpm Ha) as (pm' & Ed & Ek). rewrite Ed in *.
  cbn [fst snd] in *. split; [done|]. split; [|split].
  - destruct (_ && _); [|done]. by eapply (h_reload written also (HW := world id)).
  - intros j Hj. by rewrite lookup_insert_ne.
  - exists pm', a. cbn [fst]. rewrite lookup_insert_eq, Ek. split; [done|]. split; [done|].
    destruct (share_of_stamp R id a Ha) as [Ee Et].
    destruct (newer _ _ _) eqn:En; [done|]. apply newer_false in En. rewrite Ee, Et in En.
    destruct (ci_pod _ Hinv id pm Hpm) as [Hl _].
    destruct (local_known _ _ _ Hl) as [Ek0|(R' & a' & HR' & Hops' & Ha' & Ek')].
    { rewrite Ek0 in En. unfold stamp_le in En. simpl in En. lia. }
    rewrite Ek' in *. simpl in En.
    destruct (share_of_stamp R' id a' Ha') as [Ee' Et']. rewrite Ee', Et' in En.
    destruct (Hnew R' HR' Hops') as [Hlt|[Heq Hle]], En as [Hlt'|[Heq' Hle']]; try lia.
    assert (rd_at R = rd_at R') as Eat by (apply double_eq; [apply HR|apply HR'|done..]).
    pose proof (Huniq R R' HR HR' Hops Hops' Heq' Eat) as Eo.
    rewrite (ops_share R R' id a HR HR' Eo Ha) in Ha'. by injection Ha' as ->.
Qed.

(** What a redistribution deals. *)
Definition dealt_to (R : Redistribution) (id : string) : list string :=
  match share_of R id with Some a => a_processes a | None => [] end.

Lemma knows_share_owned R c i : knows_share R c i → owned c i = dealt_to R i.
Proof. intros (pm & a & Hpm & Ha & Ek). unfold owned, dealt_to. by rewrite Hpm, Ha, Ek. Qed.

Lemma deliver_all R is' c :
  cluster_inv c → stamps_unique (written c.2) → proper_redistribution R →
  ops_of R ∈ written c.2 → newest (written c.2) R → (1 ≤ rd_epoch R)%Z →
  (∀ i, i ∈ is' → i ∈ rd_instances R ∧ is_Some (c.1 !! i)) → NoDup is' →
  cluster_inv (foldl (deliver R) c is') ∧
  (∀ i, i ∈ is' → knows_share R (foldl (deliver R) c is') i) ∧
  (∀ i, i ∉ is' → (foldl (deliver R) c is').1 !! i = c.1 !! i).
Proof.
  intros Hinv Huniq HR Hops Hnew He Hall Hnd. revert c Hinv Huniq Hops Hnew Hall.
  induction Hnd as [|j is' Hj Hnd IH]; intros c Hinv Huniq Hops Hnew Hall.
  { split; [done|]. split; [by intros i ?%elem_of_nil|done]. }
  destruct (Hall j) as [Hjr Hpm]; [left|].
  destruct (deliver_one R c j Hinv Huniq HR Hops Hnew He Hpm Hjr) as (Hinv' & Ew & Hother & Hk).
  cbn [foldl].
  destruct (IH (deliver R c j)) as (Hi & H1 & H2); [done|by rewrite Ew..| |].
  { intros k Hk'. destruct (Hall k) as [? ?]; [by right|]. split; [done|].
    rewrite Hother; [done|]. by intros ->. }
  split; [done|]. split.
  - intros i [->|Hi']%elem_of_cons; [|by apply H1].
    destruct Hk as (pm & a & Hpm' & Hk). exists pm, a. by rewrite H2.
  - intros i [Hij Hi']%not_elem_of_cons. rewrite H2 by done. by apply Hother.
Qed.

Lemma join_fmap_perm {A} (f : A → list string) l l' :
  l ≡ₚ l' → mjoin (f <$> l) ≡ₚ mjoin (f <$> l').
Proof.
  induction 1 as [|x l l' _ IH|x y l|l1 l2 l3 _ IH1 _ IH2]; csimpl; [done|by rewrite IH| |by etrans].
  rewrite !(assoc_L (++)). f_equiv. apply Permutation_app_comm.
Qed.

Lemma get_values (d : list (string * list string)) :
  NoDup d.*1 → (λ i, default [] (ODict.get i d)) <$> d.*1 = d.*2.
Proof.
  intros Hnd. rewrite <-list_fmap_compose. apply list_fmap_ext. intros n [i ps] Hn. simpl.
  rewrite (ODict.elem_of_get i ps); [done|done|]. by eapply list_elem_of_lookup_2.
Qed.

Lemma dealt_to_all R :
  proper_redistribution R → rd_instances R ≠ [] →
  mjoin (dealt_to R <$> rd_instances R) ≡ₚ rd_processes R.
Proof.
  intros HR Hne. destruct (compute_assignments_partition (rd_instances R) (rd_processes R))
    as (Hk & Hperm & _); [apply HR|done|].
  rewrite <-Hperm, <-get_values by by apply assignments_nodup.
  rewrite Hk, (join_fmap_perm _ (rd_instances R) (sort_str (rd_instances R)))
    by (symmetry; apply sort_by_perm).
  apply reflexive_eq. f_equal. apply list_fmap_ext. intros n i _. unfold dealt_to, share_of.
  by destruct (ODict.get i _).
Qed.

(** Every process is dealt, to one instance. *)
Lemma dealt_once R p :
  proper_redistribution R → rd_instances R ≠ [] → p ∈ rd_processes R →
  ∃ i, (i ∈ rd_instances R ∧ p ∈ dealt_to R i) ∧
    ∀ j, j ∈ rd_instances R → p ∈ dealt_to R j → j = i.
Proof.
  intros HR Hne. rewrite <-(dealt_to_all R HR Hne), list_elem_of_join.
  intros (l & Hp & (i & -> & Hi)%list_elem_of_fmap).
  exists i. split; [done|]. intros j Hj Hpj.
  unfold dealt_to in *. destruct (share_of R i) as [a|] eqn:Ea; [|by apply not_elem_of_nil in Hp].
  destruct (share_of R j) as [b|] eqn:Eb; [|by apply not_elem_of_nil in Hpj].
  symmetry. by eapply shares_disjoint.
Qed.

(** ** Properties *)

(** C6: No process has two owners.  In every reachable cluster -- pods that join, leave, lose
    their sessions, lead, retry, and receive assignments late or in any order -- a pod owns
    nothing it was not dealt, and two pods whose assignments carry the same stamp (the
    leader's epoch and time) own no process in common. *)
Theorem no_process_twice c :
  cluster_reachable c → stamps_unique (written c.2) →
  (∀ i pm, c.1 !! i = Some pm → pm_known pm = Known_init ∨
    ∃ R, proper_redistribution R ∧ ops_of R ∈ written c.2 ∧ i ∈ rd_instances R ∧
      owned c i = dealt_to R i) ∧
  ∀ i j pmi pmj p, i ≠ j → c.1 !! i = Some pmi → c.1 !! j = Some pmj →
    _known_epoch (pm_known pmi) = _known_epoch (pm_known pmj) →
    _known_assigned_at (pm_known pmi) = _known_assigned_at (pm_known pmj) →
    p ∈ owned c i → p ∉ owned c j.
Proof.
  intros [Hh Hl]%cluster_reachable_inv Huniq. unfold owned. split.
  - intros i pm Hpm. rewrite Hpm. destruct (local_known _ _ _ (proj1 (Hl i pm Hpm)))
      as [->|(R & a & HR & Hops & Ha & ->)]; [by left|right].
    exists R. split_and!; [done..| |].
    + apply (share_of_is_Some R i HR). eauto.
    + unfold dealt_to. by rewrite Ha.
  - intros i j pmi pmj p Hij Hi Hj He Ht. rewrite Hi, Hj.
    destruct (local_known _ _ _ (proj1 (Hl i pmi Hi))) as [->|(R & a & HR & Hops & Ha & Eki)];
      [by intros ?%elem_of_nil|].
    destruct (local_known _ _ _ (proj1 (Hl j pmj Hj))) as [->|(R' & a' & HR' & Hops' & Ha' & Ekj)];
      [by intros _ ?%elem_of_nil|].
    rewrite Eki, Ekj in *. simpl in *. intros Hp Hp'.
    destruct (share_of_stamp R i a Ha) as [E1 E2], (share_of_stamp R' j a' Ha') as [E3 E4].
    assert (ops_of R = ops_of R') as Eo by (apply Huniq; congruence).
    apply (ops_share R R' i a HR HR' Eo) in Ha. apply Hij.
    by eapply (shares_disjoint R').
Qed.

(** C5: The cluster converges.  From any reachable cluster, once every pod of the newest
    redistribution has been given what its node was set to (in any order, and whatever each
    knew before), every process of the plant is owned by exactly one of them, and no pod
    owns two processes more than another. *)
Theorem cluster_converges c R order :
  cluster_reachable c → stamps_unique (written c.2) → proper_redistribution R →
  ops_of R ∈ written c.2 → newest (written c.2) R → (1 ≤ rd_epoch R)%Z →
  rd_instances R ≠ [] → (∀ i, i ∈ rd_instances R → is_Some (c.1 !! i)) →
  order ≡ₚ rd_instances R →
  let c' := foldl (deliver R) c order in
  mjoin (owned c' <$> rd_instances R) ≡ₚ rd_processes R ∧
  (∀ p, p ∈ rd_processes R → ∃ i, (i ∈ rd_instances R ∧ p ∈ owned c' i) ∧
    ∀ j, j ∈ rd_instances R → p ∈ owned c' j → j = i) ∧
  (∀ i j, i ∈ rd_instances R → j ∈ rd_instances R →
    length (owned c' i) ≤ S (length (owned c' j))).
Proof.
  intros Hinv%cluster_reachable_inv Huniq HR Hops Hnew He Hne Hin Hperm c'.
  assert (∀ i, i ∈ rd_instances R → owned c' i = dealt_to R i) as Hown.
  { intros i Hi. apply knows_share_owned, (deliver_all R order c); try done.
    - intros k Hk. rewrite Hperm in Hk. auto.
    - rewrite Hperm. apply HR.
    - by rewrite Hperm. }
  assert (mjoin (owned c' <$> rd_instances R) ≡ₚ rd_processes R) as Hall.
  { rewrite <-(dealt_to_all R HR Hne). apply reflexive_eq. f_equal. apply list_fmap_ext.
    intros n i Hi. apply Hown. by eapply list_elem_of_lookup_2. }
  split; [done|]. split.
  - intros p Hp. destruct (dealt_once R p HR Hne Hp) as (i & [Hi Hpi] & Huni). exists i.
    split; [by rewrite Hown|]. intros j Hj. rewrite Hown by done. by apply Huni.
  - intros i j Hi Hj. rewrite !Hown by done. unfold dealt_to.
    destruct (proj2 (share_of_is_Some R i HR) Hi) as [a Ha].
    destruct (proj2 (share_of_is_Some R j HR) Hj) as [b Hb]. rewrite Ha, Hb.
    unfold share_of in *. apply fmap_Some in Ha as (ps & Hps & ->), Hb as (qs & Hqs & ->). simpl.
    eapply (compute_assignments_partition (rd_instances R) (rd_processes R));
      [apply HR|done|done|done].
Qed.


End Cluster.

(** ** Witness: two pods over a ZooKeeper that is its log *)
Definition value_in (w : list Transaction) (i : string) : string :=
  default "" (last (omap (ODict.get i) w)).

#[local] Instance log_world : World (list Transaction) := {
  ensure_parent_paths w := (w, Ok tt);
  get_distinct_processes w := (w, Ok ["PHOTO"; "식각"; "CMP"]);
  time_time _ := num_of_Z 100;
  ensure_assignment_path i w := (w, Ok tt);
  commit_set_data ops w := (w ++ [ops], Ok ((λ _, None) <$> ops));
  get_assignment_children w := (w, Ok []);
  delete_assignment i w := (w, Ok tt);
  get_assignment i w := (w, Ok (Some (value_in w i)));
  get_member_children w := (w, Ok ["b"; "a"]);
  create_member i w := (w, Ok tt);
  restart_after_loss w := (w, Ok tt);
  has_scheduler _ := false;
  scheduler_call c w := (w, Ok tt);
}.

Definition log_also (j : string) (k : Known) (w : list Transaction) : Prop := True.

#[local] Instance log_history i : History id log_also i.
Proof.
  split; try (intros; by split_and!); simpl; try done.
  - split; [by right|done].
  - intros j w d [= <-]. unfold value_in, id. destruct (last _) as [x|] eqn:E; [|by left].
    right. apply last_Some_elem_of, list_elem_of_omap in E as (ops & Hops & Hg).
    exists ops. split; [done|]. by apply ODict.get_Some_elem_of.
  - intros w l [= <-]. split; [|apply (bool_decide_unpack _); vm_compute; done].
    repeat constructor; apply (bool_decide_unpack _); vm_compute; done.
  - intros w l [= <-]. apply (bool_decide_unpack _); vm_compute; done.
  - intros _. exists 100%Z, 0%Z. split; [reflexivity|split; [lia|reflexivity]].
Qed.

Notation ex_world := (λ _ : string, log_world).
Notation ex_reachable := (cluster_reachable ex_world id log_also).
Notation ex_deliver := (deliver ex_world).

Definition ex_joined : gmap string PM := <["b" := PM_init "b"]> (<["a" := PM_init "a"]> ∅).
Definition ex_handled : PM * list Transaction := handle id (EvLeader 1) (PM_init "a", []).
Definition ex_cluster : gmap string PM * list Transaction :=
  (<["a" := ex_handled.1]> ex_joined, ex_handled.2).
Definition ex_R : Redistribution :=
  mkRedistribution ["b"; "a"] ["PHOTO"; "식각"; "CMP"] 1 (num_of_Z 100).

Lemma ex_cluster_reachable : ex_reachable ex_cluster.
Proof.
  exists []. split; [reflexivity|]. eapply rtc_l; [apply (cl_join _ _ _ "a"); reflexivity|].
  eapply rtc_l; [apply (cl_join _ _ _ "b"); reflexivity|]. apply rtc_once.
  apply (cl_event ex_world id log_also "a" (PM_init "a") (EvLeader 1) id); [reflexivity| |exact I].
  intros s Hs. split; [exact Hs|apply grows_refl].
Qed.

Lemma ex_R_proper : proper_redistribution ex_R.
Proof.
  split.
  - apply (bool_decide_unpack _); vm_compute; done.
  - repeat constructor; apply (bool_decide_unpack _); vm_compute; done.
  - apply (bool_decide_unpack _); vm_compute; done.
  - exists 100%Z, 0%Z. split; [reflexivity|split; [lia|reflexivity]].
Qed.

Lemma ex_cluster_written : ex_cluster.2 = [ops_of ex_R].
Proof. vm_compute. reflexivity. Qed.

Lemma ex_stamps : stamps_unique ex_cluster.2 ∧ newest ex_cluster.2 ex_R.
Proof.
  rewrite ex_cluster_written. split.
  - by intros R R' _ _ ->%list_elem_of_singleton ->%list_elem_of_singleton.
  - intros R' HR' E%list_elem_of_singleton.
    assert (is_Some (share_of ex_R "a")) as [a Ha] by (vm_compute; eauto).
    pose proof (ops_share ex_R R' "a" a ex_R_proper HR' (eq_sym E) Ha) as Ha'.
    destruct (share_of_stamp _ _ _ Ha) as [E1 E2], (share_of_stamp _ _ _ Ha') as [E3 E4].
    rewrite <-E1, <-E2, <-E3, <-E4. right. split; [reflexivity|].
    rewrite E2. reflexivity.
Qed.

Lemma cluster_converges_witness :
  let c' := foldl (ex_deliver ex_R) ex_cluster ["a"; "b"] in
  mjoin (owned c' <$> ["b"; "a"]) ≡ₚ ["PHOTO"; "식각"; "CMP"] ∧ owned c' "b" = ["PHOTO"].
Proof.
  intros c'. split; [|vm_compute; reflexivity].
  destruct (cluster_converges ex_world id log_also ex_cluster ex_R ["a"; "b"] ex_cluster_reachable
    (proj1 ex_stamps) ex_R_proper) as (Hall & _ & _); [..|exact Hall].
  - rewrite ex_cluster_written. left.
  - exact (proj2 ex_stamps).
  - reflexivity.
  - discriminate.
  - intros i Hi. repeat (apply elem_of_cons in Hi as [->|Hi]; [vm_compute; eauto|]).
    by apply not_elem_of_nil in Hi.
  - apply Permutation_swap.
Defined.

Lemma no_process_twice_witness :
  let c' := foldl (ex_deliver ex_R) ex_cluster ["a"; "b"] in
  owned c' "b" = ["PHOTO"] ∧ "PHOTO" ∉ owned c' "a".
Proof.
  intros c'. split; [vm_compute; reflexivity|].
  assert (ex_reachable c') as Hr.
  { apply deliver_reachable; [|exact ex_R_proper|vm_compute; left|vm_compute; eauto].
    apply deliver_reachable; [exact ex_cluster_reachable|exact ex_R_proper|vm_compute; left|].
    vm_compute; eauto. }
  assert (c'.2 = ex_cluster.2) as Hw by (vm_compute; reflexivity).
  destruct (no_process_twice ex_world id log_also c' Hr) as [_ Hd]; [rewrite Hw; exact (proj1 ex_stamps)|].
  eapply (Hd "b" "a" _ _ "PHOTO"); [discriminate|reflexivity|reflexivity|reflexivity|reflexivity|].
  vm_compute. left.
Defined.
