(* ===== verification/Fleet.v ===== *)
(** * The fleet: partition managers and schedulers over one database
    ([src/distributed/partition_manager.py], [src/scheduler/jobs.py],
    [src/db/repository.py])

    [Cluster] is verified against the class [World]; here the world of every pod is made of
    the other components: its scheduler with its job store and its resolve cache, the
    profile and equipment repositories over the shared database, and ZooKeeper.  A pod that
    takes in an assignment reloads its own scheduler, so who owns a process and who has its
    jobs are one question. *)
From stdpp Require Import base list strings sets gmap.
From Stdlib Require Import ZArith Lia.
From S2P Require Import Prelude PyNum PyStr PyFloat Json JsonText FactCatalog Models Cache Repository.
From S2P Require Import Scheduler Cadence Assignments PartitionManager Cluster.
Local Open Scope se_scope.

(** ** ZooKeeper and the clock *)
Class ZooKeeper (ZK : Type) := {
  zk_ensure_parent_paths : SE ZK CallError unit;
  zk_ensure_assignment_path : string → SE ZK CallError unit;
  zk_commit_set_data : list (string * string) → SE ZK CallError (list (option CallError));
  zk_get_assignment_children : SE ZK CallError (list string);
  zk_delete_assignment : string → SE ZK CallError unit;
  zk_get_assignment : string → SE ZK CallError (option string);
  zk_get_member_children : SE ZK CallError (list string);
  zk_create_member : string → SE ZK CallError unit;
  zk_restart_after_loss : SE ZK CallError unit;
  zk_time : ZK → num;
}.

Class ZooKeeperLog (ZK : Type) `{ZooKeeper ZK} (log : ZK → list Transaction) := {
  zk_commit_log ops z :
    log (zk_commit_set_data ops z).1 = log z ∨ log (zk_commit_set_data ops z).1 = log z ++ [ops];
  zk_get_log i z d : (zk_get_assignment i z).2 = Ok (Some d) →
    d = "" ∨ ∃ ops, ops ∈ log z ∧ (i, d) ∈ ops;
  zk_quiet_log z :
    log (zk_ensure_parent_paths z).1 = log z ∧ log (zk_get_assignment_children z).1 = log z ∧
    log (zk_get_member_children z).1 = log z ∧ log (zk_restart_after_loss z).1 = log z;
  zk_quiet_log_at i z :
    log (zk_ensure_assignment_path i z).1 = log z ∧ log (zk_delete_assignment i z).1 = log z ∧
    log (zk_get_assignment i z).1 = log z ∧ log (zk_create_member i z).1 = log z;
  zk_members_distinct z l : (zk_get_member_children z).2 = Ok l → NoDup l;
  zk_time_double z : is_double (zk_time z);
}.

(** ** Pods *)
Record Pod (A C : Type) := mkPod { pod_sched : Sched; pod_jobs : A; pod_cache : C }.
Arguments mkPod {_ _} _ _ _.
Arguments pod_sched {_ _} _.
Arguments pod_jobs {_ _} _.
Arguments pod_cache {_ _} _.

Record Fleet (A C ZK D : Type) := mkFleet
  { fl_zk : ZK; fl_db : D; fl_pods : gmap string (Pod A C) }.
Arguments mkFleet {_ _ _ _} _ _ _.
Arguments fl_zk {_ _ _ _} _.
Arguments fl_db {_ _ _ _} _.
Arguments fl_pods {_ _ _ _} _.

Section Fleet.
Context {A C ZK D : Type} `{!Backend A, !ZooKeeper ZK, !Collection D, !EqpCollection D}.
Context `{!TTLCache C MonitorProfile, !SetIter} (others : D → D) (settings : Settings).
#[local] Instance pod_backend : Backend (A * (D * C)) := repo_backend others.

Notation FL := (Fleet A C ZK D).
Notation St := (Sched * (A * (D * C)))%type.

(** What the scheduler of pod [i] works on. *)
Definition pod_state (i : string) (w : FL) : option St :=
  (λ p, (pod_sched p, (pod_jobs p, (fl_db w, pod_cache p)))) <$> fl_pods w !! i.

Definition put_pod (i : string) (s : St) (w : FL) : FL :=
  mkFleet (fl_zk w) s.2.2.1 (<[i := mkPod s.1 s.2.1 s.2.2.2]> (fl_pods w)).

(** A method of the scheduler of pod [i]. *)
Definition pod_run {X} (i : string) (m : SM (W := A * (D * C)) X) (w : FL)
  : option (FL * res SchedExn X) :=
  (λ s, let '(s', r) := m s in (put_pod i s' w, r)) <$> pod_state i w.

Definition scheduler_method (c : SchedulerCall) : SM (W := A * (D * C)) unit :=
  match c with
  | PartitionManager.pause_all_jobs => Scheduler.pause_all_jobs
  | PartitionManager.resume_jobs_for ps => Scheduler.resume_jobs_for ps
  | scheduler_reload ps => Scheduler.reload settings (Some ps)
  end.

Definition on_zk {X} (op : SE ZK CallError X) : SE FL CallError X := λ w,
  let '(z, r) := op (fl_zk w) in (mkFleet z (fl_db w) (fl_pods w), r).

(** The world as pod [i] sees it. *)
Definition fleet_world (i : string) : World FL := {|
  ensure_parent_paths := on_zk zk_ensure_parent_paths;
  PartitionManager.get_distinct_processes w :=
    let '(d, r) := Repository.get_distinct_processes (fl_db w) in
    (mkFleet (fl_zk w) d (fl_pods w),
     match r with Ok l => Ok l | Err _ => Err OtherError end);
  time_time w := zk_time (fl_zk w);
  ensure_assignment_path id := on_zk (zk_ensure_assignment_path id);
  commit_set_data ops := on_zk (zk_commit_set_data ops);
  get_assignment_children := on_zk zk_get_assignment_children;
  delete_assignment id := on_zk (zk_delete_assignment id);
  get_assignment id := on_zk (zk_get_assignment id);
  get_member_children := on_zk zk_get_member_children;
  create_member id := on_zk (zk_create_member id);
  restart_after_loss := on_zk zk_restart_after_loss;
  has_scheduler w := bool_decide (is_Some (fl_pods w !! i));
  scheduler_call c w :=
    match pod_run i (scheduler_method c) w with
    | None => (w, Ok tt)
    | Some (w', Ok _) => (w', Ok tt)
    | Some (w', Err _) => (w', Err OtherError)
    end;
|}.

(** The periodic reconcile of pod [i]; [None] when it raises. *)
Definition pod_reconcile (i : string) (w : FL) : option FL :=
  match pod_run i (reconcile settings) w with
  | Some (w', Ok _) => Some w'
  | _ => None
  end.

Fixpoint reconcile_all (is' : list string) (w : FL) : option FL :=
  match is' with
  | [] => Some w
  | i :: is' => w' ← pod_reconcile i w; reconcile_all is' w'
  end.

(** The scheduler of a pod owns what its manager knows, unless that is nothing yet (or
    nothing any more, after a session loss); a scheduler that owns nothing runs nothing. *)
Definition follows (i : string) (k : Known) (w : FL) : Prop :=
  match fl_pods w !! i with
  | None => True
  | Some p => k = Known_init ∨
      s_owned_processes (pod_sched p) = Some (_assigned_processes k) ∧
      (_assigned_processes k = [] → ap_jobs (pod_jobs p) = ∅)
  end.
(** ** The fleet keeps the history *)
Context `{!BackendLaws A} (log : ZK → list Transaction) `{!ZooKeeperLog ZK log}.
Context (eqps : D → list EqpInfo) `{!EqpCollectionLaws D eqps}.
#[local] Existing Instance repo_backend_laws.
Notation written := (λ w : FL, log (fl_zk w)).

Lemma put_pod_at i s w (k : Known) :
  follows i k (put_pod i s w : FL) ↔ k = Known_init ∨
    s_owned_processes s.1 = Some (_assigned_processes k) ∧
    (_assigned_processes k = [] → ap_jobs s.2.1 = ∅).
Proof. unfold follows, put_pod. simpl. by rewrite lookup_insert_eq. Qed.

Lemma put_pod_other i j s w (k : Known) :
  j ≠ i → follows j k (put_pod i s w : FL) ↔ follows j k w.
Proof. intros Hj. unfold follows, put_pod. simpl. by rewrite lookup_insert_ne. Qed.

Lemma follows_state i k (w : FL) s :
  pod_state i w = Some s →
  follows i k w ↔ k = Known_init ∨
    s_owned_processes s.1 = Some (_assigned_processes k) ∧
    (_assigned_processes k = [] → ap_jobs s.2.1 = ∅).
Proof. unfold pod_state, follows. intros (p & -> & ->)%fmap_Some. done. Qed.

Lemma zk_quiet {X} (op : SE ZK CallError X) (w : FL) :
  log (op (fl_zk w)).1 = log (fl_zk w) → quiet written follows w (on_zk op w).1.
Proof. intros E. unfold on_zk. by destruct (op (fl_zk w)) as [z r]. Qed.

Lemma scheduler_call_fst i c (w : FL) :
  (scheduler_call (World := fleet_world i) c w).1 =
    match pod_state i w with
    | Some s => put_pod i (scheduler_method c s).1 w
    | None => w
    end.
Proof.
  simpl. unfold pod_run. destruct (pod_state i w) as [s|]; [|done]. simpl.
  by destruct (scheduler_method c s) as [s' [[]|e]].
Qed.

(** Pausing and resuming move flags only. *)
Lemma flags_quiet i c (w : FL) :
  (∀ s, s_owned_processes (scheduler_method c s).1.1 = s_owned_processes s.1 ∧
        ap_jobs (scheduler_method c s).1.2 = ap_jobs s.2) →
  quiet written follows w (scheduler_call (World := fleet_world i) c w).1.
Proof.
  intros Hc. rewrite scheduler_call_fst. destruct (pod_state i w) as [s|] eqn:Es; [|done].
  split; [done|]. intros j k. destruct (decide (j = i)) as [->|Hj]; [|by rewrite put_pod_other].
  rewrite put_pod_at, (follows_state i k w s Es). destruct (Hc s) as [-> Ej]. simpl in Ej.
  by rewrite Ej.
Qed.

(** BSON strings are UTF-8. *)
Hypothesis bson_text : ∀ d e, e ∈ eqps d → is_utf8 (ei_process e).

Lemma fleet_history i : History (HW := fleet_world i) written follows i.
Proof.
  split; try (intros; simpl; apply zk_quiet; by apply zk_quiet_log_at || by apply zk_quiet_log).
  - intros ops w. simpl. unfold on_zk. pose proof (zk_commit_log ops (fl_zk w)) as Hc.
    destruct (zk_commit_set_data ops (fl_zk w)) as [z r]. simpl in *. done.
  - intros j w d. simpl. unfold on_zk. pose proof (zk_get_log j (fl_zk w) d) as Hg.
    destruct (zk_get_assignment j (fl_zk w)) as [z r]. simpl in *. done.
  - intros w. simpl. by destruct (Repository.get_distinct_processes _).
  - intros w. apply flags_quiet. intros [s [a x]]. simpl. split; [done|]. simpl.
    destruct (ap_running a); [apply pause_law|done].
  - intros ps w. apply flags_quiet. intros [s [a x]]. simpl. split; [done|]. simpl.
    destruct (ap_running a); [apply resume_law|done].
  - intros ps w. rewrite scheduler_call_fst. destruct (pod_state i w) as [s|] eqn:Es.
    2: { split; [done|]. split; [done|]. intros k _. unfold follows. unfold pod_state in Es.
         apply fmap_None in Es. by rewrite Es. }
    split; [done|]. split; [intros j k Hj; by rewrite put_pod_other|]. intros k <-.
    apply put_pod_at. right. cbn [scheduler_method]. rewrite reload_sched. split; [done|].
    intros ->. exact (reload_nothing settings s).
  - intros k w. simpl. rewrite bool_decide_eq_false. unfold follows.
    destruct (fl_pods w !! i); [|done]. intros Hn. destruct Hn. eauto.
  - intros w. unfold follows. case_match; [by left|done].
  - intros w l. simpl. unfold Repository.get_distinct_processes, eqp_call.
    destruct (eqp_distinct_process None (fl_db w)) as [d r] eqn:E. destruct r as [l'|e]; [|done].
    intros [= <-]. apply eqp_distinct_law in E as [Hnd Hl]. split; [|done].
    apply Forall_forall. intros p (e & He & _ & <-)%Hl. by eapply bson_text.
  - intros w l. simpl. unfold on_zk. pose proof (zk_members_distinct (fl_zk w) l) as Hm.
    destruct (zk_get_member_children (fl_zk w)) as [z r]. simpl in *. done.
  - intros w. apply zk_time_double.
Qed.
(** ** Ready pods *)
Context (docs : D → list Doc) `{!CollectionLaws D docs}.
Notation Cluster := (gmap string PM * FL)%type.

(** The scheduler of pod [i] runs, and its jobs are named for what they run. *)
Definition ready (i : string) (w : FL) : Prop :=
  ∃ s, pod_state i w = Some s ∧ s_running s.1 = true ∧ s_paused s.1 = false ∧ ids_canonical s.2.

(** The stored documents ask for keys a job id can hold. *)
Definition proper_asks (ps : list string) (w : FL) : Prop :=
  ∀ p i, p ∈ ps → asked_by (docs (fl_db w)) p i → proper (p, i).

(** Pod [i] has the job of the process and the interval. *)
Definition has_job (w : FL) (i p : string) (interval : Z) : Prop :=
  ∃ pod j, fl_pods w !! i = Some pod ∧ ap_jobs (pod_jobs pod) !! job_id p interval = Some j ∧
    j_key j = (p, interval).

Lemma pod_state_put i s (w : FL) : pod_state i (put_pod i s w) = Some s.
Proof. unfold pod_state, put_pod. simpl. rewrite lookup_insert_eq. by destruct s as [? [? [? ?]]]. Qed.

(** Another pod sees another database state and nothing else. *)
Lemma pod_state_other i j s s0 (w : FL) :
  j ≠ i → pod_state j w = Some s0 →
  pod_state j (put_pod i s w) = Some (s0.1, (s0.2.1, (s.2.2.1, s0.2.2.2))).
Proof.
  intros Hj. unfold pod_state, put_pod. simpl. rewrite lookup_insert_ne by done.
  by intros (p & -> & ->)%fmap_Some.
Qed.

Lemma ready_other i j s (w : FL) : j ≠ i → ready j w → ready j (put_pod i s w).
Proof.
  intros Hj (s0 & Hs0 & ? & ? & ?). eexists. split; [by eapply pod_state_other|].
  split_and!; done.
Qed.

Lemma pod_state_db i s (w : FL) : pod_state i w = Some s → s.2.2.1 = fl_db w.
Proof. unfold pod_state. by intros (p & _ & ->)%fmap_Some. Qed.

Lemma ready_reload i ps (w : FL) s :
  alone docs others → proper_asks ps w → ready i w → pod_state i w = Some s →
  ready i (put_pod i (reload settings (Some ps) s).1 w) ∧
  docs (fl_db (put_pod i (reload settings (Some ps) s).1 w)) = docs (fl_db w).
Proof.
  intros Hal Hps (s0 & Hs0 & Hr & Hp & Hc) Hs. rewrite Hs in Hs0. injection Hs0 as <-.
  destruct (reload_canonical others docs settings ps s Hal) as [Hd Hc'].
  { intros [p k] [Hin Ha]. apply Hps; [done|]. by rewrite <-(pod_state_db i s w Hs). }
  split; [|by rewrite <-(pod_state_db i s w Hs)].
  eexists. split; [apply pod_state_put|]. by rewrite reload_sched.
Qed.

(** Taking in a share keeps the pods ready and the documents. *)
Lemma deliver_ready R c i :
  alone docs others → proper_redistribution R → i ∈ rd_instances R → is_Some (c.1 !! i) →
  proper_asks (rd_processes R) c.2 →
  (∀ j, ready j c.2 → ready j (deliver fleet_world R c i).2) ∧
  docs (fl_db (deliver fleet_world R c i).2) = docs (fl_db c.2).
Proof.
  intros Hal HR Hi [pm Hpm] Hasks. destruct (proj2 (share_of_is_Some R i HR) Hi) as [a Ha].
  destruct (deliver_eq fleet_world R c i pm a HR Hpm Ha) as (pm' & -> & _).
  cbn [snd]. destruct (_ && _); [|done]. rewrite scheduler_call_fst.
  destruct (pod_state i c.2) as [s|] eqn:Es; [|done]. cbn [scheduler_method].
  assert (proper_asks (a_processes a) c.2) as Hps.
  { intros p k Hp. apply Hasks. by eapply share_elem. }
  split.
  - intros j Hj. destruct (decide (j = i)) as [->|Hne]; [|by apply ready_other].
    by apply ready_reload.
  - unfold put_pod. cbn [fl_db]. destruct (reload_canonical others docs settings (a_processes a) s Hal)
      as [Hd _]; [|etrans; [exact Hd|by rewrite (pod_state_db i s c.2 Es)]].
    intros [p k] [Hin Hk]. apply Hps; [done|]. by rewrite <-(pod_state_db i s c.2 Es).
Qed.

(** ** Reconciling *)

(** The scheduler of pod [i] owns [ps]. *)
Definition owns (i : string) (ps : list string) (w : FL) : Prop :=
  ∃ s, pod_state i w = Some s ∧ s_owned_processes s.1 = Some ps ∧ (ps = [] → ap_jobs s.2.1 = ∅).

(** Pod [i] has exactly the jobs that the stored documents want of [ps]. *)
Definition loaded (i : string) (ps : list string) (w : FL) : Prop :=
  ∃ s, pod_state i w = Some s ∧ ids_canonical s.2 ∧
  ∀ k, proper k →
    is_Some (ap_jobs s.2.1 !! id_of k) ↔ k.1 ∈ ps ∧ asked_by (docs (fl_db w)) k.1 k.2.

Lemma owns_other i j ps s (w : FL) : j ≠ i → owns j ps w → owns j ps (put_pod i s w).
Proof.
  intros Hj (s0 & Hs0 & ? & ?). eexists. split; [by eapply pod_state_other|]. by split.
Qed.

Lemma loaded_other i j ps s (w : FL) :
  j ≠ i → docs s.2.2.1 = docs (fl_db w) → loaded j ps w → loaded j ps (put_pod i s w).
Proof.
  intros Hj Hd (s0 & Hs0 & Hc & Hk). eexists. split; [by eapply pod_state_other|].
  split; [done|]. intros k. simpl. rewrite Hd. apply Hk.
Qed.

Lemma pod_reconcile_spec i ps (w w' : FL) :
  alone docs others → ready i w → owns i ps w → proper_asks ps w →
  pod_reconcile i w = Some w' →
  ∃ s', w' = put_pod i s' w ∧ docs s'.2.2.1 = docs (fl_db w) ∧ loaded i ps w'.
Proof.
  intros Hal (s & Hs & Hr & Hp & Hc) (s0 & Hs0 & Ho & He) Hps.
  rewrite Hs in Hs0. injection Hs0 as <-. pose proof (pod_state_db i s w Hs) as Hdb.
  unfold pod_reconcile, pod_run. rewrite Hs. simpl.
  destruct (reconcile settings s) as [s' [b|e]] eqn:Er; [|done]. intros [= <-].
  exists s'. split; [done|].
  assert (docs s'.2.2.1 = docs (fl_db w) ∧ ids_canonical s'.2 ∧ ∀ k, proper k →
    is_Some (ap_jobs s'.2.1 !! id_of k) ↔ k.1 ∈ ps ∧ asked_by (docs (fl_db w)) k.1 k.2)
    as (Hd & Hc' & Hk).
  { rewrite <-Hdb. destruct (decide (ps = [])) as [->|Hne].
    - assert (s' = s) as ->.
      { revert Er. unfold reconcile, _processes_to_schedule, se_bind, se_gets. simpl.
        rewrite Hp, Hr. simpl. rewrite Ho. by intros [= <- _]. }
      split; [done|]. split; [done|]. intros k _. rewrite (He eq_refl), lookup_empty. split.
      + by intros [? ?].
      + by intros [?%elem_of_nil _].
    - destruct (reconcile_wanted others docs settings ps s s' b Hal Ho Hne Hp Hr Hc)
        as ([_ Hd] & Hc' & Hk); [|done|done].
      intros [p k] [Hin Hk]. apply Hps; [done|]. by rewrite <-Hdb. }
  split; [done|]. exists s'. split; [apply pod_state_put|]. split; [done|].
  intros k. simpl. rewrite Hd. apply Hk.
Qed.

Lemma reconcile_all_spec (share : string → list string) is' (w w' : FL) :
  alone docs others → NoDup is' →
  (∀ i, i ∈ is' → ready i w ∧ owns i (share i) w ∧ proper_asks (share i) w) →
  reconcile_all is' w = Some w' →
  docs (fl_db w') = docs (fl_db w) ∧ (∀ i, i ∈ is' → loaded i (share i) w') ∧
  (∀ i ps, i ∉ is' → loaded i ps w → loaded i ps w').
Proof.
  intros Hal Hnd. revert w. induction Hnd as [|i is' Hi Hnd IH]; intros w Hall.
  { intros [= <-]. split; [done|]. split; [by intros ? ?%elem_of_nil|done]. }
  simpl. destruct (pod_reconcile i w) as [w1|] eqn:E1; [|done]. simpl. intros Hrest.
  destruct (Hall i) as (Hr & Ho & Ha); [left|].
  destruct (pod_reconcile_spec i (share i) w w1 Hal Hr Ho Ha E1) as (s' & -> & Hd & Hl).
  destruct (IH (put_pod i s' w)) as (Hd' & Hin & Hout); [|done|].
  { intros j Hj. destruct (Hall j) as (? & ? & Haj); [by right|].
    assert (j ≠ i) by (by intros ->).
    split; [by apply ready_other|]. split; [by apply owns_other|].
    intros p k Hp. simpl. rewrite Hd. by apply Haj. }
  split; [by rewrite Hd'|]. split.
  - intros j [->|Hj]%elem_of_cons; [by apply Hout|by apply Hin].
  - intros j ps [Hij Hj]%not_elem_of_cons Hlj. apply Hout; [done|]. by apply loaded_other.
Qed.

(** Delivering to all: the pods stay ready. *)
Lemma delivered_ready R c order :
  alone docs others → proper_redistribution R →
  (∀ i, i ∈ order → i ∈ rd_instances R) → (∀ i, i ∈ rd_instances R → is_Some (c.1 !! i)) →
  proper_asks (rd_processes R) c.2 →
  (∀ j, ready j c.2 → ready j (foldl (deliver fleet_world R) c order).2) ∧
  docs (fl_db (foldl (deliver fleet_world R) c order).2) = docs (fl_db c.2).
Proof.
  intros Hal HR. revert c. induction order as [|i order IH]; intros c Hord Hpods Hasks; [done|].
  assert (i ∈ rd_instances R) as Hi by (apply Hord; left).
  destruct (deliver_ready R c i Hal HR Hi (Hpods i Hi) Hasks) as [Hr Hd]. cbn [foldl].
  destruct (IH (deliver fleet_world R c i)) as [Hr' Hd'].
  - intros j Hj. apply Hord. by right.
  - intros j Hj. by apply deliver_pods, Hpods.
  - intros p k. rewrite Hd. apply Hasks.
  - split; [auto|by rewrite Hd'].
Qed.

(** ** Properties *)

(** [R] is the newest redistribution of the cluster [c], with a stamp of its own, and its
    pods are there and ready. *)
Record newest_deal (c : Cluster) (R : Redistribution) : Prop := {
  nd_stamps : stamps_unique (written c.2);
  nd_proper : proper_redistribution R;
  nd_committed : ops_of R ∈ written c.2;
  nd_newest : newest (written c.2) R;
  nd_epoch : (1 ≤ rd_epoch R)%Z;
  nd_pods : rd_instances R ≠ [];
  nd_ready i : i ∈ rd_instances R → is_Some (c.1 !! i) ∧ ready i c.2;
}.

(** After the deliveries every pod's scheduler owns what the pod was dealt. *)
Lemma delivered_owns c R order i :
  cluster_reachable fleet_world written follows c → newest_deal c R →
  alone docs others → proper_asks (rd_processes R) c.2 →
  order ≡ₚ rd_instances R → i ∈ rd_instances R →
  let c' := foldl (deliver fleet_world R) c order in
  ready i c'.2 ∧ owns i (dealt_to R i) c'.2 ∧ docs (fl_db c'.2) = docs (fl_db c.2).
Proof.
  intros Hinv%cluster_reachable_inv [Huniq HR Hops Hnew He Hne Hready] Hal Hasks Hperm Hi c';
    [|by apply fleet_history].
  destruct (delivered_ready R c order Hal HR) as [Hr Hd];
    [intros j; by rewrite Hperm|by intros j [? _]%Hready|done|].
  destruct (Hready i Hi) as [_ Hri]. specialize (Hr i Hri).
  split; [done|]. split; [|done].
  destruct (deliver_all fleet_world written follows (Hist := fleet_history) R order c Hinv
    Huniq HR Hops Hnew He) as (Hinv' & Hknow & _).
  { intros j Hj. rewrite Hperm in Hj. split; [done|]. by apply Hready. }
  { rewrite Hperm. apply HR. }
  destruct (Hknow i) as (pm & a & Hpm & Ha & Ek); [by rewrite Hperm|].
  destruct (ci_pod _ _ _ Hinv' i pm Hpm) as [_ Hf]. destruct Hr as (s & Hs & _).
  apply (follows_state i _ _ s Hs) in Hf. exists s. split; [done|].
  unfold dealt_to. rewrite Ha. rewrite Ek in Hf. destruct Hf as [E|Hf]; [|exact Hf].
  destruct (share_of_stamp R i a Ha) as [Ee _]. apply (f_equal _known_epoch) in E. simpl in E. lia.
Qed.

(** C4: Every rule is run by exactly one pod.  From any reachable cluster: once the pods of
    the newest redistribution have taken in their shares (in any order, whatever their
    reloads did) and the periodic reconcile of each has returned, for every process of the
    plant and every rule that is active in the effective profile of some equipment of it
    (however its overlays combine) exactly one of the pods has the job of the rule's
    interval; and every analysis job of a pod is of a process it was dealt and is asked for
    by a stored document.  Nobody writes profiles meanwhile; the process names are proper
    and no stored interval is negative. *)
Theorem every_rule_on_one_pod c R order order' (w : FL) :
  cluster_reachable fleet_world written follows c → newest_deal c R →
  alone docs others → proper_asks (rd_processes R) c.2 →
  order ≡ₚ rd_instances R → order' ≡ₚ rd_instances R →
  reconcile_all order' (foldl (deliver fleet_world R) c order).2 = Some w →
  (∀ p m e sc s1 l now eff r, p ∈ rd_processes R → docs sc.1 = docs (fl_db w) →
    collect_scope_docs (C := C) others p m e sc = (s1, Ok l) →
    fold_profiles now l (mkScope p m e) = Ok eff → r ∈ p_rules eff → r_enabled r = true →
    ∃ i, (i ∈ rd_instances R ∧ has_job w i p (r_interval_minutes r)) ∧
      ∀ j, j ∈ rd_instances R → has_job w j p (r_interval_minutes r) → j = i) ∧
  (∀ i pod id j, i ∈ rd_instances R → fl_pods w !! i = Some pod →
    ap_jobs (pod_jobs pod) !! id = Some j → is_Some (parse_job_id id) →
    (j_key j).1 ∈ dealt_to R i ∧ asked_by (docs (fl_db w)) (j_key j).1 (j_key j).2).
Proof.
  intros Hreach Hdeal Hal Hasks Hperm Hperm' Hrec.
  pose proof (λ i, delivered_owns c R order i Hreach Hdeal Hal Hasks Hperm) as Hown.
  set (c' := foldl _ _ _) in *. pose proof (nd_proper _ _ Hdeal) as HR.
  destruct (reconcile_all_spec (dealt_to R) order' c'.2 w Hal) as (Hd & Hl & _); [..|done|].
  { rewrite Hperm'. apply HR. }
  { intros i Hi. rewrite Hperm' in Hi. destruct (Hown i Hi) as (? & ? & Hdc).
    split; [done|]. split; [done|]. intros p k Hp. rewrite Hdc. apply Hasks.
    unfold dealt_to in Hp. destruct (share_of R i) as [a|] eqn:Ea; [|by apply not_elem_of_nil in Hp].
    by eapply share_elem. }
  assert (proper_asks (rd_processes R) w) as Hasks'.
  { intros p k. rewrite Hd. destruct (rd_instances R) as [|i0 is0] eqn:Ei; [by apply Hdeal in Ei|].
    destruct (Hown i0) as (_ & _ & ->); [left|]. apply Hasks. }
  setoid_rewrite Hperm' in Hl. clear Hown Hrec.
  assert (∀ i p k, i ∈ rd_instances R → proper (p, k) →
    has_job w i p k ↔ p ∈ dealt_to R i ∧ asked_by (docs (fl_db w)) p k) as Hjob.
  { intros i p k Hi Hpk. destruct (Hl i Hi) as (s & Hs & Hc & Hk). unfold has_job.
    unfold pod_state in Hs. apply fmap_Some in Hs as (pod & Hpod & ->).
    change (p ∈ dealt_to R i ∧ asked_by (docs (fl_db w)) p k) with
      ((p, k).1 ∈ dealt_to R i ∧ asked_by (docs (fl_db w)) (p, k).1 (p, k).2).
    rewrite <-(Hk (p, k) Hpk). simpl. split.
    - intros (pod' & j & Hp' & Hj & _). rewrite Hpod in Hp'. injection Hp' as <-. by exists j.
    - intros [j Hj]. exists pod, j. split; [done|]. split; [done|].
      destruct (canonical_job _ _ _ _ Hc Hj) as [Hkj Hid].
      { change (is_Some (parse_job_id (id_of (p, k)))). rewrite parse_id_of by done. eauto. }
      symmetry. by apply id_of_inj. }
  split.
  - intros p m e sc s1 l now eff r Hp Hds Hcol Hf Hr He.
    assert (asked_by (docs (fl_db w)) p (r_interval_minutes r)) as Ha
      by (rewrite <-Hds; by eapply (active_rule_asked docs others)).
    pose proof (Hasks' _ _ Hp Ha) as Hpk.
    destruct (dealt_once R p HR (nd_pods _ _ Hdeal) Hp) as (i & [Hi Hpi] & Huni).
    exists i. split; [by rewrite Hjob|]. intros j Hj. rewrite Hjob by done. intros [Hpj _].
    by apply Huni.
  - intros i pod id j Hi Hpod Hj Hid. destruct (Hl i Hi) as (s & Hs & Hc & Hk).
    unfold pod_state in Hs. rewrite Hpod in Hs. injection Hs as <-.
    destruct (canonical_job _ _ _ _ Hc Hj Hid) as [Hkj ->]. apply Hk; [done|]. simpl. eauto.
Qed.
End Fleet.

(** ** Witness: two pods, a database in memory, and a ZooKeeper that is its log *)
#[local] Existing Instance set_iter_id.
#[local] Instance ex_cache : TTLCache (MapCache MonitorProfile) MonitorProfile :=
  map_cache_ops 300.
#[local] Instance ex_jobs : Backend MemSched := mem_backend (λ _, []).
#[local] Instance ex_jobs_laws : BackendLaws MemSched := mem_backend_laws (λ _, []).

Definition ex_eqps : list EqpInfo :=
  [mkEqpInfo "E1" (Some "M1") "ETCH" None None None None 1 1;
   mkEqpInfo "E2" (Some "M1") "CMP" None None None None 1 1;
   mkEqpInfo "E3" (Some "M2") "ETCH" None None None None 1 1].

#[local] Instance ex_eqp_collection : EqpCollection MemDb := {
  eqp_distinct_process f w :=
    (w, Ok (remove_dups (ei_process <$> filter (eqp_filter f) ex_eqps)));
  eqp_count f w := (w, Ok (length (filter (eqp_filter f) ex_eqps)));
  eqp_find f w := (w, Ok (filter (eqp_filter f) ex_eqps));
}.

#[local] Instance ex_eqp_laws : EqpCollectionLaws MemDb (λ _, ex_eqps).
Proof.
  split; simpl.
  - intros f w w' l [= _ <-]. split; [apply NoDup_remove_dups|]. intros p.
    rewrite elem_of_remove_dups, list_elem_of_fmap. setoid_rewrite list_elem_of_filter. naive_solver.
  - by intros f w w' n [= _ <-].
  - by intros f w w' l [= _ <-].
Qed.

#[local] Instance ex_zookeeper : ZooKeeper (list Transaction) := {
  zk_ensure_parent_paths z := (z, Ok tt);
  zk_ensure_assignment_path i z := (z, Ok tt);
  zk_commit_set_data ops z := (z ++ [ops], Ok ((λ _, None) <$> ops));
  zk_get_assignment_children z := (z, Ok []);
  zk_delete_assignment i z := (z, Ok tt);
  zk_get_assignment i z := (z, Ok (Some (value_in z i)));
  zk_get_member_children z := (z, Ok ["b"; "a"]);
  zk_create_member i z := (z, Ok tt);
  zk_restart_after_loss z := (z, Ok tt);
  zk_time _ := num_of_Z 100;
}.

#[local] Instance ex_zookeeper_log : ZooKeeperLog (list Transaction) id.
Proof.
  split; simpl; try done.
  - by right.
  - intros i z d [= <-]. unfold value_in, id. destruct (last _) as [x|] eqn:E; [|by left].
    right. apply last_Some_elem_of, list_elem_of_omap in E as (ops & Hops & Hg).
    exists ops. split; [done|]. by apply ODict.get_Some_elem_of.
  - intros z l [= <-]. apply (bool_decide_unpack _); vm_compute; done.
  - intros _. exists 100%Z, 0%Z. split; [reflexivity|split; [lia|reflexivity]].
Qed.

Notation ex_FL := (Fleet MemSched (MapCache MonitorProfile) (list Transaction) MemDb).
Notation ex_fleet_world := (fleet_world (A := MemSched) (C := MapCache MonitorProfile)
  (ZK := list Transaction) (D := MemDb) id ex_settings).

Definition ex_pod : Pod MemSched (MapCache MonitorProfile) :=
  mkPod (mkSched [] false true None false [] []) (mkMemSched ∅ 0 true) cache_empty.
Definition ex_start : ex_FL := mkFleet [] ex_db (<["b" := ex_pod]> (<["a" := ex_pod]> ∅)).
Definition ex_pods : gmap string PM := <["b" := PM_init "b"]> (<["a" := PM_init "a"]> ∅).
Definition ex_led : PM * ex_FL := pod_handle ex_fleet_world "a" id (EvLeader 1) (PM_init "a", ex_start).
Definition ex_fleet : gmap string PM * ex_FL := (<["a" := ex_led.1]> ex_pods, ex_led.2).
Definition ex_deal : Redistribution :=
  mkRedistribution ["b"; "a"] ["CMP"; "ETCH"] 1 (num_of_Z 100).
Definition ex_settled : option ex_FL :=
  reconcile_all id ex_settings ["a"; "b"] (foldl (deliver ex_fleet_world ex_deal) ex_fleet ["b"; "a"]).2.

Example ex_settled_jobs :
  (λ w, (λ p, elements (dom (ms_jobs (pod_jobs p)))) <$> (map_to_list (fl_pods w)).*2) <$> ex_settled
  = Some [[]; ["analysis-ETCH-5m"]].
Proof. vm_compute. reflexivity. Qed.

Notation ex_fleet_reachable := (cluster_reachable ex_fleet_world
  (λ w : ex_FL, id (fl_zk w)) (follows (C := MapCache MonitorProfile))).

Lemma ex_fleet_reach : ex_fleet_reachable ex_fleet.
Proof.
  exists ex_start. split; [reflexivity|]. eapply rtc_l; [apply (cl_join _ _ _ "a"); reflexivity|].
  eapply rtc_l; [apply (cl_join _ _ _ "b"); reflexivity|]. apply rtc_once.
  apply (cl_event ex_fleet_world _ _ "a" (PM_init "a") (EvLeader 1) id); [reflexivity| |exact I].
  intros s Hs. split; [exact Hs|apply grows_refl].
Qed.

Lemma ex_deal_proper : proper_redistribution ex_deal.
Proof.
  split.
  - apply (bool_decide_unpack _); vm_compute; done.
  - repeat constructor; apply (bool_decide_unpack _); vm_compute; done.
  - apply (bool_decide_unpack _); vm_compute; done.
  - exists 100%Z, 0%Z. split; [reflexivity|split; [lia|reflexivity]].
Qed.

Lemma ex_fleet_log : fl_zk ex_fleet.2 = [ops_of ex_deal].
Proof. vm_compute. reflexivity. Qed.

Lemma ex_newest_deal : newest_deal id id ex_fleet ex_deal.
Proof.
  split; [..|done| |].
  - unfold id. rewrite ex_fleet_log.
    by intros R R' _ _ ->%list_elem_of_singleton ->%list_elem_of_singleton.
  - exact ex_deal_proper.
  - unfold id. rewrite ex_fleet_log. left.
  - unfold id. rewrite ex_fleet_log. intros R' HR' E%list_elem_of_singleton.
    assert (is_Some (share_of ex_deal "a")) as [a Ha] by (vm_compute; eauto).
    pose proof (ops_share ex_deal R' "a" a ex_deal_proper HR' (eq_sym E) Ha) as Ha'.
    destruct (share_of_stamp _ _ _ Ha) as [E1 E2], (share_of_stamp _ _ _ Ha') as [E3 E4].
    rewrite <-E1, <-E2, <-E3, <-E4. right. split; [reflexivity|]. rewrite E2. reflexivity.
  - discriminate.
  - intros i Hi. repeat (apply elem_of_cons in Hi as [->|Hi]; [split; [vm_compute; eauto|]|]);
      [..|by apply not_elem_of_nil in Hi];
      (eexists; split; [vm_compute; reflexivity|split; [reflexivity|split; [reflexivity|]]];
       intros id j Hj; discriminate Hj).
Qed.

Lemma ex_text (d : MemDb) e : e ∈ ex_eqps → is_utf8 (ei_process e).
Proof.
  assert (Forall (λ e, is_utf8 (ei_process e)) ex_eqps) as Hall
    by (repeat constructor; apply (bool_decide_unpack _); vm_compute; done).
  rewrite Forall_forall in Hall. apply Hall.
Qed.

Lemma ex_fleet_asks : proper_asks md_docs ["CMP"; "ETCH"] ex_fleet.2.
Proof.
  assert (fl_db ex_fleet.2 = ex_db) as Hdb by (vm_compute; reflexivity).
  intros p i Hp. rewrite Hdb. intros ->%ex_asked. split; [|simpl; lia].
  repeat (apply elem_of_cons in Hp as [->|Hp]; [split; [discriminate|reflexivity]|]).
  by apply not_elem_of_nil in Hp.
Qed.

Lemma every_rule_on_one_pod_witness :
  ∃ w, ex_settled = Some w ∧ has_job w "b" "ETCH" 5 ∧
  ∃ i, (i ∈ ["b"; "a"] ∧ has_job w i "ETCH" 5) ∧
    ∀ j, j ∈ ["b"; "a"] → has_job w j "ETCH" 5 → j = i.
Proof.
  assert (∃ w, ex_settled = Some w) as [w Hw] by (eexists; vm_compute; reflexivity).
  exists w. split; [exact Hw|]. split.
  { assert (match ex_settled with
      | Some w => match fl_pods w !! "b" with
                  | Some p => j_key <$> ms_jobs (pod_jobs p) !! job_id "ETCH" 5
                  | None => None
                  end
      | None => None
      end = Some ("ETCH", 5%Z)) as Hj by (vm_compute; reflexivity).
    rewrite Hw in Hj. unfold has_job. destruct (fl_pods w !! "b") as [p|]; [|discriminate Hj].
    apply fmap_Some in Hj as (j & Hj & ->). exists p, j. split_and!; [reflexivity|exact Hj|reflexivity]. }
  assert (ex_rule "b" true ∈ p_rules ex_folded) as Hb
    by (apply (bool_decide_unpack _); vm_compute; exact I).
  assert (md_docs (fl_db w) = md_docs ex_db) as Hdb.
  { assert (fl_db <$> ex_settled = Some ex_db) as E by (vm_compute; reflexivity).
    rewrite Hw in E. injection E as E. f_equal. exact E. }
  unfold ex_settled in Hw.
  refine (proj1 (every_rule_on_one_pod id ex_settings id (λ _, ex_eqps) ex_text md_docs
    ex_fleet ex_deal ["b"; "a"] ["a"; "b"] w ex_fleet_reach ex_newest_deal (λ _, eq_refl) _ _ _ Hw)
    "ETCH" "M1" "E1" ex_repo ex_repo ex_collected 0%Z ex_folded (ex_rule "b" true)
    _ (eq_sym Hdb) _ _ Hb eq_refl).
  - exact ex_fleet_asks.
  - reflexivity.
  - apply Permutation_swap.
  - apply elem_of_cons. right. left.
  - vm_compute. reflexivity.
  - vm_compute. reflexivity.
Defined.

(** A pod that lost its session and finds its assignment node empty (a leader dealt without
    it) resumes the jobs of the processes it had: [resume_jobs_for] ignores its argument. *)
Example stale_jobs_resumed :
  let loaded_b := deliver ex_fleet_world ex_deal ex_fleet "b" in
  let w := mkFleet [] (fl_db loaded_b.2) (fl_pods loaded_b.2) : ex_FL in
  let at_b ev s := pod_handle ex_fleet_world "b" id ev s in
  let s := at_b (EvZk CONNECTED) (at_b (EvZk LOST)
             (default (PM_init "b") (loaded_b.1 !! "b"), w)) in
  _assigned_processes (pm_known s.1) = [] ∧
  (λ p, (s_paused (pod_sched p), elements (dom (ms_jobs (pod_jobs p)))))
    <$> fl_pods s.2 !! "b" = Some (false, ["analysis-ETCH-5m"]).
Proof. vm_compute. done. Qed.
