(* ===== verification/Session.v ===== *)
(** * A pod without a ZooKeeper session ([src/distributed/partition_manager.py],
      [src/scheduler/jobs.py])

    When the session is lost the manager forgets its assignment and pauses the scheduler of
    its pod; after the reconnect it registers again and resumes.  Here the manager runs over
    the fleet of [Fleet], and the invariant is that a scheduler is paused while its manager
    knows that the session is lost, whatever else the two are asked to do in between and
    however the handlers are interleaved. *)
From stdpp Require Import base list strings sets gmap.
From Stdlib Require Import ZArith Lia.
From S2P Require Import Prelude PyNum PyStr PyFloat Json FactCatalog Models Cache Repository.
From S2P Require Import Scheduler Cadence Assignments PartitionManager Cluster Fleet.
Local Open Scope se_scope.

(** ** What a world promises of its scheduler *)

(** A call keeps what is said of the world. *)
Definition stays {W A} (P : W → Prop) (op : SE W CallError A) : Prop := ∀ w, P w → P (op w).1.

(** [idle_world w]: the scheduler is paused, or there is none.  Only a resume ends it. *)
Class PauseLaws (W : Type) `{!World W} (idle_world : W → Prop) := {
  q_paths : stays idle_world ensure_parent_paths;
  q_processes : stays idle_world get_distinct_processes;
  q_path i : stays idle_world (ensure_assignment_path i);
  q_commit ops : stays idle_world (commit_set_data ops);
  q_children : stays idle_world get_assignment_children;
  q_delete i : stays idle_world (delete_assignment i);
  q_get i : stays idle_world (get_assignment i);
  q_members : stays idle_world get_member_children;
  q_create i : stays idle_world (create_member i);
  q_restart : stays idle_world restart_after_loss;
  q_reload ps : stays idle_world (scheduler_call (scheduler_reload ps));
  q_pause w : idle_world (scheduler_call pause_all_jobs w).1;
  q_none w : has_scheduler w = false → idle_world w;
}.

Create HintDb session.
#[export] Hint Resolve q_paths q_processes q_path q_commit q_children q_delete q_get q_members
  q_create q_restart q_reload : session.

Section Guards.
Context {W : Type} `{!World W} (idle_world : W → Prop) `{!PauseLaws W idle_world}.

(** The scheduler is paused while the manager knows that the session is lost. *)
Definition idle (s : PM * W) : Prop := pm_session_lost s.1 = true → idle_world s.2.

Context (meanwhile : PM * W → PM * W) (meanwhile_idle : ∀ s, idle s → idle (meanwhile s)).

Definition guards {A} (m : M (W := W) A) : Prop := ∀ s, idle s → idle (m s).1.

Lemma guards_ret {A} (a : A) : guards (se_ret a).
Proof. by intros s. Qed.
Lemma guards_raise {A} e : guards (se_raise (A := A) e).
Proof. by intros s. Qed.
Lemma guards_gets {A} (f : PM → A) : guards (pm_gets f).
Proof. by intros s. Qed.
Lemma guards_world_gets {A} (f : W → A) : guards (world_gets f).
Proof. by intros s. Qed.

Lemma guards_modify f :
  (∀ s, pm_session_lost (f s) = pm_session_lost s) → guards (pm_modify f).
Proof. intros Hf [pm w]. unfold idle, pm_modify. simpl. by rewrite Hf. Qed.

Lemma guards_bind {A B} (m : M A) (k : A → M B) :
  guards m → (∀ a, guards (k a)) → guards (se_bind m k).
Proof.
  intros Hm Hk s Hs. unfold se_bind. specialize (Hm s Hs).
  destruct (m s) as [s' [a|e]]; simpl in *; [by apply Hk|done].
Qed.

Lemma guards_await me {A} (op : SE W CallError A) :
  stays idle_world op → guards (await meanwhile me op).
Proof.
  intros Hop [pm w] Hs. unfold await. specialize (Hop w). cbn [fst snd] in *.
  destruct (op w) as [w' r]. cbn [fst snd] in *.
  assert (idle (meanwhile (pm, w'))) by (apply meanwhile_idle; intros Hl; by apply Hop, Hs).
  by case_match.
Qed.

Lemma guards_try {A} (m : M A) h : guards m → (∀ e, guards (h e)) → guards (try_except m h).
Proof.
  intros Hm Hh s Hs. unfold try_except. specialize (Hm s Hs).
  destruct (m s) as [s' [a|[|e]]]; simpl in *; [done|done|by apply Hh].
Qed.

Lemma guards_for_each {A} (f : A → M unit) l : (∀ x, guards (f x)) → guards (for_each f l).
Proof. intros Hf. induction l; [apply guards_ret|by apply guards_bind]. Qed.

Lemma guards_reload b ps : guards (call_scheduler meanwhile b (scheduler_reload ps)).
Proof. destruct b; [apply guards_await; auto with session|apply guards_ret]. Qed.
End Guards.

Ltac guard_parts :=
  repeat first
    [ apply guards_ret | apply guards_raise | apply guards_gets | apply guards_world_gets
    | apply guards_reload; assumption
    | apply guards_await; [assumption|by auto with session]
    | apply guards_bind; [|intros ?] | apply guards_try; [|intros ?]
    | apply guards_for_each; intros ?
    | apply guards_modify; intros ?
    | assumption | reflexivity | progress unfold create_task
    | case_match ].

(** ** The handlers of the manager *)
Section Handlers.
Context {W : Type} `{!World W} (idle_world : W → Prop) `{!PauseLaws W idle_world}.
Context (meanwhile : PM * W → PM * W).
Notation idle := (idle idle_world).
Notation guards := (guards idle_world).
Hypothesis meanwhile_idle : ∀ s, idle s → idle (meanwhile s).

Lemma cancel_lost t s : pm_session_lost (cancel_task t s) = pm_session_lost s.
Proof. unfold cancel_task. by case_match. Qed.

Lemma cancel_if_lost ot s : pm_session_lost (cancel_if_pending ot s) = pm_session_lost s.
Proof. unfold cancel_if_pending. repeat case_match; auto using cancel_lost. Qed.

Lemma guards_cleanup me live : guards (_cleanup_orphan_assignments meanwhile me live).
Proof. unfold _cleanup_orphan_assignments. guard_parts. Qed.

Lemma guards_body me instances : guards (redistribute_body meanwhile me instances).
Proof. unfold redistribute_body. guard_parts. Qed.

Lemma guards_failed instances : guards (redistribute_failed instances).
Proof. unfold redistribute_failed. guard_parts; auto using cancel_if_lost. Qed.

Lemma guards_redistribute me instances : guards (_do_redistribute meanwhile me instances).
Proof.
  intros s Hs. unfold _do_redistribute. pose proof (guards_body me instances s Hs) as Hb.
  destruct (redistribute_body meanwhile me instances s) as [s' [[]|[|e]]]; cbn [fst] in *.
  - refine (_ s' Hb). guard_parts; auto using cancel_if_lost.
  - done.
  - by apply guards_failed.
Qed.

Lemma guards_leader : guards (on_become_leader meanwhile).
Proof. unfold on_become_leader. guard_parts; auto using guards_redistribute. Qed.

Lemma guards_payload data : guards (apply_payload meanwhile data).
Proof. unfold apply_payload. guard_parts; auto. Qed.

Lemma guards_assignment data : guards (_on_assignment_changed meanwhile data).
Proof. unfold _on_assignment_changed. guard_parts; auto using guards_payload. Qed.

Lemma guards_refresh : guards (_refresh_assignment_from_zk meanwhile).
Proof. unfold _refresh_assignment_from_zk. guard_parts; auto using guards_assignment. Qed.

Lemma guards_register : guards (_register_member meanwhile).
Proof. unfold _register_member. guard_parts. Qed.

Lemma guards_start : guards (start meanwhile).
Proof.
  unfold start, _register_watches. guard_parts; auto using guards_assignment.
Qed.

Lemma guards_reinit : guards (_reinit_after_loss meanwhile).
Proof.
  unfold _reinit_after_loss, _register_watches.
  guard_parts; auto using guards_assignment.
Qed.

(** After a reinitialisation the flag is cleared before anything resumes. *)
Lemma guards_zk state : guards (on_zk_state_change meanwhile state).
Proof.
  assert (∀ b c, (∀ w, idle_world (scheduler_call c w).1) → c = pause_all_jobs →
    ∀ s, has_scheduler s.2 = b → idle_world (call_scheduler meanwhile b c s).1.2) as Hpause.
  { intros b c Hc -> [pm w] Hb. destruct b; simpl in *; [|by apply q_none].
    unfold at_once. specialize (Hc w). simpl in *. by destruct (scheduler_call _ w). }
  intros s Hs. unfold on_zk_state_change, se_bind at 1, world_gets. destruct state.
  - intros _. apply Hpause; [apply q_pause|done|done].
  - intros _. unfold se_bind, pm_modify. apply Hpause; [apply q_pause|done|done].
  - assert (∀ s b ps, pm_session_lost s.1 = false →
      idle (call_scheduler meanwhile b (resume_jobs_for ps) s).1) as Hres.
    { intros [pm w] b ps Hl. simpl in Hl. destruct b; [|intros Hx; simpl in Hx; congruence].
      simpl. unfold at_once. simpl. destruct (scheduler_call _ w) as [w' r].
      intros Hx. simpl in Hx. congruence. }
    unfold se_bind, pm_gets. destruct (pm_session_lost s.1) eqn:El.
    + pose proof (guards_reinit s Hs) as Hr.
      destruct (_reinit_after_loss meanwhile s) as [s' [[]|e]]; [|done]. by apply Hres.
    + by apply Hres.
Qed.

Lemma idle_task t s : idle s → idle (run_task meanwhile t s).
Proof.
  intros Hs. unfold run_task. destruct (pm_tasks s.1 !! t) as [[k [] ?]|]; try done.
  assert (∀ s, idle s → idle (finish_task t s.1, s.2)) as Hf by done. apply Hf.
  destruct k as [|instances a]; unfold _debounced_redistribute, _retry_redistribute.
  - case_match; [done|]. case_match; [done|].
    assert (guards (current <- await meanwhile (Some t) get_member_children ;;
      _do_redistribute meanwhile (Some t) current)) as Hg by (guard_parts; auto using guards_redistribute).
    specialize (Hg s Hs). by destruct (se_bind _ _ s) as [s' [?|[|e]]].
  - case_match; [done|]. case_match; [done|]. by apply guards_redistribute.
Qed.

Lemma membership_lost s : pm_session_lost (_handle_membership_change s) = pm_session_lost s.
Proof.
  unfold _handle_membership_change, create_task. case_match; [done|]. apply cancel_if_lost.
Qed.

Lemma stop_lost s : pm_session_lost (stop s) = pm_session_lost s.
Proof.
  unfold stop. generalize [pm_redistribution_task s; pm_redistribute_retry_task s] as l.
  intros l. revert s. induction l as [|[t|] l IH]; intros s; [done| |apply IH].
  simpl. rewrite IH. case_match; [done|]. apply (cancel_lost t).
Qed.

(** Every event of the manager. *)
Lemma handle_idle ev s : idle s → idle (handle meanwhile ev s).
Proof.
  intros Hs. destruct ev as [| |epoch|epoch data|t|epoch| |state]; simpl.
  - by apply guards_start.
  - unfold Session.idle. simpl. rewrite stop_lost. exact Hs.
  - unfold members_cb. case_bool_decide; [done|]. unfold Session.idle. simpl.
    rewrite membership_lost. exact Hs.
  - refine (_ s Hs). unfold assignment_cb. guard_parts; auto using guards_assignment.
  - by apply idle_task.
  - by apply guards_leader.
  - done.
  - by apply guards_zk.
Qed.
End Handlers.

(** ** The pods of the fleet *)
Section Fleet.
Context {A C ZK D : Type} `{!Backend A, !ZooKeeper ZK, !Collection D, !EqpCollection D}.
Context `{!TTLCache C MonitorProfile, !SetIter} (others : D → D) (settings : Settings).
#[local] Instance session_backend : Backend (A * (D * C)) := repo_backend others.
Notation FL := (Fleet A C ZK D).
Notation world := (fleet_world (A := A) (C := C) (ZK := ZK) (D := D) others settings).

(** The scheduler of pod [i], when it has one, is paused. *)
Definition pod_paused (i : string) (w : FL) : Prop :=
  ∀ p, fl_pods w !! i = Some p → s_paused (pod_sched p) = true.

Lemma put_pod_paused i s (w : FL) : s_paused s.1 = true → pod_paused i (put_pod i s w).
Proof. intros Hs p. unfold put_pod. simpl. rewrite lookup_insert_eq. by intros [= <-]. Qed.

Lemma scheduler_call_paused i c (w : FL) :
  (∀ s, pod_state i w = Some s → s_paused (scheduler_method others settings c s).1.1 = true) →
  pod_paused i (scheduler_call (World := world i) c w).1.
Proof.
  intros Hc. rewrite scheduler_call_fst. destruct (pod_state i w) as [s|] eqn:Es.
  - by apply put_pod_paused, Hc.
  - intros p Hp. unfold pod_state in Es. by rewrite Hp in Es.
Qed.

(** A reload leaves the flags. *)
Lemma reload_paused ps (s : Sched * (A * (D * C))) :
  s_paused (reload settings (Some ps) s).1.1 = s_paused s.1.
Proof. by rewrite reload_sched. Qed.

#[export] Instance pod_pause_laws i : @PauseLaws FL (world i) (pod_paused i).
Proof.
  assert (∀ X (op : SE ZK CallError X), stays (pod_paused i) (on_zk (A := A) (C := C) (D := D) op)) as Hzk
    by (intros X op w Hw; unfold on_zk; by destruct (op (fl_zk w))).
  split; try (intros; apply Hzk).
  - intros w Hw. simpl. by destruct (Repository.get_distinct_processes _).
  - intros ps w Hw. apply scheduler_call_paused. intros s Hs. simpl. rewrite reload_paused.
    unfold pod_state in Hs. apply fmap_Some in Hs as (p & Hp & ->). by apply Hw.
  - intros w. apply scheduler_call_paused. by intros s _.
  - intros w Hw p Hp. simpl in Hw. apply bool_decide_eq_false in Hw. by destruct Hw.
Qed.

(** ** What happens to a pod *)

(** One round of the reconcile loop of pod [i]. *)
Definition pod_round (i : string) (w : FL) : FL :=
  match pod_state i w with
  | Some s => put_pod i (reconcile_tick settings s) w
  | None => w
  end.

(** A scheduled job of pod [i]. *)
Definition pod_job (i : string) (task : nat) (process : string)
    (job : SE (Sched * (A * (D * C))) JobExn unit) (w : FL) : FL :=
  match pod_state i w with
  | Some s => put_pod i (_job_wrapper task process job s).1 w
  | None => w
  end.

(** The manager of pod [i] handles an event, other handlers of it acting at every await; a
    round of the reconcile loop; the scheduler starts a job; the operator reloads; and
    everybody else acts. *)
Inductive session_step (i : string) : PM * FL → PM * FL → Prop :=
| sn_event ev meanwhile s :
    (∀ s, idle (pod_paused i) s → idle (pod_paused i) (meanwhile s)) →
    session_step i s (pod_handle world i meanwhile ev s)
| sn_reconcile pm w : session_step i (pm, w) (pm, pod_round i w)
| sn_job task process job pm w :
    session_step i (pm, w) (pm, pod_job i task process job w)
| sn_reload ps pm w :
    session_step i (pm, w) (pm, (scheduler_call (World := world i) (scheduler_reload ps) w).1)
| sn_others pm w w' : fl_pods w' !! i = fl_pods w !! i → session_step i (pm, w) (pm, w').

(** A paused scheduler does nothing by itself. *)
Lemma paused_job {X} task process job (s : Sched * X) :
  s_paused s.1 = true → _job_wrapper task process job s = (s, Ok tt).
Proof. intros Hs. unfold _job_wrapper. by rewrite Hs. Qed.

Lemma paused_round (s : Sched * (A * (D * C))) :
  s_paused s.1 = true → reconcile_tick settings s = s.
Proof. intros Hs. unfold reconcile_tick. by rewrite Hs. Qed.

Lemma pod_state_paused i (w : FL) s :
  pod_paused i w → pod_state i w = Some s → s_paused s.1 = true.
Proof. unfold pod_state. intros Hw (p & Hp & ->)%fmap_Some. by apply Hw. Qed.

Lemma session_step_idle i s s' :
  session_step i s s' → idle (pod_paused i) s → idle (pod_paused i) s'.
Proof.
  intros [ev meanwhile s0 Hm|pm w|task process job pm w|ps pm w|pm w w' Hw] Hs.
  - by apply (handle_idle (World0 := world i) (pod_paused i) meanwhile Hm ev).
  - intros Hl. specialize (Hs Hl). cbn [fst snd] in *. unfold pod_round.
    destruct (pod_state i w) as [st|] eqn:Est; [|done]. apply put_pod_paused.
    rewrite paused_round; by eapply pod_state_paused.
  - intros Hl. specialize (Hs Hl). cbn [fst snd] in *. unfold pod_job.
    destruct (pod_state i w) as [st|] eqn:Est; [|done]. apply put_pod_paused.
    rewrite paused_job; by eapply pod_state_paused.
  - intros Hl. apply (q_reload (World0 := world i) (idle_world := pod_paused i)), Hs, Hl.
  - intros Hl p. cbn [fst snd] in *. rewrite Hw. by apply Hs.
Qed.

(** C9: A pod that has lost its ZooKeeper session starts no analysis: whatever has
    happened since it had one (watches, tasks, elections, reinitialisations, reloads,
    reconciles, jobs, and the other pods, with the handlers of the manager interleaved at
    every await), while its manager knows of the loss its scheduler is paused, a job that
    comes due ends at once without running the analysis, and the reconcile loop changes
    nothing. *)
Theorem lost_pod_is_idle i (s0 s : PM * FL) p :
  pm_session_lost s0.1 = false → rtc (session_step i) s0 s →
  pm_session_lost s.1 = true → fl_pods s.2 !! i = Some p →
  s_paused (pod_sched p) = true
  ∧ (∀ X task process job (x : X), _job_wrapper task process job (pod_sched p, x)
       = ((pod_sched p, x), Ok tt))
  ∧ ∀ st, pod_state i s.2 = Some st → reconcile_tick settings st = st.
Proof.
  intros H0 Hsteps Hl Hp.
  assert (idle (pod_paused i) s) as Hs.
  { assert (idle (pod_paused i) s0) as Hi by (intros Hl0; congruence). clear H0 Hl Hp.
    induction Hsteps as [|? ? ? Hstep _ IH]; [done|]. by eapply IH, session_step_idle. }
  specialize (Hs Hl). split; [by apply Hs|]. split.
  - intros X task process job x. by apply paused_job, Hs.
  - intros st Hst. by eapply paused_round, pod_state_paused.
Qed.
End Fleet.

(** ** Two pods in memory *)
#[local] Existing Instances set_iter_id Fleet.ex_cache Fleet.ex_jobs Fleet.ex_eqp_collection
  Fleet.ex_zookeeper.

Definition ex_loaded : gmap string PM * ex_FL := deliver ex_fleet_world ex_deal ex_fleet "b".
Definition ex_before : PM * ex_FL := (default (PM_init "b") (ex_loaded.1 !! "b"), ex_loaded.2).
Definition at_b (meanwhile : PM * ex_FL → PM * ex_FL) (ev : Event) : PM * ex_FL → PM * ex_FL :=
  pod_handle ex_fleet_world "b" meanwhile ev.
Definition ex_lost : PM * ex_FL := at_b id (EvZk LOST) ex_before.

(** Pod [b] has a job; after the loss of its session the job does nothing. *)
Lemma lost_pod_is_idle_witness :
  ∃ p, fl_pods ex_lost.2 !! "b" = Some p ∧ pm_session_lost ex_lost.1 = true ∧
    elements (dom (ms_jobs (pod_jobs p))) = ["analysis-ETCH-5m"] ∧
    s_paused (pod_sched p) = true ∧
    ∀ job, _job_wrapper 0 "ETCH" job (pod_sched p, tt) = ((pod_sched p, tt), Ok tt).
Proof.
  assert (∃ p, fl_pods ex_lost.2 !! "b" = Some p ∧
    elements (dom (ms_jobs (pod_jobs p))) = ["analysis-ETCH-5m"]) as (p & Hp & Hj)
    by (eexists; split; [vm_compute; reflexivity|vm_compute; reflexivity]).
  assert (pm_session_lost ex_lost.1 = true) as Hl by (vm_compute; reflexivity).
  assert (pm_session_lost ex_before.1 = false) as H0 by (vm_compute; reflexivity).
  assert (rtc (session_step id ex_settings "b") ex_before ex_lost) as Hs
    by (apply rtc_once; unfold ex_lost; constructor; by intros s).
  exists p. split; [exact Hp|]. split; [exact Hl|]. split; [exact Hj|].
  destruct (lost_pod_is_idle id ex_settings "b" ex_before ex_lost p H0 Hs Hl Hp) as (Hpa & Hw & _).
  split; [exact Hpa|]. intros job. apply Hw.
Defined.

(** A loss that is handled while the reinitialisation of an earlier one is awaited is
    forgotten: the handler of the reconnect clears the flag and resumes the jobs, so the
    next reconnect registers nothing. *)
Example loss_during_reconnect_forgotten :
  let lost_again s :=
    if bool_decide (pm_watch_epoch s.1 = S (pm_watch_epoch ex_lost.1)) then at_b id (EvZk LOST) s else s in
  let s := at_b lost_again (EvZk CONNECTED) ex_lost in
  (λ p, s_paused (pod_sched p)) <$> fl_pods (lost_again s).2 !! "b" = Some true ∧
  pm_session_lost s.1 = false ∧
  (λ p, (s_paused (pod_sched p), elements (dom (ms_jobs (pod_jobs p)))))
    <$> fl_pods s.2 !! "b" = Some (false, ["analysis-ETCH-5m"]) ∧
  pm_watch_epoch (at_b id (EvZk CONNECTED) s).1 = pm_watch_epoch s.1.
Proof. vm_compute. done. Qed.
