(* ===== verification/Tools.v ===== *)
(** * The command line tools ([src/tools/])

    [create_collection] prepares the profile collection as a starting server does,
    [seed_template_catchall] writes the template row every mail can fall back to, and
    [send_test_alert] sends sample alerts with the service's own mail client.  The state of
    a tool is the outside world and what it has printed: the values that are printed, not
    their layout.  Both Mongo tools print the URI through [Url._mask]. *)
From stdpp Require Import base list strings sets gmap.
From Stdlib Require Import ZArith Lia.
From S2P Require Import Prelude PyNum PyStr PyFloat Json FactCatalog Models Renderer Threshold.
From S2P Require Import Repository Cooldown AlertBuilder EmailClient Clients Startup Url.
Local Open Scope se_scope.

(** ** What the Mongo tools share *)
Definition COLL_RMS_EMAIL_TEMPLATE : string := "RESOURCE_MONITOR_EMAIL_TEMPLATE".
Definition ALERT_CODE_RESOURCE_MONITOR : string := "RESOURCE_MONITOR".

Inductive Line : Type :=
| TargetMongo (uri : string)
| Database (name : string)
| CollectionName (name : string)
| IndexName (name : string)
| CatchAllKey (k : TemplateKey)
| Title (s : string)
| HtmlBytes (n : nat)
| Note (s : string).

(** [AsyncIOMotorClient(uri)] and [client.close()] *)
Class MotorClient (W : Type) := {
  motor_client : string → SE W PyExc unit;
  motor_close : SE W PyExc unit;
}.

Section Tool.
Context {W : Type}.

Definition Tool (A : Type) : Type := SE (W * list Line) PyExc A.

Definition print (l : list Line) : Tool unit := se_modify (λ s, (s.1, s.2 ++ l)).

Definition call {A} (op : SE W PyExc A) : Tool A := λ s,
  let '(w, r) := op s.1 in ((w, s.2), r).

(** [client = AsyncIOMotorClient(uri);  try: m  finally: client.close()] *)
Definition with_client `{!MotorClient W} (uri : string) (m : Tool unit) : Tool unit :=
  call (motor_client uri) ;;; try_finally m (call motor_close).
End Tool.
Arguments Tool : clear implicits.

(** ** [create_collection.py] *)
Module CreateCollection.
Section CreateCollection.
Context (nfkc_ok address_ok : string → bool) (uri mongo_db : string).
Context {W : Type} `{!MongoAdmin W, !MotorClient W}.

Definition _INDEX_NAME : string := "uniq_scope".

Definition heading : list Line :=
  [TargetMongo (_mask nfkc_ok address_ok uri); Database mongo_db; CollectionName COLL_PROFILE;
   IndexName _INDEX_NAME].

(** What is done with the client. *)
Definition prepare : Tool W unit :=
  existing <- call list_collection_names ;;
  (if decide (COLL_PROFILE ∈ existing) then print [Note "collection already exists"]
   else call (create_collection COLL_PROFILE) ;;; print [Note "created empty collection"]) ;;;
  call (create_scope_index COLL_PROFILE) ;;;
  print [Note "ensured unique index"; Note "OK"].

Definition _run (do_write : bool) : Tool W unit :=
  print heading ;;;
  if negb do_write then print [Note "DRY-RUN"] else with_client uri prepare.

(** Another instance creates the collection between the listing and the creation. *)
Definition lost_race (w w2 : W) : Prop :=
  ∃ w1 l, list_collection_names w = (w1, Ok l) ∧ COLL_PROFILE ∉ l ∧
    create_collection COLL_PROFILE w1 = (w2, Err (OperationFailure 48)).

(** Without [--yes] the tool touches nothing.  With it, it does to the database what the
    start of a server does, and fails when that fails, unless it loses the race to create
    the collection: then, and only then, it fails where a server goes on to the index. *)
Theorem create_collection_mirrors_startup (w : W) out :
  (_run false (w, out)).1.1 = w ∧
  let '((w', _), r) := prepare (w, out) in
  (w', r) = init_repos (Some true) false w ∨
  lost_race w w' ∧ r = Err (OperationFailure 48) ∧
    init_repos (Some true) false w = create_scope_index COLL_PROFILE w'.
Proof.
  split; [done|]. unfold prepare, init_repos, ensure_collection, lost_race, call, se_bind, se_catch.
  cbn [fst snd]. destruct (list_collection_names w) as [w1 [l|e]] eqn:El; [|by left].
  case_decide as Hin; simpl.
  - destruct (create_scope_index COLL_PROFILE w1) as [w2 [[]|e]]; by left.
  - destruct (create_collection COLL_PROFILE w1) as [w2 [[]|e]] eqn:Ec; simpl.
    + destruct (create_scope_index COLL_PROFILE w2) as [w3 [[]|e]]; by left.
    + case_decide as He; [subst e; right; eauto 10|by left].
Qed.
End CreateCollection.
End CreateCollection.

(** ** [seed_template_catchall.py] *)
Module SeedTemplateCatchall.

(** What [update_one(..., upsert=True)] says it did. *)
Inductive UpdateResult : Type := Upserted (id : string) | Updated | AlreadyThere.

(** [update_one(key, {"$set": {"title": ..., "html": ...}}, upsert=True)] *)
Class TemplateWrites (W : Type) := {
  upsert_template : TemplateKey → string → string → SE W PyExc UpdateResult;
}.

Section Seed.
Context (nfkc_ok address_ok : string → bool) (uri mongo_db email_app_name : string).
Context {W : Type} `{!TemplateWrites W, !MotorClient W}.

Definition catch_all_key : TemplateKey :=
  mkTemplateKey email_app_name "_" "_" ALERT_CODE_RESOURCE_MONITOR "_".

(** The row: its key, title and html. *)
Definition _catch_all_row : TemplateKey * string * string :=
  (catch_all_key, DEFAULT_TITLE, DEFAULT_BODY).

Definition _run (do_write : bool) : Tool W unit :=
  let '(key, title, html) := _catch_all_row in
  print [TargetMongo (_mask nfkc_ok address_ok uri); Database mongo_db;
         CollectionName COLL_RMS_EMAIL_TEMPLATE; CatchAllKey key; Title title;
         HtmlBytes (byte_len html)] ;;;
  if negb do_write then print [Note "DRY-RUN"]
  else
    with_client uri
      (result <- call (upsert_template key title html) ;;
       print [Note (match result with
                    | Upserted id => "inserted catch-all row: _id=" +:+ id
                    | Updated => "updated existing catch-all row"
                    | AlreadyThere => "catch-all row already up to date"
                    end)] ;;;
       print [Note "OK"]).
End Seed.

(** *** Seeding makes a template of every mail *)
Section SeedProperties.
Context (nfkc_ok address_ok : string → bool) (uri mongo_db email_app_name : string).
Context {W : Type} `{!TemplateWrites W, !MotorClient W, !TemplateCollection W Template}.
Context (rows : W → TemplateKey → option Template).

Hypothesis find_law : ∀ k w w' (r : option Template),
  find_template_doc k w = (w', Ok r) → rows w' = rows w ∧ r = rows w k.
(** An upsert that returns leaves the row of the key with these columns, and the other
    rows as they are. *)
Hypothesis upsert_law : ∀ k title html w w' r,
  upsert_template k title html w = (w', Ok r) →
  rows w' k = Some (mkTemplate (Some html) (Some title)) ∧
  (∀ k', k' ≠ k → rows w' k' = rows w k') ∧
  (r = AlreadyThere ↔ rows w k = Some (mkTemplate (Some html) (Some title))).
Hypothesis client_law : ∀ w, rows (motor_client uri w).1 = rows w ∧ rows (motor_close w).1 = rows w.

Notation run := (_run nfkc_ok address_ok uri mongo_db email_app_name).
Notation key := (catch_all_key email_app_name).

Lemma run_rows (w w' : W) out out' :
  run true (w, out) = ((w', out'), Ok tt) →
  rows w' key = Some (mkTemplate (Some DEFAULT_BODY) (Some DEFAULT_TITLE)) ∧
  (∀ k, k ≠ key → rows w' k = rows w k).
Proof.
  unfold _run, _catch_all_row, with_client, try_finally. cbn [negb].
  intros (s1 & [] & [= <-] & Hr)%se_bind_Ok.
  apply se_bind_Ok in Hr as (s2 & [] & H2 & H3). unfold call in H2, H3. cbn [fst snd] in H2.
  pose proof (client_law w) as [Hopen _].
  destruct (motor_client uri w) as [w2 r2]. injection H2 as <- ->. cbn [fst snd] in *.
  unfold se_bind in H3. cbn [fst snd] in H3.
  destruct (upsert_template key DEFAULT_TITLE DEFAULT_BODY w2) as [w3 [r|e]] eqn:Eu;
    cbn in H3.
  - apply upsert_law in Eu as (Hk & Ho & _). pose proof (client_law w3) as [_ Hclose].
    destruct (motor_close w3) as [w4 [[]|e]]; [|done]. injection H3 as <- _. cbn in Hclose.
    rewrite Hclose. split; [done|]. intros k Hk'. by rewrite Ho, Hopen.
  - by destruct (motor_close w3) as [w4 [[]|e']].
Qed.

(** Once the row is there, a lookup for any process and model with the code of this
    service finds a template. *)
Theorem seeded_template_found (w w' : W) out out' process model subcode w2 r :
  run true (w, out) = ((w', out'), Ok tt) →
  find_template (mkTemplateKey email_app_name process model ALERT_CODE_RESOURCE_MONITOR subcode)
    w' = (w2, Ok r) →
  is_Some r ∧
  (∀ k, k ≠ key → rows w' k = rows w k) ∧
  (rows w key = Some (mkTemplate (Some DEFAULT_BODY) (Some DEFAULT_TITLE)) → ∀ k, rows w' k = rows w k).
Proof.
  intros [Hk Ho]%run_rows Hf. apply (first_found_spec rows find_law) in Hf. split_and!; [|done|].
  - subst r. cbn [_fallback_queries]. csimpl. unfold catch_all_key in Hk. rewrite Hk.
    repeat case_match; eauto.
  - intros Hrow k. destruct (decide (k = key)) as [->|]; [congruence|auto].
Qed.
End SeedProperties.
End SeedTemplateCatchall.

(** ** [alert_scenarios.py] *)
Module AlertScenarios.

(** fact, current value, threshold, severity, category, operator *)
Definition _SCENARIOS : list (string * (string * Z * Z * Severity * string * Operator)) :=
  [("cpu", ("cpu.max", 92, 80, WARNING, "cpu", OP_GE));
   ("disk", ("disk.max", 98, 95, CRITICAL, "disk", OP_GE));
   ("process", ("proc_required.min", 0, 0, CRITICAL, "process_watch", OP_EQ))]%Z.

Definition _SAMPLE_EQP_INFO : EqpInfo :=
  mkEqpInfo "" (Some "MODEL-DEV-ABC") "" (Some "DEV-LOCALPC-01") (Some "10.0.0.42")
    (Some "L-DEV") None 0 0.

Definition _WINDOW_MINUTES : Z := 10.

(** [None]: the [ValueError] of an unknown scenario *)
Definition build_alert (scenario app_name : string)
  : option (res DecimalError EmailAlertRequest) :=
  '(fact, current, threshold, severity, category, op) ← ODict.get scenario _SCENARIOS;
  let breach := mkBreach "DEV-EQP-01" "@system" (scenario +:+ "_demo") fact category op
    (Some (Fin current 0)) (VNum (Fin threshold 0)) severity in
  let settings := mkAlertSettings app_name "" "" false 0 0 in
  let notify := mkNotify _WINDOW_MINUTES "RESOURCE_MONITOR" None gb_eqp None in
  Some (build_alert_request breach _SAMPLE_EQP_INFO "DEV_PROC" settings notify _WINDOW_MINUTES
          None [] [] None None None None).

(** Every scenario gives an alert, with the routing and the values of the service. *)
Example scenario_alerts :
  (λ '(name, _), match build_alert name "ARS" with
                 | Some (Ok a) => Some (er_subcode a, er_variables a !! 3, er_rendered_body a)
                 | _ => None
                 end) <$> _SCENARIOS
  = [Some ("CPU_WARNING", Some ("CurrentValue", "92.0"), None);
     Some ("DISK_CRITICAL", Some ("CurrentValue", "98.0"), None);
     Some ("PROCESS_WATCH_CRITICAL", Some ("CurrentValue", "0.0"), None)].
Proof. by vm_compute. Qed.
End AlertScenarios.

(** ** [send_test_alert.py], and the answer of the mock server it talks to *)
Module SendTestAlert.
Import AlertScenarios.

Inductive ToolError : Type :=
| Client (e : ClientError)
| Decimal (e : DecimalError)
| UnknownScenario.

Section SendTestAlert.
Context {W Resp : Type} `{!Http W Resp}.
Context (debug_read_only : bool) (_api_url email_app_name : string).

Definition _ALL_SCENARIOS : list string := ["cpu"; "disk"; "process"].

Definition client_call {A} (m : EM A) : SE (W * EmailAlertClient) ToolError A := λ s,
  let '(s', r) := m s in
  (s', match r with Ok a => Ok a | Err e => Err (Client e) end).

Definition send_one (scenario : string) : SE (W * EmailAlertClient) ToolError bool :=
  match build_alert scenario email_app_name with
  | None => se_raise UnknownScenario
  | Some (Err e) => se_raise (Decimal e)
  | Some (Ok req) => client_call (send_alert debug_read_only _api_url req)
  end.

(** [sent_ok] *)
Fixpoint send_all (scenarios : list string) : SE (W * EmailAlertClient) ToolError nat :=
  match scenarios with
  | [] => se_ret 0
  | scenario :: rest =>
      ok <- send_one scenario ;;
      n <- send_all rest ;;
      se_ret ((if (ok : bool) then 1 else 0) + n)
  end.

(** The exit code.  The client is new; it is closed when it has connected, whatever the
    sends raise. *)
Definition _run (scenarios : list string) : SE (W * EmailAlertClient) ToolError nat := λ s,
  if debug_read_only then (s, Ok 1)
  else
    match connect debug_read_only _api_url s with
    | (s1, Err _) => (s1, Ok 1)
    | (s1, Ok _) =>
        let '(s2, r) := send_all scenarios s1 in
        match client_call close s2 with
        | (s3, Err e) => (s3, Err e)
        | (s3, Ok _) =>
            (s3, match r with
                 | Ok n => Ok (if decide (n = length scenarios) then 0 else 1)
                 | Err e => Err e
                 end)
        end
    end.

(** [main]: the option of [argparse] *)
Definition main (scenario : string) : SE (W * EmailAlertClient) ToolError nat :=
  _run (if decide (scenario = "all") then _ALL_SCENARIOS else [scenario]).

Lemma close_disconnects (s : W * EmailAlertClient) : ec_connected (close s).1.2 = false.
Proof.
  unfold close, se_bind, se_gets, se_catch, lift, http. cbn.
  destruct (ec_connected s.2) eqn:E; [|done]. simpl. by destruct (http_aclose s.1) as [w [[]|e]].
Qed.

(** Whatever is sent, and whatever a send raises, the client that connected is closed. *)
Theorem run_closes scenarios s s' r :
  debug_read_only = false → _run scenarios s = (s', r) →
  ec_connected s'.2 = false ∨ ∃ e, connect debug_read_only _api_url s = (s', Err e) ∧ r = Ok 1.
Proof.
  intros Hd. unfold _run. rewrite Hd. destruct (connect _ _ s) as [s1 [[]|e]]; [|naive_solver].
  destruct (send_all scenarios s1) as [s2 q]. unfold client_call.
  pose proof (close_disconnects s2) as Hc. destruct (close s2) as [s3 [[]|e]]; intros [= <- <-]; auto.
Qed.
End SendTestAlert.

(** [email_mock.success_response_body] *)
Definition success_response_body : json :=
  JObj [("result", JStr "Success"); ("message", JStr "")].

(** The answer of the mock server is a success for the client; a refusal in between
    changes the exit code, and in debug mode nothing is sent. *)
Example test_run :
  let run debug answers :=
    main (W := ScriptHttp) debug "http://localhost:18080/EmailNotify" "ARS" "all"
      (mkScript answers 0, mkClient false []) in
  let ok := Ok success_response_body in
  (run false [ok; ok; ok]).2 = Ok 0 ∧
  (run false [ok; Err (TimeoutException "read"); ok]).2 = Ok 1 ∧
  ec_connected (run false [ok; ok; ok]).1.2 = false ∧
  run true [] = ((mkScript [] 0, mkClient false []), Ok 1).
Proof. vm_compute. repeat split. Qed.
End SendTestAlert.
