(* ===== verification/MockServer.v ===== *)
(** * The mock mail server ([src/tools/mock_email_server.py], [src/tools/email_mock.py])

    The HTTP server that stands in for the mail endpoint in development: it prints every
    mail it receives and answers like the real one.  A request is its [Content-Length]
    and the bytes that follow; a handler that raises answers nothing, and the server goes
    on.  The end of the file joins it to the service's own mail client: [http_post] of
    [mock_http] is [do_POST] on the text of the payload. *)
From stdpp Require Import base list strings.
From Stdlib Require Import ZArith Lia Ascii.
From S2P Require Import Prelude PyNum PyStr PyFloat Json JsonText FactCatalog Models Renderer.
From S2P Require Import Threshold Repository Cooldown AlertBuilder EmailClient Tools.
Local Open Scope se_scope.

(** ** [json.dumps(v, indent=4, ensure_ascii=False)] *)

(** Only quotes, backslashes and control characters are escaped. *)
Definition escape_raw (c : ascii) : list ascii :=
  if bool_decide ((code c < 32)%Z ∨ code c = 34%Z ∨ code c = 92%Z) then escape (code c) else [c].

Definition dump_str_raw (s : string) : list ascii :=
  dquote :: mjoin (escape_raw <$> chars s) ++ [dquote].

Definition new_line (level : nat) : list ascii := byte 10 :: replicate (4 * level) " "%char.

(** The elements one below the other, a level deeper. *)
Definition indented (left right : ascii) (level : nat) (l : list (list ascii)) : list ascii :=
  match l with
  | [] => [left; right]
  | _ => left :: new_line (S level) ++ join_chars (","%char :: new_line (S level)) l
         ++ new_line level ++ [right]
  end.

Fixpoint dump_indent (level : nat) (v : json) : list ascii :=
  match v with
  | JStr s => dump_str_raw s
  | JArr l => indented "["%char "]"%char level (map (dump_indent (S level)) l)
  | JObj o =>
      indented "{"%char "}"%char level
        (map (λ kv, dump_str_raw kv.1 ++ chars ": " ++ dump_indent (S level) kv.2) o)
  | _ => dump v
  end.

(** ** [email_mock.py] *)
Definition _HEADER_FIELDS : list string :=
  ["hostname"; "ip"; "app"; "process"; "model"; "line"; "code"; "subcode"].
Definition _MISSING : string := "<none>".

(** [f"{s:<9}"] *)
Definition ljust (n : nat) (s : string) : string :=
  s +:+ of_chars (replicate (n - String.length s) " "%char).

Section Format.
(** [str(x)] of a value that is no string *)
Context (py_str : json → string).

Definition text (x : json) : string := match x with JStr s => s | _ => py_str x end.

Definition rule (c : ascii) : string := of_chars (replicate 60 c).

Definition field_line (o : list (string * json)) (field : string) : string :=
  "  " +:+ ljust 9 field +:+ ": " +:+ text (default (JStr _MISSING) (ODict.get field o)).

Definition variables_lines (o : list (string * json)) : string :=
  match default (JStr _MISSING) (ODict.get "variables" o) with
  | JObj vars => of_chars (dump_indent 0 (JObj vars))
  | v => "    " +:+ text v
  end.

(** [None]: the payload is no dict, and has no [get]. *)
Definition format_received (payload : json) (seq : nat) (ts : string) : option string :=
  match payload with
  | JObj o =>
      Some (join (String (byte 10) "")
        ([rule "="; "📧  메일 수신  #" +:+ str_Z (Z.of_nat seq) +:+ "   " +:+ ts; rule "-"]
         ++ (field_line o <$> _HEADER_FIELDS)
         ++ ["  variables:"; variables_lines o; rule "="]))
  | _ => None
  end.

(** ** [mock_email_server.py] *)

(** What the process keeps: the counter of the class, and what it has printed. *)
Record Mock := mkMock { mk_seq : nat; mk_printed : list string }.

(** An answer with its [Content-Length] and body, or none: the handler raised, and the
    connection is closed. *)
Inductive Reply : Type :=
| Answered (status : Z) (content_length : option Z) (body : string)
| Dropped.

Definition _write_json (status : Z) (body : json) : Reply :=
  let raw := dumps body in Answered status (Some (Z.of_nat (String.length raw))) raw.

Definition do_HEAD : Reply := Answered 200 None "".

(** [self.rfile.read(length)]: all there is for a negative length *)
Definition rfile_read (length : Z) (stream : string) : string :=
  if bool_decide (length < 0)%Z then stream else of_chars (take (Z.to_nat length) (chars stream)).

Definition invalid_json : json := JObj [("result", JStr "Fail"); ("message", JStr "invalid json")].

(** [headers.get("Content-Length", 0)] and the bytes that follow the headers *)
Definition do_POST (content_length : option string) (stream ts : string) (m : Mock) : Mock * Reply :=
  match py_int (default "0" content_length) with
  | None => (m, Dropped)
  | Some length =>
      let raw := if bool_decide (length = 0)%Z then "" else rfile_read length stream in
      if decide (is_utf8 raw) then
        match (if decide (raw = "") then Some (JObj []) else loads raw) with
        | None => (m, _write_json 400 invalid_json)
        | Some payload =>
            let seq := S (mk_seq m) in
            match format_received payload seq ts with
            | None => (mkMock seq (mk_printed m), Dropped)
            | Some printed =>
                (mkMock seq (mk_printed m ++ [printed]),
                 _write_json 200 SendTestAlert.success_response_body)
            end
        end
      else (m, Dropped)
  end.

(** A request of the server: [HEAD], or [POST] with its header, bytes and time. *)
Inductive MockRequest : Type :=
| Head
| Post (content_length : option string) (stream ts : string).

Definition handle (r : MockRequest) (m : Mock) : Mock * Reply :=
  match r with
  | Head => (m, do_HEAD)
  | Post content_length stream ts => do_POST content_length stream ts m
  end.

(** [serve_forever]: one request after the other, whatever a handler raises. *)
Fixpoint serve_forever (rs : list MockRequest) (m : Mock) : Mock * list Reply :=
  match rs with
  | [] => (m, [])
  | r :: rs' =>
      let '(m1, reply) := handle r m in
      let '(m2, replies) := serve_forever rs' m1 in (m2, reply :: replies)
  end.

(** [main], stopped by Ctrl+C after these requests *)
Definition main (host port : string) (rs : list MockRequest) : list string :=
  let url := "http://" +:+ host +:+ ":" +:+ port +:+ "/EmailNotify" in
  let m := (serve_forever rs (mkMock 0 [])).1 in
  ["listening on " +:+ url +:+ "  (Ctrl+C 로 종료)"] ++ mk_printed m
  ++ [String (byte 10) "종료. 총 " +:+ str_Z (Z.of_nat (mk_seq m)) +:+ "건 수신."].
End Format.

(** ** What it counts *)
Definition is_mail (r : MockRequest) : bool :=
  match r with
  | Head => false
  | Post content_length stream _ =>
      match py_int (default "0" content_length) with
      | None => false
      | Some length =>
          let raw := if bool_decide (length = 0)%Z then "" else rfile_read length stream in
          bool_decide (is_utf8 raw) && bool_decide (raw = "" ∨ is_Some (loads raw))
      end
  end.

Lemma handle_counts py_str r m :
  mk_seq (handle py_str r m).1 = mk_seq m + if is_mail r then 1 else 0.
Proof.
  destruct r as [|cl stream ts]; simpl; [lia|]. unfold do_POST.
  destruct (py_int _) as [n|]; [|simpl; lia].
  set (raw := if bool_decide (n = 0)%Z then _ else _).
  destruct (decide (is_utf8 raw)) as [Hu|Hu]; [|rewrite bool_decide_false by done; simpl; lia].
  rewrite (bool_decide_true (is_utf8 raw)) by done. destruct (decide (raw = "")) as [Hr|Hr].
  - rewrite bool_decide_true by auto. simpl. lia.
  - destruct (loads raw) as [v|].
    + rewrite bool_decide_true by eauto. destruct (format_received _ _ _ _); simpl; lia.
    + rewrite bool_decide_false by (by intros [|[]]). simpl. lia.
Qed.

(** The number of the last line is that of the requests whose body is JSON, and every
    request has its reply. *)
Theorem serve_counts py_str rs m :
  let '(m', replies) := serve_forever py_str rs m in
  mk_seq m' = mk_seq m + length (filter (λ r, is_mail r = true) rs) ∧ length replies = length rs.
Proof.
  revert m. induction rs as [|r rs IH]; intros m; simpl; [split; [lia|done]|].
  pose proof (handle_counts py_str r m) as Hh. destruct (handle py_str r m) as [m1 reply]. simpl in Hh.
  specialize (IH m1). destruct (serve_forever py_str rs m1) as [m2 replies]. destruct IH as [IH IHl]. simpl.
  split; [|by rewrite IHl]. rewrite filter_cons. destruct (is_mail r); simpl; lia.
Qed.

(** ** The service's mail client against the mock server *)
Record MockNet := mkMockNet { mn_mock : Mock; mn_ts : string; mn_time : Z }.

Definition member_json (m : Member) : json :=
  match m with MStr s => JStr s | MObj o => JObj ((λ kv, (kv.1, JStr kv.2)) <$> o) end.
Definition payload_json (payload : list (string * Member)) : json :=
  JObj ((λ kv, (kv.1, member_json kv.2)) <$> payload).

Section MockHttp.
(** the text [httpx] sends for a JSON value *)
Context (encode : json → string) (py_str : json → string).

Definition received (reply : Reply) : res SendExc (Z * string) :=
  match reply with
  | Answered status _ body => Ok (status, body)
  | Dropped => Err (HttpxOther "Server disconnected without sending a response.")
  end.

#[local] Instance mock_http : Http MockNet (Z * string) := {
  http_post url payload w :=
    let raw := encode (payload_json payload) in
    let '(m, reply) :=
      do_POST py_str (Some (str_Z (Z.of_nat (length (chars raw))))) raw (mn_ts w) (mn_mock w) in
    (mkMockNet m (mn_ts w) (mn_time w), received reply);
  http_head url w := (w, received do_HEAD);
  http_aclose w := (w, Ok tt);
  raise_for_status resp :=
    if bool_decide (200 ≤ resp.1 < 300)%Z then Ok tt else Err (HTTPStatusError resp.1 resp.2);
  resp_json resp :=
    match loads resp.2 with Some v => Ok v | None => Err (InvalidResponse resp.2) end;
  time_now := mn_time;
  json_text := text py_str;
}.

(** What the server reads is what the client sent, for a text that [loads] reads back. *)
Lemma mock_reads v ts m :
  is_utf8 (encode v) → loads (encode v) = Some v → encode v ≠ "" →
  do_POST py_str (Some (str_Z (Z.of_nat (length (chars (encode v)))))) (encode v) ts m =
  match format_received py_str v (S (mk_seq m)) ts with
  | Some printed => (mkMock (S (mk_seq m)) (mk_printed m ++ [printed]),
                     _write_json 200 SendTestAlert.success_response_body)
  | None => (mkMock (S (mk_seq m)) (mk_printed m), Dropped)
  end.
Proof.
  intros Hu Hl Hne. unfold do_POST. cbn [from_option id]. rewrite py_int_str_Z by lia.
  assert (length (chars (encode v)) ≠ 0) as Hlen.
  { intros H0%nil_length_inv. apply Hne. rewrite <-(of_chars_chars (encode v)). by rewrite H0. }
  rewrite bool_decide_false by lia.
  assert (rfile_read (Z.of_nat (length (chars (encode v)))) (encode v) = encode v) as ->.
  { unfold rfile_read. rewrite bool_decide_false by lia.
    rewrite Nat2Z.id, take_ge by done. apply of_chars_chars. }
  rewrite decide_True, decide_False, Hl by done. done.
Qed.

(** A connected client gets every mail through to the mock server, which prints it: the
    send is answered with success, nothing goes to the outbox, and what is printed is
    the payload of the request. *)
Theorem mock_takes_mail url request (w : MockNet) (c : EmailAlertClient) :
  (∀ v, readable v → is_utf8 (encode v) ∧ loads (encode v) = Some v ∧ encode v ≠ "") →
  readable (payload_json (to_payload request)) → ec_connected c = true →
  ∃ printed,
    format_received py_str (payload_json (to_payload request)) (S (mk_seq (mn_mock w))) (mn_ts w)
      = Some printed ∧
    send_alert false url request (w, c) =
      ((mkMockNet (mkMock (S (mk_seq (mn_mock w))) (mk_printed (mn_mock w) ++ [printed]))
          (mn_ts w) (mn_time w), c), Ok true).
Proof.
  intros Henc Hr Hc. destruct (Henc _ Hr) as (Hu & Hl & Hne). eexists. split; [reflexivity|].
  unfold send_alert, se_bind at 1, se_gets. cbn [snd]. rewrite Hc. cbn [negb].
  unfold post_and_read, http, se_bind, se_catch, lift, EmailClient.of_res. cbn [fst snd].
  cbn [http_post mock_http]. rewrite (mock_reads _ _ _ Hu Hl Hne). reflexivity.
Qed.

(** The health check of [connect] passes. *)
Lemma mock_connects url (s : MockNet * EmailAlertClient) :
  connect false url s = ((s.1, mkClient true (ec_outbox s.2)), Ok tt).
Proof. by destruct s. Qed.
End MockHttp.

(** The text of the standard library is one that is read back. *)
Lemma dumps_encodes v : readable v → is_utf8 (dumps v) ∧ loads (dumps v) = Some v ∧ dumps v ≠ "".
Proof.
  intros Hv. split_and!; [by apply dumps_utf8|by apply loads_dumps|]. intros E.
  pose proof (loads_dumps v Hv) as Hl. rewrite E in Hl. by vm_compute in Hl.
Qed.

(** [send_test_alert.py --scenario all] against the mock server: three mails, exit code 0. *)
Example demo_run :
  let _ := mock_http dumps (λ _, "") in
  let '((w, c), r) := SendTestAlert.main false "http://localhost:18080/EmailNotify" "ARS" "all"
    (mkMockNet (mkMock 0 []) "2026-06-15 10:00:00" 0, mkClient false []) in
  r = Ok 0 ∧ mk_seq (mn_mock w) = 3 ∧ length (mk_printed (mn_mock w)) = 3 ∧ ec_outbox c = [].
Proof. vm_compute. repeat split. Qed.

Definition lf : string := String (byte 10) "".
Example format_example :
  format_received (λ _, "None")
    (JObj [("hostname", JStr "E1"); ("ip", JNull);
           ("variables", JObj [("Value", JStr "97"); ("Eqps", JArr [JStr "E1"])])]) 2 "10:00:00"
  = Some (join lf
      ["============================================================";
       "📧  메일 수신  #2   10:00:00";
       "------------------------------------------------------------";
       "  hostname : E1"; "  ip       : None"; "  app      : <none>"; "  process  : <none>";
       "  model    : <none>"; "  line     : <none>"; "  code     : <none>"; "  subcode  : <none>";
       "  variables:"; "{"; "    " +:+ dq +:+ "Value" +:+ dq +:+ ": " +:+ dq +:+ "97" +:+ dq +:+ ",";
       "    " +:+ dq +:+ "Eqps" +:+ dq +:+ ": ["; "        " +:+ dq +:+ "E1" +:+ dq; "    ]"; "}";
       "============================================================"]).
Proof. vm_compute. reflexivity. Qed.

(** A body that is no JSON is refused and not counted; bytes that do not decode, and JSON
    that is no object, are not answered, the last one is counted all the same. *)
Example mock_refuses :
  let post s := do_POST (λ _, "") (Some (str_Z (Z.of_nat (length (chars s))))) s "t" (mkMock 7 []) in
  post "{" = (mkMock 7 [], _write_json 400 invalid_json)
  ∧ post (String (byte 255) "") = (mkMock 7 [], Dropped)
  ∧ post "[1]" = (mkMock 8 [], Dropped)
  ∧ mk_seq (do_POST (λ _, "") None "ignored" "t" (mkMock 7 [])).1 = 8
  ∧ do_POST (λ _, "") (Some "x") "{}" "t" (mkMock 7 []) = (mkMock 7 [], Dropped).
Proof. vm_compute. repeat split. Qed.
