(* ===== verification/Middleware.v ===== *)
(** * Requests: the request id, and errors nobody handled ([src/middleware.py],
    [src/main.py])

    [RequestIdMiddleware] tags what is logged during a request with an id, in the context
    variables of structlog, and the response with the same id.  The application behind it
    ([call_next]) runs in a task of its own with a copy of the context, so it is a function
    of the context that it starts in; it may raise.  Starlette calls the handler of
    [Exception] in its outermost layer, that is after the middleware has ended. *)
From stdpp Require Import base list strings gmap.
From S2P Require Import Prelude PyStr Json.
Local Open Scope se_scope.

(** structlog's context variables, and the fields of an event *)
Notation Context := (gmap string string).

Definition bind_contextvars (k v : string) (c : Context) : Context := <[k := v]> c.
Definition unbind_contextvars (k : string) (c : Context) : Context := delete k c.

(** [merge_contextvars]: the event's own fields win. *)
Definition merge_contextvars (c fields : Context) : Context := fields ∪ c.

(** [rq_request_id]: the header [X-Request-ID] *)
Record Request := mkRequest { rq_path : string; rq_request_id : option string }.

Record Response := mkResponse
  { rs_status : nat; rs_headers : list (string * string); rs_body : json }.

Definition SKIP_PATHS : list string := ["/healthz/live"; "/healthz/ready"; "/metrics"].

Section Middleware.
(** [E] is what the application raises. *)
Context {W E : Type}.
Context (uuid4 : W → W * string).
Context (call_next : Context → Request → SE W E Response).

(** The outside world, and the context of the task *)
Definition St : Type := W * Context.

Definition forward (request : Request) : SE St E Response := λ s,
  let '(w, r) := call_next s.2 request s.1 in ((w, s.2), r).

(** [request.headers.get("X-Request-ID") or str(uuid4())] *)
Definition request_id_of (request : Request) : SE St E string := λ s,
  match rq_request_id request with
  | Some (String _ _ as i) => (s, Ok i)
  | _ => let '(w, i) := uuid4 s.1 in ((w, s.2), Ok i)
  end.

Definition dispatch (request : Request) : SE St E Response :=
  if decide (rq_path request ∈ SKIP_PATHS) then forward request
  else
    request_id <- request_id_of request ;;
    se_modify (λ s, (s.1, bind_contextvars "request_id" request_id s.2)) ;;;
    response <- (λ s, let '(s', r) := forward request s in
                      ((s'.1, unbind_contextvars "request_id" s'.2), r)) ;;
    se_ret (mkResponse (rs_status response)
      (ODict.set "X-Request-ID" request_id (rs_headers response)) (rs_body response)).

(** ** [main.unhandled_exception_handler] *)
Definition unhandled_exception_handler (error : E → string) (request : Request) (exc : E)
    (c : Context) : Context * Response :=
  (merge_contextvars c
     (list_to_map [("event", "unhandled_exception"); ("path", rq_path request);
                   ("error", error exc)]),
   mkResponse 500 [] (JObj [("error", JStr "internal_server_error")])).
End Middleware.

(** ** Properties *)
Section MiddlewareProperties.
Context {W E : Type} (uuid4 : W → W * string).
Context (call_next : Context → Request → SE W E Response).

Notation run := (dispatch uuid4 call_next).

(** The id of a request that is not a probe: the header when it is not empty, else a new
    one. *)
Definition id_of (request : Request) (w : W) : W * string :=
  match rq_request_id request with
  | Some (String _ _ as i) => (w, i)
  | _ => uuid4 w
  end.

Lemma dispatch_eq request (w : W) (c : Context) :
  rq_path request ∉ SKIP_PATHS →
  run request (w, c) =
  let '(w1, i) := id_of request w in
  let '(w2, r) := call_next (<["request_id" := i]> c) request w1 in
  ((w2, delete "request_id" c),
   match r with
   | Ok b => Ok (mkResponse (rs_status b) (ODict.set "X-Request-ID" i (rs_headers b)) (rs_body b))
   | Err e => Err e
   end).
Proof.
  intros Hp. unfold dispatch, se_bind, request_id_of, id_of, forward, se_modify,
    bind_contextvars, unbind_contextvars. rewrite decide_False by done. cbn [fst snd].
  destruct (rq_request_id request) as [[|x s]|]; [destruct (uuid4 w)| |destruct (uuid4 w)]; simpl;
    destruct (call_next _ request _) as [w2 [b|e]]; simpl; by rewrite delete_insert_eq.
Qed.

(** A request to a probe path is passed through.  Any other is run in a context with its
    id, the header when it is not empty, else a new one, and the response carries that id;
    what the application raises is raised.  In both cases the context is afterwards what
    it was before the request, without an id. *)
Theorem request_id_scoped request (w : W) (c : Context) :
  let '((w', c'), r) := run request (w, c) in
  if decide (rq_path request ∈ SKIP_PATHS) then c' = c ∧ call_next c request w = (w', r)
  else
    c' = delete "request_id" c ∧
    let '(w1, i) := id_of request w in
    match call_next (<["request_id" := i]> c) request w1, r with
    | (w2, Ok b), Ok a =>
        w' = w2 ∧ ODict.get "X-Request-ID" (rs_headers a) = Some i ∧
        (∀ k, k ≠ "X-Request-ID" → ODict.get k (rs_headers a) = ODict.get k (rs_headers b)) ∧
        rs_status a = rs_status b ∧ rs_body a = rs_body b
    | (w2, Err e), Err e' => w' = w2 ∧ e = e'
    | _, _ => False
    end.
Proof.
  destruct (decide (rq_path request ∈ SKIP_PATHS)) as [Hp|Hp].
  - unfold dispatch, forward. rewrite decide_True by done. cbn. by destruct (call_next c request w).
  - rewrite dispatch_eq by done. destruct (id_of request w) as [w1 i].
    destruct (call_next _ request w1) as [w2 [b|e]]; [|done]. split_and!; try done; cbn.
    + apply ODict.get_set_eq.
    + intros k Hk. by apply ODict.get_set_ne.
Qed.

(** An error that nobody handled is logged in the context the middleware leaves: without
    the id of its request, and its response carries none. *)
Theorem unhandled_error_untagged error request (w w' : W) (c c' : Context) e :
  rq_path request ∉ SKIP_PATHS →
  run request (w, c) = ((w', c'), Err e) →
  let '(event, response) := unhandled_exception_handler error request e c' in
  event !! "request_id" = None ∧ ODict.get "X-Request-ID" (rs_headers response) = None ∧
  rs_status response = 500.
Proof.
  intros Hp Hr. rewrite dispatch_eq in Hr by done. destruct (id_of request w) as [w1 i].
  destruct (call_next _ request w1) as [w2 r]. injection Hr as _ <- _. cbn.
  split_and!; [|done|done]. by rewrite lookup_union_None, lookup_delete_eq.
Qed.
End MiddlewareProperties.

(** Two requests, one with its own id and one that fails; the application answers what it
    sees of the context. *)
Example requests_example :
  let app (c : Context) (rq : Request) (n : nat) : nat * res string Response :=
    (n, if decide (rq_path rq = "/boom") then Err "boom"
        else Ok (mkResponse 200 [] (JStr (default "none" (c !! "request_id"))))) in
  let run rq := dispatch (λ n, (S n, "uuid" +:+ str_Z (Z.of_nat n))) app rq (0, ∅) in
  run (mkRequest "/profiles" (Some "abc"))
    = ((0, ∅), Ok (mkResponse 200 [("X-Request-ID", "abc")] (JStr "abc"))) ∧
  run (mkRequest "/profiles" (Some ""))
    = ((1, ∅), Ok (mkResponse 200 [("X-Request-ID", "uuid0")] (JStr "uuid0"))) ∧
  run (mkRequest "/metrics" (Some "abc")) = ((0, ∅), Ok (mkResponse 200 [] (JStr "none"))) ∧
  run (mkRequest "/boom" None) = ((1, ∅), Err "boom").
Proof. vm_compute. repeat split. Qed.
