(* ===== verification/Logging.v ===== *)
(** * Logging ([src/logging_config.py])

    The loggers of the [logging] module: a dotted name, handlers, and whether events are
    passed on to the parent.  A logger that was never touched has no handlers and passes
    on.  [setup_logging_minimal] serves until the settings are loaded, [setup_logging]
    routes everything into one handler on standard output; of structlog only the choice of
    the renderer is kept. *)
From stdpp Require Import base list strings gmap.
From Stdlib Require Import Lia Ascii.
From S2P Require Import Prelude PyStr.
Local Open Scope se_scope.

Inductive Stream : Set := stdout | stderr.
Inductive Format : Set := Minimal | JSONRenderer | ConsoleRenderer.

#[export] Instance Stream_eq_dec : EqDecision Stream.
Proof. solve_decision. Defined.
#[export] Instance Format_eq_dec : EqDecision Format.
Proof. solve_decision. Defined.

(** [h_id] is the identity of the object. *)
Record Handler := mkHandler { h_id : nat; h_stream : Stream; h_format : Format }.
#[export] Instance Handler_eq_dec : EqDecision Handler.
Proof. solve_decision. Defined.

Record Logger := mkLogger { lg_handlers : list Handler; lg_propagate : bool }.

(** The root logger's handlers and level, the other loggers, and how many handlers have
    been made. *)
Record Logging := mkLogging
  { root_handlers : list Handler; root_level : string; loggers : gmap string Logger;
    handlers_made : nat }.

Inductive LevelError : Set := UnknownLevel.

Definition LG (A : Type) : Type := SE Logging LevelError A.

Definition getLogger (n : string) (s : Logging) : Logger :=
  default (mkLogger [] true) (loggers s !! n).

(** ** The [logging] module *)

(** [StreamHandler(stream)] with its formatter *)
Definition new_handler (stream : Stream) (format : Format) : LG Handler := λ s,
  (mkLogging (root_handlers s) (root_level s) (loggers s) (S (handlers_made s)),
   Ok (mkHandler (handlers_made s) stream format)).

Definition set_root_handlers (l : list Handler) : LG unit := se_modify (λ s,
  mkLogging l (root_level s) (loggers s) (handlers_made s)).

Definition set_logger (n : string) (l : Logger) : LG unit := se_modify (λ s,
  mkLogging (root_handlers s) (root_level s) (<[n := l]> (loggers s)) (handlers_made s)).

(** [h in l] decides: a handler is not added twice. *)
Definition addHandler (h : Handler) (l : list Handler) : list Handler :=
  if decide (h ∈ l) then l else l ++ [h].

(** [for h in list(x.handlers): x.removeHandler(h)] *)
Definition remove_all (l : list Handler) : list Handler :=
  foldl (λ acc h, filter (λ h', h' ≠ h) acc) l l.

Definition level_names : list string :=
  ["CRITICAL"; "FATAL"; "ERROR"; "WARN"; "WARNING"; "INFO"; "DEBUG"; "NOTSET"].

Definition setLevel (level : string) : LG unit :=
  if decide (level ∈ level_names) then
    se_modify (λ s, mkLogging (root_handlers s) level (loggers s) (handlers_made s))
  else se_raise UnknownLevel.

(** The parents of a logger, nearest first, without the root; fuel is the length. *)
Fixpoint parents_fuel (fuel : nat) (n : string) : list string :=
  match fuel with
  | 0 => []
  | S fuel =>
      match rpartition "." n with
      | Some (p, _) => p :: parents_fuel fuel p
      | None => []
      end
  end.
Definition parents (n : string) : list string := parents_fuel (byte_len n) n.

(** [Logger.callHandlers]: which handlers an event of the first logger reaches. *)
Fixpoint callHandlers (s : Logging) (chain : list string) : list Handler :=
  match chain with
  | [] => root_handlers s
  | n :: rest =>
      lg_handlers (getLogger n s)
      ++ if lg_propagate (getLogger n s) then callHandlers s rest else []
  end.

Definition emit (s : Logging) (n : string) : list Handler := callHandlers s (n :: parents n).

(** ** [logging_config.py] *)
Definition _UVICORN_LOGGERS : list string := ["uvicorn"; "uvicorn.access"; "uvicorn.error"].
Definition _THIRD_PARTY_LOGGERS : list string :=
  ["kazoo"; "apscheduler"; "httpx"; "httpcore"; "elasticsearch"].

(** [root]'s handlers are replaced by a new one. *)
Definition replace_root (stream : Stream) (format : Format) : LG Handler :=
  handler <- new_handler stream format ;;
  old <- se_gets root_handlers ;;
  set_root_handlers (addHandler handler (remove_all old)) ;;;
  se_ret handler.

Definition setup_logging_minimal : LG unit :=
  replace_root stderr Minimal ;;; setLevel "INFO".

Definition route (handler : Handler) (n : string) : LG unit :=
  lg <- se_gets (getLogger n) ;;
  set_logger n (mkLogger (addHandler handler (remove_all (lg_handlers lg))) false).

Fixpoint route_all (handler : Handler) (names : list string) : LG unit :=
  match names with
  | [] => se_ret tt
  | n :: rest => route handler n ;;; route_all handler rest
  end.

Definition setup_logging (log_level log_format : string) : LG unit :=
  handler <- replace_root stdout
    (if decide (log_format = "json") then JSONRenderer else ConsoleRenderer) ;;
  setLevel (upper log_level) ;;;
  route_all handler (_UVICORN_LOGGERS ++ _THIRD_PARTY_LOGGERS).

(** ** Properties *)
Lemma remove_all_nil l : remove_all l = [].
Proof.
  unfold remove_all.
  assert (∀ k acc : list Handler, (∀ h, h ∈ acc → h ∈ k) →
    foldl (λ acc h, filter (λ h', h' ≠ h) acc) acc k = []) as H; [|by apply H].
  induction k as [|h k IH]; intros acc Hin; simpl.
  - destruct acc as [|a acc]; [done|]. by destruct (not_elem_of_nil a (Hin a (list_elem_of_here _ _))).
  - apply IH. intros h' [Hne Hh']%list_elem_of_filter. apply Hin in Hh'. set_solver.
Qed.

Lemma replace_root_eq stream format s :
  let h := mkHandler (handlers_made s) stream format in
  replace_root stream format s =
  (mkLogging [h] (root_level s) (loggers s) (S (handlers_made s)), Ok h).
Proof. unfold replace_root, se_bind, new_handler, se_gets. simpl. by rewrite remove_all_nil. Qed.

Lemma route_all_eq h names s :
  route_all h names s =
  (mkLogging (root_handlers s) (root_level s)
     (foldl (λ m n, <[n := mkLogger [h] false]> m) (loggers s) names) (handlers_made s), Ok tt).
Proof.
  revert s. induction names as [|n names IH]; intros s; simpl; [by destruct s|].
  unfold se_bind, route, se_gets, set_logger, se_modify. simpl. rewrite remove_all_nil.
  unfold se_bind. simpl. by rewrite IH.
Qed.

Lemma lookup_routed h names (m : gmap string Logger) n :
  foldl (λ m n, <[n := mkLogger [h] false]> m) m names !! n =
  if decide (n ∈ names) then Some (mkLogger [h] false) else m !! n.
Proof.
  revert m. induction names as [|x names IH]; intros m; simpl; [done|]. rewrite IH.
  destruct (decide (n = x)) as [->|Hne].
  - rewrite lookup_insert_eq, (decide_True (P := x ∈ x :: names)) by left. by case_decide.
  - rewrite lookup_insert_ne by done. repeat case_decide; set_solver.
Qed.

(** After [setup_logging], whatever was set up before, also when it was this function,
    every event reaches one handler once, on standard output: that of any logger that,
    like its parents, has no handlers of its own and passes its events on, unless it is
    one of the routed ones.  An unknown level raises before the loggers are routed. *)
Theorem every_event_once log_level log_format s s' r :
  setup_logging log_level log_format s = (s', r) →
  let h := mkHandler (handlers_made s) stdout
    (if decide (log_format = "json") then JSONRenderer else ConsoleRenderer) in
  if decide (upper log_level ∈ level_names) then
    r = Ok tt ∧ root_level s' = upper log_level ∧
    ∀ n, (∀ x, x ∈ n :: parents n → x ∉ _UVICORN_LOGGERS ++ _THIRD_PARTY_LOGGERS →
            getLogger x s = mkLogger [] true) →
         emit s' n = [h]
  else r = Err UnknownLevel ∧ root_handlers s' = [h] ∧ loggers s' = loggers s.
Proof.
  unfold setup_logging, se_bind at 1. rewrite replace_root_eq. unfold setLevel.
  case_decide; [|by intros [= <- <-]]. unfold se_bind, se_modify. rewrite route_all_eq.
  intros [<- <-]%pair_eq. split_and!; [done..|]. intros n. unfold emit.
  generalize (n :: parents n) as chain. clear n. intros chain.
  induction chain as [|n chain IH]; intros Hn; [done|]. cbn [callHandlers].
  unfold getLogger at 1 2. cbn [loggers].
  rewrite lookup_routed. destruct (decide (n ∈ _)) as [|Hin]; [done|].
  pose proof (Hn n (list_elem_of_here _ _) Hin) as Hd. unfold getLogger in Hd. rewrite Hd. cbn.
  apply IH. intros x Hx. apply Hn. by right.
Qed.

(** Before, while the settings are loaded, and after; a library that sets up a handler
    itself is heard twice. *)
Example logging_example :
  let s0 := mkLogging [mkHandler 0 stderr ConsoleRenderer] "WARNING"
              {["uvicorn" := mkLogger [mkHandler 1 stderr ConsoleRenderer] true;
                "motor" := mkLogger [mkHandler 2 stderr ConsoleRenderer] true]} 3 in
  let s1 := (setup_logging_minimal s0).1 in
  let s2 := (setup_logging "info" "json" s1).1 in
  emit s1 "src.main" = [mkHandler 3 stderr Minimal] ∧
  emit s2 "src.main" = [mkHandler 4 stdout JSONRenderer] ∧
  emit s2 "uvicorn.access" = [mkHandler 4 stdout JSONRenderer] ∧
  emit s2 "kazoo.client" = [mkHandler 4 stdout JSONRenderer] ∧
  emit s2 "motor" = [mkHandler 2 stderr ConsoleRenderer; mkHandler 4 stdout JSONRenderer] ∧
  (setup_logging "verbose" "json" s1).2 = Err UnknownLevel.
Proof. vm_compute. repeat split. Qed.
