(* ===== verification/Config.v ===== *)
(** * The settings and what each component reads of them ([src/config/settings.py])

    The values are those after pydantic-settings has read the environment; the defaults
    are the code's.  A secret is the string that [get_secret_value] gives.  The components
    of this development take the few settings they read as their own arguments; the
    functions here say which. *)
From stdpp Require Import base list strings.
From Stdlib Require Import ZArith Lia.
From S2P Require Import Prelude PyNum PyStr Json Settings AlertBuilder Scheduler Clients.

Module AppSettings.
Record AppSettings := mkAppSettings
  { es_hosts : list string; es_username : string; es_password : string; es_use_ssl : bool;
    es_request_timeout : Z; es_max_retries : Z; es_keyword_suffix : string;
    mongo_uri : string; mongo_db : string;
    zk_hosts : string; zk_root_path : string; zk_session_timeout : Z;
    zk_sasl_mechanism : string; zk_sasl_username : string; zk_sasl_password : string;
    zk_startup_budget_sec : Z;
    redis_url : string; redis_password : string; redis_key_prefix : string;
    redis_sentinels : list string; redis_sentinel_master : string;
    redis_sentinel_password : string; redis_db : Z;
    email_api_url : string; email_api_timeout : Z; email_app_name : string;
    grafana_base_url : string; grafana_dashboard_uid : string;
    rms_custom_body_enabled : bool; rms_erb_row_limit : Z; rms_body_byte_cap : Z;
    scheduler_misfire_grace_time : Z; scheduler_reconcile_interval_sec : num;
    instance_id : string; local_tz : string; log_level : string; log_format : string;
    debug_read_only : bool; debug_processes : list string }.

Definition default_settings : AppSettings :=
  {| es_hosts := ["http://es-cluster:9200"]; es_username := ""; es_password := "";
     es_use_ssl := false; es_request_timeout := 30; es_max_retries := 3;
     es_keyword_suffix := ".keyword";
     mongo_uri := "mongodb://localhost:27017"; mongo_db := "EARS";
     zk_hosts := "zk1:2181,zk2:2181,zk3:2181"; zk_root_path := "/resource-monitor";
     zk_session_timeout := 30; zk_sasl_mechanism := ""; zk_sasl_username := "";
     zk_sasl_password := ""; zk_startup_budget_sec := 45;
     redis_url := "redis://redis:6379/5"; redis_password := "";
     redis_key_prefix := "RESOURCE_ALERT"; redis_sentinels := [];
     redis_sentinel_master := "mymaster"; redis_sentinel_password := ""; redis_db := 0;
     email_api_url := "http://httpwebserver:8080/EmailNotify"; email_api_timeout := 10;
     email_app_name := "ARS";
     grafana_base_url := "http://grafana:3000"; grafana_dashboard_uid := "";
     rms_custom_body_enabled := true; rms_erb_row_limit := 50; rms_body_byte_cap := 256000;
     scheduler_misfire_grace_time := 60; scheduler_reconcile_interval_sec := num_of_Z 60;
     instance_id := ""; local_tz := "Asia/Seoul"; log_level := "INFO"; log_format := "json";
     debug_read_only := false; debug_processes := [] |}.
End AppSettings.
Import AppSettings.

(** ** What the components read *)

(** Of the mails.  The limits are those of the renderer, whose slices take them as
    lengths. *)
Definition alert_settings (s : AppSettings) : AlertSettings :=
  mkAlertSettings (email_app_name s) (grafana_base_url s) (grafana_dashboard_uid s)
    (rms_custom_body_enabled s) (Z.to_nat (rms_erb_row_limit s)) (Z.to_nat (rms_body_byte_cap s)).

Definition redis_settings (s : AppSettings) : Redis.Settings :=
  Redis.mkSettings (redis_url s) (redis_password s) (redis_sentinels s)
    (redis_sentinel_master s) (redis_sentinel_password s) (redis_db s).

(** With the defaults a mail has no link to a dashboard, Redis is one server and needs no
    password, and the list settings are what their validator leaves alone. *)
Example defaults_read :
  grafana_dashboard_uid default_settings = "" ∧
  AlertBuilder.rms_erb_row_limit (alert_settings default_settings) = 50 ∧
  Redis.redis_sentinels (redis_settings default_settings) = [] ∧
  parse_string_list (JArr (JStr <$> es_hosts default_settings))
    = Ok (JArr (JStr <$> es_hosts default_settings)).
Proof. vm_compute. repeat split. Qed.

(** The bounds that the comments of the declarations state: the session time is one
    ZooKeeper 3.5 accepts, and the time given to a start ends before the first liveness
    probe, 60 seconds after the container starts. *)
Example defaults_bounds :
  (4 ≤ zk_session_timeout default_settings ≤ 40 ∧
   zk_startup_budget_sec default_settings < 60)%Z.
Proof. vm_compute. repeat split; discriminate. Qed.
